(** * img-converter: the built-in codecs and the pixel buffer model

    A shallow embedding of [src/lib/checked_arith.h] and of the QOI, BMP,
    pixel-buffer and format-detection functions of [src/img-converter.c].

    Conventions.
    - C integers are [Z]; every conversion to an unsigned type is written
      out as a reduction modulo its range.  [int] is 32 bits wide.
    - A [uint8_t] array is a [list Z]; it is read with [!!] and written
      with [<[ _ := _ ]>] at [Z.to_nat] of the C index.
    - A C function returning [bool] returns a [result]: [Ok] for [true],
      [Fail] for [false], and [Undef] where the C program leaves defined
      behaviour (access outside an array, signed overflow).
    - The filesystem is not modelled: a file opened for reading is the list
      of its bytes, a writer returns the bytes it hands to [WRITE_FILE];
      [fopen] and the writes themselves are taken to succeed. *)

From stdpp Require Import base numbers list.
From Stdlib Require Strings.String Strings.Ascii.

Open Scope Z_scope.

(** ** Integer ranges *)

Definition INT_MAX : Z := 2147483647.
Definition INT32_MIN : Z := -2147483648.
Definition UINT32_MAX : Z := 4294967295.

Definition is_byte (b : Z) : Prop := 0 <= b < 256.

(** [(uint8_t)x] *)
Definition to_uint8 (x : Z) : Z := x mod 256.

(** [(uint32_t)x] *)
Definition to_uint32 (x : Z) : Z := x mod 4294967296.

(** ** Results of the C functions *)

Inductive result (A : Type) : Type :=
| Ok (a : A)
| Fail
| Undef.

Arguments Ok {A} a.
Arguments Fail {A}.
Arguments Undef {A}.

Definition bind {A B : Type} (m : result A) (k : A -> result B) : result B :=
  match m with
  | Ok a => k a
  | Fail => Fail
  | Undef => Undef
  end.

Notation "'do' x <- m ; k" := (bind m (fun x => k))
  (at level 10, x name, m at level 100, k at level 200, only parsing).
Notation "'do' ' p <- m ; k" := (bind m (fun x => match x with p => k end))
  (at level 10, p pattern, m at level 100, k at level 200, only parsing).

(** An array read: outside the array the behaviour is undefined. *)
Definition load (buf : list Z) (i : Z) : result Z :=
  if i <? 0 then Undef
  else match buf !! Z.to_nat i with
       | Some v => Ok v
       | None => Undef
       end.

(** An array write of one byte. *)
Definition store (buf : list Z) (i : Z) (v : Z) : result (list Z) :=
  if (0 <=? i) && (i <? Z.of_nat (length buf))
  then Ok (<[Z.to_nat i := v]> buf)
  else Undef.

(** [memcpy(buf + pos, src, |src|)] into the array [buf]. *)
Definition memcpy_to (buf : list Z) (pos : Z) (src : list Z) : result (list Z) :=
  if (0 <=? pos) && (pos + Z.of_nat (length src) <=? Z.of_nat (length buf))
  then Ok (list_inserts (Z.to_nat pos) src buf)
  else Undef.

(** [int] arithmetic: a result outside the range of [int] is undefined. *)
Definition int_op (v : Z) : result Z :=
  if (INT32_MIN <=? v) && (v <=? INT_MAX) then Ok v else Undef.

(** ** The heap

    [malloc] may refuse any request; the memory it returns holds
    indeterminate bytes, [calloc] returns zeroed memory. *)

Record heap : Type := {
  can_alloc : Z -> bool;
  junk : nat -> Z
}.

Definition malloc (h : heap) (n : Z) : option (list Z) :=
  if can_alloc h n then Some (junk h <$> seq 0 (Z.to_nat n)) else None.

Definition calloc (h : heap) (n : Z) : option (list Z) :=
  if can_alloc h n then Some (replicate (Z.to_nat n) 0) else None.

Definition alloc_or_fail (o : option (list Z)) : result (list Z) :=
  match o with
  | Some buf => Ok buf
  | None => Fail
  end.

(** ** Byte streams

    Modelled from the spec: the macros [READ_FILE], [GETC_FILE] and
    [WRITE_FILE] of [lib/stdio_helpers.h] are not part of the sources; they
    are taken to be [fread], [getc] and [fwrite] on the byte stream the
    caller obtained from the file (spec, section 2). *)

(** [read_bytes(f, buf, len)]: all [len] bytes or failure. *)
Definition read_bytes (f : list Z) (len : Z) : option (list Z * list Z) :=
  if Z.of_nat (length f) <? len then None
  else Some (take (Z.to_nat len) f, drop (Z.to_nat len) f).

(** ** struct image *)

Record image : Type := {
  pixels : list Z;
  width : Z;
  height : Z;
  channels : Z
}.

(** ** QOI: constants and helpers *)

Definition QOI_OP_INDEX : Z := 0x00.
Definition QOI_OP_DIFF : Z := 0x40.
Definition QOI_OP_LUMA : Z := 0x80.
Definition QOI_OP_RUN : Z := 0xc0.
Definition QOI_OP_RGB : Z := 0xfe.
Definition QOI_OP_RGBA : Z := 0xff.
Definition QOI_MASK_2 : Z := 0xc0.
Definition QOI_MAGIC : Z := 0x716f6966.
Definition QOI_HEADER_SIZE : Z := 14.
Definition QOI_END_MARKER_SIZE : Z := 8.

(** [p[k]] for an array that was filled by a successful [read_bytes]. *)
Definition byte_at (p : list Z) (k : nat) : Z := default 0 (p !! k).

Definition qoi_read32be (p : list Z) : Z :=
  Z.lor (Z.lor (Z.lor (Z.shiftl (byte_at p 0) 24) (Z.shiftl (byte_at p 1) 16))
               (Z.shiftl (byte_at p 2) 8))
        (byte_at p 3).

Definition qoi_write32be (v : Z) : list Z :=
  [ Z.land (Z.shiftr v 24) 0xff;
    Z.land (Z.shiftr v 16) 0xff;
    Z.land (Z.shiftr v 8) 0xff;
    Z.land v 0xff ].

(** [uint8_t px[4]] *)
Record pixel : Type := Px { px_r : Z; px_g : Z; px_b : Z; px_a : Z }.

#[global] Instance pixel_eq_dec : EqDecision pixel.
Proof. solve_decision. Defined.

Definition qoi_hash (px : pixel) : Z :=
  (px_r px * 3 + px_g px * 5 + px_b px * 7 + px_a px * 11) mod 64.

(** [memcmp(p, q, 4) == 0] *)
Definition px_eqb (p q : pixel) : bool :=
  (px_r p =? px_r q) && (px_g p =? px_g q) &&
  (px_b p =? px_b q) && (px_a p =? px_a q).

(** The first [channels] bytes of [px], as [memcpy] copies them. *)
Definition px_bytes (channels : Z) (px : pixel) : list Z :=
  take (Z.to_nat channels) [px_r px; px_g px; px_b px; px_a px].

(** [uint8_t index[64][4] = {0}] *)
Definition qoi_index_init : list pixel := replicate 64 (Px 0 0 0 0).

Definition qoi_px_init : pixel := Px 0 0 0 255.

(** [index[i]]; [i] is a 6-bit value wherever the codec uses it. *)
Definition index_get (index : list pixel) (i : Z) : pixel :=
  default (Px 0 0 0 0) (index !! Z.to_nat i).

Definition index_set (index : list pixel) (i : Z) (px : pixel) : list pixel :=
  <[Z.to_nat i := px]> index.

Definition qoi_end_marker : list Z := [0; 0; 0; 0; 0; 0; 0; 1].

(** ** BMP: the packed headers

    [READ_FILE] and [WRITE_FILE] move the headers as they lie in memory;
    the layout is the packed one of the [#pragma pack(1)] structs on a
    little-endian host. *)

Record bmp_file_header : Type := {
  fh_type : Z;
  fh_size : Z;
  fh_reserved1 : Z;
  fh_reserved2 : Z;
  fh_offset : Z
}.

Record bmp_info_header : Type := {
  ih_size : Z;
  ih_width : Z;
  ih_height : Z;
  ih_planes : Z;
  ih_bit_count : Z;
  ih_compression : Z;
  ih_image_size : Z;
  ih_x_pels_per_meter : Z;
  ih_y_pels_per_meter : Z;
  ih_clr_used : Z;
  ih_clr_important : Z
}.

Definition sizeof_bmp_file_header : Z := 14.
Definition sizeof_bmp_info_header : Z := 40.

(** Unsigned little-endian fields at byte offset [o] of [p]. *)
Definition le16 (p : list Z) (o : nat) : Z :=
  byte_at p o + 256 * byte_at p (o + 1).

Definition le32 (p : list Z) (o : nat) : Z :=
  byte_at p o + 256 * byte_at p (o + 1) +
  65536 * byte_at p (o + 2) + 16777216 * byte_at p (o + 3).

(** The [int32_t] whose representation is the [uint32_t] [u]. *)
Definition to_int32 (u : Z) : Z :=
  if u <? 2147483648 then u else u - 4294967296.

Definition put16 (v : Z) : list Z := [v mod 256; (v / 256) mod 256].

Definition put32 (v : Z) : list Z :=
  [v mod 256; (v / 256) mod 256; (v / 65536) mod 256; (v / 16777216) mod 256].

Definition get_bmp_file_header (p : list Z) : bmp_file_header :=
  {| fh_type := le16 p 0;
     fh_size := le32 p 2;
     fh_reserved1 := le16 p 6;
     fh_reserved2 := le16 p 8;
     fh_offset := le32 p 10 |}.

Definition get_bmp_info_header (p : list Z) : bmp_info_header :=
  {| ih_size := le32 p 0;
     ih_width := to_int32 (le32 p 4);
     ih_height := to_int32 (le32 p 8);
     ih_planes := le16 p 12;
     ih_bit_count := le16 p 14;
     ih_compression := le32 p 16;
     ih_image_size := le32 p 20;
     ih_x_pels_per_meter := to_int32 (le32 p 24);
     ih_y_pels_per_meter := to_int32 (le32 p 28);
     ih_clr_used := le32 p 32;
     ih_clr_important := le32 p 36 |}.

Definition put_bmp_file_header (fh : bmp_file_header) : list Z :=
  put16 (fh_type fh) ++ put32 (fh_size fh) ++ put16 (fh_reserved1 fh) ++
  put16 (fh_reserved2 fh) ++ put32 (fh_offset fh).

Definition put_bmp_info_header (ih : bmp_info_header) : list Z :=
  put32 (ih_size ih) ++ put32 (to_uint32 (ih_width ih)) ++
  put32 (to_uint32 (ih_height ih)) ++ put16 (ih_planes ih) ++
  put16 (ih_bit_count ih) ++ put32 (ih_compression ih) ++
  put32 (ih_image_size ih) ++ put32 (to_uint32 (ih_x_pels_per_meter ih)) ++
  put32 (to_uint32 (ih_y_pels_per_meter ih)) ++ put32 (ih_clr_used ih) ++
  put32 (ih_clr_important ih).

(** [x * c + k] in [int]. *)
Definition int_idx (x c k : Z) : result Z :=
  do m <- int_op (x * c) ; int_op (m + k).

(** ** Format detection *)

(** A C string is the list of its characters, the terminating NUL left
    out. *)
Fixpoint c_str (s : String.string) : list Z :=
  match s with
  | String.EmptyString => []
  | String.String a s' => Z.of_N (Ascii.N_of_ascii a) :: c_str s'
  end.

(** The string literals of [format_from_name]. *)
Module FormatName.
Import Strings.String.
Definition png : list Z := c_str "png".
Definition jpg : list Z := c_str "jpg".
Definition jpeg : list Z := c_str "jpeg".
Definition bmp : list Z := c_str "bmp".
Definition qoi : list Z := c_str "qoi".
Definition tiff : list Z := c_str "tiff".
Definition tif : list Z := c_str "tif".
Definition webp : list Z := c_str "webp".
Definition avif : list Z := c_str "avif".
Definition heif : list Z := c_str "heif".
Definition heic : list Z := c_str "heic".
Definition jxl : list Z := c_str "jxl".
End FormatName.

(** [tolower] in the "C" locale. *)
Definition tolower (c : Z) : Z :=
  if (65 <=? c) && (c <=? 90) then c + 32 else c.

(** [strcasecmp(a, b) == 0]: POSIX compares the two strings character by
    character after [tolower]. *)
Fixpoint strcasecmp_eq (a b : list Z) : bool :=
  match a, b with
  | [], [] => true
  | x :: a', y :: b' => (tolower x =? tolower y) && strcasecmp_eq a' b'
  | _, _ => false
  end.

(** [strrchr(s, c)]: the part of [s] that starts at its last [c], [None]
    for the null pointer. *)
Fixpoint strrchr (s : list Z) (c : Z) : option (list Z) :=
  match s with
  | [] => None
  | x :: s' =>
    match strrchr s' c with
    | Some r => Some r
    | None => if x =? c then Some s else None
    end
  end.

Inductive format : Type :=
| FMT_UNKNOWN
| FMT_PNG
| FMT_JPEG
| FMT_BMP
| FMT_QOI
| FMT_TIFF
| FMT_WEBP
| FMT_AVIF
| FMT_HEIF
| FMT_JXL.

(** The optional libraries the program is compiled with: the [HAVE_*]
    macros that guard the optional formats. *)
Record build : Type := {
  HAVE_TIFF : bool;
  HAVE_WEBP : bool;
  HAVE_AVIF : bool;
  HAVE_HEIF : bool;
  HAVE_JXL : bool
}.

Definition format_from_name (b : build) (name : list Z) : format :=
  if strcasecmp_eq name FormatName.png then FMT_PNG
  else if strcasecmp_eq name FormatName.jpg ||
          strcasecmp_eq name FormatName.jpeg then FMT_JPEG
  else if strcasecmp_eq name FormatName.bmp then FMT_BMP
  else if strcasecmp_eq name FormatName.qoi then FMT_QOI
  else if HAVE_TIFF b && (strcasecmp_eq name FormatName.tiff ||
                          strcasecmp_eq name FormatName.tif) then FMT_TIFF
  else if HAVE_WEBP b && strcasecmp_eq name FormatName.webp then FMT_WEBP
  else if HAVE_AVIF b && strcasecmp_eq name FormatName.avif then FMT_AVIF
  else if HAVE_HEIF b && (strcasecmp_eq name FormatName.heif ||
                          strcasecmp_eq name FormatName.heic) then FMT_HEIF
  else if HAVE_JXL b && strcasecmp_eq name FormatName.jxl then FMT_JXL
  else FMT_UNKNOWN.

(** ['.'] *)
Definition DOT : Z := 46.

Definition detect_format (b : build) (path : list Z) : format :=
  match strrchr path DOT with
  | None => FMT_UNKNOWN
  | Some ext => format_from_name b (drop 1 ext)
  end.

(** Sample names and paths. *)
Module SampleName.
Import Strings.String.
Definition mixed_png : list Z := c_str "PnG".
Definition holiday_tar : list Z := c_str "holiday.tar".
Definition upper_jpeg : list Z := c_str "JPEG".
Definition readme : list Z := c_str "README".
End SampleName.

(** A program built without the optional libraries, and one built with all
    of them. *)
Definition build_plain : build :=
  {| HAVE_TIFF := false; HAVE_WEBP := false; HAVE_AVIF := false;
     HAVE_HEIF := false; HAVE_JXL := false |}.

Definition build_full : build :=
  {| HAVE_TIFF := true; HAVE_WEBP := true; HAVE_AVIF := true;
     HAVE_HEIF := true; HAVE_JXL := true |}.

Section Platform.

(** The width of [size_t] in bits. *)
Variable size_bits : Z.
Hypothesis size_bits_ge : 32 <= size_bits.

Definition SIZE_MAX : Z := 2 ^ size_bits - 1.

(** [(size_t)x] *)
Definition to_size_t (x : Z) : Z := x mod (SIZE_MAX + 1).

(** ** lib/checked_arith.h *)

Definition checked_mul_size (a b : Z) : option Z :=
  if (a =? 0) || (b <=? SIZE_MAX / a)
  then Some (to_size_t (a * b))
  else None.

Definition checked_add_size (a b : Z) : option Z :=
  if a <=? SIZE_MAX - b
  then Some (to_size_t (a + b))
  else None.

Definition checked (o : option Z) : result Z :=
  match o with
  | Some v => Ok v
  | None => Fail
  end.

(** ** Pixel buffer model *)

Definition image_validate_dims (img : image) : bool :=
  (0 <? width img) && (0 <? height img) &&
  ((channels img =? 3) || (channels img =? 4)).

(** [max_pixels] is the process-wide ceiling, passed explicitly. *)
Definition image_check_max_pixels (max_pixels : Z) (w h : Z) : bool :=
  match checked_mul_size (to_size_t w) (to_size_t h) with
  | None => false
  | Some pixel_count => (max_pixels =? 0) || (pixel_count <=? max_pixels)
  end.

Definition set_pixels (img : image) (buf : list Z) : image :=
  {| pixels := buf; width := width img; height := height img;
     channels := channels img |}.

(** [image_alloc_pixels]: every failure path returns the same [false]. *)
Definition image_alloc_pixels (hp : heap) (max_pixels : Z)
    (img : image) (rowbytes : Z) : result image :=
  if negb (image_validate_dims img) || (rowbytes =? 0) then Fail
  else if negb (image_check_max_pixels max_pixels (width img) (height img))
  then Fail
  else
    do total <- checked (checked_mul_size rowbytes (to_size_t (height img))) ;
    do buf <- alloc_or_fail (malloc hp total) ;
    Ok (set_pixels img buf).

(** ** QOI decoder *)

(** The body of the [QOI_OP_RUN] case: the inner [while]. *)
Fixpoint qoi_read_run (channels px_end : Z) (px : pixel) (run : nat)
    (px_pos : Z) (buf : list Z) : result (Z * list Z) :=
  match run with
  | O => Ok (px_pos, buf)
  | S run' =>
    if px_pos <? px_end then
      do buf' <- memcpy_to buf px_pos (px_bytes channels px) ;
      qoi_read_run channels px_end px run' (to_size_t (px_pos + channels)) buf'
    else Ok (px_pos, buf)
  end.

(** The [while (px_pos < px_end)] loop of [qoi_read].  [read_byte] is the
    match on the stream [f] followed by [(uint8_t)c], [read_bytes] of three
    or four bytes the match on that many elements; every iteration consumes
    at least one byte.  The result is the pixel buffer and the part of the
    stream the loop has not read. *)
Fixpoint qoi_read_loop (channels px_end : Z) (f : list Z)
    (index : list pixel) (px : pixel) (px_pos : Z) (buf : list Z)
    {struct f} : result (list Z * list Z) :=
  if px_pos <? px_end then
    match f with
    | [] => Fail
    | c :: f1 =>
      let b1 := to_uint8 c in
      let emit := fun (px' : pixel) (f' : list Z) =>
        let index' := index_set index (qoi_hash px') px' in
        do buf' <- memcpy_to buf px_pos (px_bytes channels px') ;
        qoi_read_loop channels px_end f' index' px'
                      (to_size_t (px_pos + channels)) buf' in
      if b1 =? QOI_OP_RGB then
        match f1 with
        | r :: g :: b :: f2 => emit (Px r g b (px_a px)) f2
        | _ => Fail
        end
      else if b1 =? QOI_OP_RGBA then
        match f1 with
        | r :: g :: b :: a :: f2 => emit (Px r g b a) f2
        | _ => Fail
        end
      else if Z.land b1 QOI_MASK_2 =? QOI_OP_INDEX then
        emit (index_get index b1) f1
      else if Z.land b1 QOI_MASK_2 =? QOI_OP_DIFF then
        emit (Px (to_uint8 (px_r px + (Z.land (Z.shiftr b1 4) 0x03 - 2)))
                 (to_uint8 (px_g px + (Z.land (Z.shiftr b1 2) 0x03 - 2)))
                 (to_uint8 (px_b px + (Z.land b1 0x03 - 2)))
                 (px_a px)) f1
      else if Z.land b1 QOI_MASK_2 =? QOI_OP_LUMA then
        match f1 with
        | c2 :: f2 =>
          let b2 := to_uint8 c2 in
          let vg := Z.land b1 0x3f - 32 in
          emit (Px (to_uint8 (px_r px + (vg - 8 + Z.land (Z.shiftr b2 4) 0x0f)))
                   (to_uint8 (px_g px + vg))
                   (to_uint8 (px_b px + (vg - 8 + Z.land b2 0x0f)))
                   (px_a px)) f2
        | [] => Fail
        end
      else if Z.land b1 QOI_MASK_2 =? QOI_OP_RUN then
        let run := Z.land b1 0x3f + 1 in
        do '(px_pos', buf') <-
          qoi_read_run channels px_end px (Z.to_nat run) px_pos buf ;
        qoi_read_loop channels px_end f1 index px px_pos' buf'
      else emit px f1
    end
  else Ok (buf, f).

(** [qoi_read] up to the [fclose]: the image and the unread rest of the
    file. *)
Definition qoi_read_stream (hp : heap) (max_pixels : Z) (f : list Z)
    : result (image * list Z) :=
  match read_bytes f QOI_HEADER_SIZE with
  | None => Fail
  | Some (header, f0) =>
    if negb (qoi_read32be header =? QOI_MAGIC) then Fail else
    let w := qoi_read32be (drop 4 header) in
    let h := qoi_read32be (drop 8 header) in
    let ch := byte_at header 12 in
    if (w =? 0) || (h =? 0) || (INT_MAX <? w) || (INT_MAX <? h) then Fail else
    if negb (ch =? 3) && negb (ch =? 4) then Fail else
    do pixel_count <- checked (checked_mul_size (to_size_t w) (to_size_t h)) ;
    do pixel_bytes <- checked (checked_mul_size pixel_count (to_size_t ch)) ;
    if negb (image_check_max_pixels max_pixels w h) then Fail else
    do buf <- alloc_or_fail (malloc hp pixel_bytes) ;
    let px_end := to_size_t (pixel_count * to_size_t ch) in
    do '(out, rest) <-
      qoi_read_loop ch px_end f0 qoi_index_init qoi_px_init 0 buf ;
    Ok ({| pixels := out; width := w; height := h; channels := ch |}, rest)
  end.

Definition qoi_read (hp : heap) (max_pixels : Z) (f : list Z) : result image :=
  do '(img, _) <- qoi_read_stream hp max_pixels f ;
  Ok img.

(** ** QOI encoder *)

(** [memcpy(px, img->pixels + off, channels); if (channels == 3) px[3] = 255;] *)
Definition qoi_fetch (ch : Z) (src : list Z) (off : Z) : result pixel :=
  do r <- load src off ;
  do g <- load src (off + 1) ;
  do b <- load src (off + 2) ;
  if ch =? 3 then Ok (Px r g b 255)
  else do a <- load src (off + 3) ; Ok (Px r g b a).

Definition qoi_run_op (run : Z) : Z := to_uint8 (Z.lor QOI_OP_RUN (run - 1)).

(** One iteration of the [for] loop of [qoi_write] on the fetched pixel:
    the bytes appended to [data], the index and the run counter after it.
    [last] is [i == pixel_count - 1]. *)
Definition qoi_write_px (last : bool) (index : list pixel) (px_prev : pixel)
    (run : Z) (px : pixel) : list Z * list pixel * Z :=
  if px_eqb px px_prev then
    let run := run + 1 in
    if (run =? 62) || last then ([qoi_run_op run], index, 0)
    else ([], index, run)
  else
    let flush := if 0 <? run then [qoi_run_op run] else [] in
    let idx := qoi_hash px in
    if px_eqb (index_get index idx) px then
      (flush ++ [to_uint8 (Z.lor QOI_OP_INDEX idx)], index, 0)
    else
      let index := index_set index idx px in
      if px_a px =? px_a px_prev then
        let vr := px_r px - px_r px_prev in
        let vg := px_g px - px_g px_prev in
        let vb := px_b px - px_b px_prev in
        let vg_r := vr - vg in
        let vg_b := vb - vg in
        if (-3 <? vr) && (vr <? 2) && (-3 <? vg) && (vg <? 2) &&
           (-3 <? vb) && (vb <? 2) then
          (flush ++
             [to_uint8 (Z.lor (Z.lor (Z.lor QOI_OP_DIFF (Z.shiftl (vr + 2) 4))
                                     (Z.shiftl (vg + 2) 2))
                              (vb + 2))],
           index, 0)
        else if (-9 <? vg_r) && (vg_r <? 8) && (-33 <? vg) && (vg <? 32) &&
                (-9 <? vg_b) && (vg_b <? 8) then
          (flush ++
             [to_uint8 (Z.lor QOI_OP_LUMA (vg + 32));
              to_uint8 (Z.lor (Z.shiftl (vg_r + 8) 4) (vg_b + 8))],
           index, 0)
        else
          (flush ++ [QOI_OP_RGB; px_r px; px_g px; px_b px], index, 0)
      else
        (flush ++ [QOI_OP_RGBA; px_r px; px_g px; px_b px; px_a px], index, 0).

(** The [for (i = 0; i < pixel_count; i++)] loop with [n] iterations left;
    the result is the bytes written to [data] from here on. *)
Fixpoint qoi_write_loop (img : image) (pixel_count : Z) (n : nat) (i : Z)
    (index : list pixel) (px_prev : pixel) (run : Z) : result (list Z) :=
  match n with
  | O => Ok []
  | S n' =>
    do px <- qoi_fetch (channels img) (pixels img)
                       (to_size_t (i * to_size_t (channels img))) ;
    let '(bytes, index', run') :=
      qoi_write_px (i =? pixel_count - 1) index px_prev run px in
    do rest <- qoi_write_loop img pixel_count n' (i + 1) index' px run' ;
    Ok (bytes ++ rest)
  end.

Definition qoi_header (img : image) : list Z :=
  qoi_write32be QOI_MAGIC ++
  qoi_write32be (to_uint32 (width img)) ++
  qoi_write32be (to_uint32 (height img)) ++
  [to_uint8 (channels img); 1].

(** [qoi_write]: the bytes [data[0..p)] handed to [WRITE_FILE].  The buffer
    [data] is represented by the bytes written to it, in order; its size
    [max_size] enters only through the checked sums and the [malloc]. *)
Definition qoi_write (hp : heap) (img : image) : result (list Z) :=
  if negb (image_validate_dims img) then Fail else
  do pixel_count <-
    checked (checked_mul_size (to_size_t (width img)) (to_size_t (height img))) ;
  let per_pixel := to_size_t (to_size_t (channels img) + 1) in
  do data_bytes <- checked (checked_mul_size pixel_count per_pixel) ;
  do max_size <- checked (checked_add_size QOI_HEADER_SIZE data_bytes) ;
  do max_size <- checked (checked_add_size max_size QOI_END_MARKER_SIZE) ;
  do _ <- alloc_or_fail (malloc hp max_size) ;
  do ops <- qoi_write_loop img pixel_count (Z.to_nat pixel_count) 0
                           qoi_index_init qoi_px_init 0 ;
  Ok (qoi_header img ++ ops ++ qoi_end_marker).

(** ** BMP decoder *)

(** [tmp_rowbytes & ~(size_t)3] *)
Definition align4 (tmp_rowbytes : Z) : Z :=
  Z.land tmp_rowbytes (to_size_t (Z.lnot 3)).

(** The inner [for (x = 0; x < img->width; x++)] of [bmp_read], with [n]
    iterations left; [dst] is the offset of the row in [img->pixels]. *)
Fixpoint bmp_read_row (ch bmp_channels : Z) (row : list Z) (dst : Z)
    (n : nat) (x : Z) (buf : list Z) : result (list Z) :=
  match n with
  | O => Ok buf
  | S n' =>
    do d0 <- int_idx x ch 0 ;
    do s2 <- int_idx x bmp_channels 2 ;
    do v0 <- load row s2 ;
    do buf <- store buf (dst + d0) v0 ;
    do d1 <- int_idx x ch 1 ;
    do s1 <- int_idx x bmp_channels 1 ;
    do v1 <- load row s1 ;
    do buf <- store buf (dst + d1) v1 ;
    do d2 <- int_idx x ch 2 ;
    do s0 <- int_idx x bmp_channels 0 ;
    do v2 <- load row s0 ;
    do buf <- store buf (dst + d2) v2 ;
    do buf <-
      (if ch =? 4 then
         do d3 <- int_idx x ch 3 ;
         do s3 <- int_idx x bmp_channels 3 ;
         do v3 <- load row s3 ;
         store buf (dst + d3) v3
       else Ok buf) ;
    bmp_read_row ch bmp_channels row dst n' (x + 1) buf
  end.

(** The [for (y = 0; y < img->height; y++)] loop of [bmp_read], with [n]
    iterations left, reading from the stream [f]. *)
Fixpoint bmp_read_rows (top_down : bool) (w h ch bmp_channels : Z)
    (rowbytes bmp_rowbytes : Z) (n : nat) (y : Z) (f : list Z)
    (buf : list Z) : result (list Z) :=
  match n with
  | O => Ok buf
  | S n' =>
    let dst_y := to_size_t (if top_down then y else h - 1 - y) in
    match read_bytes f bmp_rowbytes with
    | None => Fail
    | Some (row, f') =>
      let dst := to_size_t (dst_y * rowbytes) in
      do buf <- bmp_read_row ch bmp_channels row dst (Z.to_nat w) 0 buf ;
      bmp_read_rows top_down w h ch bmp_channels rowbytes bmp_rowbytes
                    n' (y + 1) f' buf
    end
  end.

(** [long] is taken to be as wide as [size_t]. *)
Definition LONG_MAX : Z := 2 ^ (size_bits - 1) - 1.

(** [fseek(f, offset, SEEK_SET)] on the file [file]: the stream from there
    on.  An offset that does not fit [long] arrives negative and is refused;
    seeking past the end is allowed, the next read then fails. *)
Definition fseek_set (file : list Z) (offset : Z) : result (list Z) :=
  if LONG_MAX <? offset then Fail else Ok (drop (Z.to_nat offset) file).

Definition bmp_read (hp : heap) (max_pixels : Z) (file : list Z)
    : result image :=
  match read_bytes file sizeof_bmp_file_header with
  | None => Fail
  | Some (fhb, f1) =>
  match read_bytes f1 sizeof_bmp_info_header with
  | None => Fail
  | Some (ihb, _) =>
    let fh := get_bmp_file_header fhb in
    let ih := get_bmp_info_header ihb in
    if negb (fh_type fh =? 0x4D42) then Fail else
    if negb (ih_compression ih =? 0) ||
       (negb (ih_bit_count ih =? 24) && negb (ih_bit_count ih =? 32))
    then Fail else
    if (ih_width ih <=? 0) || (INT_MAX <? ih_width ih) ||
       (ih_height ih =? 0) || (ih_height ih =? INT32_MIN)
    then Fail else
    let top_down := ih_height ih <? 0 in
    let img := {| pixels := [];
                  width := ih_width ih;
                  height := if top_down then - ih_height ih else ih_height ih;
                  channels := if ih_bit_count ih =? 32 then 4 else 3 |} in
    if negb (image_validate_dims img) then Fail else
    if negb (image_check_max_pixels max_pixels (width img) (height img))
    then Fail else
    do rowbytes <-
      checked (checked_mul_size (to_size_t (width img))
                                (to_size_t (channels img))) ;
    do img <- image_alloc_pixels hp max_pixels img rowbytes ;
    let bmp_channels := ih_bit_count ih / 8 in
    do raw_rowbytes <-
      checked (checked_mul_size (to_size_t (width img))
                                (to_size_t bmp_channels)) ;
    do tmp_rowbytes <- checked (checked_add_size raw_rowbytes 3) ;
    let bmp_rowbytes := align4 tmp_rowbytes in
    do _ <- alloc_or_fail (malloc hp bmp_rowbytes) ;
    do f <- fseek_set file (fh_offset fh) ;
    do out <- bmp_read_rows top_down (width img) (height img) (channels img)
                            bmp_channels rowbytes bmp_rowbytes
                            (Z.to_nat (height img)) 0 f (pixels img) ;
    Ok (set_pixels img out)
  end
  end.

(** ** BMP encoder *)

(** The inner [for (x = 0; x < img->width; x++)] of [bmp_write], with [n]
    iterations left; [yoff] is the offset of the source row. *)
Fixpoint bmp_write_row (ch : Z) (src : list Z) (yoff : Z)
    (n : nat) (x : Z) (row : list Z) : result (list Z) :=
  match n with
  | O => Ok row
  | S n' =>
    do d0 <- int_idx x 3 0 ;
    do s2 <- int_idx x ch 2 ;
    do v0 <- load src (yoff + s2) ;
    do row <- store row d0 v0 ;
    do d1 <- int_idx x 3 1 ;
    do s1 <- int_idx x ch 1 ;
    do v1 <- load src (yoff + s1) ;
    do row <- store row d1 v1 ;
    do d2 <- int_idx x 3 2 ;
    do s0 <- int_idx x ch 0 ;
    do v2 <- load src (yoff + s0) ;
    do row <- store row d2 v2 ;
    bmp_write_row ch src yoff n' (x + 1) row
  end.

(** The [for (y = img->height - 1; y >= 0; y--)] loop of [bmp_write] with
    [y + 1 = n] iterations left; the result is the bytes written from here
    on.  The one [row] buffer is reused by every iteration. *)
Fixpoint bmp_write_rows (img : image) (src_rowbytes : Z) (n : nat)
    (row : list Z) : result (list Z) :=
  match n with
  | O => Ok []
  | S n' =>
    let y := Z.of_nat n' in
    let yoff := to_size_t (to_size_t y * src_rowbytes) in
    do row <- bmp_write_row (channels img) (pixels img) yoff
                            (Z.to_nat (width img)) 0 row ;
    do rest <- bmp_write_rows img src_rowbytes n' row ;
    Ok (row ++ rest)
  end.

(** The initialisers of [fh] and [ih] in [bmp_write]; the fields they do not
    name are zero. *)
Definition bmp_write_file_header (image_size : Z) : bmp_file_header :=
  {| fh_type := 0x4D42;
     fh_size := to_uint32 (sizeof_bmp_file_header + sizeof_bmp_info_header +
                           image_size);
     fh_reserved1 := 0;
     fh_reserved2 := 0;
     fh_offset := sizeof_bmp_file_header + sizeof_bmp_info_header |}.

Definition bmp_write_info_header (img : image) (image_size : Z)
    : bmp_info_header :=
  {| ih_size := sizeof_bmp_info_header;
     ih_width := width img;
     ih_height := height img;
     ih_planes := 1;
     ih_bit_count := 24;
     ih_compression := 0;
     ih_image_size := to_uint32 image_size;
     ih_x_pels_per_meter := 0;
     ih_y_pels_per_meter := 0;
     ih_clr_used := 0;
     ih_clr_important := 0 |}.

(** [bmp_write]: the bytes handed to [WRITE_FILE], in order. *)
Definition bmp_write (hp : heap) (img : image) : result (list Z) :=
  if negb (image_validate_dims img) then Fail else
  let bmp_channels := 3 in
  do raw_rowbytes <-
    checked (checked_mul_size (to_size_t (width img)) (to_size_t bmp_channels)) ;
  do tmp_rowbytes <- checked (checked_add_size raw_rowbytes 3) ;
  let bmp_rowbytes := align4 tmp_rowbytes in
  if bmp_rowbytes =? 0 then Fail else
  do image_size <-
    checked (checked_mul_size bmp_rowbytes (to_size_t (height img))) ;
  if UINT32_MAX - (sizeof_bmp_file_header + sizeof_bmp_info_header) <? image_size
  then Fail else
  let fh := bmp_write_file_header image_size in
  let ih := bmp_write_info_header img image_size in
  do row <- alloc_or_fail (calloc hp bmp_rowbytes) ;
  do src_rowbytes <-
    checked (checked_mul_size (to_size_t (width img))
                              (to_size_t (channels img))) ;
  do rows <- bmp_write_rows img src_rowbytes (Z.to_nat (height img)) row ;
  Ok (put_bmp_file_header fh ++ put_bmp_info_header ih ++ rows).

(** ** Notions used by the statements *)

(** What one iteration of the decoding loop makes of the head of the
    stream: a pixel to append, or a run of the current pixel. *)
Inductive qoi_op : Type :=
| OpPixel (px : pixel)
| OpRun (run : Z).

Definition qoi_next_op (f : list Z) (index : list pixel) (px : pixel)
    : option (qoi_op * list Z) :=
  match f with
  | [] => None
  | c :: f1 =>
    let b1 := to_uint8 c in
    if b1 =? QOI_OP_RGB then
      match f1 with
      | r :: g :: b :: f2 => Some (OpPixel (Px r g b (px_a px)), f2)
      | _ => None
      end
    else if b1 =? QOI_OP_RGBA then
      match f1 with
      | r :: g :: b :: a :: f2 => Some (OpPixel (Px r g b a), f2)
      | _ => None
      end
    else if Z.land b1 QOI_MASK_2 =? QOI_OP_INDEX then
      Some (OpPixel (index_get index b1), f1)
    else if Z.land b1 QOI_MASK_2 =? QOI_OP_DIFF then
      Some (OpPixel
              (Px (to_uint8 (px_r px + (Z.land (Z.shiftr b1 4) 0x03 - 2)))
                  (to_uint8 (px_g px + (Z.land (Z.shiftr b1 2) 0x03 - 2)))
                  (to_uint8 (px_b px + (Z.land b1 0x03 - 2)))
                  (px_a px)), f1)
    else if Z.land b1 QOI_MASK_2 =? QOI_OP_LUMA then
      match f1 with
      | c2 :: f2 =>
        let b2 := to_uint8 c2 in
        let vg := Z.land b1 0x3f - 32 in
        Some (OpPixel
                (Px (to_uint8 (px_r px + (vg - 8 + Z.land (Z.shiftr b2 4) 0x0f)))
                    (to_uint8 (px_g px + vg))
                    (to_uint8 (px_b px + (vg - 8 + Z.land b2 0x0f)))
                    (px_a px)), f2)
      | [] => None
      end
    else if Z.land b1 QOI_MASK_2 =? QOI_OP_RUN then
      Some (OpRun (Z.land b1 0x3f + 1), f1)
    else Some (OpPixel px, f1)
  end.

(** The operations of the QOI format, by the byte they start with: the
    8-bit tags [QOI_OP_RGB] and [QOI_OP_RGBA] first, then the 2-bit tags. *)
Inductive qoi_tag : Type :=
| TagIndex | TagDiff | TagLuma | TagRun | TagRgb | TagRgba.

#[global] Instance qoi_tag_eq_dec : EqDecision qoi_tag.
Proof. solve_decision. Defined.

Definition qoi_tag_of (b : Z) : option qoi_tag :=
  if b =? QOI_OP_RGB then Some TagRgb
  else if b =? QOI_OP_RGBA then Some TagRgba
  else if (QOI_OP_INDEX <=? b) && (b <? QOI_OP_DIFF) then Some TagIndex
  else if (QOI_OP_DIFF <=? b) && (b <? QOI_OP_LUMA) then Some TagDiff
  else if (QOI_OP_LUMA <=? b) && (b <? QOI_OP_RUN) then Some TagLuma
  else if (QOI_OP_RUN <=? b) && (b <? QOI_OP_RGB) then Some TagRun
  else None.

(** The number of bytes of an operation, its first byte included. *)
Definition qoi_tag_size (t : qoi_tag) : nat :=
  match t with
  | TagIndex | TagDiff | TagRun => 1
  | TagLuma => 2
  | TagRgb => 4
  | TagRgba => 5
  end.

(** [op] is the bytes of exactly one operation, and which. *)
Definition qoi_op_tag (op : list Z) : option qoi_tag :=
  match op with
  | [] => None
  | b :: _ =>
    match qoi_tag_of b with
    | Some t => if decide (length op = qoi_tag_size t) then Some t else None
    | None => None
    end
  end.

(** The number of pixels one operation stands for: the count of a run, which
    is the low six bits of its byte plus one, and one for every other
    operation. *)
Definition qoi_op_pixels (op : list Z) : option Z :=
  match qoi_op_tag op, op with
  | Some TagRun, b :: _ => Some (b - QOI_OP_RUN + 1)
  | Some _, _ => Some 1
  | None, _ => None
  end.

(** The number of pixels a sequence of operations stands for. *)
Fixpoint qoi_ops_pixels (ops : list (list Z)) : option Z :=
  match ops with
  | [] => Some 0
  | op :: ops' =>
    match qoi_op_pixels op, qoi_ops_pixels ops' with
    | Some n, Some m => Some (n + m)
    | _, _ => None
    end
  end.

(** The four causes for which the allocation can fail, decided on the
    mathematical values of the request. *)
Inductive alloc_failure : Type :=
| InvalidDimensions
| CeilingExceeded
| ArithmeticOverflow
| AllocationFailure.

Definition alloc_failure_cause (hp : heap) (max_pixels : Z) (img : image)
    (rowbytes : Z) : option alloc_failure :=
  if negb ((0 <? width img) && (0 <? height img) &&
           ((channels img =? 3) || (channels img =? 4))) || (rowbytes =? 0)
  then Some InvalidDimensions
  else if SIZE_MAX <? width img * height img then Some ArithmeticOverflow
  else if negb (max_pixels =? 0) && (max_pixels <? width img * height img)
  then Some CeilingExceeded
  else if SIZE_MAX <? rowbytes * height img then Some ArithmeticOverflow
  else if can_alloc hp (rowbytes * height img) then None
  else Some AllocationFailure.

(** A way to read the cause of a failed allocation off what
    [image_alloc_pixels] returns. *)
Definition reports_alloc_failure
    (report : result image -> option alloc_failure) : Prop :=
  forall hp max_pixels img rowbytes cause,
    0 <= max_pixels <= SIZE_MAX ->
    0 <= rowbytes <= SIZE_MAX ->
    INT32_MIN <= width img <= INT_MAX ->
    INT32_MIN <= height img <= INT_MAX ->
    alloc_failure_cause hp max_pixels img rowbytes = Some cause ->
    report (image_alloc_pixels hp max_pixels img rowbytes) = Some cause.

(** The headers [bmp_read] sees at the start of [file]. *)
Definition bmp_file_header_of (file : list Z) : bmp_file_header :=
  get_bmp_file_header (take 14 file).

Definition bmp_info_header_of (file : list Z) : bmp_info_header :=
  get_bmp_info_header (take 40 (drop 14 file)).

(** An image as the data model has it: dimensions that fit [int], three or
    four channels, and a buffer of exactly [width * height * channels]
    bytes. *)
Definition image_wf (img : image) : Prop :=
  0 < width img <= INT_MAX /\ 0 < height img <= INT_MAX /\
  (channels img = 3 \/ channels img = 4) /\
  Z.of_nat (length (pixels img)) = width img * height img * channels img /\
  Forall is_byte (pixels img).

Definition pixel_count_of (img : image) : Z := width img * height img.

(** The [i]-th pixel of [img] as the encoder sees it: a three-channel pixel
    has alpha 255. *)
Definition pixel_at (img : image) (i : Z) : pixel :=
  let o := Z.to_nat (i * channels img) in
  Px (byte_at (pixels img) o)
     (byte_at (pixels img) (o + 1))
     (byte_at (pixels img) (o + 2))
     (if channels img =? 3 then 255 else byte_at (pixels img) (o + 3)).

(** The encoder's [index], [px_prev] and [run] when iteration [k] of the
    loop of [qoi_write] begins. *)
Fixpoint qoi_state (img : image) (k : nat) : list pixel * pixel * Z :=
  match k with
  | O => (qoi_index_init, qoi_px_init, 0)
  | S k' =>
    let '(index, px_prev, run) := qoi_state img k' in
    let px := pixel_at img (Z.of_nat k') in
    let '(_, index', run') :=
      qoi_write_px (Z.of_nat k' =? pixel_count_of img - 1)
                   index px_prev run px in
    (index', px, run')
  end.

(** The bytes iteration [k] appends to [data]. *)
Definition qoi_emit (img : image) (k : nat) : list Z :=
  let '(index, px_prev, run) := qoi_state img k in
  (qoi_write_px (Z.of_nat k =? pixel_count_of img - 1)
                index px_prev run (pixel_at img (Z.of_nat k))).1.1.

(** The bytes iterations [k], ..., [k + n - 1] append. *)
Definition qoi_emitted (img : image) (k n : nat) : list Z :=
  concat (qoi_emit img <$> seq k n).

(** The pixel the encoder holds in [px_prev] when iteration [k] begins. *)
Definition qoi_prev_pixel (img : image) (k : nat) : pixel :=
  match k with
  | O => qoi_px_init
  | S k' => pixel_at img (Z.of_nat k')
  end.

Definition px_is_bytes (px : pixel) : Prop :=
  is_byte (px_r px) /\ is_byte (px_g px) /\ is_byte (px_b px) /\
  is_byte (px_a px).

(** The first [k] pixels of [buf] are those of [img]. *)
Definition decoded_upto (img : image) (k : Z) (buf : list Z) : Prop :=
  length buf = length (pixels img) /\
  take (Z.to_nat (k * channels img)) buf =
    take (Z.to_nat (k * channels img)) (pixels img).

Definition is_ok {A : Type} (r : result A) : Prop :=
  match r with
  | Ok _ => True
  | _ => False
  end.

(** The colour bytes of a pixel in memory order and in BMP order. *)
Definition rgb_of (px : pixel) : list Z := [px_r px; px_g px; px_b px].
Definition bgr_of (px : pixel) : list Z := [px_b px; px_g px; px_r px].

(** The bytes [f] makes of the [n] pixels of [img] from pixel [start] on. *)
Definition pixels_seg (f : pixel -> list Z) (img : image) (start : Z)
    (n : nat) : list Z :=
  concat ((fun j => f (pixel_at img (start + Z.of_nat j))) <$> seq 0 n).

(** [img] without its alpha channel. *)
Definition drop_alpha (img : image) : image :=
  {| pixels := pixels_seg rgb_of img 0 (Z.to_nat (pixel_count_of img));
     width := width img;
     height := height img;
     channels := 3 |}.

(** The padded size of a 24-bit BMP row of [img] and its padding. *)
Definition bmp_rowbytes_of (img : image) : Z := 4 * ((3 * width img + 3) / 4).

Definition bmp_pad_of (img : image) : nat :=
  Z.to_nat (bmp_rowbytes_of img - 3 * width img).

(** The rows [n - 1], ..., [0] of [img] as a 24-bit BMP stores them. *)
Fixpoint bmp_rows (img : image) (n : nat) : list Z :=
  match n with
  | O => []
  | S n' =>
    (pixels_seg bgr_of img (Z.of_nat n' * width img) (Z.to_nat (width img)) ++
     replicate (bmp_pad_of img) 0) ++ bmp_rows img n'
  end.

(** The fields of the QOI header at the start of the file [f]. *)
Definition qoi_declared_width (f : list Z) : Z := qoi_read32be (drop 4 f).
Definition qoi_declared_height (f : list Z) : Z := qoi_read32be (drop 8 f).
Definition qoi_declared_channels (f : list Z) : Z := byte_at f 12.

(** A header that [qoi_read] accepts: 14 bytes with the magic, a width and
    a height from 1 to [INT_MAX] and three or four channels; the colour
    space byte is not looked at. *)
Definition qoi_header_ok (hdr : list Z) : Prop :=
  length hdr = 14%nat /\ Forall is_byte hdr /\
  qoi_read32be hdr = QOI_MAGIC /\
  (0 < qoi_declared_width hdr <= INT_MAX) /\
  (0 < qoi_declared_height hdr <= INT_MAX) /\
  (qoi_declared_channels hdr = 3 \/ qoi_declared_channels hdr = 4).

(** The run operations for [m] repetitions of the previous pixel: as many
    full runs of 62 as fit and one run for what remains. *)
Definition qoi_runs (m : Z) : list Z :=
  replicate (Z.to_nat (m / 62)) (qoi_run_op 62) ++
  (if m mod 62 =? 0 then [] else [qoi_run_op (m mod 62)]).

(** The byte of a BMP pixel that holds channel [k] of the image: blue,
    green, red, alpha in the file for red, green, blue, alpha in memory. *)
Definition bmp_src_channel (k : Z) : Z := if k =? 3 then 3 else 2 - k.

(** The body of the inner loop of [bmp_read], as [bmp_read_row] has it:
    the stores for the pixel [x] of a row. *)
Definition bmp_read_px (ch bmp_channels : Z) (row : list Z) (dst x : Z)
    (buf : list Z) : result (list Z) :=
  do d0 <- int_idx x ch 0 ;
  do s2 <- int_idx x bmp_channels 2 ;
  do v0 <- load row s2 ;
  do buf <- store buf (dst + d0) v0 ;
  do d1 <- int_idx x ch 1 ;
  do s1 <- int_idx x bmp_channels 1 ;
  do v1 <- load row s1 ;
  do buf <- store buf (dst + d1) v1 ;
  do d2 <- int_idx x ch 2 ;
  do s0 <- int_idx x bmp_channels 0 ;
  do v2 <- load row s0 ;
  do buf <- store buf (dst + d2) v2 ;
  if ch =? 4 then
    do d3 <- int_idx x ch 3 ;
    do s3 <- int_idx x bmp_channels 3 ;
    do v3 <- load row s3 ;
    store buf (dst + d3) v3
  else Ok buf.

(** What the headers at the start of the BMP file [file] declare. *)
Definition bmp_top_down (file : list Z) : bool :=
  ih_height (bmp_info_header_of file) <? 0.

Definition bmp_declared_width (file : list Z) : Z :=
  ih_width (bmp_info_header_of file).

Definition bmp_declared_height (file : list Z) : Z :=
  Z.abs (ih_height (bmp_info_header_of file)).

Definition bmp_declared_channels (file : list Z) : Z :=
  if ih_bit_count (bmp_info_header_of file) =? 32 then 4 else 3.

(** The size of a row in the file, padded to a multiple of four bytes. *)
Definition bmp_declared_rowbytes (file : list Z) : Z :=
  4 * ((bmp_declared_width file * bmp_declared_channels file + 3) / 4).

Definition bmp_data_offset (file : list Z) : Z :=
  fh_offset (bmp_file_header_of file).

(** ** Sample data *)

Definition heap_any : heap :=
  {| can_alloc := fun _ => true; junk := fun _ => 0xAA |}.

Definition heap_full : heap :=
  {| can_alloc := fun _ => false; junk := fun _ => 0 |}.

Definition img_rgb_3x2 : image :=
  {| pixels := [0; 0; 0;  100; 100; 100;  0; 0; 0;
                1; 2; 3;  1; 2; 3;  1; 2; 4];
     width := 3; height := 2; channels := 3 |}.

Definition img_rgba_3x2 : image :=
  {| pixels := [0; 0; 0; 9;  100; 100; 100; 8;  0; 0; 0; 7;
                1; 2; 3; 6;  1; 2; 3; 5;  1; 2; 4; 4];
     width := 3; height := 2; channels := 4 |}.

(** 70 pixels of opaque black, the encoder's initial previous pixel. *)
Definition img_black_70 : image :=
  {| pixels := replicate 210 0; width := 70; height := 1; channels := 3 |}.

(** 70 pixels of red. *)
Definition img_red_70 : image :=
  {| pixels := concat (replicate 70 [255; 0; 0]);
     width := 70; height := 1; channels := 3 |}.

(** A pixel, another one, the first again. *)
Definition img_aba : image :=
  {| pixels := [10; 20; 30;  200; 100; 50;  10; 20; 30];
     width := 3; height := 1; channels := 3 |}.

(** The same pattern starting with the encoder's initial previous pixel. *)
Definition img_black_grey_black : image :=
  {| pixels := [0; 0; 0;  100; 100; 100;  0; 0; 0];
     width := 3; height := 1; channels := 3 |}.

(** The same pattern with two pixels that share the index slot 53. *)
Definition img_same_slot : image :=
  {| pixels := [64; 0; 0;  128; 0; 0;  64; 0; 0];
     width := 3; height := 1; channels := 3 |}.

Definition img_no_width : image :=
  {| pixels := []; width := 0; height := 5; channels := 3 |}.

Definition img_11x10 : image :=
  {| pixels := []; width := 11; height := 10; channels := 3 |}.

Definition img_1x2 : image :=
  {| pixels := []; width := 1; height := 2; channels := 3 |}.

(** A BMP header that declares 8 bits per pixel. *)
Definition bmp_8bit : list Z :=
  put_bmp_file_header (bmp_write_file_header 4) ++
  put_bmp_info_header
    {| ih_size := 40; ih_width := 1; ih_height := 1; ih_planes := 1;
       ih_bit_count := 8; ih_compression := 0; ih_image_size := 4;
       ih_x_pels_per_meter := 0; ih_y_pels_per_meter := 0;
       ih_clr_used := 0; ih_clr_important := 0 |} ++
  [7; 0; 0; 0].

(** A 1x1 QOI file whose only operation is a run of 62. *)
Definition qoi_long_run : list Z :=
  [0x71; 0x6f; 0x69; 0x66;  0; 0; 0; 1;  0; 0; 0; 1;  3; 1;  0xfd].

(** Two heaps that grant every request and differ in what the memory
    holds. *)
Definition heap_55 : heap :=
  {| can_alloc := fun _ => true; junk := fun _ => 0x55 |}.

(** The file [qoi_long_run] with a wrong magic. *)
Definition qoi_bad_magic : list Z :=
  [0x71; 0x6f; 0x69; 0x67;  0; 0; 0; 1;  0; 0; 0; 1;  3; 1;  0xfd].

(** A QOI header that declares 11 x 10 pixels. *)
Definition qoi_11x10 : list Z :=
  [0x71; 0x6f; 0x69; 0x66;  0; 0; 0; 11;  0; 0; 0; 10;  3; 1].

(** A 2 x 2 BMP of 32 bits per pixel, stored top-down, with four bytes
    between the headers and the pixel data. *)
Definition bmp_top_down_32 : list Z :=
  put_bmp_file_header
    {| fh_type := 0x4D42; fh_size := 74; fh_reserved1 := 0;
       fh_reserved2 := 0; fh_offset := 58 |} ++
  put_bmp_info_header
    {| ih_size := 40; ih_width := 2; ih_height := -2; ih_planes := 1;
       ih_bit_count := 32; ih_compression := 0; ih_image_size := 16;
       ih_x_pels_per_meter := 0; ih_y_pels_per_meter := 0;
       ih_clr_used := 0; ih_clr_important := 0 |} ++
  [9; 9; 9; 9] ++
  [1; 2; 3; 4;  5; 6; 7; 8] ++
  [11; 12; 13; 14;  15; 16; 17; 18].

Definition img_top_down_32 : image :=
  {| pixels := [3; 2; 1; 4;  7; 6; 5; 8;  13; 12; 11; 14;  17; 16; 15; 18];
     width := 2; height := 2; channels := 4 |}.

(** The image of the file [qoi_long_run]. *)
Definition img_black_1x1 : image :=
  {| pixels := [0; 0; 0]; width := 1; height := 1; channels := 3 |}.

(** An image whose BMP file would take more than 4 GiB; its pixels play no
    part. *)
Definition img_40000 : image :=
  {| pixels := []; width := 40000; height := 40000; channels := 3 |}.

(** One row of 600 million transparent black pixels. *)
Definition img_wide : image :=
  {| pixels := replicate (Z.to_nat 2400000000) 0;
     width := 600000000; height := 1; channels := 4 |}.

(** A pixel twice, another one, the first again. *)
Definition img_aaba : image :=
  {| pixels := [10; 20; 30;  10; 20; 30;  200; 100; 50;  10; 20; 30];
     width := 4; height := 1; channels := 3 |}.

(** A QOI header that declares 3 x 1 pixels of three channels, in the
    linear colour space. *)
Definition qoi_hdr_3x1 : list Z :=
  [0x71; 0x6f; 0x69; 0x66;  0; 0; 0; 3;  0; 0; 0; 1;  3; 0].

(** The header of [qoi_long_run]. *)
Definition qoi_hdr_1x1 : list Z :=
  [0x71; 0x6f; 0x69; 0x66;  0; 0; 0; 1;  0; 0; 0; 1;  3; 1].

(** An end marker whose last byte is wrong. *)
Definition qoi_bad_marker : list Z := [0; 0; 0; 0; 0; 0; 0; 2].

(** * Proofs *)

(** ** Sizes *)

Lemma SIZE_MAX_ge : UINT32_MAX <= SIZE_MAX.
Proof.
  unfold SIZE_MAX, UINT32_MAX.
  assert (2 ^ 32 <= 2 ^ size_bits) by (apply Z.pow_le_mono_r; lia).
  lia.
Qed.

Lemma to_size_t_small x : 0 <= x <= SIZE_MAX -> to_size_t x = x.
Proof. intros. unfold to_size_t. apply Z.mod_small. lia. Qed.

Lemma to_size_t_int x : 0 <= x <= INT_MAX -> to_size_t x = x.
Proof.
  intros. apply to_size_t_small. pose proof SIZE_MAX_ge.
  unfold INT_MAX, UINT32_MAX in *. lia.
Qed.

Lemma checked_mul_size_eq a b :
  0 <= a -> 0 <= b ->
  checked_mul_size a b = if a * b <=? SIZE_MAX then Some (a * b) else None.
Proof.
  intros Ha Hb. unfold checked_mul_size.
  assert (0 <= SIZE_MAX).
  { unfold SIZE_MAX.
    assert (0 < 2 ^ size_bits) by (apply Z.pow_pos_nonneg; lia). lia. }
  destruct (Z.eqb_spec a 0) as [->|Hne].
  - rewrite orb_true_l, Z.mul_0_l.
    destruct (Z.leb_spec 0 SIZE_MAX); [reflexivity | lia].
  - assert (0 < a) by lia. rewrite orb_false_l.
    destruct (Z.leb_spec b (SIZE_MAX / a)) as [Hq|Hq];
      destruct (Z.leb_spec (a * b) SIZE_MAX) as [Hp|Hp]; try reflexivity.
    + f_equal. apply to_size_t_small. nia.
    + exfalso. pose proof (Z.mul_div_le SIZE_MAX a). nia.
    + exfalso. assert (b <= SIZE_MAX / a) by (apply Z.div_le_lower_bound; lia).
      lia.
Qed.

Lemma checked_add_size_eq a b :
  0 <= a -> 0 <= b ->
  checked_add_size a b = if a + b <=? SIZE_MAX then Some (a + b) else None.
Proof.
  intros Ha Hb. unfold checked_add_size.
  destruct (Z.leb_spec a (SIZE_MAX - b)); destruct (Z.leb_spec (a + b) SIZE_MAX);
    try lia; try reflexivity.
  f_equal. apply to_size_t_small. lia.
Qed.

(** C2. For all [size_t] values [a] and [b], [checked_mul_size a b] is the
    exact product when it is representable in [size_t] and the failure value
    otherwise, never a wrapped value; [checked_add_size] obeys the same
    contract for the sum. *)
Theorem checked_arith_exact_or_overflow (a b : Z) :
  0 <= a <= SIZE_MAX -> 0 <= b <= SIZE_MAX ->
  (a * b <= SIZE_MAX -> checked_mul_size a b = Some (a * b)) /\
  (SIZE_MAX < a * b -> checked_mul_size a b = None) /\
  (a + b <= SIZE_MAX -> checked_add_size a b = Some (a + b)) /\
  (SIZE_MAX < a + b -> checked_add_size a b = None).
Proof.
  intros Ha Hb.
  rewrite checked_mul_size_eq, checked_add_size_eq by lia.
  repeat split; intros H.
  - destruct (Z.leb_spec (a * b) SIZE_MAX); [reflexivity | lia].
  - destruct (Z.leb_spec (a * b) SIZE_MAX); [lia | reflexivity].
  - destruct (Z.leb_spec (a + b) SIZE_MAX); [reflexivity | lia].
  - destruct (Z.leb_spec (a + b) SIZE_MAX); [lia | reflexivity].
Qed.

(** ** Pixel buffer model *)

Lemma image_check_max_pixels_eq max_pixels w h :
  0 <= w <= INT_MAX -> 0 <= h <= INT_MAX ->
  image_check_max_pixels max_pixels w h =
    (w * h <=? SIZE_MAX) && ((max_pixels =? 0) || (w * h <=? max_pixels)).
Proof.
  intros Hw Hh. unfold image_check_max_pixels.
  rewrite !to_size_t_int, checked_mul_size_eq by lia.
  destruct (w * h <=? SIZE_MAX); reflexivity.
Qed.

(** C3. [image_check_max_pixels] multiplies width by height with the checked
    multiply and returns false when the product overflows; otherwise it
    returns true exactly when the ceiling is 0 or the product is at most the
    ceiling.  With ceiling 100 a declared product of 101 is rejected, with
    ceiling 0 it passes. *)
Theorem image_check_max_pixels_spec (max_pixels w h : Z) :
  0 <= w <= INT_MAX -> 0 <= h <= INT_MAX ->
  (checked_mul_size (to_size_t w) (to_size_t h) = None ->
     image_check_max_pixels max_pixels w h = false) /\
  (forall pixel_count,
     checked_mul_size (to_size_t w) (to_size_t h) = Some pixel_count ->
     pixel_count = w * h /\
     (image_check_max_pixels max_pixels w h = true <->
      max_pixels = 0 \/ w * h <= max_pixels)) /\
  (SIZE_MAX < w * h -> image_check_max_pixels max_pixels w h = false) /\
  (w * h = 101 ->
     image_check_max_pixels 100 w h = false /\
     image_check_max_pixels 0 w h = true).
Proof.
  intros Hw Hh. pose proof SIZE_MAX_ge as HS. unfold UINT32_MAX in HS.
  rewrite !image_check_max_pixels_eq by lia.
  rewrite !to_size_t_int, checked_mul_size_eq by lia.
  destruct (Z.leb_spec (w * h) SIZE_MAX) as [Hfit|Hover]; simpl.
  - split; [discriminate|]. split; [|split; [lia|]].
    + intros pc [= <-]. split; [reflexivity|].
      rewrite orb_true_iff, Z.eqb_eq, Z.leb_le. tauto.
    + intros E. rewrite E. split; reflexivity.
  - split; [reflexivity|]. split; [discriminate|]. split; [reflexivity|]. lia.
Qed.

Lemma image_validate_dims_true img :
  image_validate_dims img = true <->
  0 < width img /\ 0 < height img /\ (channels img = 3 \/ channels img = 4).
Proof.
  unfold image_validate_dims.
  rewrite !andb_true_iff, orb_true_iff, !Z.ltb_lt, !Z.eqb_eq. tauto.
Qed.

Lemma length_malloc hp n buf :
  malloc hp n = Some buf -> length buf = Z.to_nat n.
Proof.
  unfold malloc. destruct (can_alloc hp n); [|discriminate].
  intros [= <-]. rewrite length_fmap, length_seq. reflexivity.
Qed.

Lemma image_alloc_pixels_eq hp max_pixels img rowbytes :
  0 <= rowbytes ->
  width img <= INT_MAX -> height img <= INT_MAX ->
  image_alloc_pixels hp max_pixels img rowbytes =
    match alloc_failure_cause hp max_pixels img rowbytes with
    | Some _ => Fail
    | None =>
      Ok (set_pixels img (junk hp <$> seq 0 (Z.to_nat (rowbytes * height img))))
    end.
Proof.
  intros Hrb Hw Hh. unfold image_alloc_pixels, alloc_failure_cause.
  fold (image_validate_dims img).
  destruct (image_validate_dims img) eqn:Hv; [|reflexivity].
  apply image_validate_dims_true in Hv as (Hw0 & Hh0 & _).
  destruct (rowbytes =? 0); [reflexivity|]. simpl.
  rewrite image_check_max_pixels_eq by lia.
  destruct (Z.leb_spec (width img * height img) SIZE_MAX) as [Hfit|Hover];
    destruct (Z.ltb_spec SIZE_MAX (width img * height img)); try lia;
    [|reflexivity].
  simpl.
  destruct (Z.eqb_spec max_pixels 0); simpl.
  - rewrite to_size_t_int, checked_mul_size_eq by lia.
    destruct (Z.leb_spec (rowbytes * height img) SIZE_MAX);
      destruct (Z.ltb_spec SIZE_MAX (rowbytes * height img)); try lia;
      [|reflexivity].
    simpl. unfold malloc. destruct (can_alloc hp _); reflexivity.
  - destruct (Z.leb_spec (width img * height img) max_pixels);
      destruct (Z.ltb_spec max_pixels (width img * height img)); try lia;
      [|reflexivity].
    simpl. rewrite to_size_t_int, checked_mul_size_eq by lia.
    destruct (Z.leb_spec (rowbytes * height img) SIZE_MAX);
      destruct (Z.ltb_spec SIZE_MAX (rowbytes * height img)); try lia;
      [|reflexivity].
    simpl. unfold malloc. destruct (can_alloc hp _); reflexivity.
Qed.

(** C4, as the code has it.  [image_alloc_pixels] checks the dimensions (and
    that the row size is not zero), the pixel ceiling, the checked product of
    row size and height, and the allocation; it succeeds exactly when none of
    the four causes applies, with a buffer of exactly that product of bytes,
    and for every cause it returns the one failure value. *)
Theorem image_alloc_pixels_single_failure (hp : heap) (max_pixels : Z)
    (img : image) (rowbytes : Z) :
  0 <= rowbytes ->
  width img <= INT_MAX -> height img <= INT_MAX ->
  (forall cause,
     alloc_failure_cause hp max_pixels img rowbytes = Some cause ->
     image_alloc_pixels hp max_pixels img rowbytes = Fail) /\
  (alloc_failure_cause hp max_pixels img rowbytes = None ->
   exists buf,
     image_alloc_pixels hp max_pixels img rowbytes = Ok (set_pixels img buf) /\
     Z.of_nat (length buf) = rowbytes * height img).
Proof.
  intros Hrb Hw Hh.
  rewrite image_alloc_pixels_eq by assumption.
  split.
  - intros cause ->. reflexivity.
  - intros Hnone. rewrite Hnone. eexists. split; [reflexivity|].
    rewrite length_fmap, length_seq.
    unfold alloc_failure_cause in Hnone.
    destruct (negb _ || _) eqn:Hv; [discriminate|].
    apply orb_false_iff in Hv as [Hv _]. apply negb_false_iff in Hv.
    fold (image_validate_dims img) in Hv.
    apply image_validate_dims_true in Hv. lia.
Qed.

(** ** BMP header checks *)

(** C6. [bmp_read] fails, returning no image, on every input whose magic is
    not "BM", whose compression field is not zero, whose bit depth is neither
    24 nor 32, whose width is not positive, or whose height is zero or the
    least 32-bit integer. *)
Theorem bmp_read_rejects_bad_header (hp : heap) (max_pixels : Z)
    (file : list Z) :
  fh_type (bmp_file_header_of file) <> 0x4D42 \/
  ih_compression (bmp_info_header_of file) <> 0 \/
  (ih_bit_count (bmp_info_header_of file) <> 24 /\
   ih_bit_count (bmp_info_header_of file) <> 32) \/
  ih_width (bmp_info_header_of file) <= 0 \/
  ih_height (bmp_info_header_of file) = 0 \/
  ih_height (bmp_info_header_of file) = INT32_MIN ->
  bmp_read hp max_pixels file = Fail.
Proof.
  unfold bmp_file_header_of, bmp_info_header_of, bmp_read, read_bytes.
  intros Hbad.
  destruct (Z.of_nat (length file) <? sizeof_bmp_file_header); [reflexivity|].
  destruct (Z.of_nat (length (drop _ file)) <? sizeof_bmp_info_header);
    [reflexivity|].
  change (Z.to_nat sizeof_bmp_file_header) with 14%nat.
  change (Z.to_nat sizeof_bmp_info_header) with 40%nat.
  set (fh := get_bmp_file_header (take 14 file)) in *.
  set (ih := get_bmp_info_header (take 40 (drop 14 file))) in *.
  destruct (Z.eqb_spec (fh_type fh) 0x4D42) as [Ht|Ht]; [|reflexivity].
  destruct (Z.eqb_spec (ih_compression ih) 0) as [Hc|Hc]; [|reflexivity].
  destruct (Z.eqb_spec (ih_bit_count ih) 24) as [Hb|Hb];
    destruct (Z.eqb_spec (ih_bit_count ih) 32) as [Hb'|Hb'];
    try reflexivity;
    (destruct (Z.leb_spec (ih_width ih) 0) as [Hw|Hw]; [reflexivity|];
     destruct (INT_MAX <? ih_width ih); [reflexivity|];
     destruct (Z.eqb_spec (ih_height ih) 0) as [Hh|Hh]; [reflexivity|];
     destruct (Z.eqb_spec (ih_height ih) INT32_MIN) as [Hm|Hm]; [reflexivity|];
     exfalso; simpl in *; intuition congruence || lia).
Qed.

(** ** QOI encoder: the loop as a sequence of iterations *)

Lemma load_byte_at buf i :
  0 <= i < Z.of_nat (length buf) ->
  load buf i = Ok (byte_at buf (Z.to_nat i)).
Proof.
  intros Hi. unfold load, byte_at.
  destruct (Z.ltb_spec i 0); [lia|].
  destruct (lookup_lt_is_Some_2 buf (Z.to_nat i)) as [v Hv]; [lia|].
  rewrite Hv. reflexivity.
Qed.

Lemma image_wf_size img :
  image_wf img -> 0 < pixel_count_of img /\ 3 <= channels img <= 4.
Proof. unfold image_wf, pixel_count_of. intros (? & ? & ? & ? & ?). nia. Qed.

Lemma qoi_fetch_pixel_at img i :
  image_wf img ->
  pixel_count_of img * channels img <= SIZE_MAX ->
  0 <= i < pixel_count_of img ->
  qoi_fetch (channels img) (pixels img)
            (to_size_t (i * to_size_t (channels img))) = Ok (pixel_at img i).
Proof.
  intros Hwf Hfit Hi. pose proof (image_wf_size _ Hwf) as [Hpc Hch].
  destruct Hwf as (_ & _ & Hc & Hlen & _).
  fold (pixel_count_of img) in Hlen.
  pose proof SIZE_MAX_ge as HS. unfold UINT32_MAX in HS.
  rewrite (to_size_t_small (channels img)) by lia.
  rewrite to_size_t_small by nia.
  unfold qoi_fetch, pixel_at.
  rewrite !load_byte_at by nia. simpl.
  replace (Z.to_nat (i * channels img + 1)) with (Z.to_nat (i * channels img) + 1)%nat by lia.
  replace (Z.to_nat (i * channels img + 2)) with (Z.to_nat (i * channels img) + 2)%nat by lia.
  destruct (Z.eqb_spec (channels img) 3); [reflexivity|].
  rewrite load_byte_at by nia. simpl.
  replace (Z.to_nat (i * channels img + 3)) with (Z.to_nat (i * channels img) + 3)%nat by lia.
  reflexivity.
Qed.

Lemma qoi_emitted_cons img k n :
  qoi_emitted img k (S n) = qoi_emit img k ++ qoi_emitted img (S k) n.
Proof. reflexivity. Qed.

Lemma qoi_emitted_app img k n m :
  qoi_emitted img k (n + m) = qoi_emitted img k n ++ qoi_emitted img (k + n) m.
Proof.
  unfold qoi_emitted. rewrite seq_app, fmap_app, concat_app. reflexivity.
Qed.

Lemma qoi_write_loop_emitted img n k :
  image_wf img ->
  pixel_count_of img * channels img <= SIZE_MAX ->
  Z.of_nat (k + n) = pixel_count_of img ->
  qoi_write_loop img (pixel_count_of img) n (Z.of_nat k)
                 (qoi_state img k).1.1 (qoi_state img k).1.2 (qoi_state img k).2
  = Ok (qoi_emitted img k n).
Proof.
  intros Hwf Hfit. revert k. induction n as [|n IH]; intros k Hk.
  - reflexivity.
  - cbn [qoi_write_loop].
    rewrite qoi_fetch_pixel_at by (assumption || lia). cbn [bind].
    rewrite qoi_emitted_cons. unfold qoi_emit.
    specialize (IH (S k)). cbn [qoi_state] in IH.
    destruct (qoi_state img k) as [[index px_prev] run]. cbn [fst snd].
    destruct (qoi_write_px _ index px_prev run _) as [[bytes index'] run'].
    cbn [fst snd] in *.
    replace (Z.of_nat k + 1) with (Z.of_nat (S k)) by lia.
    rewrite IH by lia. reflexivity.
Qed.

(** The encoder succeeds whenever its output buffer can be sized and
    allocated, and its output is the header, the bytes of the iterations
    and the end marker. *)
Lemma qoi_write_eq hp img :
  image_wf img ->
  pixel_count_of img * (channels img + 1) + 22 <= SIZE_MAX ->
  can_alloc hp (pixel_count_of img * (channels img + 1) + 22) = true ->
  qoi_write hp img =
    Ok (qoi_header img ++
        qoi_emitted img 0 (Z.to_nat (pixel_count_of img)) ++ qoi_end_marker).
Proof.
  intros Hwf Hfit Halloc. pose proof (image_wf_size _ Hwf) as [Hpc Hch].
  pose proof Hwf as (Hw & Hh & Hc & Hlen & _).
  unfold qoi_write.
  replace (image_validate_dims img) with true
    by (symmetry; apply image_validate_dims_true; lia).
  cbn [negb].
  pose proof SIZE_MAX_ge as HS. unfold UINT32_MAX in HS.
  rewrite (to_size_t_int (width img)), (to_size_t_int (height img)),
    (to_size_t_int (channels img)) by (unfold INT_MAX in *; lia).
  rewrite (to_size_t_small (channels img + 1)) by lia.
  rewrite checked_mul_size_eq by lia. fold (pixel_count_of img).
  destruct (Z.leb_spec (pixel_count_of img) SIZE_MAX); [|nia]. cbn [checked bind].
  rewrite checked_mul_size_eq by lia.
  destruct (Z.leb_spec (pixel_count_of img * (channels img + 1)) SIZE_MAX); [|nia].
  cbn [checked bind]. unfold QOI_HEADER_SIZE, QOI_END_MARKER_SIZE.
  rewrite checked_add_size_eq by nia.
  destruct (Z.leb_spec (14 + pixel_count_of img * (channels img + 1)) SIZE_MAX); [|nia].
  cbn [checked bind].
  rewrite checked_add_size_eq by nia.
  destruct (Z.leb_spec (14 + pixel_count_of img * (channels img + 1) + 8) SIZE_MAX); [|nia].
  cbn [checked bind]. unfold malloc.
  replace (14 + pixel_count_of img * (channels img + 1) + 8)
    with (pixel_count_of img * (channels img + 1) + 22) by lia.
  rewrite Halloc. cbn [alloc_or_fail bind].
  pose proof (qoi_write_loop_emitted img (Z.to_nat (pixel_count_of img)) 0 Hwf) as Hloop.
  cbn [qoi_state fst snd] in Hloop. change (Z.of_nat 0) with 0 in Hloop.
  rewrite Hloop by nia. reflexivity.
Qed.

(** ** QOI encoder: one iteration *)

Lemma px_eqb_eq p q : px_eqb p q = true <-> p = q.
Proof.
  destruct p, q. unfold px_eqb. cbn [px_r px_g px_b px_a].
  rewrite !andb_true_iff, !Z.eqb_eq. split.
  - intros [[[-> ->] ->] ->]. reflexivity.
  - intros [= -> -> -> ->]. auto.
Qed.

Lemma px_eqb_refl p : px_eqb p p = true.
Proof. apply px_eqb_eq. reflexivity. Qed.

Lemma px_eqb_neq p q : p <> q -> px_eqb p q = false.
Proof.
  intros Hne. destruct (px_eqb p q) eqn:E; [|reflexivity].
  apply px_eqb_eq in E. contradiction.
Qed.

Lemma qoi_hash_range px : 0 <= qoi_hash px < 64.
Proof. unfold qoi_hash. apply Z.mod_pos_bound. lia. Qed.

Lemma index_get_set_eq index i px :
  length index = 64%nat -> 0 <= i < 64 ->
  index_get (index_set index i px) i = px.
Proof.
  intros Hlen Hi. unfold index_get, index_set.
  rewrite list_lookup_insert_eq by lia. reflexivity.
Qed.

Lemma index_get_set_ne index i j px :
  0 <= i -> 0 <= j -> i <> j ->
  index_get (index_set index i px) j = index_get index j.
Proof.
  intros Hi Hj Hne. unfold index_get, index_set.
  rewrite list_lookup_insert_ne by lia. reflexivity.
Qed.

Lemma index_set_get index i px :
  length index = 64%nat -> 0 <= i < 64 ->
  index_get index i = px -> index_set index i px = index.
Proof.
  intros Hlen Hi Hget. unfold index_get, index_set in *.
  apply list_insert_id.
  destruct (lookup_lt_is_Some_2 index (Z.to_nat i)) as [v Hv]; [lia|].
  rewrite Hv in *. simpl in Hget. congruence.
Qed.

Lemma length_index_set index i px :
  length (index_set index i px) = length index.
Proof. apply length_insert. Qed.

(** A pixel equal to the previous one only extends the run. *)
Lemma qoi_write_px_same last index px_prev run :
  qoi_write_px last index px_prev run px_prev =
    if (run + 1 =? 62) || last then ([qoi_run_op (run + 1)], index, 0)
    else ([], index, run + 1).
Proof. unfold qoi_write_px. rewrite px_eqb_refl. reflexivity. Qed.

(** A pixel different from the previous one flushes the run, leaves the
    pixel in its index slot and touches no other slot. *)
Lemma qoi_write_px_new last index px_prev run px :
  px <> px_prev -> length index = 64%nat ->
  exists op index',
    qoi_write_px last index px_prev run px =
      ((if 0 <? run then [qoi_run_op run] else []) ++ op, index', 0) /\
    length index' = 64%nat /\
    index_get index' (qoi_hash px) = px /\
    (forall j, 0 <= j -> j <> qoi_hash px ->
               index_get index' j = index_get index j).
Proof.
  intros Hne Hlen. pose proof (qoi_hash_range px) as Hh.
  unfold qoi_write_px. rewrite (px_eqb_neq _ _ Hne).
  destruct (px_eqb (index_get index (qoi_hash px)) px) eqn:Hhit.
  - apply px_eqb_eq in Hhit. eexists _, index. repeat split; auto.
  - assert (Hset : length (index_set index (qoi_hash px) px) = 64%nat)
      by (rewrite length_index_set; exact Hlen).
    assert (Hget : index_get (index_set index (qoi_hash px) px) (qoi_hash px) = px)
      by (apply index_get_set_eq; assumption).
    assert (Hoth : forall j, 0 <= j -> j <> qoi_hash px ->
              index_get (index_set index (qoi_hash px) px) j = index_get index j)
      by (intros; apply index_get_set_ne; lia).
    destruct (px_a px =? px_a px_prev).
    + repeat match goal with |- context [if ?c then _ else _] =>
        lazymatch c with
        | 0 <? run => fail
        | _ => destruct c
        end end;
      eexists _, _; (split; [reflexivity|]); auto.
    + eexists _, _; (split; [reflexivity|]); auto.
Qed.

(** A pixel that differs from the previous one and sits in its index slot
    is written as the one byte [QOI_OP_INDEX | hash]. *)
Lemma qoi_write_px_hit last index px_prev px :
  px <> px_prev -> index_get index (qoi_hash px) = px ->
  qoi_write_px last index px_prev 0 px =
    ([Z.lor QOI_OP_INDEX (qoi_hash px)], index, 0).
Proof.
  intros Hne Hget. pose proof (qoi_hash_range px) as Hh.
  unfold qoi_write_px. rewrite (px_eqb_neq _ _ Hne), Hget, px_eqb_refl.
  cbn [Z.ltb Z.compare app]. unfold QOI_OP_INDEX, to_uint8.
  rewrite Z.lor_0_l, Z.mod_small by lia. reflexivity.
Qed.

Lemma qoi_state_S img k :
  qoi_state img (S k) =
    let '(index, px_prev, run) := qoi_state img k in
    let '(_, index', run') :=
      qoi_write_px (Z.of_nat k =? pixel_count_of img - 1)
                   index px_prev run (pixel_at img (Z.of_nat k)) in
    (index', pixel_at img (Z.of_nat k), run').
Proof. reflexivity. Qed.

Lemma qoi_state_prev img k : (qoi_state img k).1.2 = qoi_prev_pixel img k.
Proof.
  destruct k as [|k]; [reflexivity|].
  rewrite qoi_state_S. destruct (qoi_state img k) as [[index px_prev] run].
  destruct (qoi_write_px _ _ _ _ _) as [[? ?] ?]. reflexivity.
Qed.

Lemma qoi_state_index_length img k : length (qoi_state img k).1.1 = 64%nat.
Proof.
  induction k as [|k IH]; [reflexivity|].
  rewrite qoi_state_S. destruct (qoi_state img k) as [[index px_prev] run].
  cbn [fst snd] in IH.
  destruct (px_eqb (pixel_at img (Z.of_nat k)) px_prev) eqn:E.
  - apply px_eqb_eq in E. rewrite E, qoi_write_px_same.
    destruct (_ || _); exact IH.
  - destruct (qoi_write_px_new (Z.of_nat k =? pixel_count_of img - 1)
                index px_prev run (pixel_at img (Z.of_nat k)))
      as (op & index' & -> & Hl & _); [|exact IH|exact Hl].
    intros Heq. rewrite Heq, px_eqb_refl in E. discriminate.
Qed.

(** ** QOI decoder: the loop, one operation at a time *)

Lemma qoi_read_loop_unfold ch px_end f index px px_pos buf :
  qoi_read_loop ch px_end f index px px_pos buf =
    if px_pos <? px_end then
      match qoi_next_op f index px with
      | None => Fail
      | Some (OpPixel px', f') =>
        do buf' <- memcpy_to buf px_pos (px_bytes ch px') ;
        qoi_read_loop ch px_end f' (index_set index (qoi_hash px') px') px'
                      (to_size_t (px_pos + ch)) buf'
      | Some (OpRun run, f') =>
        do '(px_pos', buf') <-
          qoi_read_run ch px_end px (Z.to_nat run) px_pos buf ;
        qoi_read_loop ch px_end f' index px px_pos' buf'
      end
    else Ok (buf, f).
Proof.
  destruct f as [|c f1]; cbn [qoi_read_loop qoi_next_op].
  - destruct (px_pos <? px_end); reflexivity.
  - destruct (px_pos <? px_end); [|reflexivity].
    cbv zeta.
    repeat match goal with
           | |- context [if ?c then _ else _] =>
             lazymatch c with
             | (_ =? _) => destruct c
             end
           | |- context [match ?l with [] => _ | _ :: _ => _ end] =>
             is_var l; destruct l
           | |- _ => reflexivity
           end.
Qed.

Lemma qoi_next_op_app f index px op f' :
  qoi_next_op f index px = Some (op, f') ->
  exists used,
    f = used ++ f' /\ (0 < length used)%nat /\
    forall t, qoi_next_op (used ++ t) index px = Some (op, t).
Proof.
  destruct f as [|c f1]; [discriminate|]. cbn [qoi_next_op]. cbv zeta.
  repeat match goal with
         | |- context [if ?c then _ else _] =>
           lazymatch c with
           | (_ =? _) => destruct c eqn:?
           end
         | |- context [match ?l with [] => _ | _ :: _ => _ end] =>
           is_var l; destruct l
         end;
    try discriminate; intros [= <- <-];
    match goal with
    | |- exists used, ?a :: ?t = used ++ ?t /\ _ => exists [a]
    | |- exists used, ?a :: ?b :: ?t = used ++ ?t /\ _ => exists [a; b]
    | |- exists used, ?a :: ?b :: ?c :: ?d :: ?t = used ++ ?t /\ _ =>
      exists [a; b; c; d]
    | |- exists used, ?a :: ?b :: ?c :: ?d :: ?e :: ?t = used ++ ?t /\ _ =>
      exists [a; b; c; d; e]
    end;
    (split; [reflexivity|]); (split; [simpl; lia|]);
    intros t; cbn [app qoi_next_op]; cbv zeta;
    repeat match goal with H : _ = _ |- _ => rewrite H end; reflexivity.
Qed.

(** ** Writing into the pixel buffer *)

Lemma list_inserts_take_drop {A} (l k : list A) (i : nat) :
  (i + length k <= length l)%nat ->
  list_inserts i k l = take i l ++ k ++ drop (i + length k) l.
Proof.
  intros Hlen.
  rewrite <- (take_drop i l) at 1.
  replace i with (length (take i l) + 0)%nat at 1
    by (rewrite length_take; lia).
  rewrite list_inserts_app_r. f_equal.
  rewrite <- (take_drop (length k) (drop i l)) at 1.
  rewrite list_inserts_0_r by (rewrite length_take, length_drop; lia).
  rewrite drop_drop. reflexivity.
Qed.

Lemma memcpy_to_eq buf pos src :
  0 <= pos -> pos + Z.of_nat (length src) <= Z.of_nat (length buf) ->
  memcpy_to buf pos src =
    Ok (take (Z.to_nat pos) buf ++ src ++
        drop (Z.to_nat pos + length src) buf).
Proof.
  intros Hpos Hlen. unfold memcpy_to.
  destruct (Z.leb_spec 0 pos); [|lia].
  destruct (Z.leb_spec (pos + Z.of_nat (length src)) (Z.of_nat (length buf)));
    [|lia].
  cbn [andb]. rewrite list_inserts_take_drop by lia. reflexivity.
Qed.

Lemma length_px_bytes ch px :
  3 <= ch <= 4 -> length (px_bytes ch px) = Z.to_nat ch.
Proof.
  intros Hch. unfold px_bytes. rewrite length_take. cbn [length]. lia.
Qed.

Lemma length_concat_replicate {A} (n : nat) (l : list A) :
  length (concat (replicate n l)) = (n * length l)%nat.
Proof.
  induction n as [|n IH]; [reflexivity|].
  cbn [replicate concat]. rewrite length_app, IH. lia.
Qed.

(** The inner loop of a run writes the pixel until the run or the image
    ends, whichever comes first. *)
Lemma qoi_read_run_eq ch N px run m buf :
  3 <= ch <= 4 -> N * ch <= SIZE_MAX ->
  0 <= m <= N -> Z.of_nat (length buf) = N * ch ->
  qoi_read_run ch (N * ch) px run (m * ch) buf =
    Ok ((m + Z.min (Z.of_nat run) (N - m)) * ch,
        take (Z.to_nat (m * ch)) buf ++
        concat (replicate (Z.to_nat (Z.min (Z.of_nat run) (N - m)))
                          (px_bytes ch px)) ++
        drop (Z.to_nat ((m + Z.min (Z.of_nat run) (N - m)) * ch)) buf).
Proof.
  intros Hch HN. revert m buf.
  induction run as [|run IH]; intros m buf Hm Hlen.
  - cbn [qoi_read_run]. replace (Z.min (Z.of_nat 0) (N - m)) with 0 by lia.
    rewrite Z.add_0_r. change (Z.to_nat 0) with 0%nat.
    cbn [replicate concat app]. rewrite take_drop. reflexivity.
  - cbn [qoi_read_run].
    destruct (Z.ltb_spec (m * ch) (N * ch)) as [Hlt|Hge].
    + assert (m < N) by nia.
      assert (0 <= m * ch /\ m * ch + ch <= N * ch) as [? ?] by nia.
      pose proof (length_px_bytes ch px Hch) as Hpb.
      rewrite memcpy_to_eq by lia. cbn [bind].
      rewrite to_size_t_small by nia.
      replace (m * ch + ch) with ((m + 1) * ch) by lia.
      rewrite IH; [|lia|rewrite !length_app, length_take, length_drop; lia].
      replace (Z.min (Z.of_nat (S run)) (N - m))
        with (1 + Z.min (Z.of_nat run) (N - (m + 1))) by lia.
      set (k := Z.min (Z.of_nat run) (N - (m + 1))).
      assert (0 <= k) by lia.
      replace (m + (1 + k)) with (m + 1 + k) by lia.
      f_equal. f_equal.
      replace (Z.to_nat (1 + k)) with (S (Z.to_nat k)) by lia.
      cbn [replicate concat]. rewrite <- !app_assoc.
      rewrite (app_assoc (take _ buf)).
      rewrite take_app_length'
        by (rewrite length_app, length_take; nia).
      rewrite <- !app_assoc. do 3 f_equal.
      rewrite (app_assoc (take _ buf)).
      replace (Z.to_nat ((m + 1 + k) * ch))
        with (length (take (Z.to_nat (m * ch)) buf ++ px_bytes ch px)
              + Z.to_nat (k * ch))%nat
        by (rewrite length_app, length_take; nia).
      rewrite drop_app_add, drop_drop. f_equal.
      rewrite length_app, length_take. nia.
    + assert (m = N) by nia. subst m.
      replace (Z.min (Z.of_nat (S run)) (N - N)) with 0 by lia.
      rewrite Z.add_0_r. change (Z.to_nat 0) with 0%nat.
      cbn [replicate concat app]. rewrite take_drop. reflexivity.
Qed.

(** ** QOI decoder: every write stays inside the buffer *)

Lemma qoi_read_loop_defined ch N n :
  3 <= ch <= 4 -> N * ch <= SIZE_MAX ->
  forall f index px m buf,
    (length f <= n)%nat ->
    0 <= m <= N -> Z.of_nat (length buf) = N * ch ->
    qoi_read_loop ch (N * ch) f index px (m * ch) buf <> Undef.
Proof.
  intros Hch HN. induction n as [|n IH]; intros f index px m buf Hf Hm Hlen;
    rewrite qoi_read_loop_unfold;
    (destruct (Z.ltb_spec (m * ch) (N * ch)) as [Hlt|Hge]; [|discriminate]);
    (destruct (qoi_next_op f index px) as [[op f']|] eqn:Hop; [|discriminate]);
    apply qoi_next_op_app in Hop as (used & -> & Hused & _);
    rewrite length_app in Hf; [lia|].
  assert (m < N) by nia.
  assert (0 <= m * ch /\ m * ch + ch <= N * ch) as [? ?] by nia.
  destruct op as [px'|run].
  - rewrite memcpy_to_eq by (rewrite ?length_px_bytes by lia; lia).
    cbn [bind]. rewrite to_size_t_small by lia.
    replace (m * ch + ch) with ((m + 1) * ch) by lia.
    apply IH; [lia | lia |].
    rewrite !length_app, length_take, length_drop, length_px_bytes by lia. lia.
  - rewrite qoi_read_run_eq by (assumption || lia). cbn [bind].
    apply IH; [lia | lia |].
    rewrite !length_app, length_take, length_drop, length_concat_replicate,
      length_px_bytes by lia.
    nia.
Qed.

Lemma qoi_read_stream_defined hp max_pixels f :
  qoi_read_stream hp max_pixels f <> Undef.
Proof.
  unfold qoi_read_stream.
  destruct (read_bytes f QOI_HEADER_SIZE) as [[header f0]|]; [|discriminate].
  destruct (negb _); [discriminate|].
  destruct (_ || _); [discriminate|].
  set (ch := byte_at header 12).
  destruct (Z.eqb_spec ch 3) as [H3|H3];
    [|destruct (Z.eqb_spec ch 4) as [H4|H4]; [|discriminate]].
  all: cbn [negb andb].
  all: pose proof SIZE_MAX_ge as HS; unfold UINT32_MAX in HS.
  all: set (a := to_size_t (qoi_read32be (drop 4 header))).
  all: set (b := to_size_t (qoi_read32be (drop 8 header))).
  all: assert (0 <= a /\ 0 <= b) as [Ha Hb]
    by (split; apply Z.mod_pos_bound; lia).
  all: rewrite (checked_mul_size_eq a b) by lia.
  all: destruct (Z.leb_spec (a * b) SIZE_MAX); [|discriminate].
  all: cbn [checked bind].
  all: rewrite (to_size_t_small ch) by lia.
  all: rewrite checked_mul_size_eq by lia.
  all: destruct (Z.leb_spec (a * b * ch) SIZE_MAX); [|discriminate].
  all: cbn [checked bind].
  all: destruct (negb _); [discriminate|].
  all: destruct (malloc hp (a * b * ch)) as [buf|] eqn:Hbuf; [|discriminate].
  all: cbn [alloc_or_fail bind].
  all: rewrite to_size_t_small by lia.
  all: apply length_malloc in Hbuf.
  all: pose proof (qoi_read_loop_defined ch (a * b) (length f0) ltac:(lia)
                     ltac:(lia) f0 qoi_index_init qoi_px_init 0 buf
                     ltac:(lia) ltac:(nia) ltac:(nia)) as Hloop.
  all: rewrite Z.mul_0_l in Hloop.
  all: destruct (qoi_read_loop _ _ _ _ _ _ _) as [[out rest]| |];
    [discriminate | discriminate | contradiction].
Qed.

(** A run that is longer than what is left of the image stops at the end
    of the image, and the loop ends there with success. *)
Lemma qoi_read_loop_run_clamped ch N c f index px m buf :
  3 <= ch <= 4 -> N * ch <= SIZE_MAX ->
  0 <= m < N -> Z.of_nat (length buf) = N * ch ->
  0xc0 <= c <= 0xfd ->
  N - m <= Z.land c 0x3f + 1 ->
  qoi_read_loop ch (N * ch) (c :: f) index px (m * ch) buf =
    Ok (take (Z.to_nat (m * ch)) buf ++
        concat (replicate (Z.to_nat (N - m)) (px_bytes ch px)), f).
Proof.
  intros Hch HN Hm Hlen Hc Hrun.
  rewrite qoi_read_loop_unfold.
  destruct (Z.ltb_spec (m * ch) (N * ch)); [|nia].
  assert (Hop : qoi_next_op (c :: f) index px =
                Some (OpRun (Z.land c 0x3f + 1), f)).
  { cbn [qoi_next_op]. cbv zeta. unfold to_uint8.
    rewrite Z.mod_small by lia.
    assert (Hbits : forallb (fun c =>
              negb (c =? QOI_OP_RGB) && negb (c =? QOI_OP_RGBA) &&
              (Z.land c QOI_MASK_2 =? QOI_OP_RUN)) (seqZ 0xc0 62) = true)
      by (vm_compute; reflexivity).
    rewrite forallb_forall in Hbits. specialize (Hbits c).
    rewrite <- list_elem_of_In, elem_of_seqZ in Hbits.
    specialize (Hbits ltac:(lia)).
    apply andb_true_iff in Hbits as [Hbits Hr].
    apply andb_true_iff in Hbits as [H1 H2].
    apply negb_true_iff in H1, H2. rewrite H1, H2.
    apply Z.eqb_eq in Hr. rewrite Hr. reflexivity. }
  rewrite Hop. rewrite qoi_read_run_eq by (assumption || lia). cbn [bind].
  assert (0 <= Z.land c 0x3f) by (apply Z.land_nonneg; lia).
  replace (Z.min (Z.of_nat (Z.to_nat (Z.land c 0x3f + 1))) (N - m))
    with (N - m) by lia.
  replace (m + (N - m)) with N by lia.
  rewrite qoi_read_loop_unfold.
  destruct (Z.ltb_spec (N * ch) (N * ch)); [lia|].
  rewrite drop_ge by lia. rewrite app_nil_r. reflexivity.
Qed.

(** ** QOI decoder: nothing is read past the last operation *)

Lemma qoi_read_loop_rest ch px_end n :
  forall f index px px_pos buf out rest,
    (length f <= n)%nat ->
    qoi_read_loop ch px_end f index px px_pos buf = Ok (out, rest) ->
    exists used,
      f = used ++ rest /\
      forall t,
        qoi_read_loop ch px_end (used ++ t) index px px_pos buf = Ok (out, t).
Proof.
  induction n as [|n IH]; intros f index px px_pos buf out rest Hf;
    rewrite qoi_read_loop_unfold;
    (destruct (px_pos <? px_end) eqn:Hpos;
     [| intros [= <- <-]; exists []; split; [reflexivity|];
        intros t; rewrite qoi_read_loop_unfold, Hpos; reflexivity]);
    (destruct (qoi_next_op f index px) as [[op f']|] eqn:Hop; [|discriminate]);
    apply qoi_next_op_app in Hop as (pre & -> & Hpre & Hop);
    rewrite length_app in Hf; [lia|].
  destruct op as [px'|run].
  - destruct (memcpy_to buf px_pos (px_bytes ch px')) as [buf'| |] eqn:Hm;
      [|discriminate|discriminate].
    cbn [bind]. intros Hloop.
    apply IH in Hloop as (used & -> & Hused); [|lia].
    exists (pre ++ used). split; [rewrite app_assoc; reflexivity|].
    intros t. rewrite qoi_read_loop_unfold, Hpos, <- app_assoc, Hop, Hm.
    cbn [bind]. apply Hused.
  - destruct (qoi_read_run ch px_end px (Z.to_nat run) px_pos buf)
      as [[px_pos' buf']| |] eqn:Hm; [|discriminate|discriminate].
    cbn [bind]. intros Hloop.
    apply IH in Hloop as (used & -> & Hused); [|lia].
    exists (pre ++ used). split; [rewrite app_assoc; reflexivity|].
    intros t. rewrite qoi_read_loop_unfold, Hpos, <- app_assoc, Hop, Hm.
    cbn [bind]. apply Hused.
Qed.

Lemma read_bytes_app f len hd tl t :
  read_bytes f len = Some (hd, tl) ->
  f = hd ++ tl /\ read_bytes (f ++ t) len = Some (hd, tl ++ t).
Proof.
  unfold read_bytes.
  destruct (Z.ltb_spec (Z.of_nat (length f)) len) as [Hlt|Hge]; [discriminate|].
  intros [= <- <-]. split; [symmetry; apply take_drop|].
  rewrite length_app.
  destruct (Z.ltb_spec (Z.of_nat (length f + length t)) len); [lia|].
  rewrite take_app_le, drop_app_le by lia. reflexivity.
Qed.

Lemma qoi_read_stream_rest hp max_pixels f img rest :
  qoi_read_stream hp max_pixels f = Ok (img, rest) ->
  exists used,
    f = used ++ rest /\
    forall t, qoi_read_stream hp max_pixels (used ++ t) = Ok (img, t).
Proof.
  unfold qoi_read_stream.
  destruct (read_bytes f QOI_HEADER_SIZE) as [[header f0]|] eqn:Hhdr;
    [|discriminate].
  intros Hrun.
  assert (Hcut : exists used0,
            f0 = used0 ++ rest /\
            forall t,
              match read_bytes (header ++ used0 ++ t) QOI_HEADER_SIZE with
              | Some (header', f0') => header' = header /\ f0' = used0 ++ t
              | None => False
              end).
  { destruct (read_bytes_app f QOI_HEADER_SIZE header f0 [] Hhdr) as [Hf _].
    revert Hrun.
    repeat match goal with
           | |- context [if ?c then _ else _] => destruct c; [discriminate|]
           end.
    destruct (checked _) as [pixel_count| |]; [|discriminate|discriminate].
    cbn [bind].
    destruct (checked _) as [pixel_bytes| |]; [|discriminate|discriminate].
    cbn [bind].
    destruct (negb _); [discriminate|].
    destruct (alloc_or_fail _) as [buf| |]; [|discriminate|discriminate].
    cbn [bind].
    destruct (qoi_read_loop _ _ f0 _ _ _ _) as [[out rest']| |] eqn:Hloop;
      [|discriminate|discriminate].
    cbn [bind]. intros [= <- <-].
    apply (qoi_read_loop_rest _ _ (length f0)) in Hloop as (used0 & -> & _);
      [|lia].
    exists used0. split; [reflexivity|]. intros t.
    destruct (read_bytes_app _ QOI_HEADER_SIZE header (used0 ++ rest') [] Hhdr)
      as [_ Hrb].
    unfold read_bytes in Hhdr |- *.
    destruct (Z.ltb_spec (Z.of_nat (length f)) QOI_HEADER_SIZE);
      [discriminate|].
    injection Hhdr as Hh Ht.
    assert (length header = 14%nat).
    { rewrite <- Hh, length_take. unfold QOI_HEADER_SIZE in *. lia. }
    rewrite length_app.
    destruct (Z.ltb_spec (Z.of_nat (length header + length (used0 ++ t)))
                         QOI_HEADER_SIZE);
      [unfold QOI_HEADER_SIZE in *; lia|].
    change (Z.to_nat QOI_HEADER_SIZE) with 14%nat.
    rewrite take_app_length', drop_app_length' by congruence. auto. }
  destruct Hcut as (used0 & -> & Hcut).
  destruct (read_bytes_app f QOI_HEADER_SIZE header (used0 ++ rest) [] Hhdr)
    as [-> _].
  exists (header ++ used0). split; [rewrite app_assoc; reflexivity|].
  intros t. specialize (Hcut t). rewrite <- app_assoc.
  destruct (read_bytes (header ++ used0 ++ t) QOI_HEADER_SIZE)
    as [[header' f0']|]; [|contradiction].
  destruct Hcut as [-> ->].
  revert Hrun.
  repeat match goal with
         | |- context [if ?c then _ else _] => destruct c; [discriminate|]
         end.
  destruct (checked _) as [pixel_count| |]; [|discriminate|discriminate].
  cbn [bind].
  destruct (checked _) as [pixel_bytes| |]; [|discriminate|discriminate].
  cbn [bind].
  destruct (negb _); [discriminate|].
  destruct (alloc_or_fail _) as [buf| |]; [|discriminate|discriminate].
  cbn [bind].
  destruct (qoi_read_loop _ _ (used0 ++ rest) _ _ _ _) as [[out rest']| |]
    eqn:Hloop; [|discriminate|discriminate].
  cbn [bind]. intros [= <- <-].
  apply (qoi_read_loop_rest _ _ (length (used0 ++ rest'))) in Hloop
    as (used1 & Heq & Hused1); [|lia].
  apply app_inv_tail in Heq as ->.
  rewrite Hused1. reflexivity.
Qed.

(** ** QOI encoder: runs *)

Lemma qoi_emitted_snoc img k n :
  qoi_emitted img k (S n) = qoi_emitted img k n ++ qoi_emit img (k + n).
Proof.
  replace (S n) with (n + 1)%nat by lia. rewrite qoi_emitted_app.
  unfold qoi_emitted at 2. cbn [seq fmap list_fmap concat].
  rewrite app_nil_r. reflexivity.
Qed.

(** While the pixels repeat the previous one, the run is short of 62 and
    the image has not ended, nothing is written. *)
Lemma qoi_state_run img k m index p run :
  qoi_state img k = (index, p, run) ->
  (forall j, (j < m)%nat -> pixel_at img (Z.of_nat (k + j)) = p) ->
  run + Z.of_nat m < 62 ->
  Z.of_nat (k + m) <= pixel_count_of img - 1 ->
  qoi_state img (k + m) = (index, p, run + Z.of_nat m) /\
  qoi_emitted img k m = [].
Proof.
  intros Hst. induction m as [|m IH]; intros Hpx Hrun Hend.
  - rewrite Nat.add_0_r, Z.add_0_r. split; [exact Hst | reflexivity].
  - destruct IH as [IHst IHem]; [intros; apply Hpx; lia | lia | lia |].
    replace (k + S m)%nat with (S (k + m)) by lia.
    rewrite qoi_state_S, qoi_emitted_snoc, IHem. unfold qoi_emit.
    rewrite IHst, (Hpx m) by lia. rewrite qoi_write_px_same.
    destruct (Z.eqb_spec (run + Z.of_nat m + 1) 62); [lia|].
    destruct (Z.eqb_spec (Z.of_nat (k + m)) (pixel_count_of img - 1)); [lia|].
    cbn [orb fst snd app]. split; [f_equal; lia | reflexivity].
Qed.

(** The 62nd pixel of a run ends it. *)
Lemma qoi_state_run_full img k index p :
  qoi_state img k = (index, p, 61) ->
  pixel_at img (Z.of_nat k) = p ->
  qoi_state img (S k) = (index, p, 0) /\ qoi_emit img k = [qoi_run_op 62].
Proof.
  intros Hst Hpx. unfold qoi_emit. rewrite qoi_state_S, Hst, Hpx.
  rewrite qoi_write_px_same. split; reflexivity.
Qed.

(** ** QOI: the operation bytes, bit by bit *)

Lemma forallb_seqZ (P : Z -> bool) (lo n x : Z) :
  forallb P (seqZ lo n) = true -> lo <= x < lo + n -> P x = true.
Proof.
  intros Hall Hx. rewrite forallb_forall in Hall. apply Hall.
  apply list_elem_of_In, elem_of_seqZ. lia.
Qed.

Ltac split_andb H :=
  repeat match type of H with
         | _ && _ = true =>
           let H' := fresh H in apply andb_true_iff in H as [H H']
         end.

Lemma run_op_bits run :
  1 <= run <= 62 ->
  to_uint8 (qoi_run_op run) = qoi_run_op run /\
  (qoi_run_op run =? QOI_OP_RGB) = false /\
  (qoi_run_op run =? QOI_OP_RGBA) = false /\
  (Z.land (qoi_run_op run) QOI_MASK_2 =? QOI_OP_INDEX) = false /\
  (Z.land (qoi_run_op run) QOI_MASK_2 =? QOI_OP_DIFF) = false /\
  (Z.land (qoi_run_op run) QOI_MASK_2 =? QOI_OP_LUMA) = false /\
  (Z.land (qoi_run_op run) QOI_MASK_2 =? QOI_OP_RUN) = true /\
  Z.land (qoi_run_op run) 0x3f + 1 = run.
Proof.
  intros Hrun.
  assert (Hall : forallb (fun r =>
      let b1 := qoi_run_op r in
      (to_uint8 b1 =? b1) && negb (b1 =? QOI_OP_RGB) &&
      negb (b1 =? QOI_OP_RGBA) &&
      negb (Z.land b1 QOI_MASK_2 =? QOI_OP_INDEX) &&
      negb (Z.land b1 QOI_MASK_2 =? QOI_OP_DIFF) &&
      negb (Z.land b1 QOI_MASK_2 =? QOI_OP_LUMA) &&
      (Z.land b1 QOI_MASK_2 =? QOI_OP_RUN) &&
      (Z.land b1 0x3f + 1 =? r)) (seqZ 1 62) = true)
    by (vm_compute; reflexivity).
  pose proof (forallb_seqZ _ _ _ run Hall ltac:(lia)) as H.
  cbv beta zeta in H. split_andb H.
  rewrite ?negb_true_iff, ?Z.eqb_eq in *. auto 10.
Qed.

Lemma index_op_bits h :
  0 <= h < 64 ->
  to_uint8 h = h /\
  (h =? QOI_OP_RGB) = false /\ (h =? QOI_OP_RGBA) = false /\
  (Z.land h QOI_MASK_2 =? QOI_OP_INDEX) = true.
Proof.
  intros Hh.
  assert (Hall : forallb (fun h =>
      (to_uint8 h =? h) && negb (h =? QOI_OP_RGB) && negb (h =? QOI_OP_RGBA) &&
      (Z.land h QOI_MASK_2 =? QOI_OP_INDEX)) (seqZ 0 64) = true)
    by (vm_compute; reflexivity).
  pose proof (forallb_seqZ _ _ _ h Hall ltac:(lia)) as H.
  cbv beta in H. split_andb H.
  rewrite ?negb_true_iff, ?Z.eqb_eq in *. auto.
Qed.

Lemma diff_op_bits a b c :
  0 <= a < 4 -> 0 <= b < 4 -> 0 <= c < 4 ->
  let b1 := to_uint8 (Z.lor (Z.lor (Z.lor QOI_OP_DIFF (Z.shiftl a 4))
                                   (Z.shiftl b 2)) c) in
  to_uint8 b1 = b1 /\
  (b1 =? QOI_OP_RGB) = false /\ (b1 =? QOI_OP_RGBA) = false /\
  (Z.land b1 QOI_MASK_2 =? QOI_OP_INDEX) = false /\
  (Z.land b1 QOI_MASK_2 =? QOI_OP_DIFF) = true /\
  Z.land (Z.shiftr b1 4) 0x03 = a /\
  Z.land (Z.shiftr b1 2) 0x03 = b /\
  Z.land b1 0x03 = c.
Proof.
  intros Ha Hb Hc.
  assert (Hall : forallb (fun a => forallb (fun b => forallb (fun c =>
      let b1 := to_uint8 (Z.lor (Z.lor (Z.lor QOI_OP_DIFF (Z.shiftl a 4))
                                       (Z.shiftl b 2)) c) in
      (to_uint8 b1 =? b1) && negb (b1 =? QOI_OP_RGB) &&
      negb (b1 =? QOI_OP_RGBA) &&
      negb (Z.land b1 QOI_MASK_2 =? QOI_OP_INDEX) &&
      (Z.land b1 QOI_MASK_2 =? QOI_OP_DIFF) &&
      (Z.land (Z.shiftr b1 4) 0x03 =? a) &&
      (Z.land (Z.shiftr b1 2) 0x03 =? b) &&
      (Z.land b1 0x03 =? c)) (seqZ 0 4)) (seqZ 0 4)) (seqZ 0 4) = true)
    by (vm_compute; reflexivity).
  pose proof (forallb_seqZ _ _ _ a Hall ltac:(lia)) as H1. cbv beta in H1.
  pose proof (forallb_seqZ _ _ _ b H1 ltac:(lia)) as H2. cbv beta in H2.
  pose proof (forallb_seqZ _ _ _ c H2 ltac:(lia)) as H. cbv beta zeta in H.
  split_andb H. cbv zeta.
  rewrite ?negb_true_iff, ?Z.eqb_eq in *. auto 10.
Qed.

Lemma luma_op_bits g x y :
  0 <= g < 64 -> 0 <= x < 16 -> 0 <= y < 16 ->
  let b1 := to_uint8 (Z.lor QOI_OP_LUMA g) in
  let b2 := to_uint8 (Z.lor (Z.shiftl x 4) y) in
  to_uint8 b1 = b1 /\ to_uint8 b2 = b2 /\
  (b1 =? QOI_OP_RGB) = false /\ (b1 =? QOI_OP_RGBA) = false /\
  (Z.land b1 QOI_MASK_2 =? QOI_OP_INDEX) = false /\
  (Z.land b1 QOI_MASK_2 =? QOI_OP_DIFF) = false /\
  (Z.land b1 QOI_MASK_2 =? QOI_OP_LUMA) = true /\
  Z.land b1 0x3f = g /\
  Z.land (Z.shiftr b2 4) 0x0f = x /\
  Z.land b2 0x0f = y.
Proof.
  intros Hg Hx Hy.
  assert (Hall1 : forallb (fun g =>
      let b1 := to_uint8 (Z.lor QOI_OP_LUMA g) in
      (to_uint8 b1 =? b1) && negb (b1 =? QOI_OP_RGB) &&
      negb (b1 =? QOI_OP_RGBA) &&
      negb (Z.land b1 QOI_MASK_2 =? QOI_OP_INDEX) &&
      negb (Z.land b1 QOI_MASK_2 =? QOI_OP_DIFF) &&
      (Z.land b1 QOI_MASK_2 =? QOI_OP_LUMA) &&
      (Z.land b1 0x3f =? g)) (seqZ 0 64) = true)
    by (vm_compute; reflexivity).
  assert (Hall2 : forallb (fun x => forallb (fun y =>
      let b2 := to_uint8 (Z.lor (Z.shiftl x 4) y) in
      (to_uint8 b2 =? b2) && (Z.land (Z.shiftr b2 4) 0x0f =? x) &&
      (Z.land b2 0x0f =? y)) (seqZ 0 16)) (seqZ 0 16) = true)
    by (vm_compute; reflexivity).
  pose proof (forallb_seqZ _ _ _ g Hall1 ltac:(lia)) as G. cbv beta zeta in G.
  pose proof (forallb_seqZ _ _ _ x Hall2 ltac:(lia)) as H1. cbv beta in H1.
  pose proof (forallb_seqZ _ _ _ y H1 ltac:(lia)) as H. cbv beta zeta in H.
  split_andb G. split_andb H. cbv zeta.
  rewrite ?negb_true_iff, ?Z.eqb_eq in *. auto 12.
Qed.

(** ** QOI: what the decoder makes of what the encoder writes *)

Lemma qoi_next_op_run run f index px :
  1 <= run <= 62 ->
  qoi_next_op (qoi_run_op run :: f) index px = Some (OpRun run, f).
Proof.
  intros Hrun.
  destruct (run_op_bits run Hrun) as (E0 & E1 & E2 & E3 & E4 & E5 & E6 & E7).
  cbn [qoi_next_op]. cbv zeta.
  rewrite E0, E1, E2, E3, E4, E5, E6, E7. reflexivity.
Qed.

(** With no run pending, the bytes written for a pixel that differs from
    the previous one decode to that pixel, and both sides leave the same
    index behind. *)
Lemma qoi_next_op_written last index px_prev px t :
  px <> px_prev -> length index = 64%nat ->
  px_is_bytes px -> px_is_bytes px_prev ->
  exists op,
    qoi_write_px last index px_prev 0 px =
      (op, index_set index (qoi_hash px) px, 0) /\
    qoi_next_op (op ++ t) index px_prev = Some (OpPixel px, t).
Proof.
  intros Hne Hlen (Hr & Hg & Hb & Ha) (Hr' & Hg' & Hb' & Ha').
  pose proof (qoi_hash_range px) as Hh.
  unfold qoi_write_px. rewrite (px_eqb_neq _ _ Hne).
  change (0 <? 0) with false. cbv zeta. cbn [app].
  destruct (px_eqb (index_get index (qoi_hash px)) px) eqn:Hhit.
  - apply px_eqb_eq in Hhit.
    rewrite (index_set_get index (qoi_hash px) px Hlen Hh Hhit).
    eexists. split; [reflexivity|].
    unfold QOI_OP_INDEX at 1. rewrite Z.lor_0_l.
    destruct (index_op_bits _ Hh) as (E0 & E1 & E2 & E3).
    rewrite E0. cbn [app qoi_next_op]. cbv zeta.
    rewrite E0, E1, E2, E3, Hhit. reflexivity.
  - destruct px as [r g b a], px_prev as [r' g' b' a'].
    cbn [px_r px_g px_b px_a] in *. unfold is_byte in *.
    destruct (Z.eqb_spec a a') as [->|Hna].
    + destruct (_ && _) eqn:Hdiff.
      * split_andb Hdiff. rewrite ?Z.ltb_lt in *.
        eexists. split; [reflexivity|].
        destruct (diff_op_bits (r - r' + 2) (g - g' + 2) (b - b' + 2))
          as (E0 & E1 & E2 & E3 & E4 & E5 & E6 & E7); [lia | lia | lia |].
        cbn [app qoi_next_op]. cbv zeta.
        rewrite E0, E1, E2, E3, E4, E5, E6, E7.
        cbn [px_r px_g px_b px_a]. unfold to_uint8.
        rewrite !Z.mod_small by lia. repeat f_equal; lia.
      * clear Hdiff. destruct (_ && _) eqn:Hluma.
        -- split_andb Hluma. rewrite ?Z.ltb_lt in *.
           eexists. split; [reflexivity|].
           destruct (luma_op_bits (g - g' + 32) (r - r' - (g - g') + 8)
                                  (b - b' - (g - g') + 8))
             as (E0 & E0' & E1 & E2 & E3 & E4 & E5 & E6 & E7 & E8);
             [lia | lia | lia |].
           cbn [app qoi_next_op]. cbv zeta.
           rewrite E0, E0', E1, E2, E3, E4, E5, E6, E7, E8.
           cbn [px_r px_g px_b px_a]. unfold to_uint8.
           rewrite !Z.mod_small by lia. repeat f_equal; lia.
        -- eexists. split; [reflexivity|]. reflexivity.
    + eexists. split; [reflexivity|]. reflexivity.
Qed.

(** A pending run is written before the operation of the pixel that ends
    it. *)
Lemma qoi_write_px_flush last index px_prev run px :
  px <> px_prev ->
  qoi_write_px last index px_prev run px =
    ((if 0 <? run then [qoi_run_op run] else []) ++
       (qoi_write_px last index px_prev 0 px).1.1,
     (qoi_write_px last index px_prev 0 px).1.2,
     (qoi_write_px last index px_prev 0 px).2).
Proof.
  intros Hne. unfold qoi_write_px. rewrite (px_eqb_neq _ _ Hne).
  change (0 <? 0) with false. cbv zeta.
  repeat match goal with
         | |- context [if ?c then _ else _] =>
           lazymatch c with
           | 0 <? run => fail
           | _ => destruct c
           end
         end; reflexivity.
Qed.

(** ** The pixels of an image as chunks of its buffer *)

Lemma byte_at_is_byte buf k : Forall is_byte buf -> is_byte (byte_at buf k).
Proof.
  intros Hall. unfold byte_at.
  destruct (buf !! k) as [v|] eqn:Hv; cbn [default].
  - exact (Forall_lookup_1 _ _ _ _ Hall Hv).
  - unfold is_byte. lia.
Qed.

Lemma pixel_at_is_bytes img i : image_wf img -> px_is_bytes (pixel_at img i).
Proof.
  intros (_ & _ & _ & _ & Hall). unfold px_is_bytes, pixel_at.
  cbn [px_r px_g px_b px_a].
  repeat split; try (apply byte_at_is_byte; exact Hall).
  all: destruct (channels img =? 3);
    [unfold is_byte; lia | apply byte_at_is_byte; exact Hall].
Qed.

Lemma qoi_prev_pixel_is_bytes img k :
  image_wf img -> px_is_bytes (qoi_prev_pixel img k).
Proof.
  intros Hwf. destruct k as [|k]; cbn [qoi_prev_pixel].
  - unfold px_is_bytes, is_byte. cbn. lia.
  - apply pixel_at_is_bytes. exact Hwf.
Qed.

Lemma drop_cons_byte_at buf k :
  (k < length buf)%nat -> drop k buf = byte_at buf k :: drop (S k) buf.
Proof.
  intros Hk. destruct (lookup_lt_is_Some_2 buf k Hk) as [v Hv].
  unfold byte_at. rewrite Hv. cbn [default]. apply drop_S. exact Hv.
Qed.

Lemma px_bytes_pixel_at img i :
  image_wf img -> 0 <= i < pixel_count_of img ->
  px_bytes (channels img) (pixel_at img i) =
    take (Z.to_nat (channels img)) (drop (Z.to_nat (i * channels img)) (pixels img)).
Proof.
  intros Hwf Hi. destruct Hwf as (_ & _ & Hc & Hlen & _).
  fold (pixel_count_of img) in Hlen.
  unfold px_bytes, pixel_at. cbn [px_r px_g px_b px_a].
  set (o := Z.to_nat (i * channels img)).
  assert (Ho : (o + Z.to_nat (channels img) <= length (pixels img))%nat)
    by (unfold o; nia).
  rewrite (drop_cons_byte_at _ o) by lia.
  rewrite (drop_cons_byte_at _ (S o)) by lia.
  rewrite (drop_cons_byte_at _ (S (S o))) by lia.
  replace (o + 1)%nat with (S o) by lia.
  replace (o + 2)%nat with (S (S o)) by lia.
  replace (o + 3)%nat with (S (S (S o))) by lia.
  destruct Hc as [Hc|Hc]; rewrite Hc in *.
  - reflexivity.
  - rewrite (drop_cons_byte_at _ (S (S (S o)))) by lia. reflexivity.
Qed.

Lemma pixels_run_chunk img px (k : nat) m :
  image_wf img -> 0 <= m -> m + Z.of_nat k <= pixel_count_of img ->
  (forall j, m <= j < m + Z.of_nat k -> pixel_at img j = px) ->
  concat (replicate k (px_bytes (channels img) px)) =
    take (k * Z.to_nat (channels img))
         (drop (Z.to_nat (m * channels img)) (pixels img)).
Proof.
  intros Hwf Hm. pose proof (image_wf_size _ Hwf) as [_ Hch].
  revert m Hm. induction k as [|k IH]; intros m Hm Hend Hpx.
  - reflexivity.
  - cbn [replicate concat].
    rewrite (IH (m + 1)); [|lia|lia|intros; apply Hpx; lia].
    rewrite <- (Hpx m) by lia. rewrite px_bytes_pixel_at by (assumption || lia).
    replace (Z.to_nat ((m + 1) * channels img))
      with (Z.to_nat (m * channels img) + Z.to_nat (channels img))%nat by nia.
    rewrite <- drop_drop, take_take_drop. f_equal.
Qed.

Lemma decoded_upto_write img k (n : nat) buf chunk :
  image_wf img -> 0 <= k -> k + Z.of_nat n <= pixel_count_of img ->
  decoded_upto img k buf ->
  chunk = take (n * Z.to_nat (channels img))
               (drop (Z.to_nat (k * channels img)) (pixels img)) ->
  decoded_upto img (k + Z.of_nat n)
    (take (Z.to_nat (k * channels img)) buf ++ chunk ++
     drop (Z.to_nat ((k + Z.of_nat n) * channels img)) buf).
Proof.
  intros Hwf Hk Hend [Hlen Htake] Hchunk.
  pose proof (image_wf_size _ Hwf) as [_ Hch].
  destruct Hwf as (_ & _ & _ & Hplen & _). fold (pixel_count_of img) in Hplen.
  assert (Hcl : length chunk = (n * Z.to_nat (channels img))%nat).
  { rewrite Hchunk, length_take, length_drop. nia. }
  assert (Hsum : Z.to_nat ((k + Z.of_nat n) * channels img) =
                 (Z.to_nat (k * channels img) + length chunk)%nat) by nia.
  split.
  - rewrite !length_app, length_take, length_drop. nia.
  - rewrite Hsum at 1. rewrite app_assoc, take_app_length'
      by (rewrite length_app, length_take; nia).
    rewrite Htake, Hchunk, take_take_drop. f_equal. nia.
Qed.

Lemma decoded_upto_all img buf :
  image_wf img -> decoded_upto img (pixel_count_of img) buf ->
  buf = pixels img.
Proof.
  intros (_ & _ & _ & Hplen & _) [Hlen Htake].
  fold (pixel_count_of img) in Hplen.
  rewrite !take_ge in Htake by lia. exact Htake.
Qed.

(** ** QOI: decoding what the encoder wrote *)

Section QoiRoundTrip.

Variable img : image.
Hypothesis Hwf : image_wf img.
Hypothesis Hfit : pixel_count_of img * channels img <= SIZE_MAX.

Let ch := channels img.
Let px_end := pixel_count_of img * channels img.

Lemma qoi_read_loop_run_written index prev run k buf :
  1 <= run <= 62 -> run <= k <= pixel_count_of img ->
  (forall j, k - run <= j < k -> pixel_at img j = prev) ->
  decoded_upto img (k - run) buf ->
  exists buf',
    decoded_upto img k buf' /\
    forall f,
      qoi_read_loop ch px_end (qoi_run_op run :: f) index prev
                    ((k - run) * ch) buf =
      qoi_read_loop ch px_end f index prev (k * ch) buf'.
Proof.
  intros Hrun Hk Hpx Hbuf. subst ch px_end.
  pose proof (image_wf_size _ Hwf) as [Hpc Hch].
  pose proof Hwf as (_ & _ & _ & Hplen & _).
  fold (pixel_count_of img) in Hplen.
  pose proof Hbuf as [Hlen _].
  eexists. split; [|intros f].
  2: { rewrite qoi_read_loop_unfold.
       destruct (Z.ltb_spec ((k - run) * channels img)
                            (pixel_count_of img * channels img)); [|nia].
       rewrite qoi_next_op_run by assumption.
       rewrite qoi_read_run_eq by (assumption || lia).
       cbn [bind].
       replace (Z.min (Z.of_nat (Z.to_nat run))
                      (pixel_count_of img - (k - run)))
         with (Z.of_nat (Z.to_nat run)) by lia.
       replace ((k - run + Z.of_nat (Z.to_nat run)) * channels img)
         with (k * channels img) by lia.
       reflexivity. }
  replace (k * channels img)
    with ((k - run + Z.of_nat (Z.to_nat run)) * channels img) by lia.
  replace k with (k - run + Z.of_nat (Z.to_nat run)) at 1 by lia.
  apply decoded_upto_write; [assumption | lia | lia | assumption |].
  rewrite Nat2Z.id.
  apply (pixels_run_chunk img prev (Z.to_nat run) (k - run));
    [assumption | lia | lia |].
  intros j Hj. apply Hpx. lia.
Qed.

Lemma qoi_read_loop_px_written last index prev k buf :
  0 <= k < pixel_count_of img ->
  pixel_at img k <> prev ->
  length index = 64%nat -> px_is_bytes prev ->
  decoded_upto img k buf ->
  exists op buf',
    qoi_write_px last index prev 0 (pixel_at img k) =
      (op, index_set index (qoi_hash (pixel_at img k)) (pixel_at img k), 0) /\
    decoded_upto img (k + 1) buf' /\
    forall f,
      qoi_read_loop ch px_end (op ++ f) index prev (k * ch) buf =
      qoi_read_loop ch px_end f
        (index_set index (qoi_hash (pixel_at img k)) (pixel_at img k))
        (pixel_at img k) ((k + 1) * ch) buf'.
Proof.
  intros Hk Hne Hil Hprev Hbuf. subst ch px_end.
  pose proof (image_wf_size _ Hwf) as [Hpc Hch].
  pose proof Hwf as (_ & _ & _ & Hplen & _).
  fold (pixel_count_of img) in Hplen.
  pose proof Hbuf as [Hlen _].
  destruct (qoi_next_op_written last index prev (pixel_at img k) [] Hne Hil
              (pixel_at_is_bytes img k Hwf) Hprev) as (op & Hw & _).
  assert (0 <= k * channels img /\
          k * channels img + channels img <=
            pixel_count_of img * channels img) as [? ?] by nia.
  exists op. eexists. split; [exact Hw|]. split; [|intros f].
  2: { destruct (qoi_next_op_written last index prev (pixel_at img k) f Hne Hil
                   (pixel_at_is_bytes img k Hwf) Hprev) as (op' & Hw' & Hop).
       rewrite Hw in Hw'. injection Hw' as <-.
       rewrite qoi_read_loop_unfold.
       destruct (Z.ltb_spec (k * channels img)
                            (pixel_count_of img * channels img)); [|nia].
       rewrite Hop.
       rewrite memcpy_to_eq by (rewrite ?length_px_bytes by lia; lia).
       cbn [bind]. rewrite to_size_t_small by lia.
       replace (k * channels img + channels img)
         with ((k + 1) * channels img) by lia.
       reflexivity. }
  rewrite length_px_bytes by lia.
  replace (Z.to_nat (k * channels img) + Z.to_nat (channels img))%nat
    with (Z.to_nat ((k + Z.of_nat 1) * channels img)) by nia.
  change (k + 1) with (k + Z.of_nat 1).
  apply decoded_upto_write; [assumption | lia | lia | assumption |].
  rewrite px_bytes_pixel_at by assumption. f_equal. lia.
Qed.

Lemma qoi_read_loop_emitted t m :
  forall (k : nat) index prev run buf,
    Z.of_nat (k + m) = pixel_count_of img ->
    qoi_state img k = (index, prev, run) ->
    0 <= run < 62 -> run <= Z.of_nat k -> (m = 0%nat -> run = 0) ->
    (forall j, Z.of_nat k - run <= j < Z.of_nat k -> pixel_at img j = prev) ->
    decoded_upto img (Z.of_nat k - run) buf ->
    qoi_read_loop ch px_end (qoi_emitted img k m ++ t) index prev
                  ((Z.of_nat k - run) * ch) buf
    = Ok (pixels img, t).
Proof.
  induction m as [|m IH]; intros k index prev run buf Hk Hst Hrun Hrk Hm0 Hpx Hbuf.
  - rewrite (Hm0 eq_refl), Z.sub_0_r in *.
    rewrite qoi_read_loop_unfold. subst ch px_end.
    destruct (Z.ltb_spec (Z.of_nat k * channels img)
                         (pixel_count_of img * channels img)); [nia|].
    cbn [qoi_emitted seq fmap list_fmap concat app].
    replace (Z.of_nat k) with (pixel_count_of img) in Hbuf by lia.
    rewrite (decoded_upto_all img buf Hwf Hbuf). reflexivity.
  - pose proof (qoi_state_index_length img k) as Hil.
    pose proof (qoi_state_prev img k) as Hprev.
    pose proof (qoi_prev_pixel_is_bytes img k Hwf) as Hpb.
    rewrite Hst in Hil, Hprev. cbn [fst snd] in Hil, Hprev.
    rewrite <- Hprev in Hpb.
    pose proof (qoi_state_S img k) as HstS. rewrite Hst in HstS.
    rewrite qoi_emitted_cons. unfold qoi_emit. rewrite Hst.
    destruct (decide (pixel_at img (Z.of_nat k) = prev)) as [Heq|Hne].
    + rewrite Heq in *. rewrite qoi_write_px_same in *.
      destruct ((run + 1 =? 62) || (Z.of_nat k =? pixel_count_of img - 1))
        eqn:Hflush.
      * cbn [fst snd app].
        destruct (qoi_read_loop_run_written index prev (run + 1)
                    (Z.of_nat (S k)) buf)
          as (buf' & Hbuf' & Hstep); [lia | lia | | |].
        { intros j Hj. destruct (decide (j = Z.of_nat k)) as [->|];
            [exact Heq | apply Hpx; lia]. }
        { replace (Z.of_nat (S k) - (run + 1)) with (Z.of_nat k - run) by lia.
          exact Hbuf. }
        replace (Z.of_nat (S k) - (run + 1)) with (Z.of_nat k - run)
          in Hstep by lia.
        rewrite Hstep.
        replace (Z.of_nat (S k)) with (Z.of_nat (S k) - 0) by lia.
        apply IH; [lia | exact HstS | lia | lia | reflexivity | intros; lia |].
        rewrite Z.sub_0_r. exact Hbuf'.
      * cbn [fst snd app].
        apply orb_false_iff in Hflush as [Hf1 Hf2].
        apply Z.eqb_neq in Hf1, Hf2.
        replace (Z.of_nat k - run) with (Z.of_nat (S k) - (run + 1)) by lia.
        apply IH; [lia | exact HstS | lia | lia | intros; lia | |].
        { intros j Hj. destruct (decide (j = Z.of_nat k)) as [->|];
            [exact Heq | apply Hpx; lia]. }
        { replace (Z.of_nat (S k) - (run + 1)) with (Z.of_nat k - run) by lia.
          exact Hbuf. }
    + rewrite qoi_write_px_flush in * by exact Hne.
      assert (Hrun_done : exists buf1,
                decoded_upto img (Z.of_nat k) buf1 /\
                forall f,
                  qoi_read_loop ch px_end
                    ((if 0 <? run then [qoi_run_op run] else []) ++ f)
                    index prev ((Z.of_nat k - run) * ch) buf =
                  qoi_read_loop ch px_end f index prev (Z.of_nat k * ch) buf1).
      { destruct (Z.ltb_spec 0 run).
        - destruct (qoi_read_loop_run_written index prev run (Z.of_nat k) buf)
            as (buf1 & Hbuf1 & Hstep1); [lia | lia | exact Hpx | exact Hbuf |].
          exists buf1. split; [exact Hbuf1 | exact Hstep1].
        - exists buf. replace run with 0 in * by lia.
          rewrite Z.sub_0_r in *. split; [exact Hbuf|]. reflexivity. }
      destruct Hrun_done as (buf1 & Hbuf1 & Hrun_step).
      destruct (qoi_read_loop_px_written
                  (Z.of_nat k =? pixel_count_of img - 1) index prev
                  (Z.of_nat k) buf1)
        as (op & buf2 & Hw & Hbuf2 & Hstep); [lia | exact Hne | exact Hil
                                              | exact Hpb | exact Hbuf1 |].
      rewrite Hw in *. cbn [fst snd] in *.
      rewrite <- !app_assoc, Hrun_step, Hstep.
      replace (Z.of_nat k + 1) with (Z.of_nat (S k) - 0) by lia.
      apply IH; [lia | exact HstS | lia | lia | reflexivity | intros; lia |].
      replace (Z.of_nat (S k) - 0) with (Z.of_nat k + 1) by lia. exact Hbuf2.
Qed.

End QoiRoundTrip.

(** ** QOI: the header *)

Lemma testbit_byte_field v k n :
  0 <= k -> 0 <= n ->
  Z.testbit (Z.shiftl (Z.land (Z.shiftr v k) 0xff) k) n =
    Z.testbit v n && (k <=? n) && (n <? k + 8).
Proof.
  intros Hk Hn. change 0xff with (Z.ones 8).
  destruct (Z.leb_spec k n) as [Hle|Hlt].
  - rewrite Z.shiftl_spec, Z.land_spec, Z.shiftr_spec, Z.testbit_ones by lia.
    replace (n - k + k) with n by lia.
    destruct (Z.leb_spec 0 (n - k)); [|lia].
    destruct (Z.ltb_spec (n - k) 8); destruct (Z.ltb_spec n (k + 8)); try lia;
      destruct (Z.testbit v n); reflexivity.
  - rewrite Z.shiftl_spec_low by lia. rewrite andb_false_r. reflexivity.
Qed.

Lemma qoi_read32be_write32be v l :
  0 <= v < 4294967296 -> qoi_read32be (qoi_write32be v ++ l) = v.
Proof.
  intros Hv. unfold qoi_read32be, qoi_write32be, byte_at.
  cbn [app lookup list_lookup default]. unfold id.
  assert (Hhigh : forall n, 32 <= n -> Z.testbit v n = false).
  { intros n Hn. rewrite <- (Z.mod_small v (2 ^ 32)) by lia.
    rewrite <- Z.land_ones, Z.land_spec, Z.testbit_ones by lia.
    destruct (Z.ltb_spec n 32); [lia|]. rewrite !andb_false_r. reflexivity. }
  apply Z.bits_inj'. intros n Hn.
  rewrite !Z.lor_spec, !testbit_byte_field by lia.
  change 0xff with (Z.ones 8). rewrite Z.land_spec, Z.testbit_ones by lia.
  destruct (Z.lt_ge_cases n 32) as [Hlt|Hge].
  - repeat match goal with
           | |- context [?a <=? ?b] => destruct (Z.leb_spec a b); try lia
           | |- context [?a <? ?b] => destruct (Z.ltb_spec a b); try lia
           end; destruct (Z.testbit v n); reflexivity.
  - rewrite (Hhigh n Hge). reflexivity.
Qed.

Lemma qoi_header_parse img :
  image_wf img ->
  length (qoi_header img) = 14%nat /\
  qoi_read32be (qoi_header img) = QOI_MAGIC /\
  qoi_read32be (drop 4 (qoi_header img)) = width img /\
  qoi_read32be (drop 8 (qoi_header img)) = height img /\
  byte_at (qoi_header img) 12 = channels img.
Proof.
  intros (Hw & Hh & Hc & _). unfold INT_MAX in *.
  unfold qoi_header. split; [reflexivity|].
  split; [apply qoi_read32be_write32be; unfold QOI_MAGIC; lia|].
  rewrite (drop_app_length' (qoi_write32be QOI_MAGIC)) by reflexivity.
  split.
  { rewrite qoi_read32be_write32be; unfold to_uint32;
      rewrite ?Z.mod_small; lia. }
  split.
  { change 8%nat with (4 + 4)%nat. rewrite <- drop_drop.
    rewrite (drop_app_length' (qoi_write32be QOI_MAGIC)) by reflexivity.
    rewrite (drop_app_length' (qoi_write32be _)) by reflexivity.
    rewrite qoi_read32be_write32be; unfold to_uint32;
      rewrite ?Z.mod_small; lia. }
  unfold byte_at, qoi_write32be. cbn [app lookup list_lookup default].
  unfold id. apply Z.mod_small. lia.
Qed.

Lemma length_malloc_Z hp n buf :
  0 <= n -> malloc hp n = Some buf -> Z.of_nat (length buf) = n.
Proof. intros Hn Hm. apply length_malloc in Hm. lia. Qed.

(** Whatever follows the operations, the decoder gives back the image the
    encoder was given and leaves what follows unread. *)
Lemma qoi_read_stream_written hp max_pixels img t :
  image_wf img ->
  pixel_count_of img * channels img <= SIZE_MAX ->
  max_pixels = 0 \/ pixel_count_of img <= max_pixels ->
  can_alloc hp (pixel_count_of img * channels img) = true ->
  qoi_read_stream hp max_pixels
    (qoi_header img ++
     qoi_emitted img 0 (Z.to_nat (pixel_count_of img)) ++ t) = Ok (img, t).
Proof.
  intros Hwf Hfit Hceil Halloc.
  pose proof (image_wf_size _ Hwf) as [Hpc Hch].
  pose proof (qoi_header_parse img Hwf) as (Hhl & Hmagic & Hw & Hh & Hc).
  pose proof Hwf as (Hwr & Hhr & _ & Hplen & _).
  fold (pixel_count_of img) in Hplen.
  pose proof SIZE_MAX_ge as HS. unfold UINT32_MAX in HS.
  unfold qoi_read_stream, read_bytes.
  rewrite length_app, Hhl.
  destruct (Z.ltb_spec (Z.of_nat (14 + length (qoi_emitted img 0
              (Z.to_nat (pixel_count_of img)) ++ t))) QOI_HEADER_SIZE);
    [unfold QOI_HEADER_SIZE in *; lia|].
  change (Z.to_nat QOI_HEADER_SIZE) with 14%nat.
  rewrite take_app_length', drop_app_length' by exact Hhl.
  rewrite Hmagic, Hw, Hh, Hc, Z.eqb_refl. cbn [negb].
  destruct (Z.eqb_spec (width img) 0); [lia|].
  destruct (Z.eqb_spec (height img) 0); [lia|].
  destruct (Z.ltb_spec INT_MAX (width img)); [lia|].
  destruct (Z.ltb_spec INT_MAX (height img)); [lia|].
  cbn [orb].
  assert (Hcc : negb (channels img =? 3) && negb (channels img =? 4) = false).
  { destruct (Z.eqb_spec (channels img) 3); [reflexivity|].
    destruct (Z.eqb_spec (channels img) 4); [reflexivity|]. lia. }
  rewrite Hcc.
  rewrite (to_size_t_int (width img)), (to_size_t_int (height img)),
    (to_size_t_int (channels img)) by (unfold INT_MAX in *; lia).
  rewrite checked_mul_size_eq by lia. fold (pixel_count_of img).
  destruct (Z.leb_spec (pixel_count_of img) SIZE_MAX); [|nia].
  cbn [checked bind].
  rewrite checked_mul_size_eq by lia.
  destruct (Z.leb_spec (pixel_count_of img * channels img) SIZE_MAX); [|lia].
  cbn [checked bind].
  rewrite image_check_max_pixels_eq by lia. fold (pixel_count_of img).
  destruct (Z.leb_spec (pixel_count_of img) SIZE_MAX); [|lia].
  assert (Hc' : (max_pixels =? 0) || (pixel_count_of img <=? max_pixels) = true).
  { destruct Hceil as [->|Hle]; [reflexivity|].
    apply orb_true_iff. right. apply Z.leb_le. exact Hle. }
  rewrite Hc'. cbn [andb negb].
  destruct (malloc hp (pixel_count_of img * channels img)) as [buf|] eqn:Hbuf;
    [|unfold malloc in Hbuf; rewrite Halloc in Hbuf; discriminate].
  cbn [alloc_or_fail bind].
  rewrite to_size_t_small by lia.
  apply length_malloc_Z in Hbuf; [|nia].
  pose proof (qoi_read_loop_emitted img Hwf Hfit t
                (Z.to_nat (pixel_count_of img)) 0 qoi_index_init qoi_px_init
                0 buf) as Hloop.
  change (Z.of_nat 0 - 0) with 0 in Hloop. rewrite Z.mul_0_l in Hloop.
  rewrite Hloop; [| lia | reflexivity | lia | lia | lia | intros; lia |].
  - cbn [bind]. destruct img. reflexivity.
  - split; [lia | reflexivity].
Qed.

Lemma qoi_write_inv hp img bytes :
  image_wf img ->
  qoi_write hp img = Ok bytes ->
  pixel_count_of img * (channels img + 1) + 22 <= SIZE_MAX /\
  can_alloc hp (pixel_count_of img * (channels img + 1) + 22) = true.
Proof.
  intros Hwf. pose proof (image_wf_size _ Hwf) as [Hpc Hch].
  pose proof Hwf as (Hw & Hh & Hc & Hlen & _).
  pose proof SIZE_MAX_ge as HS. unfold UINT32_MAX in HS.
  unfold qoi_write.
  replace (image_validate_dims img) with true
    by (symmetry; apply image_validate_dims_true; lia).
  cbn [negb].
  rewrite (to_size_t_int (width img)), (to_size_t_int (height img)),
    (to_size_t_int (channels img)) by (unfold INT_MAX in *; lia).
  rewrite checked_mul_size_eq by lia. fold (pixel_count_of img).
  destruct (Z.leb_spec (pixel_count_of img) SIZE_MAX); [|discriminate].
  cbn [checked bind].
  rewrite (to_size_t_small (channels img + 1)) by lia.
  rewrite checked_mul_size_eq by lia.
  destruct (Z.leb_spec (pixel_count_of img * (channels img + 1)) SIZE_MAX);
    [|discriminate].
  cbn [checked bind]. unfold QOI_HEADER_SIZE, QOI_END_MARKER_SIZE.
  rewrite checked_add_size_eq by nia.
  destruct (Z.leb_spec (14 + pixel_count_of img * (channels img + 1)) SIZE_MAX);
    [|discriminate].
  cbn [checked bind].
  rewrite checked_add_size_eq by nia.
  destruct (Z.leb_spec (14 + pixel_count_of img * (channels img + 1) + 8)
                       SIZE_MAX); [|discriminate].
  cbn [checked bind]. unfold malloc.
  replace (14 + pixel_count_of img * (channels img + 1) + 8)
    with (pixel_count_of img * (channels img + 1) + 22) by lia.
  destruct (can_alloc hp _); [|discriminate].
  intros _. split; [lia | reflexivity].
Qed.

(** C1. For every image with positive width and height, three or four
    channels and a pixel count within the ceiling (or ceiling 0), the encoder
    produces a stream whenever its buffer can be sized and allocated, and
    decoding the stream it produces succeeds with an image of the same
    width, height and channels whose pixel bytes are those of the original. *)
Theorem qoi_round_trip (hp_w hp_r : heap) (max_pixels : Z) (img : image) :
  image_wf img ->
  max_pixels = 0 \/ pixel_count_of img <= max_pixels ->
  can_alloc hp_r (pixel_count_of img * channels img) = true ->
  (pixel_count_of img * (channels img + 1) + 22 <= SIZE_MAX ->
   can_alloc hp_w (pixel_count_of img * (channels img + 1) + 22) = true ->
   exists bytes, qoi_write hp_w img = Ok bytes) /\
  (forall bytes,
     qoi_write hp_w img = Ok bytes ->
     qoi_read hp_r max_pixels bytes = Ok img).
Proof.
  intros Hwf Hceil Halloc. split.
  - intros Hfit Hw. rewrite qoi_write_eq by assumption. eexists. reflexivity.
  - intros bytes Hwrite.
    destruct (qoi_write_inv hp_w img bytes Hwf Hwrite) as [Hfit Hw].
    rewrite qoi_write_eq in Hwrite by assumption.
    assert (Hbytes : bytes = qoi_header img ++
              qoi_emitted img 0 (Z.to_nat (pixel_count_of img)) ++
              qoi_end_marker) by congruence.
    rewrite Hbytes.
    pose proof (image_wf_size _ Hwf) as [Hpc Hch].
    unfold qoi_read.
    rewrite qoi_read_stream_written by (assumption || nia). reflexivity.
Qed.

(** ** BMP: rows *)

Lemma align4_eq t : 0 <= t <= SIZE_MAX -> align4 t = 4 * (t / 4).
Proof.
  intros Ht. unfold align4, to_size_t, SIZE_MAX in *.
  replace (2 ^ size_bits - 1 + 1) with (2 ^ size_bits) by lia.
  rewrite <- Z.land_ones by lia.
  replace (4 * (t / 4)) with (Z.shiftl (Z.shiftr t 2) 2)
    by (rewrite Z.shiftl_mul_pow2, Z.shiftr_div_pow2 by lia;
        change (2 ^ 2) with 4; lia).
  assert (Hhigh : forall n, size_bits <= n -> Z.testbit t n = false).
  { intros n Hn. rewrite <- (Z.mod_small t (2 ^ size_bits)) by lia.
    rewrite <- Z.land_ones, Z.land_spec, Z.testbit_ones by lia.
    destruct (Z.ltb_spec n size_bits); [lia|].
    rewrite !andb_false_r. reflexivity. }
  apply Z.bits_inj'. intros n Hn.
  rewrite !Z.land_spec, Z.lnot_spec, Z.testbit_ones by lia.
  change 3 with (Z.ones 2). rewrite Z.testbit_ones by lia.
  destruct (Z.leb_spec 0 n); [|lia].
  destruct (Z.ltb_spec n 2).
  - rewrite Z.shiftl_spec_low by lia.
    cbn [andb negb]. rewrite andb_false_r. reflexivity.
  - rewrite Z.shiftl_spec, Z.shiftr_spec by lia.
    replace (n - 2 + 2) with n by lia. cbn [andb negb].
    destruct (Z.ltb_spec n size_bits).
    + rewrite andb_true_r. reflexivity.
    + rewrite (Hhigh n) by lia. reflexivity.
Qed.

Lemma int_idx_ok x c k :
  0 <= x * c -> 0 <= k -> x * c + k <= INT_MAX ->
  int_idx x c k = Ok (x * c + k).
Proof.
  intros H0 Hk Hmax. unfold int_idx, int_op, INT32_MIN, INT_MAX in *.
  destruct (Z.leb_spec (-2147483648) (x * c)); [|lia].
  destruct (Z.leb_spec (x * c) 2147483647); [|lia].
  cbn [andb bind].
  destruct (Z.leb_spec (-2147483648) (x * c + k)); [|lia].
  destruct (Z.leb_spec (x * c + k) 2147483647); [|lia].
  reflexivity.
Qed.

Lemma store_ok buf i v :
  0 <= i < Z.of_nat (length buf) ->
  store buf i v = Ok (<[Z.to_nat i := v]> buf).
Proof.
  intros Hi. unfold store.
  destruct (Z.leb_spec 0 i); [|lia].
  destruct (Z.ltb_spec i (Z.of_nat (length buf))); [|lia]. reflexivity.
Qed.

Lemma insert3_take_drop (l : list Z) (a : nat) v0 v1 v2 :
  (a + 3 <= length l)%nat ->
  <[(a + 2)%nat := v2]> (<[(a + 1)%nat := v1]> (<[a := v0]> l)) =
    take a l ++ [v0; v1; v2] ++ drop (a + 3) l.
Proof.
  intros Hlen.
  transitivity (list_inserts a [v0; v1; v2] l).
  - cbn [list_inserts].
    replace (S a) with (a + 1)%nat by lia.
    replace (S (a + 1)) with (a + 2)%nat by lia.
    rewrite (list_insert_insert_ne _ a (a + 1)) by lia.
    rewrite (list_insert_insert_ne _ a (a + 2)) by lia.
    rewrite (list_insert_insert_ne _ (a + 1) (a + 2)) by lia.
    reflexivity.
  - apply list_inserts_take_drop. cbn [length]. lia.
Qed.

Lemma pixels_seg_cons f img start n :
  pixels_seg f img start (S n) =
    f (pixel_at img start) ++ pixels_seg f img (start + 1) n.
Proof.
  unfold pixels_seg. cbn [seq fmap list_fmap concat].
  rewrite Z.add_0_r. f_equal. rewrite <- seq_shift, <- list_fmap_compose.
  f_equal. apply list_fmap_ext. intros _ j _. cbn. do 2 f_equal. lia.
Qed.

Lemma pixels_seg_app f img start n m :
  pixels_seg f img start (n + m) =
    pixels_seg f img start n ++ pixels_seg f img (start + Z.of_nat n) m.
Proof.
  revert start. induction n as [|n IH]; intros start.
  - cbn [Nat.add]. rewrite Z.add_0_r. reflexivity.
  - cbn [Nat.add]. rewrite !pixels_seg_cons, IH, <- app_assoc.
    do 3 f_equal. lia.
Qed.

Lemma length_pixels_seg f img start n :
  (forall px, length (f px) = 3%nat) ->
  length (pixels_seg f img start n) = (3 * n)%nat.
Proof.
  intros Hf. revert start. induction n as [|n IH]; intros start.
  - reflexivity.
  - rewrite pixels_seg_cons, length_app, Hf, IH. lia.
Qed.

(** ** BMP: what the encoder writes *)

Section BmpRows.

Variable img : image.
Hypothesis Hwf : image_wf img.
Hypothesis Hfit : pixel_count_of img * channels img <= SIZE_MAX.

Lemma bmp_rowbytes_of_bounds :
  3 * width img <= bmp_rowbytes_of img <= 3 * width img + 3 /\
  Z.of_nat (bmp_pad_of img) = bmp_rowbytes_of img - 3 * width img.
Proof.
  unfold bmp_pad_of, bmp_rowbytes_of.
  pose proof (Z.div_mod (3 * width img + 3) 4 ltac:(lia)).
  pose proof (Z.mod_pos_bound (3 * width img + 3) 4 ltac:(lia)).
  lia.
Qed.

Lemma pixel_at_channel_b y x :
  0 <= y -> 0 <= x ->
  byte_at (pixels img)
          (Z.to_nat (y * width img * channels img + (x * channels img + 2))) =
    px_b (pixel_at img (y * width img + x)).
Proof.
  intros Hy Hx. pose proof (image_wf_size _ Hwf) as [_ Hch].
  destruct Hwf as ((Hw & _) & _).
  unfold pixel_at. cbn [px_b]. f_equal. nia.
Qed.

Lemma pixel_at_channel_g y x :
  0 <= y -> 0 <= x ->
  byte_at (pixels img)
          (Z.to_nat (y * width img * channels img + (x * channels img + 1))) =
    px_g (pixel_at img (y * width img + x)).
Proof.
  intros Hy Hx. pose proof (image_wf_size _ Hwf) as [_ Hch].
  destruct Hwf as ((Hw & _) & _).
  unfold pixel_at. cbn [px_g]. f_equal. nia.
Qed.

Lemma pixel_at_channel_r y x :
  0 <= y -> 0 <= x ->
  byte_at (pixels img)
          (Z.to_nat (y * width img * channels img + (x * channels img + 0))) =
    px_r (pixel_at img (y * width img + x)).
Proof.
  intros Hy Hx. pose proof (image_wf_size _ Hwf) as [_ Hch].
  destruct Hwf as ((Hw & _) & _).
  unfold pixel_at. cbn [px_r]. f_equal. nia.
Qed.

Hypothesis Hint : (width img - 1) * channels img + 2 <= INT_MAX.

Lemma bmp_write_row_eq y n :
  0 <= y < height img ->
  forall x row,
    0 <= x -> x + Z.of_nat n <= width img ->
    3 * width img <= Z.of_nat (length row) ->
    bmp_write_row (channels img) (pixels img)
                  (y * width img * channels img) n x row =
      Ok (take (Z.to_nat (3 * x)) row ++
          pixels_seg bgr_of img (y * width img + x) n ++
          drop (Z.to_nat (3 * (x + Z.of_nat n))) row).
Proof.
  intros Hy. pose proof (image_wf_size _ Hwf) as [Hpc Hch].
  pose proof Hwf as ((Hw & _) & (Hh & _) & _ & Hplen & _).
  fold (pixel_count_of img) in Hplen. unfold pixel_count_of in *.
  induction n as [|n IH]; intros x row Hx Hxn Hrow.
  - cbn [bmp_write_row pixels_seg seq fmap list_fmap concat app].
    rewrite Z.add_0_r, take_drop. reflexivity.
  - cbn [bmp_write_row].
    assert (Hsrc : y * width img * channels img + x * channels img + 3 <=
                   width img * height img * channels img) by nia.
    assert (0 <= y * width img * channels img) by nia.
    assert (0 <= x * channels img) by nia.
    assert (x * channels img + 2 <= INT_MAX) by nia.
    assert (x * 3 + 2 <= INT_MAX) by nia.
    rewrite !int_idx_ok by lia. cbn [bind].
    rewrite !load_byte_at by lia. cbn [bind].
    rewrite store_ok by lia. cbn [bind].
    rewrite store_ok by (rewrite length_insert; lia). cbn [bind].
    rewrite store_ok by (rewrite !length_insert; lia). cbn [bind].
    rewrite pixel_at_channel_b, pixel_at_channel_g, pixel_at_channel_r by lia.
    replace (Z.to_nat (x * 3 + 0)) with (Z.to_nat (3 * x)) by lia.
    replace (Z.to_nat (x * 3 + 1)) with (Z.to_nat (3 * x) + 1)%nat by lia.
    replace (Z.to_nat (x * 3 + 2)) with (Z.to_nat (3 * x) + 2)%nat by lia.
    rewrite insert3_take_drop by lia.
    rewrite IH; [|lia|lia|].
    2: { rewrite !length_app, length_take, length_drop. cbn [length]. lia. }
    rewrite pixels_seg_cons. unfold bgr_of at 2.
    set (p := pixel_at img (y * width img + x)).
    rewrite <- !app_assoc. f_equal.
    replace (Z.to_nat (3 * (x + 1)))
      with (length (take (Z.to_nat (3 * x)) row ++ [px_b p; px_g p; px_r p]))
      by (rewrite length_app, length_take; cbn [length]; lia).
    rewrite (app_assoc (take _ row)), take_app_length.
    rewrite <- !app_assoc. cbn [app]. do 4 f_equal.
    replace (y * width img + x + 1) with (y * width img + (x + 1)) by lia.
    f_equal.
    replace (Z.to_nat (3 * (x + 1 + Z.of_nat n)))
      with (length (take (Z.to_nat (3 * x)) row ++ [px_b p; px_g p; px_r p]) +
            Z.to_nat (3 * Z.of_nat n))%nat
      by (rewrite length_app, length_take; cbn [length]; lia).
    change (px_b p :: px_g p :: px_r p ::
              drop (Z.to_nat (3 * x) + 3) row)
      with ([px_b p; px_g p; px_r p] ++ drop (Z.to_nat (3 * x) + 3) row).
    rewrite (app_assoc (take _ row) [_; _; _]).
    rewrite drop_app_add, drop_drop. f_equal. lia.
Qed.

Lemma bmp_write_rows_eq n :
  Z.of_nat n <= height img ->
  forall row,
    Z.of_nat (length row) = bmp_rowbytes_of img ->
    drop (Z.to_nat (3 * width img)) row = replicate (bmp_pad_of img) 0 ->
    bmp_write_rows img (width img * channels img) n row =
      Ok (bmp_rows img n).
Proof.
  pose proof (image_wf_size _ Hwf) as [Hpc Hch].
  pose proof Hwf as ((Hw & _) & (Hh & _) & _).
  pose proof bmp_rowbytes_of_bounds as [Hrb Hpad].
  unfold pixel_count_of in *.
  induction n as [|n IH]; intros Hn row Hlen Hdrop.
  - reflexivity.
  - cbn [bmp_write_rows bmp_rows].
    assert (Z.of_nat n * (width img * channels img) <=
            width img * height img * channels img) by nia.
    assert (0 <= Z.of_nat n * (width img * channels img)) by nia.
    rewrite (to_size_t_small (Z.of_nat n)) by nia.
    rewrite to_size_t_small by lia.
    replace (Z.of_nat n * (width img * channels img))
      with (Z.of_nat n * width img * channels img) by lia.
    rewrite bmp_write_row_eq by lia. cbn [bind].
    change (Z.to_nat (3 * 0)) with 0%nat. rewrite take_0. cbn [app].
    rewrite Z.add_0_r, Z.add_0_l, Z2Nat.id, Hdrop by lia.
    rewrite IH; [reflexivity | lia | |].
    + rewrite length_app, length_replicate, length_pixels_seg by reflexivity.
      lia.
    + rewrite drop_app_length'; [reflexivity|].
      rewrite length_pixels_seg by reflexivity. lia.
Qed.

End BmpRows.

(** ** BMP: what the decoder makes of the rows *)

Lemma read_bytes_exact hd tl len :
  Z.of_nat (length hd) = len -> read_bytes (hd ++ tl) len = Some (hd, tl).
Proof.
  intros Hlen. unfold read_bytes. rewrite length_app.
  destruct (Z.ltb_spec (Z.of_nat (length hd + length tl)) len); [lia|].
  rewrite take_app_length', drop_app_length' by lia. reflexivity.
Qed.

Lemma pixels_seg_lookup f img start n (j k : nat) :
  (forall px, length (f px) = 3%nat) ->
  (j < n)%nat -> (k < 3)%nat ->
  pixels_seg f img start n !! (3 * j + k)%nat =
    f (pixel_at img (start + Z.of_nat j)) !! k.
Proof.
  intros Hf. revert start j. induction n as [|n IH]; intros start j Hj Hk.
  - lia.
  - rewrite pixels_seg_cons. destruct j as [|j].
    + rewrite lookup_app_l by (rewrite Hf; lia).
      rewrite Z.add_0_r. f_equal.
    + rewrite lookup_app_r by (rewrite Hf; lia). rewrite Hf.
      replace (3 * S j + k - 3)%nat with (3 * j + k)%nat by lia.
      rewrite IH by lia. do 3 f_equal. lia.
Qed.

Section BmpDecode.

Variable img : image.
Hypothesis Hwf : image_wf img.
Hypothesis Hint : (width img - 1) * 3 + 2 <= INT_MAX.

Lemma bmp_row_byte row s x k :
  take (Z.to_nat (3 * width img)) row =
    pixels_seg bgr_of img s (Z.to_nat (width img)) ->
  0 <= x < width img -> 0 <= k < 3 ->
  byte_at row (Z.to_nat (x * 3 + k)) =
    default 0 (bgr_of (pixel_at img (s + x)) !! Z.to_nat k).
Proof.
  intros Hrow Hx Hk. unfold byte_at.
  rewrite <- (lookup_take_lt row (Z.to_nat (3 * width img))) by lia.
  rewrite Hrow.
  replace (Z.to_nat (x * 3 + k)) with (3 * Z.to_nat x + Z.to_nat k)%nat by lia.
  rewrite pixels_seg_lookup by (reflexivity || lia).
  rewrite Z2Nat.id by lia. reflexivity.
Qed.

Lemma bmp_read_row_eq row s dst n :
  take (Z.to_nat (3 * width img)) row =
    pixels_seg bgr_of img s (Z.to_nat (width img)) ->
  3 * width img <= Z.of_nat (length row) ->
  0 <= dst ->
  forall x buf,
    0 <= x -> x + Z.of_nat n <= width img ->
    dst + 3 * width img <= Z.of_nat (length buf) ->
    bmp_read_row 3 3 row dst n x buf =
      Ok (take (Z.to_nat (dst + 3 * x)) buf ++
          pixels_seg rgb_of img (s + x) n ++
          drop (Z.to_nat (dst + 3 * (x + Z.of_nat n))) buf).
Proof.
  intros Hrow Hrlen Hdst.
  pose proof Hwf as ((Hw & _) & _).
  induction n as [|n IH]; intros x buf Hx Hxn Hbuf.
  - cbn [bmp_read_row pixels_seg seq fmap list_fmap concat app].
    rewrite Z.add_0_r, take_drop. reflexivity.
  - cbn [bmp_read_row].
    assert (x * 3 + 2 <= INT_MAX) by lia.
    rewrite !int_idx_ok by lia. cbn [bind].
    rewrite !load_byte_at by lia. cbn [bind].
    rewrite store_ok by lia. cbn [bind].
    rewrite store_ok by (rewrite length_insert; lia). cbn [bind].
    rewrite store_ok by (rewrite !length_insert; lia).
    change (3 =? 4) with false. cbn [bind].
    rewrite (bmp_row_byte row s x 2 Hrow), (bmp_row_byte row s x 1 Hrow),
      (bmp_row_byte row s x 0 Hrow) by lia.
    change (Z.to_nat 2) with 2%nat. change (Z.to_nat 1) with 1%nat.
    change (Z.to_nat 0) with 0%nat.
    cbn [bgr_of lookup list_lookup default]. unfold id.
    set (p := pixel_at img (s + x)).
    replace (Z.to_nat (dst + (x * 3 + 0))) with (Z.to_nat (dst + 3 * x)) by lia.
    replace (Z.to_nat (dst + (x * 3 + 1)))
      with (Z.to_nat (dst + 3 * x) + 1)%nat by lia.
    replace (Z.to_nat (dst + (x * 3 + 2)))
      with (Z.to_nat (dst + 3 * x) + 2)%nat by lia.
    rewrite insert3_take_drop by lia.
    rewrite IH; [|lia|lia|].
    2: { rewrite !length_app, length_take, length_drop. cbn [length]. lia. }
    rewrite pixels_seg_cons. unfold rgb_of at 2. fold p.
    rewrite <- !app_assoc. f_equal.
    replace (Z.to_nat (dst + 3 * (x + 1)))
      with (length (take (Z.to_nat (dst + 3 * x)) buf ++
                    [px_r p; px_g p; px_b p]))
      by (rewrite length_app, length_take; cbn [length]; lia).
    rewrite (app_assoc (take _ buf)), take_app_length.
    rewrite <- !app_assoc. f_equal. f_equal.
    replace (s + x + 1) with (s + (x + 1)) by lia. f_equal.
    replace (Z.to_nat (dst + 3 * (x + 1 + Z.of_nat n)))
      with (length (take (Z.to_nat (dst + 3 * x)) buf ++
                    [px_r p; px_g p; px_b p]) +
            Z.to_nat (3 * Z.of_nat n))%nat
      by (rewrite length_app, length_take; cbn [length]; lia).
    rewrite (app_assoc (take _ buf) [_; _; _]).
    rewrite drop_app_add, drop_drop. f_equal. lia.
Qed.

Hypothesis Hfit3 : 3 * pixel_count_of img <= SIZE_MAX.

Lemma bmp_read_rows_eq t n :
  Z.of_nat n <= height img ->
  forall buf,
    Z.of_nat (length buf) = 3 * pixel_count_of img ->
    bmp_read_rows false (width img) (height img) 3 3
                  (width img * 3) (bmp_rowbytes_of img)
                  n (height img - Z.of_nat n) (bmp_rows img n ++ t) buf =
      Ok (pixels_seg rgb_of img 0 (n * Z.to_nat (width img)) ++
          drop (3 * n * Z.to_nat (width img)) buf).
Proof.
  pose proof (image_wf_size _ Hwf) as [Hpc Hch].
  pose proof Hwf as ((Hw & _) & (Hh & _) & _).
  pose proof (bmp_rowbytes_of_bounds img) as [Hrb Hpad].
  unfold pixel_count_of in *.
  induction n as [|n IH]; intros Hn buf Hlen.
  - cbn [bmp_read_rows]. reflexivity.
  - cbn [bmp_read_rows bmp_rows].
    rewrite <- app_assoc.
    rewrite read_bytes_exact
      by (rewrite length_app, length_replicate, length_pixels_seg
            by reflexivity; lia).
    replace (height img - 1 - (height img - Z.of_nat (S n)))
      with (Z.of_nat n) by lia.
    assert (0 <= Z.of_nat n * (width img * 3) /\
            Z.of_nat n * (width img * 3) + 3 * width img <=
              3 * (width img * height img)) as [? ?] by nia.
    rewrite (to_size_t_small (Z.of_nat n)) by nia.
    rewrite to_size_t_small by lia.
    rewrite (bmp_read_row_eq _ (Z.of_nat n * width img)); try lia.
    2: { rewrite take_app_length'; [reflexivity|].
         rewrite length_pixels_seg by reflexivity. lia. }
    2: { rewrite length_app, length_replicate, length_pixels_seg
           by reflexivity. lia. }
    cbn [bind].
    replace (height img - Z.of_nat (S n) + 1)
      with (height img - Z.of_nat n) by lia.
    rewrite IH; [|lia|].
    2: { rewrite !length_app, length_take, length_drop, length_pixels_seg
           by reflexivity. lia. }
    rewrite Z.mul_0_r, !Z.add_0_r, Z.add_0_l.
    replace (S n * Z.to_nat (width img))%nat
      with (n * Z.to_nat (width img) + Z.to_nat (width img))%nat by lia.
    rewrite pixels_seg_app, <- !app_assoc. f_equal.
    replace (Z.to_nat (Z.of_nat n * (width img * 3)))
      with (3 * n * Z.to_nat (width img))%nat by nia.
    rewrite drop_app_length'
      by (rewrite length_take; nia).
    replace (0 + Z.of_nat (n * Z.to_nat (width img)))
      with (Z.of_nat n * width img) by nia.
    rewrite Z2Nat.id by lia. f_equal. f_equal. f_equal. nia.
Qed.

End BmpDecode.

(** ** BMP: the headers *)

Lemma le32_put32 v :
  0 <= v < 4294967296 ->
  v mod 256 + 256 * (v / 256 mod 256) + 65536 * (v / 65536 mod 256) +
  16777216 * (v / 16777216 mod 256) = v.
Proof. intros Hv. Z.div_mod_to_equations. lia. Qed.

Lemma to_int32_to_uint32 v :
  INT32_MIN <= v <= INT_MAX -> to_int32 (to_uint32 v) = v.
Proof.
  unfold INT32_MIN, INT_MAX, to_int32, to_uint32. intros Hv.
  destruct (Z.ltb_spec (v mod 4294967296) 2147483648);
    Z.div_mod_to_equations; lia.
Qed.

Lemma to_uint32_range v : 0 <= to_uint32 v < 4294967296.
Proof. unfold to_uint32. apply Z.mod_pos_bound. lia. Qed.

Lemma get_put_bmp_file_header image_size :
  get_bmp_file_header (put_bmp_file_header (bmp_write_file_header image_size))
  = bmp_write_file_header image_size.
Proof.
  unfold get_bmp_file_header, put_bmp_file_header, bmp_write_file_header.
  cbn [fh_type fh_size fh_reserved1 fh_reserved2 fh_offset].
  pose proof (to_uint32_range (sizeof_bmp_file_header +
                               sizeof_bmp_info_header + image_size)) as Hs.
  set (sz := to_uint32 _) in *.
  unfold le16, le32, put16, put32, byte_at.
  cbn [app lookup list_lookup default Nat.add]. unfold id.
  rewrite (le32_put32 sz Hs). reflexivity.
Qed.

Lemma get_put_bmp_info_header img image_size :
  INT32_MIN <= width img <= INT_MAX ->
  INT32_MIN <= height img <= INT_MAX ->
  get_bmp_info_header (put_bmp_info_header (bmp_write_info_header img image_size))
  = bmp_write_info_header img image_size.
Proof.
  intros Hw Hh.
  unfold get_bmp_info_header, put_bmp_info_header, bmp_write_info_header.
  cbn [ih_size ih_width ih_height ih_planes ih_bit_count ih_compression
       ih_image_size ih_x_pels_per_meter ih_y_pels_per_meter ih_clr_used
       ih_clr_important].
  pose proof (to_uint32_range image_size) as Hs.
  pose proof (to_uint32_range (width img)) as Hwu.
  pose proof (to_uint32_range (height img)) as Hhu.
  pose proof (to_int32_to_uint32 (width img) Hw) as Hw'.
  pose proof (to_int32_to_uint32 (height img) Hh) as Hh'.
  set (sz := to_uint32 image_size) in *.
  set (wu := to_uint32 (width img)) in *.
  set (hu := to_uint32 (height img)) in *.
  unfold le16, le32, put16, put32, byte_at.
  cbn [app lookup list_lookup default Nat.add]. unfold id.
  rewrite (le32_put32 sz Hs), (le32_put32 wu Hwu), (le32_put32 hu Hhu).
  rewrite Hw', Hh'. reflexivity.
Qed.

(** ** BMP: the encoder as a whole *)

Lemma bmp_write_eq hp img :
  image_wf img ->
  pixel_count_of img * channels img <= SIZE_MAX ->
  (width img - 1) * channels img + 2 <= INT_MAX ->
  bmp_rowbytes_of img * height img + 54 <= UINT32_MAX ->
  can_alloc hp (bmp_rowbytes_of img) = true ->
  bmp_write hp img =
    Ok (put_bmp_file_header
          (bmp_write_file_header (bmp_rowbytes_of img * height img)) ++
        put_bmp_info_header
          (bmp_write_info_header img (bmp_rowbytes_of img * height img)) ++
        bmp_rows img (Z.to_nat (height img))).
Proof.
  intros Hwf Hfit Hint Hsize Halloc.
  pose proof (image_wf_size _ Hwf) as [Hpc Hch].
  pose proof Hwf as ((Hw & Hwm) & (Hh & Hhm) & Hc & _).
  pose proof (bmp_rowbytes_of_bounds img) as [Hrb Hpad].
  pose proof SIZE_MAX_ge as HS. unfold UINT32_MAX, INT_MAX in *.
  unfold pixel_count_of in *.
  unfold bmp_write.
  replace (image_validate_dims img) with true
    by (symmetry; apply image_validate_dims_true; lia).
  cbn [negb]. cbv zeta.
  rewrite (to_size_t_small (width img)), (to_size_t_small (height img)),
    (to_size_t_small (channels img)), (to_size_t_small 3) by lia.
  assert (bmp_rowbytes_of img <= bmp_rowbytes_of img * height img) by nia.
  rewrite checked_mul_size_eq by lia.
  destruct (Z.leb_spec (width img * 3) SIZE_MAX); [|lia].
  cbn [checked bind].
  rewrite checked_add_size_eq by lia.
  destruct (Z.leb_spec (width img * 3 + 3) SIZE_MAX); [|lia].
  cbn [checked bind].
  rewrite align4_eq by lia.
  replace (4 * ((width img * 3 + 3) / 4)) with (bmp_rowbytes_of img)
    by (unfold bmp_rowbytes_of; do 3 f_equal; lia).
  destruct (Z.eqb_spec (bmp_rowbytes_of img) 0); [lia|].
  rewrite checked_mul_size_eq by lia.
  destruct (Z.leb_spec (bmp_rowbytes_of img * height img) SIZE_MAX); [|lia].
  cbn [checked bind].
  unfold UINT32_MAX.
  unfold sizeof_bmp_file_header at 1, sizeof_bmp_info_header at 1.
  destruct (Z.ltb_spec (4294967295 - (14 + 40))
                       (bmp_rowbytes_of img * height img)); [lia|].
  unfold calloc. rewrite Halloc. cbn [alloc_or_fail bind].
  rewrite checked_mul_size_eq by lia.
  destruct (Z.leb_spec (width img * channels img) SIZE_MAX); [|nia].
  cbn [checked bind].
  rewrite bmp_write_rows_eq; try assumption; try lia.
  - reflexivity.
  - rewrite length_replicate. lia.
  - rewrite drop_replicate. f_equal. unfold bmp_pad_of. lia.
Qed.

Lemma int_idx_overflow x c k :
  INT_MAX < x * c + k -> 0 <= k -> int_idx x c k = Undef.
Proof.
  intros Hover Hk. unfold int_idx, int_op.
  destruct ((INT32_MIN <=? x * c) && (x * c <=? INT_MAX)) eqn:E;
    [|reflexivity].
  cbn [bind].
  destruct (Z.leb_spec (x * c + k) INT_MAX); [lia|].
  rewrite andb_false_r. reflexivity.
Qed.

Lemma is_ok_bind {A B} (m : result A) (k : A -> result B) :
  is_ok (bind m k) -> exists a, m = Ok a /\ is_ok (k a).
Proof. destruct m as [a| |]; cbn; [eauto | tauto | tauto]. Qed.

(** An index that leaves [int] makes the row loop undefined. *)
Lemma bmp_write_row_overflow ch src yoff n :
  3 <= ch <= 4 ->
  forall x row,
    0 <= x -> (0 < n)%nat ->
    INT_MAX < (x + Z.of_nat n - 1) * ch + 2 ->
    ~ is_ok (bmp_write_row ch src yoff n x row).
Proof.
  intros Hch. induction n as [|n IH]; intros x row Hx Hn Hover Hok; [lia|].
  cbn [bmp_write_row] in Hok.
  apply is_ok_bind in Hok as (d0 & _ & Hok).
  apply is_ok_bind in Hok as (s2 & Hs2 & Hok).
  destruct (Z.lt_ge_cases INT_MAX (x * ch + 2)) as [Hnow|Hlater].
  - rewrite int_idx_overflow in Hs2 by lia. discriminate.
  - repeat (apply is_ok_bind in Hok as (? & _ & Hok)).
    apply (IH (x + 1) _ ltac:(lia)) in Hok; [exact Hok | nia |].
    replace (x + 1 + Z.of_nat n - 1) with (x + Z.of_nat (S n) - 1) by lia.
    exact Hover.
Qed.

Lemma bmp_write_inv hp img bytes :
  image_wf img ->
  pixel_count_of img * channels img <= SIZE_MAX ->
  bmp_write hp img = Ok bytes ->
  (width img - 1) * channels img + 2 <= INT_MAX /\
  bmp_rowbytes_of img * height img + 54 <= UINT32_MAX /\
  can_alloc hp (bmp_rowbytes_of img) = true.
Proof.
  intros Hwf Hfit.
  pose proof (image_wf_size _ Hwf) as [Hpc Hch].
  pose proof Hwf as ((Hw & Hwm) & (Hh & Hhm) & Hc & _).
  pose proof (bmp_rowbytes_of_bounds img) as [Hrb Hpad].
  pose proof SIZE_MAX_ge as HS. unfold UINT32_MAX, INT_MAX in *.
  unfold pixel_count_of in *.
  unfold bmp_write.
  replace (image_validate_dims img) with true
    by (symmetry; apply image_validate_dims_true; lia).
  cbn [negb]. cbv zeta.
  rewrite (to_size_t_small (width img)), (to_size_t_small (height img)),
    (to_size_t_small (channels img)), (to_size_t_small 3) by lia.
  rewrite checked_mul_size_eq by lia.
  destruct (Z.leb_spec (width img * 3) SIZE_MAX); [|discriminate].
  cbn [checked bind].
  rewrite checked_add_size_eq by lia.
  destruct (Z.leb_spec (width img * 3 + 3) SIZE_MAX); [|discriminate].
  cbn [checked bind].
  rewrite align4_eq by lia.
  replace (4 * ((width img * 3 + 3) / 4)) with (bmp_rowbytes_of img)
    by (unfold bmp_rowbytes_of; do 3 f_equal; lia).
  destruct (Z.eqb_spec (bmp_rowbytes_of img) 0); [discriminate|].
  rewrite checked_mul_size_eq by lia.
  destruct (Z.leb_spec (bmp_rowbytes_of img * height img) SIZE_MAX);
    [|discriminate].
  cbn [checked bind].
  unfold UINT32_MAX.
  unfold sizeof_bmp_file_header at 1, sizeof_bmp_info_header at 1.
  destruct (Z.ltb_spec (4294967295 - (14 + 40))
                       (bmp_rowbytes_of img * height img)); [discriminate|].
  unfold calloc. destruct (can_alloc hp (bmp_rowbytes_of img)) eqn:Halloc;
    [|discriminate].
  cbn [alloc_or_fail bind].
  rewrite checked_mul_size_eq by lia.
  destruct (Z.leb_spec (width img * channels img) SIZE_MAX); [|discriminate].
  cbn [checked bind]. intros Hrows.
  split; [|split; [lia | reflexivity]].
  destruct (Z.le_gt_cases ((width img - 1) * channels img + 2) 2147483647)
    as [Hle|Hgt]; [exact Hle | exfalso].
  assert (Hok : is_ok (bmp_write_rows img (width img * channels img)
                         (Z.to_nat (height img))
                         (replicate (Z.to_nat (bmp_rowbytes_of img)) 0))).
  { destruct (bmp_write_rows _ _ _ _); [exact I | discriminate | discriminate]. }
  destruct (Z.to_nat (height img)) as [|rows_left] eqn:Hrows_left; [lia|].
  cbn [bmp_write_rows] in Hok.
  apply is_ok_bind in Hok as (row & Hrow & _).
  eapply (bmp_write_row_overflow (channels img) _ _ (Z.to_nat (width img)) Hch 0).
  - lia.
  - lia.
  - unfold INT_MAX. rewrite Z2Nat.id by lia. lia.
  - rewrite Hrow. exact I.
Qed.

(** ** BMP: decoding what the encoder wrote *)

Lemma pixels_seg_rgb_chunk img n :
  image_wf img -> channels img = 3 ->
  forall s,
    0 <= s -> s + Z.of_nat n <= pixel_count_of img ->
    pixels_seg rgb_of img s n =
      take (3 * n) (drop (Z.to_nat (3 * s)) (pixels img)).
Proof.
  intros Hwf Hc3. induction n as [|n IH]; intros s Hs Hend.
  - reflexivity.
  - rewrite pixels_seg_cons, IH by lia.
    change (rgb_of (pixel_at img s)) with (px_bytes 3 (pixel_at img s)).
    rewrite <- Hc3 at 1. rewrite px_bytes_pixel_at by (assumption || lia).
    rewrite Hc3.
    replace (Z.to_nat (3 * (s + 1))) with (Z.to_nat (s * 3) + Z.to_nat 3)%nat
      by lia.
    rewrite <- drop_drop, take_take_drop.
    replace (Z.to_nat (s * 3)) with (Z.to_nat (3 * s)) by lia.
    f_equal. lia.
Qed.

Lemma drop_alpha_rgb img :
  image_wf img -> channels img = 3 -> drop_alpha img = img.
Proof.
  intros Hwf Hc3. pose proof (image_wf_size _ Hwf) as [Hpc _].
  pose proof Hwf as (_ & _ & _ & Hlen & _). fold (pixel_count_of img) in Hlen.
  unfold drop_alpha.
  rewrite pixels_seg_rgb_chunk by (assumption || lia).
  change (Z.to_nat (3 * 0)) with 0%nat. rewrite drop_0, take_ge by lia.
  destruct img. cbn in *. subst. reflexivity.
Qed.

Lemma bmp_read_written hp max_pixels img :
  image_wf img ->
  (width img - 1) * 3 + 2 <= INT_MAX ->
  3 * pixel_count_of img <= SIZE_MAX ->
  max_pixels = 0 \/ pixel_count_of img <= max_pixels ->
  can_alloc hp (3 * pixel_count_of img) = true ->
  can_alloc hp (bmp_rowbytes_of img) = true ->
  forall image_size,
    bmp_read hp max_pixels
      (put_bmp_file_header (bmp_write_file_header image_size) ++
       put_bmp_info_header (bmp_write_info_header img image_size) ++
       bmp_rows img (Z.to_nat (height img))) = Ok (drop_alpha img).
Proof.
  intros Hwf Hint Hfit Hceil Hbuf Hrow image_size.
  pose proof (image_wf_size _ Hwf) as [Hpc Hch].
  pose proof Hwf as ((Hw & Hwm) & (Hh & Hhm) & Hc & _).
  pose proof (bmp_rowbytes_of_bounds img) as [Hrb Hpad].
  pose proof SIZE_MAX_ge as HS. unfold UINT32_MAX in HS.
  unfold bmp_read.
  rewrite read_bytes_exact by reflexivity.
  rewrite read_bytes_exact by reflexivity.
  rewrite get_put_bmp_file_header.
  rewrite get_put_bmp_info_header by (unfold INT32_MIN; lia).
  cbn [bmp_write_file_header bmp_write_info_header fh_type fh_offset
       ih_compression ih_bit_count ih_width ih_height].
  change (negb (1078 * 18 =? 19778)) with false.
  cbn [Z.eqb negb orb andb Pos.eqb].
  destruct (Z.leb_spec (width img) 0); [lia|].
  destruct (Z.ltb_spec INT_MAX (width img)); [lia|].
  destruct (Z.eqb_spec (height img) 0); [lia|].
  destruct (Z.eqb_spec (height img) INT32_MIN); [unfold INT32_MIN in *; lia|].
  cbn [orb].
  destruct (Z.ltb_spec (height img) 0); [lia|].
  cbn [width height channels pixels].
  replace (image_validate_dims _) with true
    by (symmetry; apply image_validate_dims_true; cbn; lia).
  cbn [negb].
  rewrite image_check_max_pixels_eq by lia. fold (pixel_count_of img).
  unfold INT_MAX in *.
  assert (Hc' : (max_pixels =? 0) || (pixel_count_of img <=? max_pixels) = true).
  { destruct Hceil as [->|Hle]; [reflexivity|].
    apply orb_true_iff. right. apply Z.leb_le. exact Hle. }
  destruct (Z.leb_spec (pixel_count_of img) SIZE_MAX); [|lia].
  rewrite Hc'. cbn [andb negb].
  rewrite (to_size_t_small (width img)), (to_size_t_small 3) by lia.
  rewrite checked_mul_size_eq by lia.
  destruct (Z.leb_spec (width img * 3) SIZE_MAX); [|lia].
  cbn [checked bind].
  unfold image_alloc_pixels. cbn [width height channels pixels].
  replace (image_validate_dims _) with true
    by (symmetry; apply image_validate_dims_true; cbn; lia).
  destruct (Z.eqb_spec (width img * 3) 0); [lia|].
  cbn [negb orb].
  rewrite image_check_max_pixels_eq by (unfold INT_MAX; lia).
  fold (pixel_count_of img).
  destruct (Z.leb_spec (pixel_count_of img) SIZE_MAX); [|lia].
  rewrite Hc'. cbn [andb negb].
  rewrite (to_size_t_small (height img)) by lia.
  unfold pixel_count_of in *.
  rewrite checked_mul_size_eq by lia.
  destruct (Z.leb_spec (width img * 3 * height img) SIZE_MAX); [|lia].
  cbn [checked bind].
  replace (width img * 3 * height img) with (3 * (width img * height img))
    by lia.
  unfold malloc at 1. rewrite Hbuf. cbn [alloc_or_fail bind].
  cbn [set_pixels width height channels pixels].
  change (24 / 8) with 3.
  rewrite ?(to_size_t_small 3), ?(to_size_t_small (width img)) by lia.
  rewrite checked_mul_size_eq by lia.
  destruct (Z.leb_spec (width img * 3) SIZE_MAX); [|lia].
  cbn [checked bind].
  rewrite checked_add_size_eq by lia.
  destruct (Z.leb_spec (width img * 3 + 3) SIZE_MAX); [|lia].
  cbn [checked bind].
  rewrite align4_eq by lia.
  replace (4 * ((width img * 3 + 3) / 4)) with (bmp_rowbytes_of img)
    by (unfold bmp_rowbytes_of; do 3 f_equal; lia).
  unfold malloc. rewrite Hrow. cbn [alloc_or_fail bind].
  unfold fseek_set.
  assert (HL : 54 <= LONG_MAX).
  { unfold LONG_MAX.
    assert (2 ^ 31 <= 2 ^ (size_bits - 1)) by (apply Z.pow_le_mono_r; lia).
    lia. }
  change (sizeof_bmp_file_header + sizeof_bmp_info_header) with 54.
  destruct (Z.ltb_spec LONG_MAX 54); [lia|].
  cbn [bind].
  rewrite app_assoc.
  rewrite drop_app_length' by reflexivity.
  pose proof (bmp_read_rows_eq img Hwf Hint Hfit [] (Z.to_nat (height img)))
    as Hrows.
  rewrite app_nil_r, Z2Nat.id, Z.sub_diag in Hrows by lia.
  rewrite Hrows; [|lia|].
  2: { rewrite length_fmap, length_seq. unfold pixel_count_of. lia. }
  cbn [bind]. unfold drop_alpha, pixel_count_of.
  rewrite drop_ge by (rewrite length_fmap, length_seq; nia).
  rewrite app_nil_r.
  replace (Z.to_nat (height img) * Z.to_nat (width img))%nat
    with (Z.to_nat (width img * height img)) by nia.
  reflexivity.
Qed.


(** * Further properties of the code *)

(** ** QOI decoder: what one operation reads and yields *)

Lemma to_uint8_is_byte x : is_byte (to_uint8 x).
Proof. unfold is_byte, to_uint8. apply Z.mod_pos_bound. lia. Qed.

Lemma px_is_bytes_index_get index i :
  Forall px_is_bytes index -> px_is_bytes (index_get index i).
Proof.
  intros Hall. unfold index_get.
  destruct (index !! Z.to_nat i) as [p|] eqn:Hp; cbn [default].
  - exact (Forall_lookup_1 _ _ _ _ Hall Hp).
  - unfold px_is_bytes, is_byte. cbn. lia.
Qed.

Lemma px_is_bytes_index_set index i px :
  Forall px_is_bytes index -> px_is_bytes px ->
  Forall px_is_bytes (index_set index i px).
Proof. intros Hall Hpx. unfold index_set. apply Forall_insert; assumption. Qed.

Lemma px_bytes_are_bytes ch px :
  px_is_bytes px -> Forall is_byte (px_bytes ch px).
Proof.
  intros (Hr & Hg & Hb & Ha). unfold px_bytes. apply Forall_take.
  repeat (apply Forall_cons_2; [assumption|]). apply Forall_nil_2.
Qed.

(** A run byte is neither of the tags [0xfe] and [0xff], so its count is at
    most 62. *)
Lemma run_count_bound b :
  0 <= b < 256 -> (b =? QOI_OP_RGB) = false -> (b =? QOI_OP_RGBA) = false ->
  (Z.land b QOI_MASK_2 =? QOI_OP_RUN) = true ->
  1 <= Z.land b 0x3f + 1 <= 62.
Proof.
  intros Hb H1 H2 H3.
  assert (Hall : forallb (fun b =>
            (b =? QOI_OP_RGB) || (b =? QOI_OP_RGBA) ||
            negb (Z.land b QOI_MASK_2 =? QOI_OP_RUN) ||
            ((1 <=? Z.land b 0x3f + 1) && (Z.land b 0x3f + 1 <=? 62)))
            (seqZ 0 256) = true) by (vm_compute; reflexivity).
  pose proof (forallb_seqZ _ 0 256 b Hall ltac:(lia)) as Hb'.
  cbv beta in Hb'. rewrite H1, H2, H3 in Hb'. cbn [orb negb] in Hb'.
  apply andb_true_iff in Hb' as [? ?]. lia.
Qed.

Lemma qoi_next_op_shape f index px op f' :
  qoi_next_op f index px = Some (op, f') ->
  (length f' < length f <= length f' + 5)%nat /\
  match op with
  | OpRun run => length f = S (length f') /\ 1 <= run <= 62
  | OpPixel px' =>
    Forall is_byte f -> px_is_bytes px -> Forall px_is_bytes index ->
    px_is_bytes px'
  end.
Proof.
  destruct f as [|c f1]; [discriminate|]. cbn [qoi_next_op]. cbv zeta.
  pose proof (to_uint8_is_byte c) as Hc.
  repeat match goal with
         | |- context [if ?c then _ else _] =>
           lazymatch c with
           | (_ =? _) => destruct c eqn:?
           end
         | |- context [match ?l with [] => _ | _ :: _ => _ end] =>
           is_var l; destruct l
         end;
    try discriminate; intros [= <- <-];
    (split; [cbn [length]; lia|]).
  all: try (intros Hf Hpx Hidx;
            repeat match goal with
                   | H : Forall _ (_ :: _) |- _ =>
                     apply Forall_cons in H as [? H]
                   end;
            destruct Hpx as (? & ? & ? & ?);
            first [ apply px_is_bytes_index_get; assumption
                  | unfold px_is_bytes; cbn [px_r px_g px_b px_a];
                    (split; [|split; [|split]]);
                    first [assumption | apply to_uint8_is_byte] ]).
  split; [reflexivity|].
  apply run_count_bound; assumption.
Qed.

(** ** QOI decoder: what a successful run of the loop has done *)

(** When the loop succeeds from pixel [m] on, what it writes is a list
    [tail] of the remaining [(N - m) * ch] bytes that does not depend on the
    buffer it writes into; every operation takes between one and five bytes
    of the stream and yields between 1 and 62 pixels; the bytes written are
    bytes when the stream holds bytes. *)
Lemma qoi_read_loop_inv ch N n :
  3 <= ch <= 4 -> N * ch <= SIZE_MAX ->
  forall f index px m buf out rest,
    (length f <= n)%nat ->
    0 <= m <= N -> Z.of_nat (length buf) = N * ch ->
    qoi_read_loop ch (N * ch) f index px (m * ch) buf = Ok (out, rest) ->
    exists tail,
      Z.of_nat (length tail) = (N - m) * ch /\
      (forall buf', Z.of_nat (length buf') = N * ch ->
         qoi_read_loop ch (N * ch) f index px (m * ch) buf' =
           Ok (take (Z.to_nat (m * ch)) buf' ++ tail, rest)) /\
      N - m <= 62 * (Z.of_nat (length f) - Z.of_nat (length rest)) /\
      Z.of_nat (length f) - Z.of_nat (length rest) <= 5 * (N - m) /\
      (Forall is_byte f -> px_is_bytes px -> Forall px_is_bytes index ->
       Forall is_byte tail).
Proof.
  intros Hch HN.
  induction n as [|n IH]; intros f index px m buf out rest Hf Hm Hlen;
    rewrite qoi_read_loop_unfold;
    (destruct (Z.ltb_spec (m * ch) (N * ch)) as [Hlt|Hge];
     [| intros [= <- <-]; assert (m = N) by nia; subst m; exists [];
        split; [cbn [length]; lia|];
        split;
        [ intros buf' Hb; rewrite qoi_read_loop_unfold;
          destruct (Z.ltb_spec (N * ch) (N * ch)); [lia|];
          rewrite take_ge by lia; rewrite app_nil_r; reflexivity |];
        split; [lia|]; split; [lia|]; intros; apply Forall_nil_2 ]);
    (destruct (qoi_next_op f index px) as [[op f']|] eqn:Hop; [|discriminate]);
    pose proof (qoi_next_op_shape _ _ _ _ _ Hop) as [Hlen_f Hshape];
    [lia|].
  assert (m < N) by nia.
  assert (0 <= m * ch /\ m * ch + ch <= N * ch) as [? ?] by nia.
  pose proof (qoi_next_op_app _ _ _ _ _ Hop) as (used & Hfu & _ & _).
  destruct op as [px'|run].
  - pose proof (length_px_bytes ch px' Hch) as Hpb.
    rewrite memcpy_to_eq by lia.
    cbn [bind]. rewrite to_size_t_small by lia.
    replace (m * ch + ch) with ((m + 1) * ch) by lia.
    intros Hloop.
    apply IH in Hloop as (tail1 & Hlen1 & Hany & Hlo & Hhi & Hbytes);
      [|lia|lia|rewrite !length_app, length_take, length_drop; lia].
    exists (px_bytes ch px' ++ tail1).
    split; [rewrite length_app; lia|].
    split.
    { intros buf' Hb. rewrite qoi_read_loop_unfold.
      destruct (Z.ltb_spec (m * ch) (N * ch)); [|lia].
      rewrite Hop. rewrite memcpy_to_eq by lia. cbn [bind].
      rewrite to_size_t_small by lia.
      replace (m * ch + ch) with ((m + 1) * ch) by lia.
      rewrite Hany by (rewrite !length_app, length_take, length_drop; lia).
      do 2 f_equal.
      rewrite (app_assoc (take _ buf')).
      rewrite take_app_length' by (rewrite length_app, length_take; lia).
      rewrite <- app_assoc. reflexivity. }
    split; [lia|]. split; [lia|].
    intros Hfb Hpxb Hib.
    assert (px_is_bytes px') by (apply Hshape; assumption).
    apply Forall_app. split; [apply px_bytes_are_bytes; assumption|].
    apply Hbytes; [|assumption|apply px_is_bytes_index_set; assumption].
    rewrite Hfu in Hfb. apply Forall_app in Hfb as [_ ?]. assumption.
  - destruct Hshape as [Hone Hrun].
    pose proof (length_px_bytes ch px Hch) as Hpb.
    rewrite qoi_read_run_eq by (assumption || lia). cbn [bind].
    rewrite Z2Nat.id by lia.
    set (d := Z.min run (N - m)).
    assert (1 <= d <= 62 /\ d <= N - m) as [Hd Hd'] by lia.
    intros Hloop.
    apply IH in Hloop as (tail1 & Hlen1 & Hany & Hlo & Hhi & Hbytes);
      [|lia|lia|].
    2: { rewrite !length_app, length_take, length_drop,
           length_concat_replicate. nia. }
    exists (concat (replicate (Z.to_nat d) (px_bytes ch px)) ++ tail1).
    split; [rewrite length_app, length_concat_replicate; nia|].
    split.
    { intros buf' Hb. rewrite qoi_read_loop_unfold.
      destruct (Z.ltb_spec (m * ch) (N * ch)); [|lia].
      rewrite Hop. rewrite qoi_read_run_eq by (assumption || lia).
      cbn [bind]. rewrite Z2Nat.id by lia. fold d.
      rewrite Hany.
      2: { rewrite !length_app, length_take, length_drop,
             length_concat_replicate. nia. }
      do 2 f_equal.
      rewrite (app_assoc (take _ buf')).
      rewrite take_app_length'
        by (rewrite length_app, length_take, length_concat_replicate; nia).
      rewrite <- app_assoc. reflexivity. }
    split; [lia|]. split; [lia|].
    intros Hfb Hpxb Hib.
    apply Forall_app. split.
    + apply Forall_concat. apply Forall_replicate.
      apply px_bytes_are_bytes. assumption.
    + apply Hbytes; [|assumption|assumption].
      rewrite Hfu in Hfb. apply Forall_app in Hfb as [_ ?]. assumption.
Qed.

(** ** QOI decoder: what a successful decoding has checked *)

Lemma qoi_read32be_take n i f :
  (i + 4 <= n)%nat ->
  qoi_read32be (drop i (take n f)) = qoi_read32be (drop i f).
Proof.
  intros Hi. unfold qoi_read32be, byte_at.
  rewrite !lookup_drop, !lookup_take_lt by lia. reflexivity.
Qed.

Lemma read_bytes_inv f len hd tl :
  0 <= len -> read_bytes f len = Some (hd, tl) ->
  len <= Z.of_nat (length f) /\ hd = take (Z.to_nat len) f /\
  tl = drop (Z.to_nat len) f.
Proof.
  intros Hlen. unfold read_bytes.
  destruct (Z.ltb_spec (Z.of_nat (length f)) len); [discriminate|].
  intros [= <- <-]. auto.
Qed.

Lemma lor_lt_pow2 a b n :
  0 <= n -> 0 <= a < 2 ^ n -> 0 <= b < 2 ^ n -> 0 <= Z.lor a b < 2 ^ n.
Proof.
  intros Hn Ha Hb. split; [apply Z.lor_nonneg; lia|].
  destruct (Z.eq_dec a 0) as [->|Ha0]; [rewrite Z.lor_0_l; lia|].
  destruct (Z.eq_dec b 0) as [->|Hb0]; [rewrite Z.lor_0_r; lia|].
  assert (0 <= Z.lor a b) by (apply Z.lor_nonneg; lia).
  assert (Z.lor a b <> 0) by (rewrite Z.lor_eq_0_iff; lia).
  apply Z.log2_lt_pow2; [lia|].
  rewrite Z.log2_lor by lia.
  apply Z.max_lub_lt; apply Z.log2_lt_pow2; lia.
Qed.

Lemma qoi_read32be_range p :
  Forall is_byte p -> 0 <= qoi_read32be p < 4294967296.
Proof.
  intros Hp. unfold qoi_read32be.
  pose proof (byte_at_is_byte p 0 Hp) as H0.
  pose proof (byte_at_is_byte p 1 Hp) as H1.
  pose proof (byte_at_is_byte p 2 Hp) as H2.
  pose proof (byte_at_is_byte p 3 Hp) as H3.
  unfold is_byte in *.
  rewrite !Z.shiftl_mul_pow2 by lia.
  change 4294967296 with (2 ^ 32).
  repeat apply lor_lt_pow2; lia.
Qed.

Lemma qoi_read_stream_inv hp max_pixels f img rest :
  qoi_read_stream hp max_pixels f = Ok (img, rest) ->
  14 <= Z.of_nat (length f) /\
  qoi_read32be f = QOI_MAGIC /\
  width img = qoi_declared_width f /\
  height img = qoi_declared_height f /\
  channels img = qoi_declared_channels f /\
  width img <> 0 /\ height img <> 0 /\
  width img <= INT_MAX /\ height img <= INT_MAX /\
  3 <= channels img <= 4 /\
  to_size_t (width img) * to_size_t (height img) * channels img <= SIZE_MAX /\
  image_check_max_pixels max_pixels (width img) (height img) = true /\
  exists buf,
    malloc hp (to_size_t (width img) * to_size_t (height img) * channels img)
      = Some buf /\
    qoi_read_loop (channels img)
      (to_size_t (width img) * to_size_t (height img) * channels img)
      (drop 14 f) qoi_index_init qoi_px_init 0 buf = Ok (pixels img, rest).
Proof.
  unfold qoi_read_stream.
  destruct (read_bytes f QOI_HEADER_SIZE) as [[header f0]|] eqn:Hhdr;
    [|discriminate].
  apply read_bytes_inv in Hhdr as (Hlen & -> & ->); [|unfold QOI_HEADER_SIZE; lia].
  change (Z.to_nat QOI_HEADER_SIZE) with 14%nat.
  unfold QOI_HEADER_SIZE in Hlen.
  rewrite (qoi_read32be_take 14 4), (qoi_read32be_take 14 8) by lia.
  replace (qoi_read32be (take 14 f)) with (qoi_read32be f)
    by (symmetry; apply (qoi_read32be_take 14 0); lia).
  replace (byte_at (take 14 f) 12) with (byte_at f 12)
    by (unfold byte_at; rewrite lookup_take_lt by lia; reflexivity).
  fold (qoi_declared_width f) (qoi_declared_height f) (qoi_declared_channels f).
  set (w := qoi_declared_width f). set (h := qoi_declared_height f).
  set (ch := qoi_declared_channels f).
  destruct (Z.eqb_spec (qoi_read32be f) QOI_MAGIC) as [Hmagic|]; [|discriminate].
  cbn [negb].
  destruct (Z.eqb_spec w 0); [discriminate|].
  destruct (Z.eqb_spec h 0); [discriminate|].
  destruct (Z.ltb_spec INT_MAX w); [discriminate|].
  destruct (Z.ltb_spec INT_MAX h); [discriminate|].
  cbn [orb].
  assert (Hch : (negb (ch =? 3) && negb (ch =? 4)) = false -> 3 <= ch <= 4).
  { destruct (Z.eqb_spec ch 3); [lia|].
    destruct (Z.eqb_spec ch 4); [lia|]. discriminate. }
  destruct (negb (ch =? 3) && negb (ch =? 4)); [discriminate|].
  specialize (Hch eq_refl).
  pose proof SIZE_MAX_ge as HS. unfold UINT32_MAX in HS.
  set (a := to_size_t w). set (b := to_size_t h).
  assert (0 <= a /\ 0 <= b) as [Ha Hb]
    by (split; apply Z.mod_pos_bound; lia).
  rewrite (checked_mul_size_eq a b) by lia.
  destruct (Z.leb_spec (a * b) SIZE_MAX); [|discriminate].
  cbn [checked bind].
  rewrite (to_size_t_small ch) by lia.
  rewrite checked_mul_size_eq by lia.
  destruct (Z.leb_spec (a * b * ch) SIZE_MAX); [|discriminate].
  cbn [checked bind].
  destruct (image_check_max_pixels max_pixels w h) eqn:Hceil; [|discriminate].
  cbn [negb].
  destruct (malloc hp (a * b * ch)) as [buf|] eqn:Hbuf; [|discriminate].
  cbn [alloc_or_fail bind].
  rewrite to_size_t_small by lia.
  destruct (qoi_read_loop _ _ _ _ _ _ _) as [[out rest']| |] eqn:Hloop;
    [|discriminate|discriminate].
  cbn [bind]. intros [= <- <-]. cbn [width height channels pixels].
  repeat (split; [first [assumption | reflexivity | lia]|]).
  exists buf. split; assumption.
Qed.

Lemma qoi_read_inv hp max_pixels f img :
  qoi_read hp max_pixels f = Ok img ->
  exists rest, qoi_read_stream hp max_pixels f = Ok (img, rest).
Proof.
  unfold qoi_read.
  destruct (qoi_read_stream hp max_pixels f) as [[img' rest]| |];
    [|discriminate|discriminate].
  cbn [bind]. intros [= <-]. exists rest. reflexivity.
Qed.

Lemma qoi_read_not_ok hp max_pixels f :
  (forall img rest, qoi_read_stream hp max_pixels f <> Ok (img, rest)) ->
  qoi_read hp max_pixels f = Fail.
Proof.
  intros Hno. unfold qoi_read.
  pose proof (qoi_read_stream_defined hp max_pixels f) as Hdef.
  destruct (qoi_read_stream hp max_pixels f) as [[img rest]| |];
    [exfalso; exact (Hno img rest eq_refl) | reflexivity | contradiction].
Qed.

Lemma malloc_can_alloc hp n buf : malloc hp n = Some buf -> can_alloc hp n = true.
Proof. unfold malloc. destruct (can_alloc hp n); [reflexivity|discriminate]. Qed.

Lemma qoi_index_init_bytes : Forall px_is_bytes qoi_index_init.
Proof.
  apply Forall_replicate. unfold px_is_bytes, is_byte. cbn. lia.
Qed.

Lemma qoi_px_init_bytes : px_is_bytes qoi_px_init.
Proof. unfold px_is_bytes, is_byte. cbn. lia. Qed.

(** Everything a successful decoding of a file of bytes guarantees. *)
Lemma qoi_read_stream_ok hp max_pixels f img rest :
  Forall is_byte f ->
  qoi_read_stream hp max_pixels f = Ok (img, rest) ->
  image_wf img /\
  width img = qoi_declared_width f /\
  height img = qoi_declared_height f /\
  channels img = qoi_declared_channels f /\
  pixel_count_of img * channels img <= SIZE_MAX /\
  (max_pixels = 0 \/ pixel_count_of img <= max_pixels) /\
  can_alloc hp (pixel_count_of img * channels img) = true /\
  pixel_count_of img <=
    62 * (Z.of_nat (length f) - Z.of_nat (length rest) - 14) /\
  Z.of_nat (length f) - Z.of_nat (length rest) - 14 <=
    5 * pixel_count_of img.
Proof.
  intros Hbytes Hrun.
  apply qoi_read_stream_inv in Hrun
    as (Hlen & _ & Hw & Hh & Hc & Hw0 & Hh0 & Hwm & Hhm & Hch & Hfit & Hceil &
        buf & Hbuf & Hloop).
  pose proof (qoi_read32be_range (drop 4 f) (Forall_drop _ _ _ Hbytes)) as Hwr.
  pose proof (qoi_read32be_range (drop 8 f) (Forall_drop _ _ _ Hbytes)) as Hhr.
  fold (qoi_declared_width f) in Hwr. fold (qoi_declared_height f) in Hhr.
  rewrite <- Hw in Hwr. rewrite <- Hh in Hhr.
  rewrite (to_size_t_int (width img)), (to_size_t_int (height img)) in *
    by lia.
  rewrite image_check_max_pixels_eq in Hceil by lia.
  apply andb_true_iff in Hceil as [_ Hceil].
  assert (Hceil' : max_pixels = 0 \/ width img * height img <= max_pixels).
  { apply orb_true_iff in Hceil as [?%Z.eqb_eq|?%Z.leb_le]; auto. }
  assert (HN : 0 < width img * height img) by nia.
  assert (HNc : 0 <= width img * height img * channels img)
    by (apply Z.mul_nonneg_nonneg; lia).
  pose proof (length_malloc_Z _ _ _ HNc Hbuf) as Hblen.
  destruct (qoi_read_loop_inv (channels img) (width img * height img)
              (length (drop 14 f)) Hch Hfit (drop 14 f) qoi_index_init
              qoi_px_init 0 buf (pixels img) rest ltac:(lia) ltac:(lia)
              Hblen Hloop)
    as (tail & Htail & Hany & Hlo & Hhi & Htb).
  specialize (Hany buf Hblen). rewrite Z.mul_0_l in Hany.
  change (Z.to_nat 0) with 0%nat in Hany. rewrite take_0 in Hany.
  cbn [app] in Hany. rewrite Hloop in Hany. injection Hany as Hpx.
  rewrite length_drop in Hlo, Hhi.
  unfold pixel_count_of.
  split.
  { unfold image_wf. rewrite Hpx.
    repeat (split; [lia|]).
    apply Htb;
      [apply Forall_drop; assumption | apply qoi_px_init_bytes
      | apply qoi_index_init_bytes]. }
  repeat (split; [first [assumption | lia]|]).
  split; [exact (malloc_can_alloc _ _ _ Hbuf)|].
  lia.
Qed.

(** ** QOI decoder: rejected files *)

(** X1. [qoi_read] fails on a file shorter than the 14-byte header, on a
    wrong magic, on a declared width or height that is zero or greater than
    [INT_MAX], and on a channel count other than 3 and 4. *)
Theorem qoi_read_rejects_bad_header (hp : heap) (max_pixels : Z)
    (f : list Z) :
  Z.of_nat (length f) < 14 \/
  qoi_read32be f <> QOI_MAGIC \/
  qoi_declared_width f = 0 \/
  qoi_declared_height f = 0 \/
  INT_MAX < qoi_declared_width f \/
  INT_MAX < qoi_declared_height f \/
  (qoi_declared_channels f <> 3 /\ qoi_declared_channels f <> 4) ->
  qoi_read hp max_pixels f = Fail.
Proof.
  intros Hbad. apply qoi_read_not_ok. intros img rest Hrun.
  apply qoi_read_stream_inv in Hrun
    as (Hlen & Hmagic & Hw & Hh & Hc & Hw0 & Hh0 & Hwm & Hhm & Hch & _).
  rewrite Hw in Hw0, Hwm. rewrite Hh in Hh0, Hhm. rewrite Hc in Hch.
  destruct Hbad as [?|[?|[?|[?|[?|[?|[? ?]]]]]]]; try lia; contradiction.
Qed.

(** X2. [qoi_read] fails on a file of bytes whose header declares more
    pixels than a non-zero ceiling allows, or more bytes than [size_t]
    holds, or a buffer that [malloc] refuses; the rest of the file plays no
    part. *)
Theorem qoi_read_enforces_limits (hp : heap) (max_pixels : Z) (f : list Z) :
  Forall is_byte f ->
  (max_pixels <> 0 /\
   max_pixels < qoi_declared_width f * qoi_declared_height f) \/
  SIZE_MAX < qoi_declared_width f * qoi_declared_height f *
             qoi_declared_channels f \/
  can_alloc hp (qoi_declared_width f * qoi_declared_height f *
                qoi_declared_channels f) = false ->
  qoi_read hp max_pixels f = Fail.
Proof.
  intros Hbytes Hbad. apply qoi_read_not_ok. intros img rest Hrun.
  destruct (qoi_read_stream_ok _ _ _ _ _ Hbytes Hrun)
    as (_ & Hw & Hh & Hc & Hfit & Hceil & Halloc & _).
  unfold pixel_count_of in *. rewrite Hw, Hh, Hc in *.
  destruct Hbad as [[? ?]|[?|?]]; [lia | lia | congruence].
Qed.

(** ** QOI decoder: accepted files *)

(** X3. The image [qoi_read] returns for a file of bytes is well formed:
    its width, height and channel count are the ones the header declares,
    they are positive [int]s and 3 or 4, the pixel buffer holds exactly
    [width * height * channels] bytes, and the pixel count respects the
    ceiling. *)
Theorem qoi_read_image_wf (hp : heap) (max_pixels : Z) (f : list Z)
    (img : image) :
  Forall is_byte f ->
  qoi_read hp max_pixels f = Ok img ->
  image_wf img /\
  width img = qoi_declared_width f /\
  height img = qoi_declared_height f /\
  channels img = qoi_declared_channels f /\
  (max_pixels = 0 \/ pixel_count_of img <= max_pixels).
Proof.
  intros Hbytes Hrun. apply qoi_read_inv in Hrun as [rest Hrun].
  destruct (qoi_read_stream_ok _ _ _ _ _ Hbytes Hrun)
    as (Hwf & Hw & Hh & Hc & _ & Hceil & _).
  auto.
Qed.

(** X4. A file that is cut short is refused: when [qoi_read_stream] decodes
    a file and leaves [rest] unread, decoding any part of the file that
    ends before the last byte read fails. *)
Theorem qoi_read_rejects_truncated (hp : heap) (max_pixels : Z)
    (f : list Z) (img : image) (rest : list Z) :
  qoi_read_stream hp max_pixels f = Ok (img, rest) ->
  forall p q, f = p ++ q ++ rest -> q <> [] ->
    qoi_read hp max_pixels p = Fail.
Proof.
  intros Hrun p q Hf Hq. apply qoi_read_not_ok. intros img' rest' Hp.
  apply qoi_read_stream_rest in Hp as (used' & Hpeq & Hany).
  specialize (Hany (rest' ++ q ++ rest)).
  rewrite app_assoc, <- Hpeq, <- Hf, Hrun in Hany.
  injection Hany as _ Hrest.
  apply (f_equal length) in Hrest. rewrite !length_app in Hrest.
  destruct q; [contradiction|]. cbn [length] in Hrest. lia.
Qed.

(** The decoding loop gives the same result whatever the buffer holds when
    it starts. *)
Lemma qoi_read_loop_any_buffer ch N f index px buf1 buf2 :
  3 <= ch <= 4 -> N * ch <= SIZE_MAX -> 0 <= N ->
  Z.of_nat (length buf1) = N * ch -> Z.of_nat (length buf2) = N * ch ->
  qoi_read_loop ch (N * ch) f index px 0 buf1 =
  qoi_read_loop ch (N * ch) f index px 0 buf2.
Proof.
  intros Hch HN HN0 Hl1 Hl2.
  assert (Hone : forall b1 b2 out rest,
            Z.of_nat (length b1) = N * ch -> Z.of_nat (length b2) = N * ch ->
            qoi_read_loop ch (N * ch) f index px 0 b1 = Ok (out, rest) ->
            qoi_read_loop ch (N * ch) f index px 0 b2 = Ok (out, rest)).
  { intros b1 b2 out rest Hb1 Hb2 Hrun.
    destruct (qoi_read_loop_inv ch N (length f) Hch HN f index px 0 b1 out
                rest ltac:(lia) ltac:(lia) Hb1 Hrun) as (tail & _ & Hany & _).
    pose proof (Hany b1 Hb1) as H1. pose proof (Hany b2 Hb2) as H2.
    rewrite Z.mul_0_l in H1, H2. change (Z.to_nat 0) with 0%nat in H1, H2.
    rewrite take_0 in H1, H2. cbn [app] in H1, H2.
    rewrite Hrun in H1. rewrite H2. symmetry. exact H1. }
  pose proof (qoi_read_loop_defined ch N (length f) Hch HN f index px 0 buf1
                ltac:(lia) ltac:(lia) Hl1) as Hd1.
  pose proof (qoi_read_loop_defined ch N (length f) Hch HN f index px 0 buf2
                ltac:(lia) ltac:(lia) Hl2) as Hd2.
  rewrite Z.mul_0_l in Hd1, Hd2.
  destruct (qoi_read_loop ch (N * ch) f index px 0 buf1) as [[out rest]| |]
    eqn:H1; [|clear Hd1|contradiction].
  - symmetry. exact (Hone buf1 buf2 out rest Hl1 Hl2 H1).
  - destruct (qoi_read_loop ch (N * ch) f index px 0 buf2) as [[out rest]| |]
      eqn:H2; [|reflexivity|contradiction].
    rewrite (Hone buf2 buf1 out rest Hl2 Hl1 H2) in H1. discriminate.
Qed.

(** X5. What [qoi_read] returns does not depend on what the memory that
    [malloc] hands out holds: two heaps that grant the same requests give
    the same result, image or failure, on every file. *)
Theorem qoi_read_ignores_junk (hp1 hp2 : heap) (max_pixels : Z)
    (f : list Z) :
  (forall n, can_alloc hp1 n = can_alloc hp2 n) ->
  qoi_read hp1 max_pixels f = qoi_read hp2 max_pixels f.
Proof.
  intros Hsame. unfold qoi_read, qoi_read_stream.
  destruct (read_bytes f QOI_HEADER_SIZE) as [[header f0]|]; [|reflexivity].
  destruct (negb _); [reflexivity|].
  destruct (_ || _); [reflexivity|].
  set (ch := byte_at header 12).
  assert (Hch : (negb (ch =? 3) && negb (ch =? 4)) = false -> 3 <= ch <= 4).
  { destruct (Z.eqb_spec ch 3); [lia|].
    destruct (Z.eqb_spec ch 4); [lia|]. discriminate. }
  destruct (negb (ch =? 3) && negb (ch =? 4)); [reflexivity|].
  specialize (Hch eq_refl).
  pose proof SIZE_MAX_ge as HS. unfold UINT32_MAX in HS.
  set (a := to_size_t (qoi_read32be (drop 4 header))).
  set (b := to_size_t (qoi_read32be (drop 8 header))).
  assert (0 <= a /\ 0 <= b) as [Ha Hb]
    by (split; apply Z.mod_pos_bound; lia).
  rewrite (checked_mul_size_eq a b) by lia.
  destruct (Z.leb_spec (a * b) SIZE_MAX); [|reflexivity].
  cbn [checked bind].
  rewrite (to_size_t_small ch) by lia.
  rewrite checked_mul_size_eq by lia.
  destruct (Z.leb_spec (a * b * ch) SIZE_MAX); [|reflexivity].
  cbn [checked bind].
  destruct (negb _); [reflexivity|].
  unfold malloc. rewrite Hsame.
  destruct (can_alloc hp2 (a * b * ch)); [|reflexivity].
  cbn [alloc_or_fail bind].
  rewrite to_size_t_small by lia.
  assert (0 <= a * b * ch) by (apply Z.mul_nonneg_nonneg; lia).
  rewrite (qoi_read_loop_any_buffer ch (a * b) f0 qoi_index_init qoi_px_init
             (junk hp1 <$> seq 0 (Z.to_nat (a * b * ch)))
             (junk hp2 <$> seq 0 (Z.to_nat (a * b * ch))))
    by (rewrite ?length_fmap, ?length_seq; lia).
  reflexivity.
Qed.

(** X6. A successful decoding of a file of bytes has read, after the
    header, at least one byte for every 62 pixels of the image and at most
    five bytes per pixel. *)
Theorem qoi_read_consumption (hp : heap) (max_pixels : Z) (f : list Z)
    (img : image) (rest : list Z) :
  Forall is_byte f ->
  qoi_read_stream hp max_pixels f = Ok (img, rest) ->
  pixel_count_of img <=
    62 * (Z.of_nat (length f) - Z.of_nat (length rest) - 14) /\
  Z.of_nat (length f) - Z.of_nat (length rest) - 14 <=
    5 * pixel_count_of img.
Proof.
  intros Hbytes Hrun.
  destruct (qoi_read_stream_ok _ _ _ _ _ Hbytes Hrun)
    as (_ & _ & _ & _ & _ & _ & _ & Hlo & Hhi).
  auto.
Qed.

(** X7. An image decoded from a file of bytes survives being encoded and
    decoded again: when [qoi_write] encodes it, [qoi_read] decodes the
    result to the same image, under the same ceiling and heap. *)
Theorem qoi_read_reencoded (hp hp_w : heap) (max_pixels : Z) (f : list Z)
    (img : image) (bytes : list Z) :
  Forall is_byte f ->
  qoi_read hp max_pixels f = Ok img ->
  qoi_write hp_w img = Ok bytes ->
  qoi_read hp max_pixels bytes = Ok img.
Proof.
  intros Hbytes Hrun Hw. apply qoi_read_inv in Hrun as [rest Hrun].
  destruct (qoi_read_stream_ok _ _ _ _ _ Hbytes Hrun)
    as (Hwf & _ & _ & _ & Hfit & Hceil & Halloc & _).
  destruct (qoi_write_inv _ _ _ Hwf Hw) as [Hsz Hcan].
  rewrite (qoi_write_eq _ _ Hwf Hsz Hcan) in Hw.
  assert (Hb : bytes = qoi_header img ++
                 qoi_emitted img 0 (Z.to_nat (pixel_count_of img)) ++
                 qoi_end_marker) by congruence.
  rewrite Hb. unfold qoi_read.
  rewrite (qoi_read_stream_written hp max_pixels img qoi_end_marker Hwf Hfit
             Hceil Halloc).
  reflexivity.
Qed.

(** ** QOI: 32-bit big-endian fields *)

Lemma byte_testbit_high b i : is_byte b -> 8 <= i -> Z.testbit b i = false.
Proof.
  intros Hb Hi. unfold is_byte in Hb.
  rewrite <- (Z.mod_small b (2 ^ 8)) by lia.
  rewrite <- Z.land_ones, Z.land_spec, Z.testbit_ones by lia.
  destruct (Z.ltb_spec i 8); [lia|]. rewrite !andb_false_r. reflexivity.
Qed.

Lemma qoi_write32be_read32be b0 b1 b2 b3 :
  is_byte b0 -> is_byte b1 -> is_byte b2 -> is_byte b3 ->
  qoi_write32be (qoi_read32be [b0; b1; b2; b3]) = [b0; b1; b2; b3].
Proof.
  intros H0 H1 H2 H3. unfold qoi_read32be, qoi_write32be, byte_at.
  cbn [lookup list_lookup default]. unfold id.
  change 0xff with (Z.ones 8).
  repeat f_equal.
  all: apply Z.bits_inj'; intros n Hn.
  all: rewrite Z.land_spec, Z.testbit_ones by lia.
  all: rewrite ?Z.shiftr_spec by lia.
  all: rewrite !Z.lor_spec.
  all: destruct (Z.ltb_spec n 8) as [Hlt|Hge];
    destruct (Z.leb_spec 0 n); try lia; cbn [andb].
  all: rewrite ?andb_true_r, ?andb_false_r.
  all: repeat match goal with
              | |- context [Z.testbit (Z.shiftl ?b ?s) ?i] =>
                first [ rewrite (Z.shiftl_spec_low b s i) by lia
                      | rewrite (Z.shiftl_spec b s i) by lia ]
              end.
  all: repeat match goal with
              | |- context [Z.testbit ?b ?i] =>
                tryif is_var i then fail
                else first [ rewrite (byte_testbit_high b i)
                               by (assumption || lia)
                           | replace i with n by lia ]
              end.
  all: rewrite ?orb_false_r, ?orb_false_l; try reflexivity.
  all: symmetry; apply byte_testbit_high; assumption || lia.
Qed.

(** X8. The 32-bit big-endian helpers of the QOI header are inverse to each
    other: reading the four bytes written for a 32-bit value gives the value
    back, and writing the value read from four bytes gives the bytes back. *)
Theorem qoi_be32_round_trip :
  (forall v, 0 <= v < 4294967296 -> qoi_read32be (qoi_write32be v) = v) /\
  (forall b0 b1 b2 b3,
     is_byte b0 -> is_byte b1 -> is_byte b2 -> is_byte b3 ->
     qoi_write32be (qoi_read32be [b0; b1; b2; b3]) = [b0; b1; b2; b3]).
Proof.
  split.
  - intros v Hv. rewrite <- (app_nil_r (qoi_write32be v)).
    apply qoi_read32be_write32be. exact Hv.
  - apply qoi_write32be_read32be.
Qed.

(** ** QOI encoder: how much one iteration writes *)

(** An iteration writes at most four bytes for a pixel with the alpha of
    the previous one and at most five otherwise, not counting the byte of a
    run that it ends; the run counter stays below 62. *)
Lemma qoi_write_px_cost last index px_prev run px :
  0 <= run < 62 ->
  0 <= (qoi_write_px last index px_prev run px).2 < 62 /\
  Z.of_nat (length (qoi_write_px last index px_prev run px).1.1) +
    (if 0 <? (qoi_write_px last index px_prev run px).2 then 1 else 0) <=
  (if 0 <? run then 1 else 0) +
    (if px_a px =? px_a px_prev then 4 else 5).
Proof.
  intros Hrun. unfold qoi_write_px.
  destruct (px_eqb px px_prev) eqn:Heq.
  - apply px_eqb_eq in Heq. subst px_prev. rewrite Z.eqb_refl.
    destruct ((run + 1 =? 62) || last) eqn:Hflush; cbn [fst snd length].
    + destruct (Z.ltb_spec 0 run); cbn; lia.
    + apply orb_false_iff in Hflush as [Hne%Z.eqb_neq _].
      destruct (Z.ltb_spec 0 (run + 1)); destruct (Z.ltb_spec 0 run); lia.
  - destruct (Z.ltb_spec 0 run) as [Hr|Hr].
    all: destruct (px_eqb (index_get index (qoi_hash px)) px).
    all: destruct (px_a px =? px_a px_prev).
    all: repeat match goal with
                | |- context [if ?c && ?d then _ else _] => destruct (c && d)
                end.
    all: cbn [fst snd app length].
    all: change (0 <? 0) with false; cbv iota.
    all: lia.
Qed.

Lemma qoi_emit_eq img k :
  qoi_emit img k =
    (qoi_write_px (Z.of_nat k =? pixel_count_of img - 1)
                  (qoi_state img k).1.1 (qoi_state img k).1.2
                  (qoi_state img k).2 (pixel_at img (Z.of_nat k))).1.1.
Proof.
  unfold qoi_emit. destruct (qoi_state img k) as [[index px_prev] run].
  reflexivity.
Qed.

Lemma qoi_state_run_S img k :
  (qoi_state img (S k)).2 =
    (qoi_write_px (Z.of_nat k =? pixel_count_of img - 1)
                  (qoi_state img k).1.1 (qoi_state img k).1.2
                  (qoi_state img k).2 (pixel_at img (Z.of_nat k))).2.
Proof.
  rewrite qoi_state_S. destruct (qoi_state img k) as [[index px_prev] run].
  cbn [fst snd]. destruct (qoi_write_px _ _ _ _ _) as [[? ?] ?]. reflexivity.
Qed.

(** A three-channel image has alpha 255 throughout, as the encoder's
    initial previous pixel. *)
Lemma alpha_of_rgb img k :
  channels img = 3 ->
  px_a (pixel_at img (Z.of_nat k)) = px_a (qoi_prev_pixel img k).
Proof.
  intros Hc.
  assert (Hpx : forall i, px_a (pixel_at img i) = 255).
  { intros i. unfold pixel_at. rewrite Hc. reflexivity. }
  rewrite Hpx. destruct k as [|k]; [reflexivity|].
  cbn [qoi_prev_pixel]. rewrite Hpx. reflexivity.
Qed.

(** After [k] iterations the encoder has written at most [channels + 1]
    bytes per pixel, the byte of a run in progress counted in. *)
Lemma qoi_emitted_cost img k :
  3 <= channels img <= 4 ->
  0 <= (qoi_state img k).2 < 62 /\
  Z.of_nat (length (qoi_emitted img 0 k)) +
    (if 0 <? (qoi_state img k).2 then 1 else 0) <=
  (channels img + 1) * Z.of_nat k.
Proof.
  intros Hch. induction k as [|k [IHrun IHlen]].
  - cbn. lia.
  - rewrite qoi_emitted_snoc, length_app, Nat.add_0_l.
    rewrite qoi_emit_eq, qoi_state_run_S.
    pose proof (qoi_write_px_cost (Z.of_nat k =? pixel_count_of img - 1)
                  (qoi_state img k).1.1 (qoi_state img k).1.2
                  (qoi_state img k).2 (pixel_at img (Z.of_nat k)) IHrun)
      as [Hrun' Hcost].
    split; [exact Hrun'|].
    rewrite qoi_state_prev in Hcost.
    assert (Hop : (if px_a (pixel_at img (Z.of_nat k)) =?
                      px_a (qoi_prev_pixel img k) then 4 else 5) <=
                  channels img + 1).
    { destruct (Z.eq_dec (channels img) 3) as [H3|H3].
      - rewrite (alpha_of_rgb img k H3), Z.eqb_refl. lia.
      - destruct (px_a (pixel_at img (Z.of_nat k)) =?
                  px_a (qoi_prev_pixel img k)); lia. }
    rewrite qoi_state_prev.
    lia.
Qed.

(** The loop ends with no run in progress: its last iteration writes the
    run it is in. *)
Lemma qoi_state_end img k :
  Z.of_nat (S k) = pixel_count_of img -> (qoi_state img (S k)).2 = 0.
Proof.
  intros Hk. rewrite qoi_state_run_S.
  destruct (Z.eqb_spec (Z.of_nat k) (pixel_count_of img - 1)); [|lia].
  unfold qoi_write_px. rewrite orb_true_r.
  repeat match goal with
         | |- context [if ?c then _ else _] =>
           lazymatch c with
           | 0 <? _ => fail
           | _ => destruct c
           end
         end; reflexivity.
Qed.

(** ** QOI encoder: failures and the size of the output *)

Lemma qoi_write_fail hp img :
  image_wf img ->
  SIZE_MAX < pixel_count_of img * (channels img + 1) + 22 \/
  can_alloc hp (pixel_count_of img * (channels img + 1) + 22) = false ->
  qoi_write hp img = Fail.
Proof.
  intros Hwf Hbad. pose proof (image_wf_size _ Hwf) as [Hpc Hch].
  pose proof Hwf as (Hw & Hh & Hc & Hlen & _).
  pose proof SIZE_MAX_ge as HS. unfold UINT32_MAX in HS.
  unfold qoi_write.
  replace (image_validate_dims img) with true
    by (symmetry; apply image_validate_dims_true; lia).
  cbn [negb].
  rewrite (to_size_t_int (width img)), (to_size_t_int (height img)),
    (to_size_t_int (channels img)) by (unfold INT_MAX in *; lia).
  rewrite checked_mul_size_eq by lia. fold (pixel_count_of img).
  destruct (Z.leb_spec (pixel_count_of img) SIZE_MAX); [|reflexivity].
  cbn [checked bind].
  rewrite (to_size_t_small (channels img + 1)) by lia.
  rewrite checked_mul_size_eq by lia.
  destruct (Z.leb_spec (pixel_count_of img * (channels img + 1)) SIZE_MAX);
    [|reflexivity].
  cbn [checked bind]. unfold QOI_HEADER_SIZE, QOI_END_MARKER_SIZE.
  rewrite checked_add_size_eq by nia.
  destruct (Z.leb_spec (14 + pixel_count_of img * (channels img + 1)) SIZE_MAX);
    [|reflexivity].
  cbn [checked bind].
  rewrite checked_add_size_eq by nia.
  destruct (Z.leb_spec (14 + pixel_count_of img * (channels img + 1) + 8)
                       SIZE_MAX); [|reflexivity].
  cbn [checked bind]. unfold malloc.
  replace (14 + pixel_count_of img * (channels img + 1) + 8)
    with (pixel_count_of img * (channels img + 1) + 22) by lia.
  destruct Hbad as [Hbig|Hno]; [lia|]. rewrite Hno. reflexivity.
Qed.

(** X9. On a well-formed image [qoi_write] stays inside its buffers: when
    the size [width * height * (channels + 1) + 22] of the output buffer
    fits [size_t] and [malloc] grants it, the encoder succeeds and the bytes
    it has written, header and end marker included, number at most that
    size; otherwise it fails.  It never reads outside the pixel buffer. *)
Theorem qoi_write_memory_safe (hp : heap) (img : image) :
  image_wf img ->
  (pixel_count_of img * (channels img + 1) + 22 <= SIZE_MAX ->
   can_alloc hp (pixel_count_of img * (channels img + 1) + 22) = true ->
   exists bytes,
     qoi_write hp img = Ok bytes /\
     Z.of_nat (length bytes) <=
       pixel_count_of img * (channels img + 1) + 22) /\
  (SIZE_MAX < pixel_count_of img * (channels img + 1) + 22 \/
   can_alloc hp (pixel_count_of img * (channels img + 1) + 22) = false ->
   qoi_write hp img = Fail).
Proof.
  intros Hwf. split; [|apply qoi_write_fail; exact Hwf].
  intros Hfit Halloc. pose proof (image_wf_size _ Hwf) as [Hpc Hch].
  eexists. split; [apply qoi_write_eq; assumption|].
  destruct (qoi_emitted_cost img (Z.to_nat (pixel_count_of img)) Hch)
    as [_ Hcost].
  rewrite !length_app.
  change (length (qoi_header img)) with 14%nat.
  change (length qoi_end_marker) with 8%nat.
  destruct (0 <? _); lia.
Qed.

(** ** QOI encoder: an image of one colour *)

Lemma qoi_runs_step m :
  62 <= m -> qoi_runs m = qoi_run_op 62 :: qoi_runs (m - 62).
Proof.
  intros Hm. unfold qoi_runs.
  assert (m / 62 = (m - 62) / 62 + 1 /\ m mod 62 = (m - 62) mod 62)
    as [-> ->] by (Z.div_mod_to_equations; lia).
  assert (0 <= (m - 62) / 62) by (apply Z.div_pos; lia).
  replace (Z.to_nat ((m - 62) / 62 + 1)) with (S (Z.to_nat ((m - 62) / 62)))
    by lia.
  reflexivity.
Qed.

Lemma qoi_runs_short m :
  0 < m < 62 -> qoi_runs m = [qoi_run_op m].
Proof.
  intros Hm. unfold qoi_runs.
  rewrite Z.div_small, Z.mod_small by lia.
  destruct (Z.eqb_spec m 0); [lia|]. reflexivity.
Qed.

Lemma qoi_emitted_uniform img p n :
  forall m k index,
    (m <= n)%nat ->
    qoi_state img k = (index, p, 0) ->
    (forall j, (j < m)%nat -> pixel_at img (Z.of_nat (k + j)) = p) ->
    Z.of_nat (k + m) = pixel_count_of img ->
    qoi_emitted img k m = qoi_runs (Z.of_nat m).
Proof.
  induction n as [|n IH]; intros m k index Hmn Hst Hpx Hend.
  - replace m with 0%nat by lia. reflexivity.
  - destruct (Nat.eq_dec m 0%nat) as [->|Hm0]; [reflexivity|].
    destruct (le_lt_dec 62%nat m) as [Hbig|Hsmall].
    + destruct (qoi_state_run img k 61 index p 0 Hst) as [Hst61 Hem61];
        [intros; apply Hpx; lia | lia | lia |].
      destruct (qoi_state_run_full img (k + 61) index p) as [Hst62 Hem62];
        [exact Hst61 | apply Hpx; lia |].
      replace m with (61 + S (m - 62))%nat at 1 by lia.
      rewrite qoi_emitted_app, Hem61, qoi_emitted_cons, Hem62.
      cbn [app].
      rewrite (IH (m - 62)%nat (S (k + 61)) index); [|lia|exact Hst62| |lia].
      * rewrite (qoi_runs_step (Z.of_nat m)) by lia.
        do 2 f_equal. lia.
      * intros j Hj. replace (S (k + 61) + j)%nat with (k + (62 + j))%nat
          by lia.
        apply Hpx. lia.
    + destruct m as [|m']; [lia|].
      destruct (qoi_state_run img k m' index p 0 Hst) as [Hst' Hem'];
        [intros; apply Hpx; lia | lia | lia |].
      rewrite qoi_emitted_snoc, Hem'. unfold qoi_emit.
      rewrite Hst', (Hpx m') by lia. rewrite qoi_write_px_same.
      destruct (Z.eqb_spec (Z.of_nat (k + m')) (pixel_count_of img - 1));
        [|lia].
      rewrite orb_true_r. cbn [fst app].
      rewrite qoi_runs_short by lia. do 2 f_equal. lia.
Qed.

(** X11. An image whose pixels are all the same pixel [p] is written as runs:
    as many runs of 62 as fit, then one run for the rest; when [p] is not
    the encoder's initial previous pixel (0,0,0,255), the first pixel is
    written by an operation of its own and the runs cover the other
    pixels. *)
Theorem qoi_write_uniform (hp : heap) (img : image) (p : pixel) :
  image_wf img ->
  pixel_count_of img * (channels img + 1) + 22 <= SIZE_MAX ->
  can_alloc hp (pixel_count_of img * (channels img + 1) + 22) = true ->
  (forall j, 0 <= j < pixel_count_of img -> pixel_at img j = p) ->
  qoi_write hp img =
    Ok (qoi_header img ++
        (if decide (p = qoi_px_init) then qoi_runs (pixel_count_of img)
         else qoi_emit img 0 ++ qoi_runs (pixel_count_of img - 1)) ++
        qoi_end_marker).
Proof.
  intros Hwf Hfit Halloc Hpx. pose proof (image_wf_size _ Hwf) as [Hpc Hch].
  rewrite (qoi_write_eq _ _ Hwf Hfit Halloc). do 3 f_equal.
  set (n := Z.to_nat (pixel_count_of img)).
  destruct (decide (p = qoi_px_init)) as [Hp|Hp].
  - rewrite (qoi_emitted_uniform img p n n 0 qoi_index_init);
      [unfold n; rewrite Z2Nat.id by lia; reflexivity | lia
      | rewrite Hp; reflexivity | intros; apply Hpx; lia | lia].
  - destruct n as [|n'] eqn:Hn; [lia|].
    rewrite qoi_emitted_cons. f_equal.
    assert (Hst : exists index, qoi_state img 1 = (index, p, 0)).
    { rewrite qoi_state_S. cbn [qoi_state].
      change (Z.of_nat 0) with 0. rewrite (Hpx 0) by lia.
      destruct (qoi_write_px_new (0 =? pixel_count_of img - 1) qoi_index_init
                  qoi_px_init 0 p Hp eq_refl) as (op & index' & -> & _).
      exists index'. reflexivity. }
    destruct Hst as [index Hst].
    rewrite (qoi_emitted_uniform img p n' n' 1 index);
      [f_equal; lia | lia | exact Hst | intros; apply Hpx; lia | lia].
Qed.

(** ** BMP encoder: the size and the headers of the file *)

Lemma length_bmp_rows img n :
  0 < width img ->
  Z.of_nat (length (bmp_rows img n)) = Z.of_nat n * bmp_rowbytes_of img.
Proof.
  intros Hw. pose proof (bmp_rowbytes_of_bounds img) as [Hrb Hpad].
  induction n as [|n IH]; [reflexivity|].
  cbn [bmp_rows]. rewrite !length_app, length_replicate, length_pixels_seg
    by reflexivity.
  lia.
Qed.

(** X12. [bmp_write] refuses an image whose file would not fit the 32-bit
    size field of the header: when the padded rows and the 54 header bytes
    exceed [UINT32_MAX] bytes, it fails. *)
Theorem bmp_write_refuses_large (hp : heap) (img : image) :
  0 < width img <= INT_MAX -> 0 < height img <= INT_MAX ->
  channels img = 3 \/ channels img = 4 ->
  UINT32_MAX < bmp_rowbytes_of img * height img + 54 ->
  bmp_write hp img = Fail.
Proof.
  intros Hw Hh Hc Hbig.
  pose proof (bmp_rowbytes_of_bounds img) as [Hrb Hpad].
  pose proof SIZE_MAX_ge as HS. unfold UINT32_MAX, INT_MAX in *.
  unfold bmp_write.
  replace (image_validate_dims img) with true
    by (symmetry; apply image_validate_dims_true; lia).
  cbn [negb]. cbv zeta.
  rewrite (to_size_t_small (width img)), (to_size_t_small (height img)),
    (to_size_t_small 3) by lia.
  rewrite checked_mul_size_eq by lia.
  destruct (Z.leb_spec (width img * 3) SIZE_MAX); [|reflexivity].
  cbn [checked bind].
  rewrite checked_add_size_eq by lia.
  destruct (Z.leb_spec (width img * 3 + 3) SIZE_MAX); [|reflexivity].
  cbn [checked bind].
  rewrite align4_eq by lia.
  replace (4 * ((width img * 3 + 3) / 4)) with (bmp_rowbytes_of img)
    by (unfold bmp_rowbytes_of; do 3 f_equal; lia).
  destruct (Z.eqb_spec (bmp_rowbytes_of img) 0); [reflexivity|].
  rewrite checked_mul_size_eq by lia.
  destruct (Z.leb_spec (bmp_rowbytes_of img * height img) SIZE_MAX);
    [|reflexivity].
  cbn [checked bind].
  unfold UINT32_MAX.
  unfold sizeof_bmp_file_header at 1, sizeof_bmp_info_header at 1.
  destruct (Z.ltb_spec (4294967295 - (14 + 40))
                       (bmp_rowbytes_of img * height img)); [reflexivity|lia].
Qed.

(** X13. The file [bmp_write] produces has 54 header bytes and [height] rows
    of [4 * ceil (3 * width / 4)] bytes; its headers say so: magic "BM",
    the size of the whole file, pixel data at offset 54, the image's width
    and (positive, bottom-up) height, one plane, 24 bits per pixel, no
    compression. *)
Theorem bmp_write_layout (hp : heap) (img : image) (bytes : list Z) :
  image_wf img ->
  pixel_count_of img * channels img <= SIZE_MAX ->
  bmp_write hp img = Ok bytes ->
  Z.of_nat (length bytes) = 54 + bmp_rowbytes_of img * height img /\
  bmp_rowbytes_of img mod 4 = 0 /\
  bmp_file_header_of bytes =
    {| fh_type := 0x4D42; fh_size := Z.of_nat (length bytes);
       fh_reserved1 := 0; fh_reserved2 := 0; fh_offset := 54 |} /\
  bmp_info_header_of bytes =
    {| ih_size := 40; ih_width := width img; ih_height := height img;
       ih_planes := 1; ih_bit_count := 24; ih_compression := 0;
       ih_image_size := bmp_rowbytes_of img * height img;
       ih_x_pels_per_meter := 0; ih_y_pels_per_meter := 0;
       ih_clr_used := 0; ih_clr_important := 0 |}.
Proof.
  intros Hwf Hfit Hwrite.
  destruct (bmp_write_inv hp img bytes Hwf Hfit Hwrite) as (Hint & Hsize & Hw).
  rewrite bmp_write_eq in Hwrite by assumption.
  assert (Hbytes : bytes =
            put_bmp_file_header
              (bmp_write_file_header (bmp_rowbytes_of img * height img)) ++
            put_bmp_info_header
              (bmp_write_info_header img (bmp_rowbytes_of img * height img)) ++
            bmp_rows img (Z.to_nat (height img))) by congruence.
  clear Hwrite.
  pose proof Hwf as ((Hw0 & Hwm) & (Hh0 & Hhm) & _).
  pose proof (bmp_rowbytes_of_bounds img) as [Hrb Hpad].
  pose proof (length_bmp_rows img (Z.to_nat (height img)) Hw0) as Hrows.
  rewrite Z2Nat.id in Hrows by lia.
  assert (Hlen : Z.of_nat (length bytes) =
                 54 + bmp_rowbytes_of img * height img).
  { rewrite Hbytes, !length_app.
    change (length (put_bmp_file_header _)) with 14%nat.
    change (length (put_bmp_info_header _)) with 40%nat. lia. }
  assert (Hsz : 0 <= bmp_rowbytes_of img * height img) by nia.
  unfold UINT32_MAX, INT_MAX, INT32_MIN in *.
  split; [exact Hlen|]. split.
  { unfold bmp_rowbytes_of. rewrite Z.mul_comm. apply Z.mod_mul. lia. }
  split.
  - unfold bmp_file_header_of. rewrite Hlen, Hbytes.
    rewrite take_app_length' by reflexivity.
    rewrite get_put_bmp_file_header. unfold bmp_write_file_header.
    unfold sizeof_bmp_file_header, sizeof_bmp_info_header, to_uint32.
    rewrite Z.mod_small by lia. reflexivity.
  - unfold bmp_info_header_of. rewrite Hbytes.
    rewrite drop_app_length' by reflexivity.
    rewrite take_app_length' by reflexivity.
    rewrite get_put_bmp_info_header by (unfold INT32_MIN, INT_MAX; lia).
    unfold bmp_write_info_header.
    unfold sizeof_bmp_info_header, to_uint32.
    rewrite Z.mod_small by lia. reflexivity.
Qed.

(** ** BMP encoder: the alpha channel *)

Lemma pixels_seg_ext f g img1 img2 s n :
  (forall j, 0 <= j < Z.of_nat n ->
     f (pixel_at img1 (s + j)) = g (pixel_at img2 (s + j))) ->
  pixels_seg f img1 s n = pixels_seg g img2 s n.
Proof.
  revert s. induction n as [|n IH]; intros s Hfg; [reflexivity|].
  rewrite !pixels_seg_cons. f_equal.
  - specialize (Hfg 0 ltac:(lia)). rewrite Z.add_0_r in Hfg. exact Hfg.
  - apply IH. intros j Hj. specialize (Hfg (1 + j) ltac:(lia)).
    rewrite Z.add_assoc in Hfg. exact Hfg.
Qed.

Lemma pixel_at_drop_alpha img i :
  0 <= i < pixel_count_of img ->
  pixel_at (drop_alpha img) i =
    Px (px_r (pixel_at img i)) (px_g (pixel_at img i))
       (px_b (pixel_at img i)) 255.
Proof.
  intros Hi. unfold pixel_at at 1, byte_at.
  cbn [drop_alpha pixels channels].
  replace (Z.to_nat (i * 3)) with (3 * Z.to_nat i + 0)%nat by lia.
  replace (3 * Z.to_nat i + 0 + 1)%nat with (3 * Z.to_nat i + 1)%nat by lia.
  replace (3 * Z.to_nat i + 0 + 2)%nat with (3 * Z.to_nat i + 2)%nat by lia.
  rewrite !pixels_seg_lookup by (reflexivity || lia).
  rewrite Z.add_0_l, Z2Nat.id by lia. reflexivity.
Qed.

Lemma image_wf_drop_alpha img : image_wf img -> image_wf (drop_alpha img).
Proof.
  intros Hwf. pose proof (image_wf_size _ Hwf) as [Hpc _].
  pose proof Hwf as (Hw & Hh & _).
  unfold image_wf. cbn [drop_alpha pixels width height channels].
  split; [exact Hw|]. split; [exact Hh|]. split; [left; reflexivity|]. split.
  - rewrite length_pixels_seg by reflexivity. unfold pixel_count_of in *. lia.
  - unfold pixels_seg. apply Forall_concat. apply Forall_fmap.
    apply Forall_forall. intros j _. cbn.
    destruct (pixel_at_is_bytes img (0 + Z.of_nat j) Hwf) as (? & ? & ? & _).
    unfold rgb_of. repeat (apply Forall_cons_2; [assumption|]).
    apply Forall_nil_2.
Qed.

Lemma bmp_rows_drop_alpha img n :
  0 < width img -> Z.of_nat n <= height img ->
  bmp_rows (drop_alpha img) n = bmp_rows img n.
Proof.
  intros Hw. induction n as [|n IH]; intros Hn; [reflexivity|].
  cbn [bmp_rows]. rewrite IH by lia. f_equal. f_equal.
  cbn [drop_alpha width].
  apply pixels_seg_ext. intros j Hj.
  rewrite pixel_at_drop_alpha by (unfold pixel_count_of; nia).
  reflexivity.
Qed.

(** X14. [bmp_write] does not look at the alpha channel: a file it writes
    for an image is also what it writes for that image with the alpha
    channel removed, which is the image [bmp_read] makes of the file. *)
Theorem bmp_write_ignores_alpha (hp : heap) (img : image) (bytes : list Z) :
  image_wf img ->
  pixel_count_of img * channels img <= SIZE_MAX ->
  bmp_write hp img = Ok bytes ->
  bmp_write hp (drop_alpha img) = Ok bytes.
Proof.
  intros Hwf Hfit Hwrite.
  pose proof (image_wf_size _ Hwf) as [Hpc Hch].
  pose proof Hwf as ((Hw0 & _) & (Hh0 & _) & _).
  destruct (bmp_write_inv hp img bytes Hwf Hfit Hwrite) as (Hint & Hsize & Hw).
  rewrite bmp_write_eq in Hwrite by assumption.
  rewrite <- Hwrite.
  rewrite (bmp_write_eq hp (drop_alpha img)).
  - rewrite bmp_rows_drop_alpha by (cbn [drop_alpha height]; lia).
    reflexivity.
  - apply image_wf_drop_alpha. exact Hwf.
  - unfold pixel_count_of in *. cbn [drop_alpha width height channels]. nia.
  - cbn [drop_alpha width channels]. nia.
  - exact Hsize.
  - exact Hw.
Qed.

(** ** BMP decoder: what a row that was read has become *)

Lemma int_idx_inv x c k r :
  int_idx x c k = Ok r -> r = x * c + k.
Proof.
  unfold int_idx, int_op.
  destruct ((INT32_MIN <=? x * c) && (x * c <=? INT_MAX)); [|discriminate].
  cbn [bind].
  destruct ((INT32_MIN <=? x * c + k) && (x * c + k <=? INT_MAX));
    [|discriminate].
  intros [= <-]. reflexivity.
Qed.

Lemma load_inv buf i v :
  load buf i = Ok v -> 0 <= i /\ buf !! Z.to_nat i = Some v.
Proof.
  unfold load. destruct (Z.ltb_spec i 0); [discriminate|].
  destruct (buf !! Z.to_nat i) as [v'|]; [|discriminate].
  intros [= <-]. split; [lia | reflexivity].
Qed.

Lemma store_inv buf i v out :
  store buf i v = Ok out ->
  0 <= i < Z.of_nat (length buf) /\ out = <[Z.to_nat i := v]> buf.
Proof.
  unfold store.
  destruct (Z.leb_spec 0 i); destruct (Z.ltb_spec i (Z.of_nat (length buf)));
    cbn [andb]; try discriminate.
  intros [= <-]. split; [lia | reflexivity].
Qed.

Ltac inv_bind H :=
  match type of H with
  | bind ?m _ = Ok _ =>
    let E := fresh "E" in
    destruct m eqn:E; [cbn [bind] in H | discriminate H | discriminate H]
  end.

Lemma bmp_read_row_S ch bc row dst n x buf :
  bmp_read_row ch bc row dst (S n) x buf =
    do buf' <- bmp_read_px ch bc row dst x buf ;
    bmp_read_row ch bc row dst n (x + 1) buf'.
Proof.
  cbn [bmp_read_row]. unfold bmp_read_px.
  repeat match goal with
         | |- bind ?m _ = _ => destruct m; cbn [bind]; try reflexivity
         end.
Qed.

(** One pixel of a row: what the three or four stores have done. *)
Lemma bmp_read_px_sound ch bc row dst x buf out :
  ch = 3 \/ ch = 4 -> 0 <= dst -> 0 <= x ->
  bmp_read_px ch bc row dst x buf = Ok out ->
  length out = length buf /\
  (forall k, 0 <= k < ch ->
     exists v,
       row !! Z.to_nat (x * bc + bmp_src_channel k) = Some v /\
       out !! Z.to_nat (dst + (x * ch + k)) = Some v) /\
  (forall i : nat,
     Z.of_nat i < dst + x * ch \/ dst + (x + 1) * ch <= Z.of_nat i ->
     out !! i = buf !! i).
Proof.
  intros Hch Hdst Hx H. unfold bmp_read_px in H.
  repeat (inv_bind H;
          match goal with
          | E : int_idx _ _ _ = Ok _ |- _ => apply int_idx_inv in E; subst
          | E : load _ _ = Ok _ |- _ => apply load_inv in E as [? ?]
          | E : store _ _ _ = Ok _ |- _ => apply store_inv in E as [? ?]; subst
          end).
  destruct Hch as [-> | ->].
  - change (3 =? 4) with false in H. cbv iota in H. injection H as <-.
    rewrite !length_insert in *.
    split; [reflexivity|]. split.
    + intros k Hk.
      assert (Hcase : k = 0 \/ k = 1 \/ k = 2) by lia.
      destruct Hcase as [-> | [-> | ->]]; cbn [bmp_src_channel Z.eqb Z.sub];
        eexists; (split; [eassumption|]).
      * rewrite !list_lookup_insert_ne by lia.
        apply list_lookup_insert_eq. lia.
      * rewrite list_lookup_insert_ne by lia.
        apply list_lookup_insert_eq. rewrite length_insert. lia.
      * apply list_lookup_insert_eq. rewrite !length_insert. lia.
    + intros i Hi. rewrite !list_lookup_insert_ne by lia. reflexivity.
  - change (4 =? 4) with true in H. cbv iota in H.
    repeat (inv_bind H;
            match goal with
            | E : int_idx _ _ _ = Ok _ |- _ => apply int_idx_inv in E; subst
            | E : load _ _ = Ok _ |- _ => apply load_inv in E as [? ?]
            end).
    apply store_inv in H as [? ->].
    rewrite !length_insert in *.
    split; [reflexivity|]. split.
    + intros k Hk.
      assert (Hcase : k = 0 \/ k = 1 \/ k = 2 \/ k = 3) by lia.
      destruct Hcase as [-> | [-> | [-> | ->]]];
        cbn [bmp_src_channel Z.eqb Z.sub];
        eexists; (split; [eassumption|]).
      * rewrite !list_lookup_insert_ne by lia.
        apply list_lookup_insert_eq. lia.
      * rewrite !list_lookup_insert_ne by lia.
        apply list_lookup_insert_eq. rewrite length_insert. lia.
      * rewrite list_lookup_insert_ne by lia.
        apply list_lookup_insert_eq. rewrite !length_insert. lia.
      * apply list_lookup_insert_eq. rewrite !length_insert. lia.
    + intros i Hi. rewrite !list_lookup_insert_ne by lia. reflexivity.
Qed.

Lemma bmp_read_row_sound ch bc row dst n :
  ch = 3 \/ ch = 4 -> 0 <= dst ->
  forall x buf out,
    0 <= x ->
    bmp_read_row ch bc row dst n x buf = Ok out ->
    length out = length buf /\
    (forall j k, x <= j < x + Z.of_nat n -> 0 <= k < ch ->
       exists v,
         row !! Z.to_nat (j * bc + bmp_src_channel k) = Some v /\
         out !! Z.to_nat (dst + (j * ch + k)) = Some v) /\
    (forall i : nat,
       Z.of_nat i < dst + x * ch \/
       dst + (x + Z.of_nat n) * ch <= Z.of_nat i ->
       out !! i = buf !! i).
Proof.
  intros Hch Hdst. induction n as [|n IH]; intros x buf out Hx H.
  - cbn [bmp_read_row] in H. injection H as <-.
    split; [reflexivity|]. split; [intros; lia | reflexivity].
  - rewrite bmp_read_row_S in H. inv_bind H.
    apply (bmp_read_px_sound _ _ _ _ _ _ _ Hch Hdst Hx) in E
      as (Hlen1 & Hpx & Hfr1).
    apply IH in H as (Hlen & Hrest & Hfr); [|lia].
    split; [congruence|]. split.
    + intros j k Hj Hk.
      destruct (Z.eq_dec j x) as [->|Hne].
      * destruct (Hpx k Hk) as (v & Hrow & Hout).
        exists v. split; [exact Hrow|].
        rewrite Hfr by nia. exact Hout.
      * apply Hrest; lia.
    + intros i Hi. rewrite Hfr by nia. apply Hfr1. nia.
Qed.

(** ** BMP decoder: what the rows that were read have become *)

Lemma bmp_read_rows_sound (top_down : bool) w h ch bc brb n :
  ch = 3 \/ ch = 4 -> 0 < w -> 0 <= bc -> 0 <= brb ->
  h * (w * ch) <= SIZE_MAX ->
  forall y f buf out,
    0 <= y -> y + Z.of_nat n <= h ->
    bmp_read_rows top_down w h ch bc (w * ch) brb n y f buf = Ok out ->
    length out = length buf /\
    Z.of_nat n * brb <= Z.of_nat (length f) /\
    (forall y' x k,
       y <= y' < y + Z.of_nat n -> 0 <= x < w -> 0 <= k < ch ->
       exists v,
         f !! Z.to_nat ((y' - y) * brb + (x * bc + bmp_src_channel k)) =
           Some v /\
         out !! Z.to_nat ((if top_down then y' else h - 1 - y') * (w * ch) +
                          (x * ch + k)) = Some v) /\
    (forall i : nat,
       (forall y', y <= y' < y + Z.of_nat n ->
          Z.of_nat i < (if top_down then y' else h - 1 - y') * (w * ch) \/
          ((if top_down then y' else h - 1 - y') + 1) * (w * ch) <=
            Z.of_nat i) ->
       out !! i = buf !! i).
Proof.
  intros Hch Hw Hbc Hbrb Hfit.
  assert (Hrb : 3 <= w * ch) by nia.
  induction n as [|n IH]; intros y f buf out Hy Hyn H.
  - cbn [bmp_read_rows] in H. injection H as <-.
    split; [reflexivity|]. split; [lia|].
    split; [intros; lia | reflexivity].
  - cbn [bmp_read_rows] in H.
    destruct (read_bytes f brb) as [[row f']|] eqn:Hread; [|discriminate].
    apply read_bytes_inv in Hread as (Hlenf & -> & ->); [|lia].
    set (dy := if top_down then y else h - 1 - y) in *.
    assert (Hdy : 0 <= dy < h) by (unfold dy; destruct top_down; lia).
    assert (Hdst : 0 <= dy * (w * ch) /\ dy * (w * ch) + w * ch <= h * (w * ch))
      by nia.
    rewrite (to_size_t_small dy) in H by nia.
    rewrite to_size_t_small in H by lia.
    inv_bind H.
    apply bmp_read_row_sound in E as (Hlen1 & Hrow & Hfr1);
      [|assumption|lia|lia].
    apply IH in H as (Hlen & Hf' & Hrest & Hfr); [|lia|lia].
    rewrite length_drop in Hf'.
    split; [congruence|]. split; [lia|]. split.
    + intros y' x k Hy' Hx Hk.
      assert (Hsrc : 0 <= bmp_src_channel k <= 3)
        by (unfold bmp_src_channel; destruct (Z.eqb_spec k 3); lia).
      assert (He : 0 <= x * bc + bmp_src_channel k) by nia.
      destruct (Z.eq_dec y' y) as [->|Hne].
      * destruct (Hrow x k) as (v & Hr & Ho); [lia|lia|].
        exists v. split.
        -- replace ((y - y) * brb + (x * bc + bmp_src_channel k))
             with (x * bc + bmp_src_channel k) by lia.
           apply lookup_take_Some in Hr as [Hr _]. exact Hr.
        -- fold dy. rewrite Hfr; [exact Ho|].
           intros y'' Hy''.
           assert (0 <= x * ch + k < w * ch) by nia.
           destruct top_down; unfold dy; nia.
      * destruct (Hrest y' x k) as (v & Hf & Ho); [lia|lia|lia|].
        exists v. split; [|exact Ho].
        rewrite lookup_drop in Hf. rewrite <- Hf. f_equal.
        assert (0 <= (y' - (y + 1)) * brb) by nia.
        nia.
    + intros i Hi. rewrite Hfr.
      * apply Hfr1. specialize (Hi y ltac:(lia)). fold dy in Hi. lia.
      * intros y'' Hy''. apply Hi. lia.
Qed.

(** ** BMP decoder: the checks before the rows are read *)

Lemma le16_range p o : Forall is_byte p -> 0 <= le16 p o < 65536.
Proof.
  intros Hp. unfold le16.
  pose proof (byte_at_is_byte p o Hp). pose proof (byte_at_is_byte p (o + 1) Hp).
  unfold is_byte in *. lia.
Qed.

Lemma le32_range p o : Forall is_byte p -> 0 <= le32 p o < 4294967296.
Proof.
  intros Hp. unfold le32.
  pose proof (byte_at_is_byte p o Hp). pose proof (byte_at_is_byte p (o + 1) Hp).
  pose proof (byte_at_is_byte p (o + 2) Hp).
  pose proof (byte_at_is_byte p (o + 3) Hp).
  unfold is_byte in *. lia.
Qed.

Lemma to_int32_range u :
  0 <= u < 4294967296 -> INT32_MIN <= to_int32 u <= INT_MAX.
Proof.
  intros Hu. unfold to_int32, INT32_MIN, INT_MAX.
  destruct (Z.ltb_spec u 2147483648); lia.
Qed.

(** [bmp_read] either fails before it reads a row, or has checked the
    headers and the limits, obtained its two buffers and is left with the
    loop over the rows. *)
Lemma bmp_read_cases hp max_pixels file :
  Forall is_byte file ->
  bmp_read hp max_pixels file = Fail \/
  (54 <= Z.of_nat (length file) /\
   fh_type (bmp_file_header_of file) = 0x4D42 /\
   ih_compression (bmp_info_header_of file) = 0 /\
   (ih_bit_count (bmp_info_header_of file) = 24 \/
    ih_bit_count (bmp_info_header_of file) = 32) /\
   0 < bmp_declared_width file <= INT_MAX /\
   0 < bmp_declared_height file <= INT_MAX /\
   (max_pixels = 0 \/
    bmp_declared_width file * bmp_declared_height file <= max_pixels) /\
   bmp_declared_height file *
     (bmp_declared_width file * bmp_declared_channels file) <= SIZE_MAX /\
   can_alloc hp (bmp_declared_width file * bmp_declared_channels file *
                 bmp_declared_height file) = true /\
   can_alloc hp (bmp_declared_rowbytes file) = true /\
   0 <= bmp_data_offset file <= LONG_MAX /\
   bmp_read hp max_pixels file =
     do out <- bmp_read_rows (bmp_top_down file)
                 (bmp_declared_width file) (bmp_declared_height file)
                 (bmp_declared_channels file) (bmp_declared_channels file)
                 (bmp_declared_width file * bmp_declared_channels file)
                 (bmp_declared_rowbytes file)
                 (Z.to_nat (bmp_declared_height file)) 0
                 (drop (Z.to_nat (bmp_data_offset file)) file)
                 (junk hp <$>
                  seq 0 (Z.to_nat (bmp_declared_width file *
                                   bmp_declared_channels file *
                                   bmp_declared_height file))) ;
     Ok {| pixels := out;
           width := bmp_declared_width file;
           height := bmp_declared_height file;
           channels := bmp_declared_channels file |}).
Proof.
  intros Hbytes.
  unfold bmp_declared_rowbytes, bmp_declared_width, bmp_declared_height,
    bmp_declared_channels, bmp_data_offset, bmp_top_down,
    bmp_file_header_of, bmp_info_header_of.
  unfold bmp_read.
  destruct (read_bytes file sizeof_bmp_file_header) as [[fhb f1]|] eqn:Hfh;
    [|left; reflexivity].
  apply read_bytes_inv in Hfh as (Hlen1 & -> & ->);
    [|unfold sizeof_bmp_file_header; lia].
  destruct (read_bytes _ sizeof_bmp_info_header) as [[ihb f2]|] eqn:Hih;
    [|left; reflexivity].
  apply read_bytes_inv in Hih as (Hlen2 & -> & _);
    [|unfold sizeof_bmp_info_header; lia].
  unfold sizeof_bmp_file_header, sizeof_bmp_info_header in *.
  rewrite length_drop in Hlen2.
  change (Z.to_nat 14) with 14%nat in *. change (Z.to_nat 40) with 40%nat.
  set (fh := get_bmp_file_header (take 14 file)).
  set (ih := get_bmp_info_header (take 40 (drop 14 file))).
  assert (Hihb : Forall is_byte (take 40 (drop 14 file)))
    by (apply Forall_take, Forall_drop; exact Hbytes).
  assert (Hfhb : Forall is_byte (take 14 file))
    by (apply Forall_take; exact Hbytes).
  assert (Hwr : INT32_MIN <= ih_width ih <= INT_MAX)
    by (apply to_int32_range, le32_range; exact Hihb).
  assert (Hhr : INT32_MIN <= ih_height ih <= INT_MAX)
    by (apply to_int32_range, le32_range; exact Hihb).
  assert (Hor : 0 <= fh_offset fh < 4294967296)
    by (apply le32_range; exact Hfhb).
  destruct (Z.eqb_spec (fh_type fh) 0x4D42) as [Hmagic|]; [|left; reflexivity].
  cbn [negb].
  destruct (Z.eqb_spec (ih_compression ih) 0) as [Hcomp|];
    [|left; reflexivity].
  cbn [negb orb].
  assert (Hbits : (negb (ih_bit_count ih =? 24) &&
                   negb (ih_bit_count ih =? 32)) = false ->
                  ih_bit_count ih = 24 \/ ih_bit_count ih = 32).
  { destruct (Z.eqb_spec (ih_bit_count ih) 24); [auto|].
    destruct (Z.eqb_spec (ih_bit_count ih) 32); [auto|]. discriminate. }
  destruct (negb (ih_bit_count ih =? 24) && negb (ih_bit_count ih =? 32));
    [left; reflexivity|].
  specialize (Hbits eq_refl).
  destruct (Z.leb_spec (ih_width ih) 0); [left; reflexivity|].
  destruct (Z.ltb_spec INT_MAX (ih_width ih)); [left; reflexivity|].
  destruct (Z.eqb_spec (ih_height ih) 0); [left; reflexivity|].
  destruct (Z.eqb_spec (ih_height ih) INT32_MIN); [left; reflexivity|].
  cbn [orb].
  set (w := ih_width ih).
  assert (Hh : (if ih_height ih <? 0 then - ih_height ih else ih_height ih) =
               Z.abs (ih_height ih))
    by (destruct (Z.ltb_spec (ih_height ih) 0); lia).
  rewrite Hh. set (h := Z.abs (ih_height ih)).
  assert (Hhpos : 0 < h <= INT_MAX) by (unfold h, INT32_MIN, INT_MAX in *; lia).
  set (ch := if ih_bit_count ih =? 32 then 4 else 3).
  assert (Hch : ch = 3 \/ ch = 4) by (unfold ch; destruct (_ =? _); auto).
  assert (Hbc : ih_bit_count ih / 8 = ch).
  { unfold ch. destruct Hbits as [-> | ->]; reflexivity. }
  cbv zeta. rewrite Hbc.
  replace (image_validate_dims
             {| pixels := []; width := w; height := h; channels := ch |})
    with true
    by (symmetry; apply image_validate_dims_true;
        cbn [width height channels]; lia).
  cbn [negb width height channels].
  pose proof SIZE_MAX_ge as HS. unfold UINT32_MAX in HS.
  unfold INT_MAX in *.
  rewrite image_check_max_pixels_eq by (unfold INT_MAX; lia).
  destruct (Z.leb_spec (w * h) SIZE_MAX); [|left; reflexivity].
  cbn [andb].
  assert (Hceil : (max_pixels =? 0) || (w * h <=? max_pixels) = true ->
                  max_pixels = 0 \/ w * h <= max_pixels).
  { intros [?%Z.eqb_eq|?%Z.leb_le]%orb_true_iff; auto. }
  destruct ((max_pixels =? 0) || (w * h <=? max_pixels));
    [|left; reflexivity].
  specialize (Hceil eq_refl). cbn [negb].
  rewrite (to_size_t_small w), (to_size_t_small ch) by lia.
  rewrite (checked_mul_size_eq w ch) by lia.
  destruct (Z.leb_spec (w * ch) SIZE_MAX); [|left; reflexivity].
  cbn [checked bind].
  rewrite image_alloc_pixels_eq
    by (cbn [width height]; unfold INT_MAX; nia).
  unfold alloc_failure_cause. cbn [width height channels].
  replace ((0 <? w) && (0 <? h) && ((ch =? 3) || (ch =? 4))) with true
    by (destruct Hch as [-> | ->];
        destruct (Z.ltb_spec 0 w); destruct (Z.ltb_spec 0 h);
        try lia; reflexivity).
  cbn [negb orb].
  destruct (Z.eqb_spec (w * ch) 0); [nia|].
  destruct (Z.ltb_spec SIZE_MAX (w * h)); [lia|].
  replace (negb (max_pixels =? 0) && (max_pixels <? w * h)) with false
    by (destruct Hceil as [-> | ?]; [reflexivity|];
        destruct (Z.ltb_spec max_pixels (w * h)); [lia|];
        rewrite andb_false_r; reflexivity).
  destruct (Z.ltb_spec SIZE_MAX (w * ch * h)); [left; reflexivity|].
  destruct (can_alloc hp (w * ch * h)) eqn:Halloc; [|left; reflexivity].
  cbn [bind set_pixels pixels width height channels].
  rewrite (to_size_t_small w) by lia.
  rewrite (checked_mul_size_eq w ch) by lia.
  destruct (Z.leb_spec (w * ch) SIZE_MAX); [|lia].
  cbn [checked bind].
  rewrite checked_add_size_eq by nia.
  destruct (Z.leb_spec (w * ch + 3) SIZE_MAX); [|left; reflexivity].
  cbn [checked bind].
  rewrite align4_eq by nia.
  unfold malloc.
  destruct (can_alloc hp (4 * ((w * ch + 3) / 4))) eqn:Hrow;
    [|left; reflexivity].
  cbn [alloc_or_fail bind].
  unfold fseek_set.
  destruct (Z.ltb_spec LONG_MAX (fh_offset fh)); [left; reflexivity|].
  cbn [bind].
  right.
  repeat (split; [first [assumption | reflexivity | lia | nia]|]).
  reflexivity.
Qed.

(** ** BMP decoder: when the loops succeed *)

Lemma bmp_read_px_ok ch row dst x buf :
  ch = 3 \/ ch = 4 -> 0 <= dst -> 0 <= x ->
  (x + 1) * ch <= INT_MAX + 1 ->
  (x + 1) * ch <= Z.of_nat (length row) ->
  dst + (x + 1) * ch <= Z.of_nat (length buf) ->
  exists out, bmp_read_px ch ch row dst x buf = Ok out.
Proof.
  intros Hch Hdst Hx Hint Hrow Hbuf. unfold bmp_read_px.
  assert (0 <= x * ch) by nia.
  destruct Hch as [-> | ->].
  - rewrite !int_idx_ok by lia. cbn [bind].
    rewrite !load_byte_at by lia. cbn [bind].
    rewrite store_ok by lia. cbn [bind].
    rewrite store_ok by (rewrite length_insert; lia). cbn [bind].
    rewrite store_ok by (rewrite !length_insert; lia). cbn [bind].
    change (3 =? 4) with false. cbv iota. eexists. reflexivity.
  - rewrite !int_idx_ok by lia. cbn [bind].
    rewrite !load_byte_at by lia. cbn [bind].
    rewrite store_ok by lia. cbn [bind].
    rewrite store_ok by (rewrite length_insert; lia). cbn [bind].
    rewrite store_ok by (rewrite !length_insert; lia). cbn [bind].
    change (4 =? 4) with true. cbv iota. cbn [bind].
    rewrite store_ok by (rewrite !length_insert; lia).
    eexists. reflexivity.
Qed.

Lemma bmp_read_row_ok ch row dst n :
  ch = 3 \/ ch = 4 -> 0 <= dst ->
  forall x buf,
    0 <= x ->
    (x + Z.of_nat n) * ch <= INT_MAX + 1 ->
    (x + Z.of_nat n) * ch <= Z.of_nat (length row) ->
    dst + (x + Z.of_nat n) * ch <= Z.of_nat (length buf) ->
    exists out, bmp_read_row ch ch row dst n x buf = Ok out.
Proof.
  intros Hch Hdst. induction n as [|n IH]; intros x buf Hx Hint Hrow Hbuf.
  - eexists. reflexivity.
  - rewrite bmp_read_row_S.
    destruct (bmp_read_px_ok ch row dst x buf Hch Hdst Hx) as [buf1 Hpx];
      [nia | nia | nia |].
    rewrite Hpx. cbn [bind].
    apply (bmp_read_px_sound _ _ _ _ _ _ _ Hch Hdst Hx) in Hpx as (Hlen & _).
    apply IH; [lia | | | rewrite Hlen]; nia.
Qed.

(** The loop over the rows fails when the stream runs out of rows and
    succeeds otherwise, as long as the indices of a row fit [int]. *)
Lemma bmp_read_rows_ok (top_down : bool) w h ch brb n :
  ch = 3 \/ ch = 4 -> 0 < w -> w * ch <= INT_MAX + 1 -> w * ch <= brb ->
  h * (w * ch) <= SIZE_MAX ->
  forall y f buf,
    0 <= y -> y + Z.of_nat n <= h ->
    Z.of_nat (length buf) = h * (w * ch) ->
    (Z.of_nat (length f) < Z.of_nat n * brb ->
     bmp_read_rows top_down w h ch ch (w * ch) brb n y f buf = Fail) /\
    (Z.of_nat n * brb <= Z.of_nat (length f) ->
     exists out,
       bmp_read_rows top_down w h ch ch (w * ch) brb n y f buf = Ok out).
Proof.
  intros Hch Hw Hint Hbrb Hfit.
  assert (Hrb : 3 <= w * ch) by nia.
  induction n as [|n IH]; intros y f buf Hy Hyn Hlen.
  - split; [lia|]. intros _. eexists. reflexivity.
  - cbn [bmp_read_rows]. unfold read_bytes.
    destruct (Z.ltb_spec (Z.of_nat (length f)) brb) as [Hshort|Hlong].
    + split; [reflexivity | nia].
    + set (dy := if top_down then y else h - 1 - y).
      assert (Hdy : 0 <= dy < h) by (unfold dy; destruct top_down; lia).
      assert (Hdst : 0 <= dy * (w * ch) /\
                     dy * (w * ch) + w * ch <= h * (w * ch)) by nia.
      rewrite (to_size_t_small dy) by nia.
      rewrite to_size_t_small by lia.
      destruct (bmp_read_row_ok ch (take (Z.to_nat brb) f) (dy * (w * ch))
                  (Z.to_nat w) Hch ltac:(lia) 0 buf) as [buf1 Hrow];
        [lia | lia | rewrite length_take; lia | lia |].
      rewrite Hrow. cbn [bind].
      apply bmp_read_row_sound in Hrow as (Hlen1 & _); [|assumption|lia|lia].
      specialize (IH (y + 1) (drop (Z.to_nat brb) f) buf1 ltac:(lia)
                     ltac:(lia) ltac:(lia)).
      rewrite length_drop in IH. destruct IH as [IHfail IHok].
      split; intros Hf; [apply IHfail | apply IHok]; lia.
Qed.

Lemma bmp_read_rows_app (top_down : bool) w h ch bc rb brb n t :
  forall y f buf out,
    bmp_read_rows top_down w h ch bc rb brb n y f buf = Ok out ->
    bmp_read_rows top_down w h ch bc rb brb n y (f ++ t) buf = Ok out.
Proof.
  induction n as [|n IH]; intros y f buf out H; [exact H|].
  cbn [bmp_read_rows] in H |- *.
  destruct (read_bytes f brb) as [[row f']|] eqn:Hread; [|discriminate].
  destruct (read_bytes_app f brb row f' t Hread) as [_ ->].
  inv_bind H. cbn [bind]. apply IH. exact H.
Qed.

(** Every index of the pixel buffer is a channel of a pixel of a row. *)
Lemma index_decompose i w ch h :
  0 < w -> 0 < ch -> 0 <= i < h * (w * ch) ->
  exists dy x k,
    0 <= dy < h /\ 0 <= x < w /\ 0 <= k < ch /\
    i = dy * (w * ch) + (x * ch + k).
Proof.
  intros Hw Hch Hi.
  assert (Hrb : 0 < w * ch) by nia.
  pose proof (Z.div_mod i (w * ch) ltac:(lia)) as Hdm.
  pose proof (Z.mod_pos_bound i (w * ch) Hrb) as Hm.
  pose proof (Z.div_mod (i mod (w * ch)) ch ltac:(lia)) as Hdm2.
  pose proof (Z.mod_pos_bound (i mod (w * ch)) ch Hch) as Hm2.
  exists (i / (w * ch)), ((i mod (w * ch)) / ch), ((i mod (w * ch)) mod ch).
  assert (0 <= i / (w * ch)) by (apply Z.div_pos; lia).
  assert (0 <= i mod (w * ch) / ch) by (apply Z.div_pos; lia).
  split; [split; [lia|]; apply Z.div_lt_upper_bound; nia|].
  split; [split; [lia|]; apply Z.div_lt_upper_bound; nia|].
  split; [lia|]. nia.
Qed.

(** ** BMP decoder: the theorems *)

Lemma bmp_declared_rowbytes_ge file :
  0 < bmp_declared_width file ->
  bmp_declared_width file * bmp_declared_channels file <=
    bmp_declared_rowbytes file /\
  3 <= bmp_declared_channels file <= 4.
Proof.
  intros Hw. unfold bmp_declared_rowbytes.
  assert (Hch : 3 <= bmp_declared_channels file <= 4)
    by (unfold bmp_declared_channels; destruct (_ =? _); lia).
  split; [|exact Hch].
  set (r := bmp_declared_width file * bmp_declared_channels file).
  pose proof (Z.div_mod (r + 3) 4 ltac:(lia)).
  pose proof (Z.mod_pos_bound (r + 3) 4 ltac:(lia)).
  lia.
Qed.

Lemma bmp_declared_channels_cases file :
  bmp_declared_channels file = 3 \/ bmp_declared_channels file = 4.
Proof. unfold bmp_declared_channels. destruct (_ =? _); auto. Qed.

(** X15. With a pixel ceiling of at most [2^29] pixels, the default of 100
    million included, or on a file that declares a width of at most [2^29],
    [bmp_read] stays within defined behaviour on every file of bytes: no
    read or write outside a buffer and no overflow of an [int] index. *)
Theorem bmp_read_defined (hp : heap) (max_pixels : Z) (file : list Z) :
  Forall is_byte file ->
  0 < max_pixels <= 536870912 \/ bmp_declared_width file <= 536870912 ->
  bmp_read hp max_pixels file <> Undef.
Proof.
  intros Hbytes Hsafe.
  destruct (bmp_read_cases hp max_pixels file Hbytes)
    as [-> | (Hlen & _ & _ & _ & Hw & Hh & Hceil & Hfit & _ & _ & Hoff & ->)];
    [discriminate|].
  destruct (bmp_declared_rowbytes_ge file ltac:(lia)) as [Hbrb Hch].
  pose proof (bmp_declared_channels_cases file) as Hch'.
  set (w := bmp_declared_width file) in *.
  set (h := bmp_declared_height file) in *.
  set (ch := bmp_declared_channels file) in *.
  assert (Hwsafe : w <= 536870912) by (destruct Hsafe; [nia | assumption]).
  assert (Hbuf : Z.of_nat (length (junk hp <$> seq 0 (Z.to_nat (w * ch * h))))
                 = h * (w * ch))
    by (rewrite length_fmap, length_seq; nia).
  destruct (bmp_read_rows_ok (bmp_top_down file) w h ch
              (bmp_declared_rowbytes file) (Z.to_nat h) Hch' ltac:(lia)
              ltac:(unfold INT_MAX; nia) Hbrb Hfit 0
              (drop (Z.to_nat (bmp_data_offset file)) file)
              (junk hp <$> seq 0 (Z.to_nat (w * ch * h)))
              ltac:(lia) ltac:(lia) Hbuf) as [Hfail Hok].
  destruct (Z.lt_ge_cases
              (Z.of_nat (length (drop (Z.to_nat (bmp_data_offset file)) file)))
              (Z.of_nat (Z.to_nat h) * bmp_declared_rowbytes file))
    as [Hshort|Hlong].
  - rewrite (Hfail Hshort). discriminate.
  - destruct (Hok Hlong) as [out ->]. discriminate.
Qed.

(** What a successful [bmp_read] of a file of bytes has established. *)
Lemma bmp_read_ok hp max_pixels file img :
  Forall is_byte file ->
  bmp_read hp max_pixels file = Ok img ->
  width img = bmp_declared_width file /\
  height img = bmp_declared_height file /\
  channels img = bmp_declared_channels file /\
  0 < width img <= INT_MAX /\ 0 < height img <= INT_MAX /\
  (max_pixels = 0 \/ pixel_count_of img <= max_pixels) /\
  0 <= bmp_data_offset file /\
  bmp_data_offset file + height img * bmp_declared_rowbytes file <=
    Z.of_nat (length file) /\
  Z.of_nat (length (pixels img)) = height img * (width img * channels img) /\
  (forall y x k,
     0 <= y < height img -> 0 <= x < width img -> 0 <= k < channels img ->
     exists v,
       file !! Z.to_nat (bmp_data_offset file +
                         y * bmp_declared_rowbytes file +
                         (x * channels img + bmp_src_channel k)) = Some v /\
       pixels img !! Z.to_nat
         ((if bmp_top_down file then y else height img - 1 - y) *
            (width img * channels img) + (x * channels img + k)) = Some v).
Proof.
  intros Hbytes Hrun.
  destruct (bmp_read_cases hp max_pixels file Hbytes)
    as [Hfail | (Hlen & _ & _ & _ & Hw & Hh & Hceil & Hfit & _ & _ & Hoff & Heq)];
    [congruence|].
  rewrite Heq in Hrun. clear Heq.
  destruct (bmp_declared_rowbytes_ge file ltac:(lia)) as [Hbrb Hch].
  pose proof (bmp_declared_channels_cases file) as Hch'.
  set (w := bmp_declared_width file) in *.
  set (h := bmp_declared_height file) in *.
  set (ch := bmp_declared_channels file) in *.
  set (brb := bmp_declared_rowbytes file) in *.
  set (off := bmp_data_offset file) in *.
  inv_bind Hrun. injection Hrun as <-.
  cbn [width height channels pixels]. unfold pixel_count_of.
  cbn [width height].
  apply bmp_read_rows_sound in E as (Hlen_out & Hrows & Hcontent & _);
    [|assumption|lia|lia|lia|assumption|lia|lia].
  rewrite length_fmap, length_seq in Hlen_out.
  rewrite length_drop in Hrows.
  assert (0 < h * brb) by nia.
  repeat (split; [first [reflexivity | assumption | lia | nia]|]).
  intros y x k Hy Hx Hk.
  destruct (Hcontent y x k) as (v & Hf & Hout); [lia|lia|lia|].
  exists v. split; [|exact Hout].
  rewrite lookup_drop in Hf. rewrite <- Hf. f_equal.
  assert (Hsrc : 0 <= bmp_src_channel k <= 3)
    by (unfold bmp_src_channel; destruct (Z.eqb_spec k 3); lia).
  assert (0 <= y * brb) by nia. assert (0 <= x * ch) by nia.
  replace ((y - 0) * brb) with (y * brb) by lia.
  lia.
Qed.

Lemma bmp_read_wf hp max_pixels file img :
  Forall is_byte file ->
  bmp_read hp max_pixels file = Ok img ->
  image_wf img.
Proof.
  intros Hbytes Hrun.
  destruct (bmp_read_ok hp max_pixels file img Hbytes Hrun)
    as (Hw & Hh & Hc & Hwr & Hhr & Hceil & Hoff & Hrows & Hlen & Hpx).
  pose proof (bmp_declared_channels_cases file) as Hch. rewrite <- Hc in Hch.
  unfold image_wf.
  split; [exact Hwr|]. split; [exact Hhr|]. split; [exact Hch|].
  split; [lia|].
  apply Forall_lookup. intros i v Hi.
  assert (Hilt : 0 <= Z.of_nat i < height img * (width img * channels img)).
  { apply lookup_lt_Some in Hi. lia. }
  destruct (index_decompose (Z.of_nat i) (width img) (channels img)
              (height img) ltac:(lia) ltac:(lia) Hilt)
    as (dy & x & k & Hdy & Hx & Hk & Hidx).
  destruct (Hpx (if bmp_top_down file then dy else height img - 1 - dy) x k)
    as (v' & Hfile & Hout);
    [destruct (bmp_top_down file); lia | lia | lia |].
  replace (if bmp_top_down file
           then if bmp_top_down file then dy else height img - 1 - dy
           else height img - 1 -
                (if bmp_top_down file then dy else height img - 1 - dy))
    with dy in Hout by (destruct (bmp_top_down file); lia).
  rewrite <- Hidx, Nat2Z.id, Hi in Hout. injection Hout as ->.
  exact (Forall_lookup_1 _ _ _ _ Hbytes Hfile).
Qed.

Lemma bmp_read_resources hp max_pixels file img :
  Forall is_byte file ->
  bmp_read hp max_pixels file = Ok img ->
  pixel_count_of img * channels img <= SIZE_MAX /\
  can_alloc hp (pixel_count_of img * channels img) = true /\
  can_alloc hp (bmp_declared_rowbytes file) = true.
Proof.
  intros Hbytes Hrun.
  destruct (bmp_read_ok hp max_pixels file img Hbytes Hrun)
    as (Hw & Hh & Hc & _).
  destruct (bmp_read_cases hp max_pixels file Hbytes)
    as [Hfail | (_ & _ & _ & _ & _ & _ & _ & Hfit & Ha & Hr & _)];
    [congruence|].
  unfold pixel_count_of. rewrite Hw, Hh, Hc.
  split; [lia|]. split; [|exact Hr].
  rewrite <- Ha. f_equal. lia.
Qed.

(** X16. The image [bmp_read] returns for a file of bytes is well formed: the
    width is the declared one, the height the absolute value of the declared
    one, the channels are 4 for 32 bits per pixel and 3 for 24, the buffer
    holds [width * height * channels] bytes, the pixel count respects the
    ceiling, and the file holds all the rows that the headers announce. *)
Theorem bmp_read_image_wf (hp : heap) (max_pixels : Z) (file : list Z)
    (img : image) :
  Forall is_byte file ->
  bmp_read hp max_pixels file = Ok img ->
  image_wf img /\
  width img = bmp_declared_width file /\
  height img = bmp_declared_height file /\
  channels img = bmp_declared_channels file /\
  (max_pixels = 0 \/ pixel_count_of img <= max_pixels) /\
  bmp_data_offset file + height img * bmp_declared_rowbytes file <=
    Z.of_nat (length file).
Proof.
  intros Hbytes Hrun.
  destruct (bmp_read_ok hp max_pixels file img Hbytes Hrun)
    as (Hw & Hh & Hc & Hwr & Hhr & Hceil & Hoff & Hrows & Hlen & Hpx).
  split; [exact (bmp_read_wf _ _ _ _ Hbytes Hrun)|]. auto 10.
Qed.

(** X17. The pixels [bmp_read] returns are the pixels of the file: channel
    [k] of the pixel in column [x] of the [y]-th row stored in the file is
    the byte of that pixel in the file, red and blue exchanged; the [y]-th
    stored row is row [y] of the image when the declared height is negative
    and row [height - 1 - y] otherwise; the padding of the rows and the
    bytes between the headers and the pixel data are skipped. *)
Theorem bmp_read_pixels (hp : heap) (max_pixels : Z) (file : list Z)
    (img : image) :
  Forall is_byte file ->
  bmp_read hp max_pixels file = Ok img ->
  forall y x k,
    0 <= y < height img -> 0 <= x < width img -> 0 <= k < channels img ->
    exists v,
      file !! Z.to_nat (bmp_data_offset file +
                        y * bmp_declared_rowbytes file +
                        (x * channels img + bmp_src_channel k)) = Some v /\
      pixels img !! Z.to_nat
        ((if bmp_top_down file then y else height img - 1 - y) *
           (width img * channels img) + (x * channels img + k)) = Some v.
Proof.
  intros Hbytes Hrun.
  destruct (bmp_read_ok hp max_pixels file img Hbytes Hrun)
    as (_ & _ & _ & _ & _ & _ & _ & _ & _ & Hpx).
  exact Hpx.
Qed.

(** X18. [bmp_read] does not look past the last row: a file that decodes
    decodes to the same image with anything appended to it. *)
Theorem bmp_read_ignores_trailer (hp : heap) (max_pixels : Z)
    (file t : list Z) (img : image) :
  bmp_read hp max_pixels file = Ok img ->
  bmp_read hp max_pixels (file ++ t) = Ok img.
Proof.
  intros Hrun. unfold bmp_read in *.
  destruct (read_bytes file sizeof_bmp_file_header) as [[fhb f1]|] eqn:Hfh;
    [|discriminate].
  destruct (read_bytes_app _ _ _ _ t Hfh) as [_ ->].
  destruct (read_bytes f1 sizeof_bmp_info_header) as [[ihb f2]|] eqn:Hih;
    [|discriminate].
  destruct (read_bytes_app _ _ _ _ t Hih) as [_ ->].
  revert Hrun.
  repeat match goal with
         | |- context [if ?c then _ else _] => destruct c; [discriminate|]
         end.
  destruct (checked _) as [rowbytes| |]; [|discriminate|discriminate].
  cbn [bind].
  destruct (image_alloc_pixels _ _ _ _) as [img1| |];
    [|discriminate|discriminate].
  cbn [bind]. cbv zeta.
  destruct (checked _) as [raw| |]; [|discriminate|discriminate].
  cbn [bind].
  destruct (checked _) as [tmp| |]; [|discriminate|discriminate].
  cbn [bind].
  destruct (alloc_or_fail _) as [row| |]; [|discriminate|discriminate].
  cbn [bind]. unfold fseek_set.
  destruct (LONG_MAX <? _); [discriminate|].
  cbn [bind].
  destruct (bmp_read_rows _ _ _ _ _ _ _ _ _ (drop _ file) _) as [out| |]
    eqn:Hrows; [|discriminate|discriminate].
  cbn [bind]. intros Himg.
  rewrite drop_app.
  rewrite (bmp_read_rows_app _ _ _ _ _ _ _ _ _ _ _ _ _ Hrows).
  exact Himg.
Qed.

(** ** Format detection *)

Lemma strcasecmp_eq_spec a b :
  strcasecmp_eq a b = true <-> tolower <$> a = tolower <$> b.
Proof.
  revert b. induction a as [|x a IH]; intros [|y b]; cbn [strcasecmp_eq fmap list_fmap].
  - split; reflexivity.
  - split; discriminate.
  - split; discriminate.
  - rewrite andb_true_iff, Z.eqb_eq, IH. split.
    + intros [-> ->]. reflexivity.
    + intros [= -> ->]. split; reflexivity.
Qed.

Lemma strcasecmp_eq_decide a b :
  strcasecmp_eq a b = bool_decide (tolower <$> a = tolower <$> b).
Proof.
  destruct (strcasecmp_eq a b) eqn:E.
  - apply strcasecmp_eq_spec in E. symmetry. apply bool_decide_eq_true. exact E.
  - symmetry. apply bool_decide_eq_false. intros H.
    apply strcasecmp_eq_spec in H. congruence.
Qed.

(** X19. [format_from_name] does not distinguish upper and lower case: two
    names that [tolower] makes equal name the same format. *)
Theorem format_from_name_ignores_case (b : build) (n1 n2 : list Z) :
  tolower <$> n1 = tolower <$> n2 ->
  format_from_name b n1 = format_from_name b n2.
Proof.
  intros Heq. unfold format_from_name.
  rewrite !(strcasecmp_eq_decide n1), !(strcasecmp_eq_decide n2), Heq.
  reflexivity.
Qed.

(** The case of a name equal to the literal [lit]: the tests against the
    other literals compute, the build flags that remain are split. *)
Ltac name_case l lit :=
  destruct (decide (l = lit)) as [->|?];
  [ repeat match goal with
           | |- context [bool_decide (?x = ?y)] =>
             let v := eval vm_compute in (bool_decide (x = y)) in
             change (bool_decide (x = y)) with v
           end;
    rewrite ?andb_false_r, ?andb_true_r; cbn [orb];
    repeat match goal with
           | |- context [if ?c then _ else _] => destruct c eqn:?
           end;
    solve [repeat split; intros;
           repeat match goal with
                  | H : _ \/ _ |- _ => destruct H
                  | H : _ /\ _ |- _ => destruct H
                  end;
           first [ discriminate | congruence | reflexivity
                 | left; reflexivity | right; reflexivity
                 | split; first [assumption | reflexivity
                                | left; reflexivity | right; reflexivity] ]]
  | rewrite ?(bool_decide_eq_false_2 (l = lit)) by assumption ].

(** X20. The names [format_from_name] knows, upper or lower case: "png";
    "jpg" and "jpeg"; "bmp"; "qoi"; and, each only in a program built with
    its library, "tiff" and "tif", "webp", "avif", "heif" and "heic", "jxl".
    Every other name is [FMT_UNKNOWN]. *)
Theorem format_from_name_table (b : build) (name : list Z) :
  (format_from_name b name = FMT_PNG <->
   tolower <$> name = FormatName.png) /\
  (format_from_name b name = FMT_JPEG <->
   tolower <$> name = FormatName.jpg \/ tolower <$> name = FormatName.jpeg) /\
  (format_from_name b name = FMT_BMP <->
   tolower <$> name = FormatName.bmp) /\
  (format_from_name b name = FMT_QOI <->
   tolower <$> name = FormatName.qoi) /\
  (format_from_name b name = FMT_TIFF <->
   HAVE_TIFF b = true /\
   (tolower <$> name = FormatName.tiff \/ tolower <$> name = FormatName.tif)) /\
  (format_from_name b name = FMT_WEBP <->
   HAVE_WEBP b = true /\ tolower <$> name = FormatName.webp) /\
  (format_from_name b name = FMT_AVIF <->
   HAVE_AVIF b = true /\ tolower <$> name = FormatName.avif) /\
  (format_from_name b name = FMT_HEIF <->
   HAVE_HEIF b = true /\
   (tolower <$> name = FormatName.heif \/ tolower <$> name = FormatName.heic)) /\
  (format_from_name b name = FMT_JXL <->
   HAVE_JXL b = true /\ tolower <$> name = FormatName.jxl).
Proof.
  unfold format_from_name. rewrite !strcasecmp_eq_decide.
  change (tolower <$> FormatName.png) with FormatName.png.
  change (tolower <$> FormatName.jpg) with FormatName.jpg.
  change (tolower <$> FormatName.jpeg) with FormatName.jpeg.
  change (tolower <$> FormatName.bmp) with FormatName.bmp.
  change (tolower <$> FormatName.qoi) with FormatName.qoi.
  change (tolower <$> FormatName.tiff) with FormatName.tiff.
  change (tolower <$> FormatName.tif) with FormatName.tif.
  change (tolower <$> FormatName.webp) with FormatName.webp.
  change (tolower <$> FormatName.avif) with FormatName.avif.
  change (tolower <$> FormatName.heif) with FormatName.heif.
  change (tolower <$> FormatName.heic) with FormatName.heic.
  change (tolower <$> FormatName.jxl) with FormatName.jxl.
  generalize (tolower <$> name). intros l.
  name_case l FormatName.png.
  name_case l FormatName.jpg.
  name_case l FormatName.jpeg.
  name_case l FormatName.bmp.
  name_case l FormatName.qoi.
  name_case l FormatName.tiff.
  name_case l FormatName.tif.
  name_case l FormatName.webp.
  name_case l FormatName.avif.
  name_case l FormatName.heif.
  name_case l FormatName.heic.
  name_case l FormatName.jxl.
  rewrite ?andb_false_r. cbn [orb].
  repeat split; intros;
    repeat match goal with
           | H : _ \/ _ |- _ => destruct H
           | H : _ /\ _ |- _ => destruct H
           end;
    first [discriminate | congruence].
Qed.

Lemma strrchr_None s c : c ∉ s -> strrchr s c = None.
Proof.
  induction s as [|x s IH]; intros Hc; [reflexivity|].
  apply not_elem_of_cons in Hc as [Hne Hc].
  cbn [strrchr]. rewrite IH by assumption.
  destruct (Z.eqb_spec x c); [congruence | reflexivity].
Qed.

Lemma strrchr_last s c t :
  c ∉ t -> strrchr (s ++ c :: t) c = Some (c :: t).
Proof.
  intros Hc. induction s as [|x s IH].
  - cbn [app strrchr]. rewrite (strrchr_None t c Hc), Z.eqb_refl. reflexivity.
  - cbn [app strrchr]. rewrite IH. reflexivity.
Qed.

(** X21. [detect_format] goes by what follows the last dot of the path: a
    path that ends in a dot and a name without dots has the format of that
    name, whatever comes before; a path without a dot has no format. *)
Theorem detect_format_extension (b : build) :
  (forall stem ext,
     DOT ∉ ext ->
     detect_format b (stem ++ DOT :: ext) = format_from_name b ext) /\
  (forall path, DOT ∉ path -> detect_format b path = FMT_UNKNOWN).
Proof.
  split.
  - intros stem ext Hext. unfold detect_format.
    rewrite strrchr_last by assumption. reflexivity.
  - intros path Hpath. unfold detect_format.
    rewrite strrchr_None by assumption. reflexivity.
Qed.

(** ** From one format to the other *)

(** X22. Converting a BMP file to QOI loses nothing: when [bmp_read] decodes
    a file of bytes and [qoi_write] encodes the image, [qoi_read] gives the
    image back, alpha channel of a 32-bit file included; and when
    [bmp_write] encodes it instead, [bmp_read] gives it back without its
    alpha channel. *)
Theorem bmp_read_reencoded (hp hp_w : heap) (max_pixels : Z)
    (file : list Z) (img : image) :
  Forall is_byte file ->
  bmp_read hp max_pixels file = Ok img ->
  (forall bytes,
     qoi_write hp_w img = Ok bytes -> qoi_read hp max_pixels bytes = Ok img) /\
  (forall bytes,
     bmp_write hp_w img = Ok bytes ->
     can_alloc hp (3 * pixel_count_of img) = true ->
     can_alloc hp (bmp_rowbytes_of img) = true ->
     bmp_read hp max_pixels bytes = Ok (drop_alpha img)).
Proof.
  intros Hbytes Hrun.
  pose proof (bmp_read_wf _ _ _ _ Hbytes Hrun) as Hwf.
  destruct (bmp_read_resources _ _ _ _ Hbytes Hrun) as (Hfit & Halloc & Hrow).
  destruct (bmp_read_ok hp max_pixels file img Hbytes Hrun)
    as (Hw & Hh & Hc & Hwr & Hhr & Hceil & _).
  pose proof (image_wf_size _ Hwf) as [Hpc Hch].
  split.
  - intros bytes Hq.
    destruct (qoi_write_inv _ _ _ Hwf Hq) as [Hsz Hcan].
    rewrite (qoi_write_eq _ _ Hwf Hsz Hcan) in Hq.
    assert (Hb : bytes = qoi_header img ++
                   qoi_emitted img 0 (Z.to_nat (pixel_count_of img)) ++
                   qoi_end_marker) by congruence.
    rewrite Hb. unfold qoi_read.
    rewrite (qoi_read_stream_written hp max_pixels img qoi_end_marker Hwf Hfit
               Hceil Halloc).
    reflexivity.
  - intros bytes Hb Halloc3 Hrow3.
    destruct (bmp_write_inv hp_w img bytes Hwf Hfit Hb) as (Hint & Hsize & Hcw).
    rewrite bmp_write_eq in Hb by assumption.
    assert (Hbytes' : bytes =
              put_bmp_file_header
                (bmp_write_file_header (bmp_rowbytes_of img * height img)) ++
              put_bmp_info_header
                (bmp_write_info_header img (bmp_rowbytes_of img * height img)) ++
              bmp_rows img (Z.to_nat (height img))) by congruence.
    rewrite Hbytes'.
    apply bmp_read_written; try assumption.
    + nia.
    + unfold pixel_count_of in *. nia.
Qed.

(** X23. Converting a QOI file to BMP keeps the colours: when [qoi_read]
    decodes a file of bytes and [bmp_write] encodes the image, [bmp_read]
    gives back the image without its alpha channel, which is the image
    itself when it has three channels. *)
Theorem qoi_read_to_bmp (hp hp_w : heap) (max_pixels : Z) (f : list Z)
    (img : image) (bytes : list Z) :
  Forall is_byte f ->
  qoi_read hp max_pixels f = Ok img ->
  bmp_write hp_w img = Ok bytes ->
  can_alloc hp (3 * pixel_count_of img) = true ->
  can_alloc hp (bmp_rowbytes_of img) = true ->
  bmp_read hp max_pixels bytes = Ok (drop_alpha img) /\
  (channels img = 3 -> drop_alpha img = img).
Proof.
  intros Hbytes Hrun Hb Halloc3 Hrow3.
  apply qoi_read_inv in Hrun as [rest Hrun].
  destruct (qoi_read_stream_ok _ _ _ _ _ Hbytes Hrun)
    as (Hwf & _ & _ & _ & Hfit & Hceil & _).
  pose proof (image_wf_size _ Hwf) as [Hpc Hch].
  split; [|apply drop_alpha_rgb; exact Hwf].
  destruct (bmp_write_inv hp_w img bytes Hwf Hfit Hb) as (Hint & Hsize & Hcw).
  rewrite bmp_write_eq in Hb by assumption.
  assert (Hbytes' : bytes =
            put_bmp_file_header
              (bmp_write_file_header (bmp_rowbytes_of img * height img)) ++
            put_bmp_info_header
              (bmp_write_info_header img (bmp_rowbytes_of img * height img)) ++
            bmp_rows img (Z.to_nat (height img))) by congruence.
  rewrite Hbytes'.
  pose proof Hwf as ((Hw0 & _) & _).
  apply bmp_read_written; try assumption.
  - nia.
  - unfold pixel_count_of in *. nia.
Qed.


(** ** BMP encoder: where the pixels are in the file *)

(** A stored row: the pixels of a row of the image, blue first, and the
    padding. *)
Lemma bmp_rows_lookup img n :
  0 < width img ->
  forall y j,
    (y < n)%nat -> 0 <= j < bmp_rowbytes_of img ->
    bmp_rows img n !!
      Z.to_nat ((Z.of_nat n - 1 - Z.of_nat y) * bmp_rowbytes_of img + j) =
    (pixels_seg bgr_of img (Z.of_nat y * width img) (Z.to_nat (width img)) ++
     replicate (bmp_pad_of img) 0) !! Z.to_nat j.
Proof.
  intros Hw. pose proof (bmp_rowbytes_of_bounds img) as [Hrb Hpad].
  induction n as [|n IH]; intros y j Hy Hj; [lia|].
  cbn [bmp_rows].
  assert (Hrow : length (pixels_seg bgr_of img (Z.of_nat n * width img)
                           (Z.to_nat (width img)) ++
                         replicate (bmp_pad_of img) 0) =
                 Z.to_nat (bmp_rowbytes_of img)).
  { rewrite length_app, length_replicate, length_pixels_seg by reflexivity.
    lia. }
  destruct (Nat.eq_dec y n) as [->|Hne].
  - replace ((Z.of_nat (S n) - 1 - Z.of_nat n) * bmp_rowbytes_of img + j)
      with j by lia.
    rewrite lookup_app_l by lia. reflexivity.
  - rewrite lookup_app_r by nia. rewrite Hrow.
    rewrite <- (IH y j) by lia. f_equal. nia.
Qed.

(** X24. In the file [bmp_write] produces, the pixel in column [x] of row
    [y] of the image is at offset [54 + (height - 1 - y) * rowbytes + 3 * x],
    rows stored bottom-up, as its blue, green and red bytes; the bytes that
    pad a row to a multiple of four are zero. *)
Theorem bmp_write_pixels (hp : heap) (img : image) (bytes : list Z) :
  image_wf img ->
  pixel_count_of img * channels img <= SIZE_MAX ->
  bmp_write hp img = Ok bytes ->
  (forall y x,
     0 <= y < height img -> 0 <= x < width img ->
     take 3 (drop (Z.to_nat (54 + (height img - 1 - y) * bmp_rowbytes_of img +
                             3 * x)) bytes) =
       bgr_of (pixel_at img (y * width img + x))) /\
  (forall y j,
     0 <= y < height img -> 3 * width img <= j < bmp_rowbytes_of img ->
     bytes !! Z.to_nat (54 + y * bmp_rowbytes_of img + j) = Some 0).
Proof.
  intros Hwf Hfit Hwrite.
  destruct (bmp_write_inv hp img bytes Hwf Hfit Hwrite) as (Hint & Hsize & Hw).
  rewrite bmp_write_eq in Hwrite by assumption.
  assert (Hbytes : bytes =
            put_bmp_file_header
              (bmp_write_file_header (bmp_rowbytes_of img * height img)) ++
            put_bmp_info_header
              (bmp_write_info_header img (bmp_rowbytes_of img * height img)) ++
            bmp_rows img (Z.to_nat (height img))) by congruence.
  clear Hwrite.
  pose proof Hwf as ((Hw0 & Hwm) & (Hh0 & Hhm) & _).
  pose proof (bmp_rowbytes_of_bounds img) as [Hrb Hpad].
  assert (Hat : forall y j,
            0 <= y < height img -> 0 <= j < bmp_rowbytes_of img ->
            bytes !! Z.to_nat (54 + (height img - 1 - y) * bmp_rowbytes_of img
                               + j) =
            (pixels_seg bgr_of img (y * width img) (Z.to_nat (width img)) ++
             replicate (bmp_pad_of img) 0) !! Z.to_nat j).
  { intros y j Hy Hj. rewrite Hbytes.
    assert (0 <= (height img - 1 - y) * bmp_rowbytes_of img) by nia.
    rewrite lookup_app_r
      by (change (length (put_bmp_file_header _)) with 14%nat; lia).
    rewrite lookup_app_r
      by (change (length (put_bmp_file_header _)) with 14%nat;
          change (length (put_bmp_info_header _)) with 40%nat; lia).
    change (length (put_bmp_file_header _)) with 14%nat.
    change (length (put_bmp_info_header _)) with 40%nat.
    pose proof (bmp_rows_lookup img (Z.to_nat (height img)) Hw0 (Z.to_nat y) j
                  ltac:(lia) Hj) as Hl.
    rewrite !Z2Nat.id in Hl by lia. rewrite <- Hl. f_equal. lia. }
  split.
  - intros y x Hy Hx.
    apply list_eq. intros i.
    destruct (le_lt_dec 3 i) as [Hi|Hi].
    + rewrite lookup_take_ge by lia.
      symmetry. apply lookup_ge_None. cbn [bgr_of length]. lia.
    + rewrite lookup_take_lt, lookup_drop by lia.
      replace (Z.to_nat (54 + (height img - 1 - y) * bmp_rowbytes_of img +
                         3 * x) + i)%nat
        with (Z.to_nat (54 + (height img - 1 - y) * bmp_rowbytes_of img +
                        (3 * x + Z.of_nat i))) by nia.
      rewrite Hat by lia.
      rewrite lookup_app_l
        by (rewrite length_pixels_seg by reflexivity; lia).
      replace (Z.to_nat (3 * x + Z.of_nat i)) with (3 * Z.to_nat x + i)%nat
        by lia.
      rewrite pixels_seg_lookup by (reflexivity || lia).
      rewrite Z2Nat.id by lia. reflexivity.
  - intros y j Hy Hj.
    replace y with (height img - 1 - (height img - 1 - y)) at 1 by lia.
    rewrite Hat by lia.
    rewrite lookup_app_r by (rewrite length_pixels_seg by reflexivity; lia).
    apply lookup_replicate. split; [reflexivity|].
    rewrite length_pixels_seg by reflexivity. lia.
Qed.

(** ** QOI encoder: the frame of the file *)

(** X25. A file [qoi_write] produces starts with the 14-byte header, the
    magic "qoif", the width and the height as 32-bit big-endian numbers, the
    channel count and the colour space 1, and ends with the end marker,
    seven zero bytes and a one. *)
Theorem qoi_write_frame (hp : heap) (img : image) (bytes : list Z) :
  image_wf img ->
  qoi_write hp img = Ok bytes ->
  take 4 bytes = [0x71; 0x6f; 0x69; 0x66] /\
  qoi_declared_width bytes = width img /\
  qoi_declared_height bytes = height img /\
  qoi_declared_channels bytes = channels img /\
  bytes !! 13%nat = Some 1 /\
  exists ops, bytes = take 14 bytes ++ ops ++ [0; 0; 0; 0; 0; 0; 0; 1].
Proof.
  intros Hwf Hwrite.
  destruct (qoi_write_inv _ _ _ Hwf Hwrite) as [Hsz Hcan].
  rewrite (qoi_write_eq _ _ Hwf Hsz Hcan) in Hwrite.
  assert (Hb : bytes = qoi_header img ++
                 qoi_emitted img 0 (Z.to_nat (pixel_count_of img)) ++
                 qoi_end_marker) by congruence.
  clear Hwrite.
  destruct (qoi_header_parse img Hwf) as (Hlen & Hmagic & Hw & Hh & Hc).
  assert (Htake : take 14 bytes = qoi_header img)
    by (rewrite Hb; apply take_app_length'; exact Hlen).
  unfold qoi_declared_width, qoi_declared_height, qoi_declared_channels.
  rewrite <- (qoi_read32be_take 14 4 bytes), <- (qoi_read32be_take 14 8 bytes)
    by lia.
  replace (byte_at bytes 12) with (byte_at (take 14 bytes) 12)
    by (unfold byte_at; rewrite lookup_take_lt by lia; reflexivity).
  rewrite Htake.
  split; [rewrite Hb; reflexivity|].
  split; [exact Hw|]. split; [exact Hh|]. split; [exact Hc|].
  split; [rewrite Hb; reflexivity|].
  exists (qoi_emitted img 0 (Z.to_nat (pixel_count_of img))). exact Hb.
Qed.

(** ** BMP encoder: an index that leaves [int] *)

Lemma int_idx_not_fail x c k : int_idx x c k <> Fail.
Proof.
  unfold int_idx, int_op.
  destruct ((INT32_MIN <=? x * c) && (x * c <=? INT_MAX)); [|discriminate].
  cbn [bind].
  destruct ((INT32_MIN <=? x * c + k) && (x * c + k <=? INT_MAX));
    discriminate.
Qed.

Lemma load_not_fail buf i : load buf i <> Fail.
Proof.
  unfold load. destruct (i <? 0); [discriminate|].
  destruct (buf !! Z.to_nat i); discriminate.
Qed.

Lemma store_not_fail buf i v : store buf i v <> Fail.
Proof. unfold store. destruct (_ && _); discriminate. Qed.

Ltac step_not_fail :=
  match goal with
  | |- bind ?m _ <> Fail =>
    let E := fresh "E" in
    destruct m eqn:E; cbn [bind];
    [ | exfalso; revert E;
        first [apply int_idx_not_fail | apply load_not_fail
              | apply store_not_fail]
      | discriminate ]
  end.

Lemma bmp_write_row_not_fail ch src yoff n :
  forall x row, bmp_write_row ch src yoff n x row <> Fail.
Proof.
  induction n as [|n IH]; intros x row; cbn [bmp_write_row]; [discriminate|].
  repeat step_not_fail. apply IH.
Qed.

(** X26. [bmp_write] leaves defined behaviour on an image so wide that the
    [int] index [x * channels + 2] of its last pixel exceeds [INT_MAX],
    when the file is small enough for the size check to pass and the row
    buffer is granted: the loop over the pixels of the first row
    overflows. *)
Theorem bmp_write_wide_undefined (hp : heap) (img : image) :
  image_wf img ->
  pixel_count_of img * channels img <= SIZE_MAX ->
  INT_MAX < (width img - 1) * channels img + 2 ->
  bmp_rowbytes_of img * height img + 54 <= UINT32_MAX ->
  can_alloc hp (bmp_rowbytes_of img) = true ->
  bmp_write hp img = Undef.
Proof.
  intros Hwf Hfit Hwide Hsize Halloc.
  pose proof (image_wf_size _ Hwf) as [Hpc Hch].
  pose proof Hwf as ((Hw & Hwm) & (Hh & Hhm) & Hc & _).
  pose proof (bmp_rowbytes_of_bounds img) as [Hrb Hpad].
  pose proof SIZE_MAX_ge as HS. unfold UINT32_MAX, INT_MAX in *.
  unfold pixel_count_of in *.
  unfold bmp_write.
  replace (image_validate_dims img) with true
    by (symmetry; apply image_validate_dims_true; lia).
  cbn [negb]. cbv zeta.
  rewrite (to_size_t_small (width img)), (to_size_t_small (height img)),
    (to_size_t_small (channels img)), (to_size_t_small 3) by lia.
  rewrite checked_mul_size_eq by lia.
  destruct (Z.leb_spec (width img * 3) SIZE_MAX); [|nia].
  cbn [checked bind].
  rewrite checked_add_size_eq by lia.
  destruct (Z.leb_spec (width img * 3 + 3) SIZE_MAX); [|nia].
  cbn [checked bind].
  rewrite align4_eq by lia.
  replace (4 * ((width img * 3 + 3) / 4)) with (bmp_rowbytes_of img)
    by (unfold bmp_rowbytes_of; do 3 f_equal; lia).
  destruct (Z.eqb_spec (bmp_rowbytes_of img) 0); [lia|].
  rewrite checked_mul_size_eq by lia.
  destruct (Z.leb_spec (bmp_rowbytes_of img * height img) SIZE_MAX); [|nia].
  cbn [checked bind].
  unfold UINT32_MAX.
  unfold sizeof_bmp_file_header at 1, sizeof_bmp_info_header at 1.
  destruct (Z.ltb_spec (4294967295 - (14 + 40))
                       (bmp_rowbytes_of img * height img)); [lia|].
  unfold calloc. rewrite Halloc.
  cbn [alloc_or_fail bind].
  rewrite checked_mul_size_eq by lia.
  destruct (Z.leb_spec (width img * channels img) SIZE_MAX); [|nia].
  cbn [checked bind].
  destruct (Z.to_nat (height img)) as [|rows_left] eqn:Hrows_left; [lia|].
  cbn [bmp_write_rows].
  match goal with
  | |- bind (bind ?m _) _ = Undef => destruct m as [row| |] eqn:Hrow
  end.
  - exfalso.
    eapply (bmp_write_row_overflow (channels img) _ _ (Z.to_nat (width img))
              Hch 0); [lia | lia | | rewrite Hrow; exact I].
    unfold INT_MAX. rewrite Z2Nat.id by lia. lia.
  - exfalso. exact (bmp_write_row_not_fail _ _ _ _ _ _ Hrow).
  - reflexivity.
Qed.

(** ** BMP decoder: the files it accepts *)

Lemma read_bytes_None f len :
  read_bytes f len = None -> Z.of_nat (length f) < len.
Proof.
  unfold read_bytes.
  destruct (Z.ltb_spec (Z.of_nat (length f)) len); [auto | discriminate].
Qed.

Ltac bmp_no :=
  first [ lia | congruence
        | unfold sizeof_bmp_file_header, sizeof_bmp_info_header in *;
          rewrite ?length_drop in *; lia
        | nia ].

(** Under the conditions that [bmp_read] checks, it comes to the loop over
    the rows. *)
Lemma bmp_read_accepted hp max_pixels file :
  Forall is_byte file ->
  54 <= Z.of_nat (length file) ->
  fh_type (bmp_file_header_of file) = 0x4D42 ->
  ih_compression (bmp_info_header_of file) = 0 ->
  ih_bit_count (bmp_info_header_of file) = 24 \/
  ih_bit_count (bmp_info_header_of file) = 32 ->
  0 < bmp_declared_width file ->
  0 < bmp_declared_height file ->
  ih_height (bmp_info_header_of file) <> INT32_MIN ->
  max_pixels = 0 \/
  bmp_declared_width file * bmp_declared_height file <= max_pixels ->
  bmp_declared_height file *
    (bmp_declared_width file * bmp_declared_channels file) <= SIZE_MAX ->
  bmp_declared_width file * bmp_declared_channels file + 3 <= SIZE_MAX ->
  can_alloc hp (bmp_declared_width file * bmp_declared_channels file *
                bmp_declared_height file) = true ->
  can_alloc hp (bmp_declared_rowbytes file) = true ->
  bmp_data_offset file <= LONG_MAX ->
  bmp_read hp max_pixels file =
    do out <- bmp_read_rows (bmp_top_down file)
                (bmp_declared_width file) (bmp_declared_height file)
                (bmp_declared_channels file) (bmp_declared_channels file)
                (bmp_declared_width file * bmp_declared_channels file)
                (bmp_declared_rowbytes file)
                (Z.to_nat (bmp_declared_height file)) 0
                (drop (Z.to_nat (bmp_data_offset file)) file)
                (junk hp <$>
                 seq 0 (Z.to_nat (bmp_declared_width file *
                                  bmp_declared_channels file *
                                  bmp_declared_height file))) ;
    Ok {| pixels := out;
          width := bmp_declared_width file;
          height := bmp_declared_height file;
          channels := bmp_declared_channels file |}.
Proof.
  intros Hbytes Hlen Hmagic' Hcomp' Hbits' Hw' Hh' Hmin' Hceil' Hfit' Hrfit' Ha' Hr'
    Hoff'.
  unfold bmp_declared_rowbytes, bmp_declared_width, bmp_declared_height,
    bmp_declared_channels, bmp_data_offset, bmp_top_down,
    bmp_file_header_of, bmp_info_header_of in *.
  unfold bmp_read.
  destruct (read_bytes file sizeof_bmp_file_header) as [[fhb f1]|] eqn:Hfh;
    [|exfalso; apply read_bytes_None in Hfh; bmp_no].
  apply read_bytes_inv in Hfh as (Hlen1 & -> & ->);
    [|unfold sizeof_bmp_file_header; lia].
  destruct (read_bytes _ sizeof_bmp_info_header) as [[ihb f2]|] eqn:Hih;
    [|exfalso; apply read_bytes_None in Hih; bmp_no].
  apply read_bytes_inv in Hih as (Hlen2 & -> & _);
    [|unfold sizeof_bmp_info_header; lia].
  unfold sizeof_bmp_file_header, sizeof_bmp_info_header in *.
  rewrite length_drop in Hlen2.
  change (Z.to_nat 14) with 14%nat in *. change (Z.to_nat 40) with 40%nat.
  set (fh := get_bmp_file_header (take 14 file)) in *.
  set (ih := get_bmp_info_header (take 40 (drop 14 file))) in *.
  assert (Hihb : Forall is_byte (take 40 (drop 14 file)))
    by (apply Forall_take, Forall_drop; exact Hbytes).
  assert (Hfhb : Forall is_byte (take 14 file))
    by (apply Forall_take; exact Hbytes).
  assert (Hwr : INT32_MIN <= ih_width ih <= INT_MAX)
    by (apply to_int32_range, le32_range; exact Hihb).
  assert (Hhr : INT32_MIN <= ih_height ih <= INT_MAX)
    by (apply to_int32_range, le32_range; exact Hihb).
  assert (Hor : 0 <= fh_offset fh < 4294967296)
    by (apply le32_range; exact Hfhb).
  destruct (Z.eqb_spec (fh_type fh) 0x4D42) as [Hmagic|]; [|exfalso; bmp_no].
  cbn [negb].
  destruct (Z.eqb_spec (ih_compression ih) 0) as [Hcomp|];
    [|exfalso; bmp_no].
  cbn [negb orb].
  assert (Hbits := Hbits').
  replace (negb (ih_bit_count ih =? 24) && negb (ih_bit_count ih =? 32))
    with false by (destruct Hbits' as [Hbc'|Hbc']; rewrite Hbc'; reflexivity).
  destruct (Z.leb_spec (ih_width ih) 0); [exfalso; bmp_no|].
  destruct (Z.ltb_spec INT_MAX (ih_width ih)); [exfalso; bmp_no|].
  destruct (Z.eqb_spec (ih_height ih) 0); [exfalso; bmp_no|].
  destruct (Z.eqb_spec (ih_height ih) INT32_MIN); [exfalso; bmp_no|].
  cbn [orb].
  set (w := ih_width ih) in *.
  assert (Hh : (if ih_height ih <? 0 then - ih_height ih else ih_height ih) =
               Z.abs (ih_height ih))
    by (destruct (Z.ltb_spec (ih_height ih) 0); lia).
  rewrite Hh. set (h := Z.abs (ih_height ih)) in *.
  assert (Hhpos : 0 < h <= INT_MAX) by (unfold h, INT32_MIN, INT_MAX in *; lia).
  set (ch := if ih_bit_count ih =? 32 then 4 else 3) in *.
  assert (Hch : ch = 3 \/ ch = 4) by (unfold ch; destruct (_ =? _); auto).
  assert (Hbc : ih_bit_count ih / 8 = ch).
  { unfold ch. destruct Hbits as [-> | ->]; reflexivity. }
  cbv zeta. rewrite Hbc.
  replace (image_validate_dims
             {| pixels := []; width := w; height := h; channels := ch |})
    with true
    by (symmetry; apply image_validate_dims_true;
        cbn [width height channels]; lia).
  cbn [negb width height channels].
  pose proof SIZE_MAX_ge as HS. unfold UINT32_MAX in HS.
  unfold INT_MAX in *.
  rewrite image_check_max_pixels_eq by (unfold INT_MAX; lia).
  destruct (Z.leb_spec (w * h) SIZE_MAX); [|exfalso; bmp_no].
  cbn [andb].
  assert (Hceil := Hceil').
  replace ((max_pixels =? 0) || (w * h <=? max_pixels)) with true
    by (symmetry; apply orb_true_iff;
        destruct Hceil' as [Hc'|Hc'];
        [left; apply Z.eqb_eq | right; apply Z.leb_le]; exact Hc').
  cbn [negb].
  rewrite (to_size_t_small w), (to_size_t_small ch) by lia.
  rewrite (checked_mul_size_eq w ch) by lia.
  destruct (Z.leb_spec (w * ch) SIZE_MAX); [|exfalso; bmp_no].
  cbn [checked bind].
  rewrite image_alloc_pixels_eq
    by (cbn [width height]; unfold INT_MAX; nia).
  unfold alloc_failure_cause. cbn [width height channels].
  replace ((0 <? w) && (0 <? h) && ((ch =? 3) || (ch =? 4))) with true
    by (destruct Hch as [-> | ->];
        destruct (Z.ltb_spec 0 w); destruct (Z.ltb_spec 0 h);
        try lia; reflexivity).
  cbn [negb orb].
  destruct (Z.eqb_spec (w * ch) 0); [nia|].
  destruct (Z.ltb_spec SIZE_MAX (w * h)); [lia|].
  replace (negb (max_pixels =? 0) && (max_pixels <? w * h)) with false
    by (destruct Hceil as [-> | ?]; [reflexivity|];
        destruct (Z.ltb_spec max_pixels (w * h)); [lia|];
        rewrite andb_false_r; reflexivity).
  destruct (Z.ltb_spec SIZE_MAX (w * ch * h)); [exfalso; bmp_no|].
  destruct (can_alloc hp (w * ch * h)) eqn:Halloc; [|exfalso; bmp_no].
  cbn [bind set_pixels pixels width height channels].
  rewrite (to_size_t_small w) by lia.
  rewrite (checked_mul_size_eq w ch) by lia.
  destruct (Z.leb_spec (w * ch) SIZE_MAX); [|lia].
  cbn [checked bind].
  rewrite checked_add_size_eq by nia.
  destruct (Z.leb_spec (w * ch + 3) SIZE_MAX); [|exfalso; bmp_no].
  cbn [checked bind].
  rewrite align4_eq by nia.
  unfold malloc.
  destruct (can_alloc hp (4 * ((w * ch + 3) / 4))) eqn:Hrow;
    [|exfalso; bmp_no].
  cbn [alloc_or_fail bind].
  unfold fseek_set.
  destruct (Z.ltb_spec LONG_MAX (fh_offset fh)); [exfalso; bmp_no|].
  cbn [bind].
  reflexivity.
Qed.

(** X27. [bmp_read] decodes every file of bytes that is an uncompressed BMP
    of 24 or 32 bits per pixel with all its rows present: magic "BM", a
    width from 1 to [2^29], a height that is neither zero nor the least
    [int32_t], a pixel count within the ceiling, a pixel buffer that fits
    [size_t], both buffers granted, and a data offset that fits [long]. *)
Theorem bmp_read_accepts (hp : heap) (max_pixels : Z) (file : list Z) :
  Forall is_byte file ->
  54 <= Z.of_nat (length file) ->
  fh_type (bmp_file_header_of file) = 0x4D42 ->
  ih_compression (bmp_info_header_of file) = 0 ->
  ih_bit_count (bmp_info_header_of file) = 24 \/
  ih_bit_count (bmp_info_header_of file) = 32 ->
  0 < bmp_declared_width file <= 536870912 ->
  0 < bmp_declared_height file ->
  ih_height (bmp_info_header_of file) <> INT32_MIN ->
  max_pixels = 0 \/
  bmp_declared_width file * bmp_declared_height file <= max_pixels ->
  bmp_declared_height file *
    (bmp_declared_width file * bmp_declared_channels file) <= SIZE_MAX ->
  can_alloc hp (bmp_declared_width file * bmp_declared_channels file *
                bmp_declared_height file) = true ->
  can_alloc hp (bmp_declared_rowbytes file) = true ->
  bmp_data_offset file <= LONG_MAX ->
  bmp_data_offset file + bmp_declared_height file * bmp_declared_rowbytes file
    <= Z.of_nat (length file) ->
  exists img,
    bmp_read hp max_pixels file = Ok img /\
    width img = bmp_declared_width file /\
    height img = bmp_declared_height file /\
    channels img = bmp_declared_channels file.
Proof.
  intros Hbytes Hlen Hmagic Hcomp Hbits Hw Hh Hmin Hceil Hfit Ha Hr Hoff
    Hrows.
  pose proof (bmp_declared_channels_cases file) as Hch.
  pose proof SIZE_MAX_ge as HS. unfold UINT32_MAX in HS.
  rewrite (bmp_read_accepted hp max_pixels file) by
    first [assumption | lia | nia].
  destruct (bmp_declared_rowbytes_ge file ltac:(lia)) as [Hbrb _].
  assert (Hoff0 : 0 <= bmp_data_offset file).
  { unfold bmp_data_offset, bmp_file_header_of.
    apply le32_range, Forall_take. exact Hbytes. }
  set (w := bmp_declared_width file) in *.
  set (h := bmp_declared_height file) in *.
  set (ch := bmp_declared_channels file) in *.
  assert (Hbuf : Z.of_nat (length (junk hp <$> seq 0 (Z.to_nat (w * ch * h))))
                 = h * (w * ch))
    by (rewrite length_fmap, length_seq; nia).
  destruct (bmp_read_rows_ok (bmp_top_down file) w h ch
              (bmp_declared_rowbytes file) (Z.to_nat h) Hch ltac:(lia)
              ltac:(unfold INT_MAX; nia) Hbrb Hfit 0
              (drop (Z.to_nat (bmp_data_offset file)) file)
              (junk hp <$> seq 0 (Z.to_nat (w * ch * h)))
              ltac:(lia) ltac:(lia) Hbuf) as [_ Hok].
  destruct Hok as [out ->].
  { rewrite length_drop. nia. }
  eexists. split; [reflexivity|]. cbn [width height channels]. auto.
Qed.

(** * The operations of a QOI stream *)

(** ** Tags *)

(** What the tests of the decoding loop make of a byte, tag by tag. *)
Lemma qoi_tag_dispatch b :
  is_byte b ->
  match qoi_tag_of b with
  | Some TagRgb => b = QOI_OP_RGB
  | Some TagRgba => b = QOI_OP_RGBA
  | Some TagIndex =>
    (b =? QOI_OP_RGB) = false /\ (b =? QOI_OP_RGBA) = false /\
    (Z.land b QOI_MASK_2 =? QOI_OP_INDEX) = true
  | Some TagDiff =>
    (b =? QOI_OP_RGB) = false /\ (b =? QOI_OP_RGBA) = false /\
    (Z.land b QOI_MASK_2 =? QOI_OP_INDEX) = false /\
    (Z.land b QOI_MASK_2 =? QOI_OP_DIFF) = true
  | Some TagLuma =>
    (b =? QOI_OP_RGB) = false /\ (b =? QOI_OP_RGBA) = false /\
    (Z.land b QOI_MASK_2 =? QOI_OP_INDEX) = false /\
    (Z.land b QOI_MASK_2 =? QOI_OP_DIFF) = false /\
    (Z.land b QOI_MASK_2 =? QOI_OP_LUMA) = true
  | Some TagRun =>
    (b =? QOI_OP_RGB) = false /\ (b =? QOI_OP_RGBA) = false /\
    (Z.land b QOI_MASK_2 =? QOI_OP_INDEX) = false /\
    (Z.land b QOI_MASK_2 =? QOI_OP_DIFF) = false /\
    (Z.land b QOI_MASK_2 =? QOI_OP_LUMA) = false /\
    (Z.land b QOI_MASK_2 =? QOI_OP_RUN) = true /\
    Z.land b 0x3f + 1 = b - QOI_OP_RUN + 1 /\
    1 <= b - QOI_OP_RUN + 1 <= 62
  | None => False
  end.
Proof.
  intros Hb.
  assert (Hall : forallb (fun b =>
      let rgb := b =? QOI_OP_RGB in
      let rgba := b =? QOI_OP_RGBA in
      let m := Z.land b QOI_MASK_2 in
      match qoi_tag_of b with
      | Some TagRgb => rgb
      | Some TagRgba => rgba
      | Some TagIndex => negb rgb && negb rgba && (m =? QOI_OP_INDEX)
      | Some TagDiff =>
        negb rgb && negb rgba && negb (m =? QOI_OP_INDEX) &&
        (m =? QOI_OP_DIFF)
      | Some TagLuma =>
        negb rgb && negb rgba && negb (m =? QOI_OP_INDEX) &&
        negb (m =? QOI_OP_DIFF) && (m =? QOI_OP_LUMA)
      | Some TagRun =>
        negb rgb && negb rgba && negb (m =? QOI_OP_INDEX) &&
        negb (m =? QOI_OP_DIFF) && negb (m =? QOI_OP_LUMA) &&
        (m =? QOI_OP_RUN) &&
        (Z.land b 0x3f + 1 =? b - QOI_OP_RUN + 1) &&
        (1 <=? b - QOI_OP_RUN + 1) && (b - QOI_OP_RUN + 1 <=? 62)
      | None => false
      end) (seqZ 0 256) = true) by (vm_compute; reflexivity).
  pose proof (forallb_seqZ _ 0 256 b Hall ltac:(unfold is_byte in Hb; lia))
    as H.
  cbv beta zeta in H. clear Hall Hb.
  destruct (qoi_tag_of b) as [[]|]; try discriminate;
    split_andb H;
    repeat match goal with
           | E : negb _ = true |- _ => apply negb_true_iff in E
           | E : (_ <=? _) = true |- _ => apply Z.leb_le in E
           | E : (_ + 1 =? _) = true |- _ => apply Z.eqb_eq in E
           end;
    try (apply Z.eqb_eq; assumption);
    repeat split; assumption.
Qed.

Lemma qoi_op_tag_inv op tg :
  qoi_op_tag op = Some tg ->
  exists b op',
    op = b :: op' /\ qoi_tag_of b = Some tg /\
    length op' = (qoi_tag_size tg - 1)%nat.
Proof.
  destruct op as [|b op']; [discriminate|]. unfold qoi_op_tag.
  destruct (qoi_tag_of b) as [t|] eqn:Ht; [|discriminate].
  destruct (decide _) as [Hlen|]; [|discriminate].
  intros [= <-]. exists b, op'. cbn [length] in Hlen.
  split; [reflexivity|]. split; [exact Ht|]. lia.
Qed.

(** The decoder reads the bytes of one operation as one operation: a run
    of the count the byte holds for the tag [TagRun], a pixel for every
    other tag. *)
Lemma qoi_next_op_tagged op tg index px :
  qoi_op_tag op = Some tg -> Forall is_byte op ->
  exists o,
    (forall t, qoi_next_op (op ++ t) index px = Some (o, t)) /\
    match o with
    | OpRun r => tg = TagRun /\ qoi_op_pixels op = Some r /\ 1 <= r <= 62
    | OpPixel _ => tg <> TagRun /\ qoi_op_pixels op = Some 1
    end.
Proof.
  intros Htag Hbytes. unfold qoi_op_pixels. rewrite Htag.
  apply qoi_op_tag_inv in Htag as (b & op' & -> & Hb & Hlen).
  apply Forall_cons in Hbytes as [Hb0 _].
  pose proof (qoi_tag_dispatch b Hb0) as Hd. rewrite Hb in Hd.
  assert (Hu : to_uint8 b = b)
    by (unfold to_uint8; apply Z.mod_small; exact Hb0).
  destruct tg; cbn [qoi_tag_size] in Hlen.
  - destruct op' as [|]; [|discriminate].
    destruct Hd as (E1 & E2 & E3).
    eexists. split.
    + intros t. cbn [app qoi_next_op]. cbv zeta. rewrite Hu, E1, E2, E3.
      reflexivity.
    + split; [discriminate | reflexivity].
  - destruct op' as [|]; [|discriminate].
    destruct Hd as (E1 & E2 & E3 & E4).
    eexists. split.
    + intros t. cbn [app qoi_next_op]. cbv zeta. rewrite Hu, E1, E2, E3, E4.
      reflexivity.
    + split; [discriminate | reflexivity].
  - destruct op' as [|c2 [|]]; try discriminate.
    destruct Hd as (E1 & E2 & E3 & E4 & E5).
    eexists. split.
    + intros t. cbn [app qoi_next_op]. cbv zeta.
      rewrite Hu, E1, E2, E3, E4, E5. reflexivity.
    + split; [discriminate | reflexivity].
  - destruct op' as [|]; [|discriminate].
    destruct Hd as (E1 & E2 & E3 & E4 & E5 & E6 & E7 & E8).
    exists (OpRun (b - QOI_OP_RUN + 1)). split.
    + intros t. cbn [app qoi_next_op]. cbv zeta.
      rewrite Hu, E1, E2, E3, E4, E5, E6, E7. reflexivity.
    + split; [reflexivity|]. split; [reflexivity | exact E8].
  - destruct op' as [|r [|g [|b' [|]]]]; try discriminate.
    eexists. split.
    + intros t. cbn [app qoi_next_op]. cbv zeta. rewrite Hu, Hd.
      reflexivity.
    + split; [discriminate | reflexivity].
  - destruct op' as [|r [|g [|b' [|a [|]]]]]; try discriminate.
    eexists. split.
    + intros t. cbn [app qoi_next_op]. cbv zeta. rewrite Hu, Hd.
      reflexivity.
    + split; [discriminate | reflexivity].
Qed.

Lemma qoi_op_pixels_range op n : qoi_op_pixels op = Some n -> 1 <= n <= 62.
Proof.
  unfold qoi_op_pixels.
  destruct (qoi_op_tag op) as [tg|] eqn:Htag; [|discriminate].
  destruct (qoi_op_tag_inv op tg Htag) as (b & op' & -> & Hb & _).
  destruct tg; intros [= <-]; try lia.
  revert Hb. unfold qoi_tag_of.
  repeat match goal with
         | |- context [if ?c then _ else _] => destruct c eqn:?
         end; try discriminate.
  intros _.
  match goal with
  | H : (QOI_OP_RUN <=? b) && (b <? QOI_OP_RGB) = true |- _ =>
    apply andb_true_iff in H as [?%Z.leb_le ?%Z.ltb_lt]
  end.
  unfold QOI_OP_RUN, QOI_OP_RGB in *. lia.
Qed.

Lemma qoi_ops_pixels_cons op ops total :
  qoi_ops_pixels (op :: ops) = Some total ->
  exists n m,
    qoi_op_pixels op = Some n /\ qoi_ops_pixels ops = Some m /\
    total = n + m /\ 1 <= n <= 62.
Proof.
  cbn [qoi_ops_pixels].
  destruct (qoi_op_pixels op) as [n|] eqn:Hn; [|discriminate].
  destruct (qoi_ops_pixels ops) as [m|]; [|discriminate].
  intros [= <-]. exists n, m. pose proof (qoi_op_pixels_range op n Hn). auto.
Qed.

Lemma qoi_ops_pixels_nonneg ops total :
  qoi_ops_pixels ops = Some total ->
  0 <= total /\ (total = 0 -> ops = []).
Proof.
  revert total. induction ops as [|op ops IH]; intros total.
  - intros [= <-]. split; [lia | reflexivity].
  - intros (n & m & _ & Hm & -> & Hn)%qoi_ops_pixels_cons.
    destruct (IH m Hm) as [? _]. split; lia.
Qed.

Lemma qoi_ops_pixels_app ops1 ops2 n m :
  qoi_ops_pixels ops1 = Some n -> qoi_ops_pixels ops2 = Some m ->
  qoi_ops_pixels (ops1 ++ ops2) = Some (n + m).
Proof.
  revert n. induction ops1 as [|op ops1 IH]; intros n.
  - intros [= <-] Hm. cbn [app]. rewrite Hm. reflexivity.
  - intros (a & b & Ha & Hb & -> & _)%qoi_ops_pixels_cons Hm.
    rewrite <- app_comm_cons.
    cbn [qoi_ops_pixels]. rewrite Ha, (IH b Hb Hm). f_equal. lia.
Qed.

(** ** The decoder on a header it accepts *)

Lemma qoi_read_stream_body hp max_pixels hdr body :
  qoi_header_ok hdr ->
  qoi_declared_width hdr * qoi_declared_height hdr *
    qoi_declared_channels hdr <= SIZE_MAX ->
  max_pixels = 0 \/
  qoi_declared_width hdr * qoi_declared_height hdr <= max_pixels ->
  can_alloc hp (qoi_declared_width hdr * qoi_declared_height hdr *
                qoi_declared_channels hdr) = true ->
  qoi_read_stream hp max_pixels (hdr ++ body) =
    do '(out, rest) <-
      qoi_read_loop (qoi_declared_channels hdr)
        (qoi_declared_width hdr * qoi_declared_height hdr *
         qoi_declared_channels hdr)
        body qoi_index_init qoi_px_init 0
        (junk hp <$>
         seq 0 (Z.to_nat (qoi_declared_width hdr * qoi_declared_height hdr *
                          qoi_declared_channels hdr))) ;
    Ok ({| pixels := out; width := qoi_declared_width hdr;
           height := qoi_declared_height hdr;
           channels := qoi_declared_channels hdr |}, rest).
Proof.
  intros (Hlen & _ & Hmagic & Hw & Hh & Hc) Hfit Hceil Halloc.
  unfold qoi_declared_width, qoi_declared_height, qoi_declared_channels in *.
  set (w := qoi_read32be (drop 4 hdr)) in *.
  set (h := qoi_read32be (drop 8 hdr)) in *.
  set (ch := byte_at hdr 12) in *.
  pose proof SIZE_MAX_ge as HS. unfold UINT32_MAX in HS.
  assert (Hch : 3 <= ch <= 4) by lia.
  assert (Hwh : 0 < w * h) by nia.
  unfold qoi_read_stream, read_bytes.
  rewrite length_app, Hlen.
  destruct (Z.ltb_spec (Z.of_nat (14 + length body)) QOI_HEADER_SIZE);
    [unfold QOI_HEADER_SIZE in *; lia|].
  change (Z.to_nat QOI_HEADER_SIZE) with 14%nat.
  rewrite take_app_length', drop_app_length' by lia.
  rewrite Hmagic, Z.eqb_refl. cbn [negb]. fold w h ch.
  destruct (Z.eqb_spec w 0); [lia|].
  destruct (Z.eqb_spec h 0); [lia|].
  destruct (Z.ltb_spec INT_MAX w); [lia|].
  destruct (Z.ltb_spec INT_MAX h); [lia|].
  cbn [orb].
  assert (Hcc : negb (ch =? 3) && negb (ch =? 4) = false).
  { destruct (Z.eqb_spec ch 3); [reflexivity|].
    destruct (Z.eqb_spec ch 4); [reflexivity|]. lia. }
  rewrite Hcc.
  rewrite (to_size_t_int w), (to_size_t_int h), (to_size_t_int ch)
    by (unfold INT_MAX in *; lia).
  rewrite checked_mul_size_eq by lia.
  destruct (Z.leb_spec (w * h) SIZE_MAX); [|nia].
  cbn [checked bind].
  rewrite checked_mul_size_eq by lia.
  destruct (Z.leb_spec (w * h * ch) SIZE_MAX); [|lia].
  cbn [checked bind].
  rewrite image_check_max_pixels_eq by lia.
  destruct (Z.leb_spec (w * h) SIZE_MAX); [|lia].
  assert (Hc' : (max_pixels =? 0) || (w * h <=? max_pixels) = true).
  { destruct Hceil as [->|Hle]; [reflexivity|].
    apply orb_true_iff. right. apply Z.leb_le. exact Hle. }
  rewrite Hc'. cbn [andb negb].
  unfold malloc. rewrite Halloc. cbn [alloc_or_fail bind].
  rewrite to_size_t_small by lia. reflexivity.
Qed.

(** ** The pixels of a buffer *)

Lemma chunk_mid {A} (pre mid post : list A) (k n : nat) :
  length pre = k -> length mid = n ->
  take n (drop k (pre ++ mid ++ post)) = mid.
Proof.
  intros Hk Hn. rewrite drop_app_length' by lia.
  rewrite take_app_length' by lia. reflexivity.
Qed.

Lemma chunk_replicate (pre bs post : list Z) (r : nat) (ch m j : Z) :
  0 < ch -> 0 <= m ->
  Z.of_nat (length pre) = m * ch -> Z.of_nat (length bs) = ch ->
  m <= j < m + Z.of_nat r ->
  take (Z.to_nat ch) (drop (Z.to_nat (j * ch))
                           (pre ++ concat (replicate r bs) ++ post)) = bs.
Proof.
  intros Hch Hm Hpre Hbs Hj.
  replace r with (Z.to_nat (j - m) + (1 + (r - Z.to_nat (j - m) - 1)))%nat
    by lia.
  rewrite !replicate_add, !concat_app. cbn [replicate concat].
  rewrite app_nil_r, <- !app_assoc, (app_assoc pre).
  apply chunk_mid; [|lia].
  rewrite length_app, length_concat_replicate. nia.
Qed.

Lemma byte_at_chunk (buf : list Z) (o n i : nat) :
  (i < n)%nat -> byte_at (take n (drop o buf)) i = byte_at buf (o + i).
Proof.
  intros Hi. unfold byte_at.
  rewrite lookup_take_lt by exact Hi. rewrite lookup_drop. reflexivity.
Qed.

(** A pixel of an image is what its bytes in the buffer are. *)
Lemma pixel_at_chunk img j :
  channels img = 3 \/ channels img = 4 -> 0 <= j ->
  let bs := take (Z.to_nat (channels img))
                 (drop (Z.to_nat (j * channels img)) (pixels img)) in
  pixel_at img j =
    Px (byte_at bs 0) (byte_at bs 1) (byte_at bs 2)
       (if channels img =? 3 then 255 else byte_at bs 3).
Proof.
  intros Hch Hj bs. unfold pixel_at. subst bs.
  rewrite !byte_at_chunk by lia. rewrite Nat.add_0_r.
  destruct (Z.eqb_spec (channels img) 3); [reflexivity|].
  rewrite byte_at_chunk by lia. reflexivity.
Qed.

Lemma pixel_at_same_chunk img i j :
  channels img = 3 \/ channels img = 4 -> 0 <= i -> 0 <= j ->
  take (Z.to_nat (channels img))
       (drop (Z.to_nat (i * channels img)) (pixels img)) =
  take (Z.to_nat (channels img))
       (drop (Z.to_nat (j * channels img)) (pixels img)) ->
  pixel_at img i = pixel_at img j.
Proof.
  intros Hch Hi Hj Heq.
  rewrite (pixel_at_chunk img i Hch Hi), (pixel_at_chunk img j Hch Hj).
  cbv zeta. rewrite Heq. reflexivity.
Qed.

(** ** The decoding loop on a sequence of operations *)

(** Operations that together stand for no more pixels than are left are
    read one after the other; the loop then stands behind them, and the
    last pixel it wrote is the pixel it holds. *)
Lemma qoi_read_loop_ops ch N :
  3 <= ch <= 4 -> N * ch <= SIZE_MAX ->
  forall ops index px m buf total,
    Forall (Forall is_byte) ops ->
    qoi_ops_pixels ops = Some total ->
    0 <= m -> m + total <= N ->
    Z.of_nat (length buf) = N * ch ->
    (0 < m ->
     take (Z.to_nat ch) (drop (Z.to_nat ((m - 1) * ch)) buf) =
       px_bytes ch px) ->
    exists index' px' buf',
      (forall rest,
         qoi_read_loop ch (N * ch) (concat ops ++ rest) index px (m * ch) buf =
         qoi_read_loop ch (N * ch) rest index' px' ((m + total) * ch) buf') /\
      Z.of_nat (length buf') = N * ch /\
      (0 < m + total ->
       take (Z.to_nat ch) (drop (Z.to_nat ((m + total - 1) * ch)) buf') =
         px_bytes ch px') /\
      (total = 0 -> px' = px).
Proof.
  intros Hch HN. induction ops as [|op ops IH];
    intros index px m buf total Hbytes Htotal Hm Hle Hlen Hlast.
  - injection Htotal as <-. exists index, px, buf.
    rewrite Z.add_0_r. split; [intros rest; reflexivity|]. auto.
  - apply qoi_ops_pixels_cons in Htotal as (n & t' & Hn & Ht' & -> & Hnr).
    destruct (qoi_ops_pixels_nonneg ops t' Ht') as [Ht0 _].
    apply Forall_cons in Hbytes as [Hop Hbytes].
    assert (Htag : exists tg, qoi_op_tag op = Some tg).
    { unfold qoi_op_pixels in Hn.
      destruct (qoi_op_tag op) as [tg|]; [eauto | discriminate]. }
    destruct Htag as [tg Htag].
    destruct (qoi_next_op_tagged op tg index px Htag Hop) as (o & Ho & Hshape).
    assert (0 <= m * ch /\ m * ch + ch <= N * ch) as [? ?] by nia.
    destruct o as [px1|r].
    + destruct Hshape as [_ Hn1]. rewrite Hn in Hn1. injection Hn1 as ->.
      pose proof (length_px_bytes ch px1 Hch) as Hpl.
      set (buf1 := take (Z.to_nat (m * ch)) buf ++ px_bytes ch px1 ++
                   drop (Z.to_nat (m * ch) + length (px_bytes ch px1)) buf).
      assert (Hlen1 : Z.of_nat (length buf1) = N * ch).
      { unfold buf1.
        rewrite !length_app, length_take, length_drop, Hpl. lia. }
      destruct (IH (index_set index (qoi_hash px1) px1) px1 (m + 1) buf1 t'
                  Hbytes Ht' ltac:(lia) ltac:(lia) Hlen1)
        as (index' & px' & buf' & Hloop & Hlen' & Hlast' & Hzero).
      { intros _. replace (m + 1 - 1) with m by lia. unfold buf1.
        rewrite <- Hpl. apply chunk_mid; [|reflexivity].
        rewrite length_take. lia. }
      exists index', px', buf'.
      replace (m + (1 + t')) with (m + 1 + t') by lia.
      split; [|split; [exact Hlen'|split; [exact Hlast'|lia]]].
      intros rest. cbn [concat]. rewrite <- app_assoc.
      rewrite qoi_read_loop_unfold.
      destruct (Z.ltb_spec (m * ch) (N * ch)); [|nia].
      rewrite Ho.
      rewrite memcpy_to_eq by (rewrite ?Hpl; lia).
      cbn [bind]. rewrite to_size_t_small by lia.
      replace (m * ch + ch) with ((m + 1) * ch) by lia.
      apply Hloop.
    + destruct Hshape as (_ & Hn1 & Hr). rewrite Hn in Hn1.
      injection Hn1 as ->.
      pose proof (length_px_bytes ch px Hch) as Hpl.
      set (buf1 := take (Z.to_nat (m * ch)) buf ++
                   concat (replicate (Z.to_nat r) (px_bytes ch px)) ++
                   drop (Z.to_nat ((m + r) * ch)) buf).
      assert (Hlen1 : Z.of_nat (length buf1) = N * ch).
      { unfold buf1.
        rewrite !length_app, length_take, length_drop,
          length_concat_replicate, Hpl. nia. }
      destruct (IH index px (m + r) buf1 t'
                  Hbytes Ht' ltac:(lia) ltac:(lia) Hlen1)
        as (index' & px' & buf' & Hloop & Hlen' & Hlast' & Hzero).
      { intros _. unfold buf1.
        apply (chunk_replicate _ _ _ _ ch m); [lia | lia | | lia | lia].
        rewrite length_take. nia. }
      exists index', px', buf'.
      replace (m + (r + t')) with (m + r + t') by lia.
      split; [|split; [exact Hlen'|split; [exact Hlast'|lia]]].
      intros rest. cbn [concat]. rewrite <- app_assoc.
      rewrite qoi_read_loop_unfold.
      destruct (Z.ltb_spec (m * ch) (N * ch)); [|nia].
      rewrite Ho.
      rewrite qoi_read_run_eq by (assumption || lia).
      cbn [bind].
      replace (Z.min (Z.of_nat (Z.to_nat r)) (N - m)) with r by lia.
      replace (Z.to_nat r) with (Z.to_nat r) by reflexivity.
      apply Hloop.
Qed.

Lemma qoi_tag_of_run c :
  QOI_OP_RUN <= c < QOI_OP_RGB -> qoi_tag_of c = Some TagRun.
Proof.
  unfold qoi_tag_of, QOI_OP_RGB, QOI_OP_RGBA, QOI_OP_INDEX, QOI_OP_DIFF,
    QOI_OP_LUMA, QOI_OP_RUN.
  intros Hc.
  repeat match goal with
         | |- context [?a =? ?b] => destruct (Z.eqb_spec a b); [lia|]
         | |- context [?a <=? ?b] => destruct (Z.leb_spec a b)
         | |- context [?a <? ?b] => destruct (Z.ltb_spec a b)
         end; cbn [andb]; first [reflexivity | lia].
Qed.

Lemma chunk_take (buf post : list Z) (ch m : Z) :
  0 < ch -> 0 < m -> m * ch <= Z.of_nat (length buf) ->
  take (Z.to_nat ch)
       (drop (Z.to_nat ((m - 1) * ch)) (take (Z.to_nat (m * ch)) buf ++ post)) =
  take (Z.to_nat ch) (drop (Z.to_nat ((m - 1) * ch)) buf).
Proof.
  intros Hch Hm Hlen.
  replace (Z.to_nat (m * ch))
    with (Z.to_nat ((m - 1) * ch) + Z.to_nat ch)%nat by nia.
  rewrite <- take_take_drop, <- app_assoc.
  apply chunk_mid.
  - rewrite length_take. nia.
  - rewrite length_take, length_drop. nia.
Qed.

(** ** The decoder on a stream of operations *)

(** C9. While [qoi_read] decodes, no write to the pixel buffer falls
    outside it, whatever the input.  And for every header that the decoder
    accepts and every sequence of operations that stands for fewer pixels
    than the image has: when a run operation follows whose count is at
    least the number of pixels left, [qoi_read] succeeds; the image does not
    depend on how far the count exceeds that number nor on what follows the
    run, and its pixels from there on are the pixel before them, (0,0,0,255)
    when there is none. *)
Theorem qoi_read_writes_in_bounds :
  (forall hp max_pixels f, qoi_read hp max_pixels f <> Undef) /\
  (forall hp max_pixels hdr ops m,
     qoi_header_ok hdr ->
     Forall (Forall is_byte) ops ->
     qoi_ops_pixels ops = Some m ->
     m < qoi_declared_width hdr * qoi_declared_height hdr ->
     qoi_declared_width hdr * qoi_declared_height hdr *
       qoi_declared_channels hdr <= SIZE_MAX ->
     max_pixels = 0 \/
     qoi_declared_width hdr * qoi_declared_height hdr <= max_pixels ->
     can_alloc hp (qoi_declared_width hdr * qoi_declared_height hdr *
                   qoi_declared_channels hdr) = true ->
     exists img,
       width img = qoi_declared_width hdr /\
       height img = qoi_declared_height hdr /\
       channels img = qoi_declared_channels hdr /\
       Z.of_nat (length (pixels img)) =
         width img * height img * channels img /\
       (forall j, m <= j < pixel_count_of img ->
          pixel_at img j = qoi_prev_pixel img (Z.to_nat m)) /\
       forall c t,
         QOI_OP_RUN <= c < QOI_OP_RGB ->
         pixel_count_of img - m <= c - QOI_OP_RUN + 1 ->
         qoi_read hp max_pixels (hdr ++ concat ops ++ c :: t) = Ok img).
Proof.
  split.
  { intros hp max_pixels f. unfold qoi_read.
    pose proof (qoi_read_stream_defined hp max_pixels f) as Hs.
    destruct (qoi_read_stream hp max_pixels f) as [[img rest]| |];
      [discriminate | discriminate | contradiction]. }
  intros hp max_pixels hdr ops m Hhdr Hbytes Hops Hm Hfit Hceil Halloc.
  pose proof Hhdr as (_ & _ & _ & Hw & Hh & Hc).
  set (w := qoi_declared_width hdr) in *.
  set (h := qoi_declared_height hdr) in *.
  set (ch := qoi_declared_channels hdr) in *.
  assert (Hch : 3 <= ch <= 4) by lia.
  destruct (qoi_ops_pixels_nonneg ops m Hops) as [Hm0 Hnil].
  set (buf := junk hp <$> seq 0 (Z.to_nat (w * h * ch))).
  assert (Hlen : Z.of_nat (length buf) = w * h * ch).
  { unfold buf. rewrite length_fmap, length_seq. nia. }
  destruct (qoi_read_loop_ops ch (w * h) Hch Hfit ops qoi_index_init
              qoi_px_init 0 buf m Hbytes Hops ltac:(lia) ltac:(lia) Hlen
              ltac:(lia))
    as (index' & px' & buf' & Hloop & Hlen' & Hlast' & Hzero).
  rewrite Z.add_0_l in *.
  pose proof (length_px_bytes ch px' Hch) as Hpl.
  set (out := take (Z.to_nat (m * ch)) buf' ++
              concat (replicate (Z.to_nat (w * h - m)) (px_bytes ch px'))).
  assert (Hout : Z.of_nat (length out) = w * h * ch).
  { unfold out. rewrite length_app, length_take, length_concat_replicate, Hpl.
    nia. }
  exists {| pixels := out; width := w; height := h; channels := ch |}.
  unfold pixel_count_of. cbn [width height channels pixels].
  split; [reflexivity|]. split; [reflexivity|]. split; [reflexivity|].
  split; [exact Hout|]. split.
  - intros j Hj.
    assert (Hj' : take (Z.to_nat ch) (drop (Z.to_nat (j * ch)) out) =
                  px_bytes ch px').
    { unfold out.
      rewrite <- (app_nil_r (concat _)).
      apply (chunk_replicate _ _ _ _ ch m); [lia | lia | | lia | lia].
      rewrite length_take. nia. }
    destruct (Z.eq_dec m 0) as [->|Hmpos].
    + cbn [Z.to_nat qoi_prev_pixel].
      rewrite pixel_at_chunk by (cbn [channels]; lia).
      cbv zeta. cbn [channels pixels]. rewrite Hj', (Hzero eq_refl).
      destruct Hc as [-> | ->]; reflexivity.
    + destruct (Z.to_nat m) as [|k] eqn:Hk; [lia|].
      cbn [qoi_prev_pixel].
      apply pixel_at_same_chunk; cbn [channels pixels]; [lia | lia | lia |].
      rewrite Hj'. replace (Z.of_nat k) with (m - 1) by lia.
      unfold out. rewrite chunk_take by lia.
      symmetry. apply Hlast'. lia.
  - intros c t Hc' Hrun.
    unfold qoi_read.
    rewrite qoi_read_stream_body by assumption.
    fold w h ch buf. rewrite Hloop.
    pose proof (qoi_tag_dispatch c ltac:(unfold is_byte, QOI_OP_RUN,
                  QOI_OP_RGB in *; lia)) as Hd.
    rewrite (qoi_tag_of_run c Hc') in Hd.
    destruct Hd as (_ & _ & _ & _ & _ & _ & Hland & _).
    rewrite qoi_read_loop_run_clamped;
      [| lia | exact Hfit | lia | exact Hlen'
       | unfold QOI_OP_RUN, QOI_OP_RGB in *; lia | lia].
    reflexivity.
Qed.

(** C10. [qoi_read] neither reads nor checks the end marker.  For every
    header that the decoder accepts and every sequence of operations that
    stands for exactly [width * height] pixels, decoding succeeds whatever
    follows the operations, nothing, the end marker, a truncated or a
    corrupted one, with one and the same image, and what follows is left
    unread.  In particular the stream [qoi_write] produces decodes to the
    image with its end marker replaced by anything.  And whenever a stream
    decodes, the decoder has read only a prefix of it, and the result is the
    same for every stream with that prefix. *)
Theorem qoi_read_ignores_trailer :
  (forall hp max_pixels hdr ops,
     qoi_header_ok hdr ->
     Forall (Forall is_byte) ops ->
     qoi_ops_pixels ops =
       Some (qoi_declared_width hdr * qoi_declared_height hdr) ->
     qoi_declared_width hdr * qoi_declared_height hdr *
       qoi_declared_channels hdr <= SIZE_MAX ->
     max_pixels = 0 \/
     qoi_declared_width hdr * qoi_declared_height hdr <= max_pixels ->
     can_alloc hp (qoi_declared_width hdr * qoi_declared_height hdr *
                   qoi_declared_channels hdr) = true ->
     exists img,
       width img = qoi_declared_width hdr /\
       height img = qoi_declared_height hdr /\
       channels img = qoi_declared_channels hdr /\
       Z.of_nat (length (pixels img)) =
         width img * height img * channels img /\
       forall t,
         qoi_read_stream hp max_pixels (hdr ++ concat ops ++ t) =
           Ok (img, t) /\
         qoi_read hp max_pixels (hdr ++ concat ops ++ t) = Ok img) /\
  (forall hp_w hp max_pixels img bytes,
     image_wf img ->
     max_pixels = 0 \/ pixel_count_of img <= max_pixels ->
     can_alloc hp (pixel_count_of img * channels img) = true ->
     qoi_write hp_w img = Ok bytes ->
     exists body,
       bytes = body ++ qoi_end_marker /\
       forall t,
         qoi_read_stream hp max_pixels (body ++ t) = Ok (img, t) /\
         qoi_read hp max_pixels (body ++ t) = Ok img) /\
  (forall hp max_pixels f img rest,
     qoi_read_stream hp max_pixels f = Ok (img, rest) ->
     exists used,
       f = used ++ rest /\
       forall t,
         qoi_read_stream hp max_pixels (used ++ t) = Ok (img, t) /\
         qoi_read hp max_pixels (used ++ t) = Ok img).
Proof.
  split; [|split].
  - intros hp max_pixels hdr ops Hhdr Hbytes Hops Hfit Hceil Halloc.
    pose proof Hhdr as (_ & _ & _ & Hw & Hh & Hc).
    set (w := qoi_declared_width hdr) in *.
    set (h := qoi_declared_height hdr) in *.
    set (ch := qoi_declared_channels hdr) in *.
    assert (Hch : 3 <= ch <= 4) by lia.
    set (buf := junk hp <$> seq 0 (Z.to_nat (w * h * ch))).
    assert (Hlen : Z.of_nat (length buf) = w * h * ch).
    { unfold buf. rewrite length_fmap, length_seq. nia. }
    destruct (qoi_read_loop_ops ch (w * h) Hch Hfit ops qoi_index_init
                qoi_px_init 0 buf (w * h) Hbytes Hops ltac:(lia) ltac:(lia)
                Hlen ltac:(lia))
      as (index' & px' & buf' & Hloop & Hlen' & _ & _).
    rewrite Z.add_0_l in *.
    exists {| pixels := buf'; width := w; height := h; channels := ch |}.
    cbn [width height channels pixels].
    split; [reflexivity|]. split; [reflexivity|]. split; [reflexivity|].
    split; [exact Hlen'|].
    assert (Hs : forall t,
              qoi_read_stream hp max_pixels (hdr ++ concat ops ++ t) =
                Ok ({| pixels := buf'; width := w; height := h;
                       channels := ch |}, t)).
    { intros t. rewrite qoi_read_stream_body by assumption.
      fold w h ch buf. rewrite Hloop, qoi_read_loop_unfold.
      destruct (Z.ltb_spec (w * h * ch) (w * h * ch)); [lia|]. reflexivity. }
    intros t. split; [apply Hs|]. unfold qoi_read. rewrite Hs. reflexivity.
  - intros hp_w hp max_pixels img bytes Hwf Hceil Halloc Hwrite.
    destruct (qoi_write_inv hp_w img bytes Hwf Hwrite) as [Hfit Hw].
    rewrite qoi_write_eq in Hwrite by assumption.
    pose proof (image_wf_size _ Hwf) as [Hpc Hch].
    exists (qoi_header img ++
            qoi_emitted img 0 (Z.to_nat (pixel_count_of img))).
    split; [rewrite <- app_assoc; congruence|].
    assert (Hs : forall t,
              qoi_read_stream hp max_pixels
                ((qoi_header img ++
                  qoi_emitted img 0 (Z.to_nat (pixel_count_of img))) ++ t) =
                Ok (img, t)).
    { intros t. rewrite <- app_assoc.
      apply qoi_read_stream_written; [assumption | nia | assumption..]. }
    intros t. split; [apply Hs|]. unfold qoi_read. rewrite Hs. reflexivity.
  - intros hp max_pixels f img rest Hrun.
    apply qoi_read_stream_rest in Hrun as (used & -> & Hused).
    exists used. split; [reflexivity|]. intros t. split; [apply Hused|].
    unfold qoi_read. rewrite Hused. reflexivity.
Qed.

(** ** The operations the encoder writes *)

Lemma qoi_tag_of_low b :
  (0 <= b < QOI_OP_DIFF -> qoi_tag_of b = Some TagIndex) /\
  (QOI_OP_DIFF <= b < QOI_OP_LUMA -> qoi_tag_of b = Some TagDiff) /\
  (QOI_OP_LUMA <= b < QOI_OP_RUN -> qoi_tag_of b = Some TagLuma).
Proof.
  unfold qoi_tag_of, QOI_OP_RGB, QOI_OP_RGBA, QOI_OP_INDEX, QOI_OP_DIFF,
    QOI_OP_LUMA, QOI_OP_RUN.
  repeat split; intros Hb;
    repeat match goal with
           | |- context [?a =? ?b] => destruct (Z.eqb_spec a b); [lia|]
           | |- context [?a <=? ?b] => destruct (Z.leb_spec a b)
           | |- context [?a <? ?b] => destruct (Z.ltb_spec a b)
           end; cbn [andb]; first [reflexivity | lia].
Qed.

Lemma qoi_run_op_eq run :
  1 <= run <= 62 -> qoi_run_op run = QOI_OP_RUN + (run - 1).
Proof.
  intros Hrun.
  assert (Hall : forallb (fun r => qoi_run_op r =? QOI_OP_RUN + (r - 1))
                         (seqZ 1 62) = true) by (vm_compute; reflexivity).
  apply Z.eqb_eq. exact (forallb_seqZ _ _ _ run Hall ltac:(lia)).
Qed.

Lemma qoi_op_pixels_run run :
  1 <= run <= 62 ->
  qoi_op_tag [qoi_run_op run] = Some TagRun /\
  qoi_op_pixels [qoi_run_op run] = Some run.
Proof.
  intros Hrun. unfold qoi_op_pixels, qoi_op_tag.
  rewrite qoi_run_op_eq by exact Hrun.
  rewrite qoi_tag_of_run by (unfold QOI_OP_RUN, QOI_OP_RGB; lia).
  cbn [length qoi_tag_size]. rewrite decide_True by reflexivity.
  split; [reflexivity|]. f_equal. lia.
Qed.

Lemma diff_op_range a b c :
  0 <= a < 4 -> 0 <= b < 4 -> 0 <= c < 4 ->
  QOI_OP_DIFF <=
    to_uint8 (Z.lor (Z.lor (Z.lor QOI_OP_DIFF (Z.shiftl a 4)) (Z.shiftl b 2)) c)
    < QOI_OP_LUMA.
Proof.
  intros Ha Hb Hc.
  assert (Hall : forallb (fun a => forallb (fun b => forallb (fun c =>
      let b1 := to_uint8 (Z.lor (Z.lor (Z.lor QOI_OP_DIFF (Z.shiftl a 4))
                                       (Z.shiftl b 2)) c) in
      (QOI_OP_DIFF <=? b1) && (b1 <? QOI_OP_LUMA))
      (seqZ 0 4)) (seqZ 0 4)) (seqZ 0 4) = true)
    by (vm_compute; reflexivity).
  pose proof (forallb_seqZ _ _ _ a Hall ltac:(lia)) as H1. cbv beta in H1.
  pose proof (forallb_seqZ _ _ _ b H1 ltac:(lia)) as H2. cbv beta in H2.
  pose proof (forallb_seqZ _ _ _ c H2 ltac:(lia)) as H. cbv beta zeta in H.
  apply andb_true_iff in H as [?%Z.leb_le ?%Z.ltb_lt]. lia.
Qed.

Lemma luma_op_range g :
  0 <= g < 64 ->
  QOI_OP_LUMA <= to_uint8 (Z.lor QOI_OP_LUMA g) < QOI_OP_RUN.
Proof.
  intros Hg.
  assert (Hall : forallb (fun g =>
      let b1 := to_uint8 (Z.lor QOI_OP_LUMA g) in
      (QOI_OP_LUMA <=? b1) && (b1 <? QOI_OP_RUN)) (seqZ 0 64) = true)
    by (vm_compute; reflexivity).
  pose proof (forallb_seqZ _ _ _ g Hall ltac:(lia)) as H. cbv beta zeta in H.
  apply andb_true_iff in H as [?%Z.leb_le ?%Z.ltb_lt]. lia.
Qed.

Lemma qoi_op_tag_single b tg :
  qoi_tag_of b = Some tg -> qoi_tag_size tg = 1%nat ->
  qoi_op_tag [b] = Some tg.
Proof.
  intros Hb Hs. unfold qoi_op_tag. rewrite Hb.
  cbn [length]. rewrite decide_True by congruence. reflexivity.
Qed.

(** With no run pending, a pixel that differs from the previous one is
    written as exactly one operation, which is not a run, and which is an
    index operation exactly when the pixel sits in its index slot. *)
Lemma qoi_write_px_shape last index px_prev px :
  px <> px_prev -> px_is_bytes px -> px_is_bytes px_prev ->
  exists op tg,
    (qoi_write_px last index px_prev 0 px).1.1 = op /\
    (qoi_write_px last index px_prev 0 px).2 = 0 /\
    qoi_op_tag op = Some tg /\ tg <> TagRun /\
    (tg = TagIndex <-> index_get index (qoi_hash px) = px) /\
    Forall is_byte op.
Proof.
  intros Hne (Hr & Hg & Hb & Ha) (Hr' & Hg' & Hb' & Ha').
  pose proof (qoi_hash_range px) as Hh.
  unfold qoi_write_px. rewrite (px_eqb_neq _ _ Hne).
  change (0 <? 0) with false. cbv zeta. cbn [app].
  destruct (px_eqb (index_get index (qoi_hash px)) px) eqn:Hhit.
  - apply px_eqb_eq in Hhit.
    eexists _, TagIndex. cbn [fst snd].
    split; [reflexivity|]. split; [reflexivity|].
    unfold QOI_OP_INDEX at 1. rewrite Z.lor_0_l.
    unfold to_uint8. rewrite Z.mod_small by lia.
    split; [apply qoi_op_tag_single; [|reflexivity];
            apply qoi_tag_of_low; unfold QOI_OP_DIFF; lia|].
    split; [discriminate|]. split; [tauto|].
    apply Forall_cons_2; [apply to_uint8_is_byte | apply Forall_nil_2].
  - assert (Hmiss : index_get index (qoi_hash px) <> px).
    { intros Heq. rewrite Heq, px_eqb_refl in Hhit. discriminate. }
    destruct px as [r g b a], px_prev as [r' g' b' a'].
    cbn [px_r px_g px_b px_a] in *. unfold is_byte in *.
    destruct (Z.eqb_spec a a') as [->|Hna].
    + destruct (_ && _) eqn:Hdiff.
      * split_andb Hdiff. rewrite ?Z.ltb_lt in *.
        eexists _, TagDiff. cbn [fst snd].
        split; [reflexivity|]. split; [reflexivity|].
        split; [apply qoi_op_tag_single; [|reflexivity];
                apply qoi_tag_of_low, diff_op_range; lia|].
        split; [discriminate|].
        split; [split; [discriminate | intros; contradiction]|].
        apply Forall_cons_2; [apply to_uint8_is_byte | apply Forall_nil_2].
      * clear Hdiff. destruct (_ && _) eqn:Hluma.
        -- split_andb Hluma. rewrite ?Z.ltb_lt in *.
           eexists _, TagLuma. cbn [fst snd].
           split; [reflexivity|]. split; [reflexivity|].
           split.
           { unfold qoi_op_tag.
             destruct (qoi_tag_of_low
                         (to_uint8 (Z.lor QOI_OP_LUMA (g - g' + 32))))
               as (_ & _ & Hl).
             rewrite Hl by (apply luma_op_range; lia). reflexivity. }
           split; [discriminate|].
           split; [split; [discriminate | intros; contradiction]|].
           repeat (apply Forall_cons_2; [apply to_uint8_is_byte|]).
           apply Forall_nil_2.
        -- eexists _, TagRgb. cbn [fst snd].
           split; [reflexivity|]. split; [reflexivity|].
           split; [reflexivity|]. split; [discriminate|].
           split; [split; [discriminate | intros; contradiction]|].
           repeat (apply Forall_cons_2; [unfold QOI_OP_RGB; lia|]).
           apply Forall_nil_2.
    + eexists _, TagRgba. cbn [fst snd].
      split; [reflexivity|]. split; [reflexivity|].
      split; [reflexivity|]. split; [discriminate|].
      split; [split; [discriminate | intros; contradiction]|].
      repeat (apply Forall_cons_2; [unfold QOI_OP_RGBA; lia|]).
      apply Forall_nil_2.
Qed.

(** What the first [k] iterations of the encoder have written is a
    sequence of operations; together with the run that is pending they
    stand for [k] pixels. *)
Lemma qoi_emitted_ops img k :
  image_wf img ->
  exists ops,
    qoi_emitted img 0 k = concat ops /\
    Forall (Forall is_byte) ops /\
    qoi_ops_pixels ops = Some (Z.of_nat k - (qoi_state img k).2) /\
    0 <= (qoi_state img k).2 <= 61.
Proof.
  intros Hwf. induction k as [|k IH].
  - exists []. cbn. split; [reflexivity|]. split; [constructor|].
    split; [reflexivity | lia].
  - destruct IH as (ops & Hem & Hbytes & Hpix & Hrun).
    rewrite qoi_emitted_snoc, Hem. cbn [Nat.add]. rewrite qoi_emit_eq.
    rewrite qoi_state_run_S.
    pose proof (qoi_state_prev img k) as Hprev.
    pose proof (qoi_prev_pixel_is_bytes img k Hwf) as Hpb.
    pose proof (pixel_at_is_bytes img (Z.of_nat k) Hwf) as Hxb.
    destruct (qoi_state img k) as [[index px_prev] run].
    cbn [fst snd] in *. subst px_prev.
    set (px := pixel_at img (Z.of_nat k)) in *.
    set (last := Z.of_nat k =? pixel_count_of img - 1).
    destruct (decide (px = qoi_prev_pixel img k)) as [Heq|Hne].
    + rewrite <- Heq, qoi_write_px_same.
      destruct ((run + 1 =? 62) || last) eqn:Hflush; cbn [fst snd].
      * destruct (qoi_op_pixels_run (run + 1) ltac:(lia)) as [_ Hp].
        exists (ops ++ [[qoi_run_op (run + 1)]]).
        rewrite concat_app. cbn [concat]. rewrite app_nil_r.
        split; [reflexivity|]. split.
        { apply Forall_app_2; [exact Hbytes|].
          apply Forall_cons_2; [|apply Forall_nil_2].
          apply Forall_cons_2; [apply to_uint8_is_byte | apply Forall_nil_2]. }
        split; [|lia].
        rewrite (qoi_ops_pixels_app ops _ _ (run + 1 + 0) Hpix)
          by (cbn [qoi_ops_pixels]; rewrite Hp; reflexivity).
        f_equal. lia.
      * apply orb_false_iff in Hflush as [Hne%Z.eqb_neq _].
        exists ops. rewrite app_nil_r.
        split; [reflexivity|]. split; [exact Hbytes|].
        split; [|lia]. rewrite Hpix. f_equal. lia.
    + rewrite qoi_write_px_flush by exact Hne. cbn [fst snd].
      destruct (qoi_write_px_shape last index (qoi_prev_pixel img k) px
                  Hne Hxb Hpb) as (op & tg & -> & -> & Htag & Hnr & _ & Hob).
      assert (Hp : qoi_op_pixels op = Some 1).
      { unfold qoi_op_pixels. rewrite Htag.
        destruct tg; try reflexivity; try contradiction.
        all: destruct op; reflexivity. }
      destruct (Z.ltb_spec 0 run) as [Hr|Hr].
      * destruct (qoi_op_pixels_run run ltac:(lia)) as [_ Hp'].
        exists (ops ++ [[qoi_run_op run]; op]).
        rewrite concat_app. cbn [concat]. rewrite app_nil_r.
        split; [reflexivity|]. split.
        { apply Forall_app_2; [exact Hbytes|].
          apply Forall_cons_2;
            [apply Forall_cons_2; [apply to_uint8_is_byte | apply Forall_nil_2]|].
          apply Forall_cons_2; [exact Hob | apply Forall_nil_2]. }
        split; [|lia].
        rewrite (qoi_ops_pixels_app ops _ _ (run + (1 + 0)) Hpix)
          by (cbn [qoi_ops_pixels]; rewrite Hp, Hp'; reflexivity).
        f_equal. lia.
      * exists (ops ++ [op]).
        rewrite concat_app. cbn [concat app]. rewrite app_nil_r.
        split; [reflexivity|]. split.
        { apply Forall_app_2; [exact Hbytes|].
          apply Forall_cons_2; [exact Hob | apply Forall_nil_2]. }
        split; [|lia].
        rewrite (qoi_ops_pixels_app ops _ _ (1 + 0) Hpix)
          by (cbn [qoi_ops_pixels]; rewrite Hp; reflexivity).
        f_equal. lia.
Qed.

(** X10. Every file [qoi_write] produces for a well-formed image is the
    header, a sequence of operations and the end marker: each operation has
    the bytes its tag calls for, every run has a count from 1 to 62, and
    together the operations stand for exactly [width * height] pixels, so
    that no run is left pending at the end. *)
Theorem qoi_write_operations (hp : heap) (img : image) (bytes : list Z) :
  image_wf img ->
  qoi_write hp img = Ok bytes ->
  exists ops,
    bytes = qoi_header img ++ concat ops ++ qoi_end_marker /\
    Forall (Forall is_byte) ops /\
    Forall (fun op => exists n,
              qoi_op_pixels op = Some n /\ 1 <= n <= 62) ops /\
    qoi_ops_pixels ops = Some (pixel_count_of img).
Proof.
  intros Hwf Hwrite.
  destruct (qoi_write_inv hp img bytes Hwf Hwrite) as [Hfit Hw].
  rewrite qoi_write_eq in Hwrite by assumption.
  pose proof (image_wf_size _ Hwf) as [Hpc Hch].
  destruct (qoi_emitted_ops img (Z.to_nat (pixel_count_of img)) Hwf)
    as (ops & Hem & Hbytes & Hpix & _).
  assert (Hend : (qoi_state img (Z.to_nat (pixel_count_of img))).2 = 0).
  { destruct (Z.to_nat (pixel_count_of img)) as [|k] eqn:Hk; [lia|].
    apply qoi_state_end. lia. }
  rewrite Hend in Hpix.
  exists ops. rewrite <- Hem.
  split; [congruence|]. split; [exact Hbytes|]. split.
  - clear Hem Hbytes. revert Hpix.
    generalize (Z.of_nat (Z.to_nat (pixel_count_of img)) - 0).
    induction ops as [|op ops IH]; intros total Htotal; [constructor|].
    apply qoi_ops_pixels_cons in Htotal as (n & m & Hn & Hm & _ & Hr).
    constructor; [exists n; auto | exact (IH m Hm)].
  - rewrite Hpix. f_equal. lia.
Qed.

(** ** Runs in the output of the encoder *)

(** What follows a run that the end of the image or a different pixel ends
    does not start with the byte of a run. *)
Lemma qoi_emitted_run_then img k m index p run :
  image_wf img ->
  qoi_state img k = (index, p, run) ->
  (forall j, (j < m)%nat -> pixel_at img (Z.of_nat (k + j)) = p) ->
  0 <= run -> 0 < run + Z.of_nat m < 62 ->
  (Z.of_nat (k + m) = pixel_count_of img /\ (0 < m)%nat) \/
  (Z.of_nat (k + m) < pixel_count_of img /\
   pixel_at img (Z.of_nat (k + m)) <> p) ->
  exists b rest,
    qoi_emitted img k (Z.to_nat (pixel_count_of img) - k) ++ qoi_end_marker =
      qoi_run_op (run + Z.of_nat m) :: b :: rest /\
    qoi_tag_of b <> Some TagRun.
Proof.
  intros Hwf Hst Hpx Hrun0 Hrun [[Hend Hm]|[Hmore Hne]].
  - destruct m as [|m]; [lia|].
    destruct (qoi_state_run img k m index p run Hst) as [Hst' Hem];
      [intros; apply Hpx; lia | lia | lia |].
    replace (Z.to_nat (pixel_count_of img) - k)%nat with (S m) by lia.
    rewrite qoi_emitted_snoc, Hem. unfold qoi_emit.
    rewrite Hst', (Hpx m) by lia. rewrite qoi_write_px_same.
    destruct (Z.eqb_spec (Z.of_nat (k + m)) (pixel_count_of img - 1)); [|lia].
    rewrite orb_true_r. cbn [fst app].
    exists 0, [0; 0; 0; 0; 0; 0; 1].
    split; [unfold qoi_end_marker; do 2 f_equal; lia | discriminate].
  - destruct (qoi_state_run img k m index p run Hst) as [Hst' Hem];
      [assumption | lia | lia |].
    replace (Z.to_nat (pixel_count_of img) - k)%nat
      with (m + S (Z.to_nat (pixel_count_of img) - k - m - 1))%nat by lia.
    rewrite qoi_emitted_app, Hem, qoi_emitted_cons. unfold qoi_emit.
    rewrite Hst'.
    pose proof (qoi_state_prev img (k + m)) as Hprev.
    rewrite Hst' in Hprev. cbn [fst snd] in Hprev.
    rewrite qoi_write_px_flush by exact Hne. cbn [fst].
    destruct (qoi_write_px_shape
                (Z.of_nat (k + m) =? pixel_count_of img - 1) index p
                (pixel_at img (Z.of_nat (k + m))) Hne
                (pixel_at_is_bytes img _ Hwf))
      as (op & tg & -> & _ & Htag & Hnr & _).
    { rewrite Hprev. apply qoi_prev_pixel_is_bytes. exact Hwf. }
    apply qoi_op_tag_inv in Htag as (b & op' & -> & Hb & _).
    destruct (Z.ltb_spec 0 (run + Z.of_nat m)); [|lia].
    cbn [app]. rewrite <- !app_assoc. cbn [app].
    eexists b, _. split; [reflexivity|]. congruence.
Qed.

(** C7.  For an image whose first 70 pixels are the same pixel [p] and
    whose 71st pixel is absent or different: when [p] is the encoder's
    initial previous pixel (0,0,0,255), the operations start with two runs,
    of 62 and of 8, and no third run follows.  Otherwise they start with one
    operation that is not a run and that the decoder reads as the pixel [p],
    followed by two runs, of 62 and of 7, and no third run follows.  The
    byte of a run of [n] is [QOI_OP_RUN + (n - 1)]. *)
Theorem qoi_write_run_split (hp : heap) (img : image) (p : pixel) :
  image_wf img ->
  pixel_count_of img * (channels img + 1) + 22 <= SIZE_MAX ->
  can_alloc hp (pixel_count_of img * (channels img + 1) + 22) = true ->
  70 <= pixel_count_of img ->
  (forall j, 0 <= j < 70 -> pixel_at img j = p) ->
  pixel_count_of img = 70 \/ pixel_at img 70 <> p ->
  (p = qoi_px_init ->
   exists b rest,
     qoi_write hp img =
       Ok (qoi_header img ++
           [QOI_OP_RUN + 61; QOI_OP_RUN + 7] ++ b :: rest) /\
     qoi_tag_of b <> Some TagRun) /\
  (p <> qoi_px_init ->
   exists op tg b rest,
     qoi_write hp img =
       Ok (qoi_header img ++ op ++
           [QOI_OP_RUN + 61; QOI_OP_RUN + 6] ++ b :: rest) /\
     qoi_op_tag op = Some tg /\ tg <> TagRun /\
     (forall t,
        qoi_next_op (op ++ t) qoi_index_init qoi_px_init =
          Some (OpPixel p, t)) /\
     qoi_tag_of b <> Some TagRun).
Proof.
  intros Hwf Hfit Halloc Hn Hpx Hstop.
  rewrite qoi_write_eq by assumption.
  remember (Z.to_nat (pixel_count_of img)) as n eqn:Hnat.
  assert (Hstop' : forall k, (k <= 70)%nat ->
            (Z.of_nat (k + (70 - k)) = pixel_count_of img /\ (0 < 70 - k)%nat \/
             Z.of_nat (k + (70 - k)) < pixel_count_of img /\
             pixel_at img (Z.of_nat (k + (70 - k))) <> p) \/ k = 70%nat).
  { intros k Hk. destruct (decide (k = 70%nat)); [right; assumption|left].
    replace (k + (70 - k))%nat with 70%nat by lia.
    destruct Hstop as [Hstop|Hstop]; [left; lia|].
    destruct (decide (pixel_count_of img = 70)); [left; lia | right].
    split; [lia | exact Hstop]. }
  change (QOI_OP_RUN + 61) with (qoi_run_op 62).
  change (QOI_OP_RUN + 7) with (qoi_run_op 8).
  change (QOI_OP_RUN + 6) with (qoi_run_op 7).
  split.
  - intros ->.
    destruct (qoi_state_run img 0 61 qoi_index_init qoi_px_init 0 eq_refl)
      as [Hst61 Hem61]; [intros; apply Hpx; lia | lia | lia |].
    destruct (qoi_state_run_full img 61 qoi_index_init qoi_px_init Hst61)
      as [Hst62 Hem]; [apply Hpx; lia|].
    destruct (qoi_emitted_run_then img 62 8 qoi_index_init qoi_px_init 0
                Hwf Hst62)
      as (b & rest & Hrest & Hb); [intros; apply Hpx; lia | lia | lia | |].
    { destruct (Hstop' 62%nat) as [H|H]; [lia | exact H | lia]. }
    rewrite <- Hnat in Hrest.
    assert (Hsplit : n = (61 + (1 + (n - 62)))%nat) by lia.
    rewrite Hsplit.
    rewrite (qoi_emitted_app img 0 61), (qoi_emitted_app img (0 + 61) 1).
    change (qoi_emitted img (0 + 61) 1) with (qoi_emit img 61 ++ []).
    change (0 + 61 + 1)%nat with 62%nat.
    rewrite Hem61, Hem, <- !app_assoc, Hrest.
    exists b, rest. split; [reflexivity | exact Hb].
  - intros Hne.
    pose proof (Hpx 0 ltac:(lia)) as Hp0.
    pose proof (pixel_at_is_bytes img 0 Hwf) as Hpb. rewrite Hp0 in Hpb.
    set (last0 := Z.of_nat 0 =? pixel_count_of img - 1).
    destruct (qoi_next_op_written last0 qoi_index_init qoi_px_init p []
                Hne eq_refl Hpb qoi_px_init_bytes) as (op & Hwr & _).
    assert (Hst1 : qoi_state img 1 =
                   (index_set qoi_index_init (qoi_hash p) p, p, 0)).
    { rewrite qoi_state_S. cbn [qoi_state]. change (Z.of_nat 0) with 0 in *.
      rewrite Hp0. fold last0. rewrite Hwr. reflexivity. }
    assert (Hem0 : qoi_emit img 0 = op).
    { unfold qoi_emit. cbn [qoi_state]. change (Z.of_nat 0) with 0 in *.
      rewrite Hp0. fold last0. rewrite Hwr. reflexivity. }
    destruct (qoi_state_run img 1 61 _ p 0 Hst1)
      as [Hst62 Hem61]; [intros; apply Hpx; lia | lia | lia |].
    destruct (qoi_state_run_full img 62 _ p Hst62)
      as [Hst63 Hem]; [apply Hpx; lia|].
    destruct (qoi_emitted_run_then img 63 7 _ p 0 Hwf Hst63)
      as (b & rest & Hrest & Hb); [intros; apply Hpx; lia | lia | lia | |].
    { destruct (Hstop' 63%nat) as [H|H]; [lia | exact H | lia]. }
    rewrite <- Hnat in Hrest.
    assert (Hsplit : n = (1 + (61 + (1 + (n - 63))))%nat) by lia.
    rewrite Hsplit.
    rewrite (qoi_emitted_app img 0 1), (qoi_emitted_app img (0 + 1) 61),
      (qoi_emitted_app img (0 + 1 + 61) 1).
    change (qoi_emitted img 0 1) with (qoi_emit img 0 ++ []).
    change (qoi_emitted img (0 + 1 + 61) 1) with (qoi_emit img 62 ++ []).
    change (0 + 1 + 61 + 1)%nat with 63%nat. change (0 + 1)%nat with 1%nat.
    rewrite Hem61, Hem, Hem0, !app_nil_r, <- !app_assoc, Hrest.
    destruct (qoi_write_px_shape last0 qoi_index_init qoi_px_init p
                Hne Hpb qoi_px_init_bytes)
      as (op' & tg & Hop' & _ & Htag & Hnr & _).
    rewrite Hwr in Hop'. cbn [fst] in Hop'. subst op'.
    exists op, tg, b, rest.
    split; [reflexivity|]. split; [exact Htag|]. split; [exact Hnr|].
    split; [|exact Hb].
    intros t.
    destruct (qoi_next_op_written last0 qoi_index_init qoi_px_init p t
                Hne eq_refl Hpb qoi_px_init_bytes) as (op' & Hwr' & Hnext).
    rewrite Hwr in Hwr'. injection Hwr' as <-. exact Hnext.
Qed.

(** ** Index hits in the output of the encoder *)

(** As long as the image has shown nothing but the encoder's initial
    previous pixel, the index is untouched. *)
Lemma qoi_index_initial img k :
  (forall j, (j < k)%nat -> pixel_at img (Z.of_nat j) = qoi_px_init) ->
  (qoi_state img k).1.1 = qoi_index_init.
Proof.
  induction k as [|k IH]; intros Hpx; [reflexivity|].
  specialize (IH ltac:(intros; apply Hpx; lia)).
  pose proof (qoi_state_prev img k) as Hprev.
  rewrite qoi_state_S.
  destruct (qoi_state img k) as [[index px_prev] run].
  cbn [fst snd] in *. subst index px_prev.
  assert (Hp : qoi_prev_pixel img k = qoi_px_init)
    by (destruct k as [|k]; [reflexivity | apply Hpx; lia]).
  rewrite Hp, (Hpx k) by lia. rewrite qoi_write_px_same.
  destruct (_ || _); reflexivity.
Qed.

(** Once the image has shown another pixel, the pixel of an iteration sits
    in its index slot when the iteration is over. *)
Lemma qoi_index_holds img k :
  (exists j, (j <= k)%nat /\ pixel_at img (Z.of_nat j) <> qoi_px_init) ->
  index_get (qoi_state img (S k)).1.1 (qoi_hash (pixel_at img (Z.of_nat k))) =
    pixel_at img (Z.of_nat k).
Proof.
  induction k as [|k IH]; intros (j & Hj & Hne).
  - assert (j = 0%nat) as -> by lia.
    rewrite qoi_state_S. cbn [qoi_state].
    destruct (qoi_write_px_new (Z.of_nat 0 =? pixel_count_of img - 1)
                qoi_index_init qoi_px_init 0 (pixel_at img (Z.of_nat 0))
                Hne eq_refl) as (op & index' & -> & _ & Hget & _).
    exact Hget.
  - pose proof (qoi_state_prev img (S k)) as Hprev.
    pose proof (qoi_state_index_length img (S k)) as Hlen.
    rewrite (qoi_state_S img (S k)).
    destruct (qoi_state img (S k)) as [[index px_prev] run] eqn:Hst.
    cbn [fst snd] in Hprev, Hlen. cbn [qoi_prev_pixel] in Hprev.
    subst px_prev.
    destruct (decide (pixel_at img (Z.of_nat (S k)) =
                      pixel_at img (Z.of_nat k))) as [Heq|Hnew].
    + rewrite Heq, qoi_write_px_same.
      assert (Hidx : index_get index (qoi_hash (pixel_at img (Z.of_nat k))) =
                     pixel_at img (Z.of_nat k)).
      { apply IH.
        destruct (decide (j = S k)) as [->|Hjk].
        - exists k. split; [lia|]. rewrite <- Heq. exact Hne.
        - exists j. split; [lia | exact Hne]. }
      destruct (_ || _); exact Hidx.
    + destruct (qoi_write_px_new (Z.of_nat (S k) =? pixel_count_of img - 1)
                  index (pixel_at img (Z.of_nat k)) run
                  (pixel_at img (Z.of_nat (S k))) Hnew Hlen)
        as (op & index' & -> & _ & Hget & _).
      exact Hget.
Qed.

(** The state of the encoder behind a pixel [A] and a different pixel
    [B]. *)
Lemma qoi_state_behind img k A B :
  pixel_at img (Z.of_nat k) = A ->
  pixel_at img (Z.of_nat (k + 1)) = B ->
  A <> B ->
  exists index2,
    qoi_state img (k + 2) = (index2, B, 0) /\
    index_get index2 (qoi_hash B) = B /\
    (forall j, 0 <= j -> j <> qoi_hash B ->
       index_get index2 j = index_get (qoi_state img (k + 1)).1.1 j).
Proof.
  intros HA HB HAB.
  replace (k + 2)%nat with (S (S k)) by lia.
  replace (k + 1)%nat with (S k) in * by lia.
  pose proof (qoi_state_prev img (S k)) as Hprev.
  pose proof (qoi_state_index_length img (S k)) as Hlen.
  rewrite (qoi_state_S img (S k)).
  destruct (qoi_state img (S k)) as [[index1 px_prev] run].
  cbn [fst snd] in *. cbn [qoi_prev_pixel] in Hprev. subst px_prev.
  rewrite HA, HB.
  destruct (qoi_write_px_new (Z.of_nat (S k) =? pixel_count_of img - 1)
              index1 A run B) as (op & index2 & -> & _ & Hget & Hoth);
    [congruence | exact Hlen |].
  exists index2. split; [reflexivity|]. split; [exact Hget | exact Hoth].
Qed.

(** C8.  For an image with a pixel [A], one different pixel [B] and [A]
    again: the encoder writes the second [A] as the one byte
    [QOI_OP_INDEX | hash], with [hash = (r*3 + g*5 + b*7 + a*11) mod 64],
    when [B] has another hash than [A] and the image, up to the first [A],
    does not consist of the pixel (0,0,0,255) alone; in every other case it
    writes it as one operation that is neither an index operation nor a
    run. *)
Theorem qoi_write_index_hit (hp : heap) (img : image) (k : nat) (A B : pixel) :
  image_wf img ->
  pixel_count_of img * (channels img + 1) + 22 <= SIZE_MAX ->
  can_alloc hp (pixel_count_of img * (channels img + 1) + 22) = true ->
  Z.of_nat (k + 2) < pixel_count_of img ->
  pixel_at img (Z.of_nat k) = A ->
  pixel_at img (Z.of_nat (k + 1)) = B ->
  pixel_at img (Z.of_nat (k + 2)) = A ->
  A <> B ->
  qoi_hash A = (px_r A * 3 + px_g A * 5 + px_b A * 7 + px_a A * 11) mod 64 /\
  (qoi_hash A <> qoi_hash B ->
   (exists j, (j <= k)%nat /\ pixel_at img (Z.of_nat j) <> qoi_px_init) ->
   qoi_emit img (k + 2) = [Z.lor QOI_OP_INDEX (qoi_hash A)] /\
   qoi_write hp img =
     Ok (qoi_header img ++
         qoi_emitted img 0 (k + 2) ++
         [Z.lor QOI_OP_INDEX (qoi_hash A)] ++
         qoi_emitted img (k + 3) (Z.to_nat (pixel_count_of img) - (k + 3)) ++
         qoi_end_marker)) /\
  (qoi_hash A = qoi_hash B \/
   (forall j, (j <= k)%nat -> pixel_at img (Z.of_nat j) = qoi_px_init) ->
   exists op tg,
     qoi_emit img (k + 2) = op /\
     qoi_op_tag op = Some tg /\ tg <> TagIndex /\ tg <> TagRun /\
     qoi_write hp img =
       Ok (qoi_header img ++
           qoi_emitted img 0 (k + 2) ++
           op ++
           qoi_emitted img (k + 3) (Z.to_nat (pixel_count_of img) - (k + 3)) ++
           qoi_end_marker)).
Proof.
  intros Hwf Hfit Halloc Hk HA HB HA' HAB.
  pose proof (qoi_hash_range A) as HhA. pose proof (qoi_hash_range B) as HhB.
  destruct (qoi_state_behind img k A B HA HB HAB)
    as (index2 & Hst2 & HgetB & Hoth).
  assert (Hemit : qoi_emit img (k + 2) =
                  (qoi_write_px (Z.of_nat (k + 2) =? pixel_count_of img - 1)
                                index2 B 0 A).1.1).
  { rewrite qoi_emit_eq, Hst2, HA'. reflexivity. }
  assert (Hwrite : qoi_write hp img =
            Ok (qoi_header img ++
                qoi_emitted img 0 (k + 2) ++
                qoi_emit img (k + 2) ++
                qoi_emitted img (k + 3)
                  (Z.to_nat (pixel_count_of img) - (k + 3)) ++
                qoi_end_marker)).
  { rewrite qoi_write_eq by assumption.
    replace (Z.to_nat (pixel_count_of img))
      with ((k + 2) + (1 + (Z.to_nat (pixel_count_of img) - (k + 3))))%nat
      at 1 by lia.
    set (rest := (Z.to_nat (pixel_count_of img) - (k + 3))%nat).
    rewrite (qoi_emitted_app img 0 (k + 2) (1 + rest)).
    rewrite (qoi_emitted_app img (0 + (k + 2)) 1 rest).
    replace (0 + (k + 2) + 1)%nat with (k + 3)%nat by lia.
    change (qoi_emitted img (0 + (k + 2)) 1) with (qoi_emit img (k + 2) ++ []).
    rewrite app_nil_r, <- !app_assoc. reflexivity. }
  split; [reflexivity|]. split.
  - intros Hhash Hseen.
    assert (He : qoi_emit img (k + 2) = [Z.lor QOI_OP_INDEX (qoi_hash A)]).
    { rewrite Hemit, qoi_write_px_hit; [reflexivity | congruence |].
      rewrite Hoth by lia.
      replace (k + 1)%nat with (S k) by lia.
      rewrite <- HA. apply qoi_index_holds. exact Hseen. }
    split; [exact He|]. rewrite Hwrite, He. reflexivity.
  - intros Hmiss.
    destruct (qoi_write_px_shape
                (Z.of_nat (k + 2) =? pixel_count_of img - 1) index2 B A)
      as (op & tg & Hop & _ & Htag & Hnr & Hidx & _).
    { congruence. }
    { rewrite <- HA. apply pixel_at_is_bytes. exact Hwf. }
    { rewrite <- HB. apply pixel_at_is_bytes. exact Hwf. }
    rewrite <- Hemit in Hop.
    exists op, tg. split; [exact Hop|]. split; [exact Htag|].
    split; [|split; [exact Hnr | rewrite Hwrite, Hop; reflexivity]].
    intros Hi. apply Hidx in Hi.
    destruct (Z.eq_dec (qoi_hash A) (qoi_hash B)) as [Heq|Hneq].
    + rewrite Heq, HgetB in Hi. congruence.
    + destruct Hmiss as [Heq|Hinit]; [contradiction|].
      rewrite Hoth in Hi by lia.
      rewrite qoi_index_initial in Hi
        by (intros j Hj; apply Hinit; lia).
      assert (HAi : A = qoi_px_init) by (rewrite <- HA; apply Hinit; lia).
      rewrite HAi in Hi. revert Hi. vm_compute. discriminate.
Qed.

End Platform.

(** * The theorems at sample inputs, for a 64-bit [size_t] *)

Lemma size_bits_64 : 32 <= 64.
Proof. lia. Defined.

Lemma image_wf_rgb_3x2 : image_wf img_rgb_3x2.
Proof.
  unfold image_wf, INT_MAX. cbn.
  repeat split; try lia.
  repeat constructor; unfold is_byte; lia.
Defined.

Lemma image_wf_rgba_3x2 : image_wf img_rgba_3x2.
Proof.
  unfold image_wf, INT_MAX. cbn.
  repeat split; try lia.
  repeat constructor; unfold is_byte; lia.
Defined.

Lemma image_wf_black_70 : image_wf img_black_70.
Proof.
  unfold image_wf, INT_MAX. cbn -[replicate].
  repeat split; try lia.
  apply Forall_replicate. unfold is_byte. lia.
Defined.

Lemma image_wf_aba : image_wf img_aba.
Proof.
  unfold image_wf, INT_MAX. cbn.
  repeat split; try lia.
  repeat constructor; unfold is_byte; lia.
Defined.

Lemma checked_arith_exact_or_overflow_witness :
  (0 <= 6 <= SIZE_MAX 64) /\ (0 <= 2 ^ 63 <= SIZE_MAX 64) /\
  checked_mul_size 64 6 (2 ^ 63) = None /\
  checked_add_size 64 6 (2 ^ 63) = Some (6 + 2 ^ 63).
Proof.
  assert (Ha : 0 <= 6 <= SIZE_MAX 64) by (vm_compute; split; discriminate).
  assert (Hb : 0 <= 2 ^ 63 <= SIZE_MAX 64) by (vm_compute; split; discriminate).
  destruct (checked_arith_exact_or_overflow 64 size_bits_64 6 (2 ^ 63) Ha Hb)
    as (_ & Hmul & Hadd & _).
  split; [exact Ha|]. split; [exact Hb|]. split.
  - apply Hmul. vm_compute. reflexivity.
  - apply Hadd. vm_compute. discriminate.
Defined.

Lemma image_check_max_pixels_spec_witness :
  (0 <= 101 <= INT_MAX) /\ (0 <= 1 <= INT_MAX) /\
  image_check_max_pixels 64 100 101 1 = false /\
  image_check_max_pixels 64 0 101 1 = true.
Proof.
  assert (Hw : 0 <= 101 <= INT_MAX) by (vm_compute; split; discriminate).
  assert (Hh : 0 <= 1 <= INT_MAX) by (vm_compute; split; discriminate).
  destruct (image_check_max_pixels_spec 64 size_bits_64 100 101 1 Hw Hh)
    as (_ & _ & _ & Hex).
  split; [exact Hw|]. split; [exact Hh|]. apply Hex. reflexivity.
Defined.

Lemma image_alloc_pixels_single_failure_witness :
  0 <= 33 /\ width img_11x10 <= INT_MAX /\ height img_11x10 <= INT_MAX /\
  alloc_failure_cause 64 heap_any 100 img_11x10 33 = Some CeilingExceeded /\
  image_alloc_pixels 64 heap_any 100 img_11x10 33 = Fail /\
  alloc_failure_cause 64 heap_full 100 img_1x2 3 = Some AllocationFailure /\
  image_alloc_pixels 64 heap_full 100 img_1x2 3 = Fail /\
  exists buf,
    image_alloc_pixels 64 heap_any 100 img_1x2 3 = Ok (set_pixels img_1x2 buf) /\
    Z.of_nat (length buf) = 3 * height img_1x2.
Proof.
  assert (Hr : 0 <= 33) by lia.
  assert (Hw : width img_11x10 <= INT_MAX) by (vm_compute; discriminate).
  assert (Hh : height img_11x10 <= INT_MAX) by (vm_compute; discriminate).
  assert (Hr' : 0 <= 3) by lia.
  assert (Hw' : width img_1x2 <= INT_MAX) by (vm_compute; discriminate).
  assert (Hh' : height img_1x2 <= INT_MAX) by (vm_compute; discriminate).
  destruct (image_alloc_pixels_single_failure 64 size_bits_64 heap_any 100
              img_11x10 33 Hr Hw Hh) as [Hceiling _].
  destruct (image_alloc_pixels_single_failure 64 size_bits_64 heap_full 100
              img_1x2 3 Hr' Hw' Hh') as [Hheap _].
  destruct (image_alloc_pixels_single_failure 64 size_bits_64 heap_any 100
              img_1x2 3 Hr' Hw' Hh') as [_ Hgood].
  split; [exact Hr|]. split; [exact Hw|]. split; [exact Hh|].
  split; [reflexivity|].
  split; [apply (Hceiling CeilingExceeded); reflexivity|].
  split; [reflexivity|].
  split; [apply (Hheap AllocationFailure); reflexivity|].
  apply Hgood. reflexivity.
Defined.

(** C4 as the specification states it does not hold: nothing that
    [image_alloc_pixels] returns tells a zero width from an exceeded
    ceiling. *)
Lemma alloc_failure_not_reported :
  ~ exists report, reports_alloc_failure 64 report.
Proof.
  intros [report Hreport].
  assert (H1 : report (image_alloc_pixels 64 heap_any 100 img_no_width 3) =
               Some InvalidDimensions).
  { apply Hreport; vm_compute; try reflexivity; split; discriminate. }
  assert (H2 : report (image_alloc_pixels 64 heap_any 100 img_11x10 33) =
               Some CeilingExceeded).
  { apply Hreport; vm_compute; try reflexivity; split; discriminate. }
  change (image_alloc_pixels 64 heap_any 100 img_no_width 3)
    with (@Fail image) in H1.
  change (image_alloc_pixels 64 heap_any 100 img_11x10 33)
    with (@Fail image) in H2.
  congruence.
Qed.

Lemma bmp_read_rejects_bad_header_witness :
  ih_bit_count (bmp_info_header_of bmp_8bit) = 8 /\
  bmp_read 64 heap_any 0 bmp_8bit = Fail.
Proof.
  split; [reflexivity|].
  apply bmp_read_rejects_bad_header.
  right. right. left. vm_compute. split; discriminate.
Defined.

Lemma qoi_round_trip_witness :
  image_wf img_rgba_3x2 /\
  (100 = 0 \/ pixel_count_of img_rgba_3x2 <= 100) /\
  can_alloc heap_any (pixel_count_of img_rgba_3x2 * channels img_rgba_3x2) =
    true /\
  exists bytes,
    qoi_write 64 heap_any img_rgba_3x2 = Ok bytes /\
    qoi_read 64 heap_any 100 bytes = Ok img_rgba_3x2.
Proof.
  assert (Hceil : 100 = 0 \/ pixel_count_of img_rgba_3x2 <= 100)
    by (right; vm_compute; discriminate).
  assert (Halloc : can_alloc heap_any (pixel_count_of img_rgba_3x2 *
                                       channels img_rgba_3x2) = true)
    by reflexivity.
  destruct (qoi_round_trip 64 size_bits_64 heap_any heap_any 100 img_rgba_3x2
              image_wf_rgba_3x2 Hceil Halloc) as [Hwrite Hread].
  split; [exact image_wf_rgba_3x2|]. split; [exact Hceil|].
  split; [exact Halloc|].
  destruct Hwrite as [bytes Hbytes];
    [vm_compute; discriminate | reflexivity |].
  exists bytes. split; [exact Hbytes | apply Hread; exact Hbytes].
Defined.


Lemma pixels_of_black_70 j :
  0 <= j < 70 -> pixel_at img_black_70 j = qoi_px_init.
Proof.
  intros Hj.
  assert (Hall : forallb (fun j => px_eqb (pixel_at img_black_70 j) qoi_px_init)
                         (seqZ 0 70) = true) by (vm_compute; reflexivity).
  apply px_eqb_eq. apply (forallb_seqZ _ 0 70 j Hall). lia.
Defined.

(** C7 as the specification states it does not hold: 70 red pixels are
    written as a literal pixel and runs of 62 and 7; no run of 8, the byte
    [0xc7], occurs in the output. *)
Lemma qoi_write_run_split_red :
  (forall j, 0 <= j < 70 ->
     pixel_at img_red_70 j = pixel_at img_red_70 0) /\
  qoi_write 64 heap_any img_red_70 =
    Ok (qoi_header img_red_70 ++
        [0xfe; 255; 0; 0; 0xfd; 0xc6] ++ qoi_end_marker) /\
  ~ (exists before rest,
       qoi_write 64 heap_any img_red_70 =
         Ok (before ++ [0xfd; 0xc7] ++ rest)).
Proof.
  assert (Hout : qoi_write 64 heap_any img_red_70 =
                 Ok (qoi_header img_red_70 ++
                     [0xfe; 255; 0; 0; 0xfd; 0xc6] ++ qoi_end_marker))
    by (vm_compute; reflexivity).
  split; [|split; [exact Hout|]].
  - intros j Hj.
    assert (Hall : forallb (fun j => px_eqb (pixel_at img_red_70 j)
                                            (pixel_at img_red_70 0))
                           (seqZ 0 70) = true) by (vm_compute; reflexivity).
    apply px_eqb_eq. apply (forallb_seqZ _ 0 70 j Hall). lia.
  - intros (before & rest & Hsplit). rewrite Hout in Hsplit.
    assert (Hin : 0xc7 ∈ qoi_header img_red_70 ++
                    [0xfe; 255; 0; 0; 0xfd; 0xc6] ++ qoi_end_marker).
    { assert (Heq : qoi_header img_red_70 ++
                      [0xfe; 255; 0; 0; 0xfd; 0xc6] ++ qoi_end_marker =
                    before ++ [0xfd; 0xc7] ++ rest) by congruence.
      rewrite Heq. apply elem_of_app. right.
      apply elem_of_cons. right. apply elem_of_cons. left. reflexivity. }
    vm_compute in Hin.
    repeat (apply elem_of_cons in Hin as [Hin|Hin]; [discriminate|]).
    apply elem_of_nil in Hin. exact Hin.
Qed.

(** C8 as the specification states it does not hold: when the first
    occurrence continues a run, or the pixel in between takes its index
    slot, the second occurrence is written as a four-byte literal. *)
Lemma qoi_write_index_miss :
  (pixel_at img_black_grey_black 0 = pixel_at img_black_grey_black 2 /\
   pixel_at img_black_grey_black 1 <> pixel_at img_black_grey_black 0 /\
   qoi_emit img_black_grey_black 2 = [0xfe; 0; 0; 0] /\
   qoi_write 64 heap_any img_black_grey_black =
     Ok (qoi_header img_black_grey_black ++
         [0xc0; 0xfe; 100; 100; 100; 0xfe; 0; 0; 0] ++ qoi_end_marker)) /\
  (pixel_at img_same_slot 0 = pixel_at img_same_slot 2 /\
   pixel_at img_same_slot 1 <> pixel_at img_same_slot 0 /\
   qoi_hash (pixel_at img_same_slot 0) = qoi_hash (pixel_at img_same_slot 1) /\
   qoi_emit img_same_slot 2 = [0xfe; 64; 0; 0]).
Proof.
  repeat split; try discriminate; vm_compute; reflexivity.
Qed.

(** * The further properties at sample inputs *)

Lemma bytes_checked (l : list Z) :
  forallb (fun b => (0 <=? b) && (b <? 256)) l = true -> Forall is_byte l.
Proof.
  intros Hall. apply Forall_forall. intros b Hb.
  rewrite forallb_forall in Hall. apply list_elem_of_In in Hb.
  specialize (Hall b Hb). apply andb_true_iff in Hall as [H0 H1].
  unfold is_byte. lia.
Qed.

Lemma image_wf_red_70 : image_wf img_red_70.
Proof.
  unfold image_wf, INT_MAX. cbn [img_red_70 width height channels pixels].
  split; [lia|]. split; [lia|]. split; [left; reflexivity|].
  split; [vm_compute; reflexivity|].
  apply bytes_checked. vm_compute. reflexivity.
Defined.

Lemma image_wf_top_down_32 : image_wf img_top_down_32.
Proof.
  unfold image_wf, INT_MAX. cbn [img_top_down_32 width height channels pixels].
  split; [lia|]. split; [lia|]. split; [right; reflexivity|].
  split; [reflexivity|].
  apply bytes_checked. vm_compute. reflexivity.
Defined.

Lemma image_wf_wide : image_wf img_wide.
Proof.
  unfold image_wf, img_wide, INT_MAX. cbn [width height channels pixels].
  rewrite length_replicate.
  split; [lia|]. split; [lia|]. split; [right; reflexivity|]. split; [lia|].
  apply Forall_replicate. unfold is_byte. lia.
Defined.

Lemma qoi_read_rejects_bad_header_witness :
  qoi_read32be qoi_bad_magic <> QOI_MAGIC /\
  qoi_read 64 heap_any 0 qoi_bad_magic = Fail.
Proof.
  assert (Hmagic : qoi_read32be qoi_bad_magic <> QOI_MAGIC)
    by (vm_compute; discriminate).
  split; [exact Hmagic|].
  apply (qoi_read_rejects_bad_header 64 size_bits_64).
  right. left. exact Hmagic.
Defined.

Lemma qoi_read_enforces_limits_witness :
  Forall is_byte qoi_11x10 /\
  100 < qoi_declared_width qoi_11x10 * qoi_declared_height qoi_11x10 /\
  qoi_read 64 heap_any 100 qoi_11x10 = Fail /\
  qoi_read 64 heap_full 0 qoi_11x10 = Fail.
Proof.
  assert (Hbytes : Forall is_byte qoi_11x10)
    by (apply bytes_checked; vm_compute; reflexivity).
  assert (Hbig : 100 < qoi_declared_width qoi_11x10 *
                       qoi_declared_height qoi_11x10)
    by (vm_compute; reflexivity).
  split; [exact Hbytes|]. split; [exact Hbig|]. split.
  - apply (qoi_read_enforces_limits 64 size_bits_64 heap_any 100 qoi_11x10
             Hbytes).
    left. split; [discriminate | exact Hbig].
  - apply (qoi_read_enforces_limits 64 size_bits_64 heap_full 0 qoi_11x10
             Hbytes).
    right. right. reflexivity.
Defined.

Lemma qoi_read_image_wf_witness :
  Forall is_byte qoi_long_run /\
  qoi_read 64 heap_any 0 qoi_long_run = Ok img_black_1x1 /\
  image_wf img_black_1x1 /\
  width img_black_1x1 = qoi_declared_width qoi_long_run.
Proof.
  assert (Hbytes : Forall is_byte qoi_long_run)
    by (apply bytes_checked; vm_compute; reflexivity).
  assert (Hrun : qoi_read 64 heap_any 0 qoi_long_run = Ok img_black_1x1)
    by (vm_compute; reflexivity).
  destruct (qoi_read_image_wf 64 size_bits_64 heap_any 0 qoi_long_run
              img_black_1x1 Hbytes Hrun) as (Hwf & Hw & _).
  split; [exact Hbytes|]. split; [exact Hrun|]. split; [exact Hwf | exact Hw].
Defined.

Lemma qoi_read_rejects_truncated_witness :
  qoi_read_stream 64 heap_any 0 (qoi_long_run ++ qoi_end_marker) =
    Ok (img_black_1x1, qoi_end_marker) /\
  qoi_read 64 heap_any 0 (take 14 qoi_long_run) = Fail.
Proof.
  assert (Hrun : qoi_read_stream 64 heap_any 0 (qoi_long_run ++ qoi_end_marker)
                 = Ok (img_black_1x1, qoi_end_marker))
    by (vm_compute; reflexivity).
  split; [exact Hrun|].
  apply (qoi_read_rejects_truncated 64 size_bits_64 heap_any 0 _ _ _ Hrun
           (take 14 qoi_long_run) [0xfd]); [reflexivity | discriminate].
Defined.

Lemma qoi_read_ignores_junk_witness :
  (forall n, can_alloc heap_any n = can_alloc heap_55 n) /\
  qoi_read 64 heap_any 0 qoi_long_run = qoi_read 64 heap_55 0 qoi_long_run.
Proof.
  assert (Hsame : forall n, can_alloc heap_any n = can_alloc heap_55 n)
    by reflexivity.
  split; [exact Hsame|].
  apply (qoi_read_ignores_junk 64 size_bits_64). exact Hsame.
Defined.

Lemma qoi_read_consumption_witness :
  Forall is_byte (qoi_long_run ++ qoi_end_marker) /\
  qoi_read_stream 64 heap_any 0 (qoi_long_run ++ qoi_end_marker) =
    Ok (img_black_1x1, qoi_end_marker) /\
  pixel_count_of img_black_1x1 <=
    62 * (Z.of_nat (length (qoi_long_run ++ qoi_end_marker)) -
          Z.of_nat (length qoi_end_marker) - 14) /\
  Z.of_nat (length (qoi_long_run ++ qoi_end_marker)) -
    Z.of_nat (length qoi_end_marker) - 14 <= 5 * pixel_count_of img_black_1x1.
Proof.
  assert (Hbytes : Forall is_byte (qoi_long_run ++ qoi_end_marker))
    by (apply bytes_checked; vm_compute; reflexivity).
  assert (Hrun : qoi_read_stream 64 heap_any 0 (qoi_long_run ++ qoi_end_marker)
                 = Ok (img_black_1x1, qoi_end_marker))
    by (vm_compute; reflexivity).
  split; [exact Hbytes|]. split; [exact Hrun|].
  exact (qoi_read_consumption 64 size_bits_64 heap_any 0 _ _ _ Hbytes Hrun).
Defined.

Lemma qoi_read_reencoded_witness :
  Forall is_byte qoi_long_run /\
  qoi_read 64 heap_any 0 qoi_long_run = Ok img_black_1x1 /\
  qoi_write 64 heap_any img_black_1x1 =
    Ok (qoi_header img_black_1x1 ++ [0xc0] ++ qoi_end_marker) /\
  qoi_read 64 heap_any 0
    (qoi_header img_black_1x1 ++ [0xc0] ++ qoi_end_marker) = Ok img_black_1x1.
Proof.
  assert (Hbytes : Forall is_byte qoi_long_run)
    by (apply bytes_checked; vm_compute; reflexivity).
  assert (Hrun : qoi_read 64 heap_any 0 qoi_long_run = Ok img_black_1x1)
    by (vm_compute; reflexivity).
  assert (Hw : qoi_write 64 heap_any img_black_1x1 =
               Ok (qoi_header img_black_1x1 ++ [0xc0] ++ qoi_end_marker))
    by (vm_compute; reflexivity).
  split; [exact Hbytes|]. split; [exact Hrun|]. split; [exact Hw|].
  exact (qoi_read_reencoded 64 size_bits_64 heap_any heap_any 0 _ _ _ Hbytes
           Hrun Hw).
Defined.

Lemma qoi_be32_round_trip_witness :
  qoi_read32be (qoi_write32be 0x716f6966) = 0x716f6966 /\
  qoi_write32be (qoi_read32be [1; 2; 3; 4]) = [1; 2; 3; 4].
Proof.
  destruct qoi_be32_round_trip as [Hread Hwrite].
  split.
  - apply Hread. lia.
  - apply Hwrite; unfold is_byte; lia.
Defined.

Lemma qoi_write_memory_safe_witness :
  image_wf img_rgb_3x2 /\
  (exists bytes,
     qoi_write 64 heap_any img_rgb_3x2 = Ok bytes /\
     Z.of_nat (length bytes) <= 6 * (3 + 1) + 22) /\
  qoi_write 64 heap_full img_rgb_3x2 = Fail.
Proof.
  destruct (qoi_write_memory_safe 64 size_bits_64 heap_any img_rgb_3x2
              image_wf_rgb_3x2) as [Hok _].
  destruct (qoi_write_memory_safe 64 size_bits_64 heap_full img_rgb_3x2
              image_wf_rgb_3x2) as [_ Hfail].
  split; [exact image_wf_rgb_3x2|]. split.
  - apply Hok; [vm_compute; discriminate | reflexivity].
  - apply Hfail. right. reflexivity.
Defined.

Lemma pixels_of_red_70 j :
  0 <= j < pixel_count_of img_red_70 -> pixel_at img_red_70 j = Px 255 0 0 255.
Proof.
  intros Hj.
  assert (Hall : forallb (fun j => px_eqb (pixel_at img_red_70 j)
                                          (Px 255 0 0 255))
                         (seqZ 0 70) = true) by (vm_compute; reflexivity).
  apply px_eqb_eq. apply (forallb_seqZ _ 0 70 j Hall).
  change (pixel_count_of img_red_70) with 70 in Hj. lia.
Defined.

Lemma qoi_write_uniform_witness :
  image_wf img_red_70 /\
  qoi_write 64 heap_any img_red_70 =
    Ok (qoi_header img_red_70 ++
        ([0xfe; 255; 0; 0] ++ [0xfd; 0xc6]) ++ qoi_end_marker) /\
  qoi_runs 69 = [0xfd; 0xc6] /\ qoi_runs 124 = [0xfd; 0xfd].
Proof.
  split; [exact image_wf_red_70|]. split; [|split; reflexivity].
  rewrite (qoi_write_uniform 64 size_bits_64 heap_any img_red_70
             (Px 255 0 0 255) image_wf_red_70);
    [reflexivity | vm_compute; discriminate | reflexivity
    | exact pixels_of_red_70].
Defined.

Lemma bmp_write_refuses_large_witness :
  0 < width img_40000 <= INT_MAX /\ 0 < height img_40000 <= INT_MAX /\
  UINT32_MAX < bmp_rowbytes_of img_40000 * height img_40000 + 54 /\
  bmp_write 64 heap_any img_40000 = Fail.
Proof.
  assert (Hw : 0 < width img_40000 <= INT_MAX)
    by (vm_compute; split; [reflexivity | discriminate]).
  assert (Hh : 0 < height img_40000 <= INT_MAX)
    by (vm_compute; split; [reflexivity | discriminate]).
  assert (Hbig : UINT32_MAX < bmp_rowbytes_of img_40000 * height img_40000 + 54)
    by (vm_compute; reflexivity).
  split; [exact Hw|]. split; [exact Hh|]. split; [exact Hbig|].
  apply (bmp_write_refuses_large 64 size_bits_64 heap_any img_40000 Hw Hh);
    [left; reflexivity | exact Hbig].
Defined.

Lemma bmp_write_layout_witness :
  image_wf img_rgb_3x2 /\
  exists bytes,
    bmp_write 64 heap_any img_rgb_3x2 = Ok bytes /\
    Z.of_nat (length bytes) = 54 + 12 * 2 /\
    fh_size (bmp_file_header_of bytes) = 78 /\
    ih_bit_count (bmp_info_header_of bytes) = 24.
Proof.
  split; [exact image_wf_rgb_3x2|].
  destruct (bmp_write 64 heap_any img_rgb_3x2) as [bytes| |] eqn:Hwrite;
    [|vm_compute in Hwrite; discriminate|vm_compute in Hwrite; discriminate].
  destruct (bmp_write_layout 64 size_bits_64 heap_any img_rgb_3x2 bytes
              image_wf_rgb_3x2 ltac:(vm_compute; discriminate) Hwrite)
    as (Hlen & _ & Hfh & Hih).
  exists bytes. split; [reflexivity|]. split; [exact Hlen|].
  rewrite Hfh, Hih. cbn [fh_size ih_bit_count]. split; [exact Hlen|reflexivity].
Defined.

Lemma bmp_write_ignores_alpha_witness :
  image_wf img_rgba_3x2 /\
  exists bytes,
    bmp_write 64 heap_any img_rgba_3x2 = Ok bytes /\
    bmp_write 64 heap_any (drop_alpha img_rgba_3x2) = Ok bytes.
Proof.
  split; [exact image_wf_rgba_3x2|].
  destruct (bmp_write 64 heap_any img_rgba_3x2) as [bytes| |] eqn:Hwrite;
    [|vm_compute in Hwrite; discriminate|vm_compute in Hwrite; discriminate].
  exists bytes. split; [reflexivity|].
  apply (bmp_write_ignores_alpha 64 size_bits_64 heap_any img_rgba_3x2 bytes
           image_wf_rgba_3x2); [vm_compute; discriminate | exact Hwrite].
Defined.

Lemma bytes_of_bmp_top_down_32 : Forall is_byte bmp_top_down_32.
Proof. apply bytes_checked. vm_compute. reflexivity. Defined.

Lemma bmp_read_top_down_32 :
  bmp_read 64 heap_any 100 bmp_top_down_32 = Ok img_top_down_32.
Proof. vm_compute. reflexivity. Defined.

Lemma bmp_read_defined_witness :
  Forall is_byte bmp_top_down_32 /\ 0 < 100 <= 536870912 /\
  bmp_read 64 heap_any 100 bmp_top_down_32 <> Undef /\
  bmp_read 64 heap_any 100 (take 60 bmp_top_down_32) <> Undef.
Proof.
  assert (Hceil : 0 < 100 <= 536870912) by lia.
  split; [exact bytes_of_bmp_top_down_32|]. split; [exact Hceil|]. split.
  - apply (bmp_read_defined 64 size_bits_64);
      [exact bytes_of_bmp_top_down_32 | left; exact Hceil].
  - apply (bmp_read_defined 64 size_bits_64);
      [apply Forall_take; exact bytes_of_bmp_top_down_32 | left; exact Hceil].
Defined.

Lemma bmp_read_image_wf_witness :
  Forall is_byte bmp_top_down_32 /\
  bmp_read 64 heap_any 100 bmp_top_down_32 = Ok img_top_down_32 /\
  image_wf img_top_down_32 /\
  height img_top_down_32 = bmp_declared_height bmp_top_down_32 /\
  channels img_top_down_32 = bmp_declared_channels bmp_top_down_32.
Proof.
  destruct (bmp_read_image_wf 64 size_bits_64 heap_any 100 bmp_top_down_32
              img_top_down_32 bytes_of_bmp_top_down_32 bmp_read_top_down_32)
    as (Hwf & _ & Hh & Hc & _).
  split; [exact bytes_of_bmp_top_down_32|].
  split; [exact bmp_read_top_down_32|]. split; [exact Hwf|].
  split; [exact Hh | exact Hc].
Defined.

Lemma bmp_read_pixels_witness :
  Forall is_byte bmp_top_down_32 /\
  bmp_read 64 heap_any 100 bmp_top_down_32 = Ok img_top_down_32 /\
  exists v,
    bmp_top_down_32 !! 69%nat = Some v /\
    pixels img_top_down_32 !! 11%nat = Some v.
Proof.
  split; [exact bytes_of_bmp_top_down_32|].
  split; [exact bmp_read_top_down_32|].
  destruct (bmp_read_pixels 64 size_bits_64 heap_any 100 bmp_top_down_32
              img_top_down_32 bytes_of_bmp_top_down_32 bmp_read_top_down_32
              1 0 3) as (v & Hfile & Himg);
    [cbn; lia | cbn; lia | cbn; lia |].
  exists v. split; [exact Hfile | exact Himg].
Defined.

Lemma bmp_read_ignores_trailer_witness :
  bmp_read 64 heap_any 100 bmp_top_down_32 = Ok img_top_down_32 /\
  bmp_read 64 heap_any 100 (bmp_top_down_32 ++ [1; 2; 3]) =
    Ok img_top_down_32.
Proof.
  split; [exact bmp_read_top_down_32|].
  apply (bmp_read_ignores_trailer 64). exact bmp_read_top_down_32.
Defined.

Lemma bmp_read_reencoded_witness :
  Forall is_byte bmp_top_down_32 /\
  bmp_read 64 heap_any 100 bmp_top_down_32 = Ok img_top_down_32 /\
  exists bytes,
    qoi_write 64 heap_any img_top_down_32 = Ok bytes /\
    qoi_read 64 heap_any 100 bytes = Ok img_top_down_32.
Proof.
  split; [exact bytes_of_bmp_top_down_32|].
  split; [exact bmp_read_top_down_32|].
  destruct (bmp_read_reencoded 64 size_bits_64 heap_any heap_any 100
              bmp_top_down_32 img_top_down_32 bytes_of_bmp_top_down_32
              bmp_read_top_down_32) as [Hqoi _].
  destruct (qoi_write 64 heap_any img_top_down_32) as [bytes| |] eqn:Hwrite;
    [|vm_compute in Hwrite; discriminate|vm_compute in Hwrite; discriminate].
  exists bytes. split; [reflexivity|]. apply Hqoi. reflexivity.
Defined.

Lemma qoi_read_to_bmp_witness :
  Forall is_byte qoi_long_run /\
  qoi_read 64 heap_any 0 qoi_long_run = Ok img_black_1x1 /\
  exists bytes,
    bmp_write 64 heap_any img_black_1x1 = Ok bytes /\
    bmp_read 64 heap_any 0 bytes = Ok (drop_alpha img_black_1x1) /\
    drop_alpha img_black_1x1 = img_black_1x1.
Proof.
  assert (Hbytes : Forall is_byte qoi_long_run)
    by (apply bytes_checked; vm_compute; reflexivity).
  assert (Hrun : qoi_read 64 heap_any 0 qoi_long_run = Ok img_black_1x1)
    by (vm_compute; reflexivity).
  split; [exact Hbytes|]. split; [exact Hrun|].
  destruct (bmp_write 64 heap_any img_black_1x1) as [bytes| |] eqn:Hwrite;
    [|vm_compute in Hwrite; discriminate|vm_compute in Hwrite; discriminate].
  destruct (qoi_read_to_bmp 64 size_bits_64 heap_any heap_any 0 qoi_long_run
              img_black_1x1 bytes Hbytes Hrun Hwrite eq_refl eq_refl)
    as [Hread Hsame].
  exists bytes. split; [reflexivity|]. split; [exact Hread|].
  apply Hsame. reflexivity.
Defined.

Lemma bmp_write_pixels_witness :
  image_wf img_rgb_3x2 /\
  exists bytes,
    bmp_write 64 heap_any img_rgb_3x2 = Ok bytes /\
    take 3 (drop 69 bytes) = [100; 100; 100] /\
    bytes !! 65%nat = Some 0.
Proof.
  split; [exact image_wf_rgb_3x2|].
  destruct (bmp_write 64 heap_any img_rgb_3x2) as [bytes| |] eqn:Hwrite;
    [|vm_compute in Hwrite; discriminate|vm_compute in Hwrite; discriminate].
  destruct (bmp_write_pixels 64 size_bits_64 heap_any img_rgb_3x2 bytes
              image_wf_rgb_3x2 ltac:(vm_compute; discriminate) Hwrite)
    as [Hpx Hpad].
  exists bytes. split; [reflexivity|]. split.
  - apply (Hpx 0 1); cbn; lia.
  - apply (Hpad 0 11); [cbn; lia | vm_compute; split; [discriminate | reflexivity]].
Defined.

Lemma qoi_write_frame_witness :
  image_wf img_rgb_3x2 /\
  exists bytes,
    qoi_write 64 heap_any img_rgb_3x2 = Ok bytes /\
    take 4 bytes = [0x71; 0x6f; 0x69; 0x66] /\
    qoi_declared_width bytes = 3 /\ qoi_declared_height bytes = 2.
Proof.
  split; [exact image_wf_rgb_3x2|].
  destruct (qoi_write 64 heap_any img_rgb_3x2) as [bytes| |] eqn:Hwrite;
    [|vm_compute in Hwrite; discriminate|vm_compute in Hwrite; discriminate].
  destruct (qoi_write_frame 64 size_bits_64 heap_any img_rgb_3x2 bytes
              image_wf_rgb_3x2 Hwrite) as (Hmagic & Hw & Hh & _).
  exists bytes. split; [reflexivity|]. split; [exact Hmagic|].
  split; [exact Hw | exact Hh].
Defined.

Lemma bmp_write_wide_undefined_witness :
  image_wf img_wide /\
  INT_MAX < (width img_wide - 1) * channels img_wide + 2 /\
  bmp_rowbytes_of img_wide * height img_wide + 54 <= UINT32_MAX /\
  bmp_write 64 heap_any img_wide = Undef.
Proof.
  assert (Hwide : INT_MAX < (width img_wide - 1) * channels img_wide + 2)
    by (cbn [img_wide width channels]; unfold INT_MAX; lia).
  assert (Hsize : bmp_rowbytes_of img_wide * height img_wide + 54 <= UINT32_MAX).
  { unfold bmp_rowbytes_of, UINT32_MAX. cbn [img_wide width height].
    change ((3 * 600000000 + 3) / 4) with 450000000. lia. }
  split; [exact image_wf_wide|]. split; [exact Hwide|]. split; [exact Hsize|].
  apply (bmp_write_wide_undefined 64 size_bits_64 heap_any img_wide
           image_wf_wide); [|exact Hwide | exact Hsize | reflexivity].
  unfold pixel_count_of, SIZE_MAX. cbn [img_wide width height channels].
  change (2 ^ 64) with 18446744073709551616. lia.
Defined.
Lemma format_from_name_ignores_case_witness :
  tolower <$> SampleName.mixed_png = tolower <$> FormatName.png /\
  format_from_name build_plain SampleName.mixed_png =
    format_from_name build_plain FormatName.png /\
  format_from_name build_plain FormatName.png = FMT_PNG.
Proof.
  assert (Hsame : tolower <$> SampleName.mixed_png = tolower <$> FormatName.png)
    by reflexivity.
  split; [exact Hsame|]. split; [|reflexivity].
  apply format_from_name_ignores_case. exact Hsame.
Defined.

Lemma format_from_name_table_witness :
  format_from_name build_full FormatName.webp = FMT_WEBP /\
  format_from_name build_plain FormatName.webp <> FMT_WEBP /\
  format_from_name build_plain SampleName.upper_jpeg = FMT_JPEG.
Proof.
  destruct (format_from_name_table build_full FormatName.webp)
    as (_ & _ & _ & _ & _ & Hfull & _).
  destruct (format_from_name_table build_plain FormatName.webp)
    as (_ & _ & _ & _ & _ & Hplain & _).
  destruct (format_from_name_table build_plain SampleName.upper_jpeg)
    as (_ & Hjpeg & _).
  split; [|split].
  - apply Hfull. split; reflexivity.
  - intros Hwebp. apply Hplain in Hwebp as [Hhave _]. discriminate Hhave.
  - apply Hjpeg. right. reflexivity.
Defined.

Lemma detect_format_extension_witness :
  detect_format build_plain (SampleName.holiday_tar ++ DOT :: SampleName.mixed_png)
    = FMT_PNG /\
  detect_format build_plain SampleName.readme = FMT_UNKNOWN.
Proof.
  destruct (detect_format_extension build_plain) as [Hext Hnone].
  split.
  - rewrite Hext; [reflexivity|].
    intros Hin. apply list_elem_of_In in Hin. vm_compute in Hin.
    intuition discriminate.
  - apply Hnone.
    intros Hin. apply list_elem_of_In in Hin. vm_compute in Hin.
    intuition discriminate.
Defined.

Lemma bmp_read_accepts_witness :
  Forall is_byte bmp_top_down_32 /\
  bmp_data_offset bmp_top_down_32 +
    bmp_declared_height bmp_top_down_32 *
      bmp_declared_rowbytes bmp_top_down_32 <=
    Z.of_nat (length bmp_top_down_32) /\
  exists img,
    bmp_read 64 heap_any 100 bmp_top_down_32 = Ok img /\
    width img = 2 /\ height img = 2 /\ channels img = 4.
Proof.
  assert (Hrows : bmp_data_offset bmp_top_down_32 +
                    bmp_declared_height bmp_top_down_32 *
                      bmp_declared_rowbytes bmp_top_down_32 <=
                  Z.of_nat (length bmp_top_down_32))
    by (vm_compute; discriminate).
  split; [exact bytes_of_bmp_top_down_32|]. split; [exact Hrows|].
  destruct (bmp_read_accepts 64 size_bits_64 heap_any 100 bmp_top_down_32)
    as (img & Hread & Hw & Hh & Hc);
    [ exact bytes_of_bmp_top_down_32
    | vm_compute; discriminate
    | reflexivity
    | reflexivity
    | right; reflexivity
    | vm_compute; split; [reflexivity | discriminate]
    | vm_compute; reflexivity
    | vm_compute; discriminate
    | right; vm_compute; discriminate
    | vm_compute; discriminate
    | reflexivity
    | reflexivity
    | vm_compute; discriminate
    | exact Hrows
    | ].
  exists img. split; [exact Hread|]. split; [exact Hw|].
  split; [exact Hh | exact Hc].
Defined.

(** * The operations of a QOI stream at sample inputs *)

Lemma image_wf_aaba : image_wf img_aaba.
Proof.
  unfold image_wf, INT_MAX. cbn [img_aaba width height channels pixels].
  split; [lia|]. split; [lia|]. split; [left; reflexivity|].
  split; [reflexivity|].
  apply bytes_checked. vm_compute. reflexivity.
Defined.

Lemma image_wf_black_grey_black : image_wf img_black_grey_black.
Proof.
  unfold image_wf, INT_MAX.
  cbn [img_black_grey_black width height channels pixels].
  split; [lia|]. split; [lia|]. split; [left; reflexivity|].
  split; [reflexivity|].
  apply bytes_checked. vm_compute. reflexivity.
Defined.

Lemma image_wf_same_slot : image_wf img_same_slot.
Proof.
  unfold image_wf, INT_MAX.
  cbn [img_same_slot width height channels pixels].
  split; [lia|]. split; [lia|]. split; [left; reflexivity|].
  split; [reflexivity|].
  apply bytes_checked. vm_compute. reflexivity.
Defined.

Lemma qoi_header_ok_3x1 : qoi_header_ok qoi_hdr_3x1.
Proof.
  unfold qoi_header_ok, INT_MAX.
  split; [reflexivity|].
  split; [apply bytes_checked; vm_compute; reflexivity|].
  split; [reflexivity|].
  split; [vm_compute; split; [reflexivity | discriminate]|].
  split; [vm_compute; split; [reflexivity | discriminate]|].
  left. reflexivity.
Defined.

Lemma qoi_header_ok_1x1 : qoi_header_ok qoi_hdr_1x1.
Proof.
  unfold qoi_header_ok, INT_MAX.
  split; [reflexivity|].
  split; [apply bytes_checked; vm_compute; reflexivity|].
  split; [reflexivity|].
  split; [vm_compute; split; [reflexivity | discriminate]|].
  split; [vm_compute; split; [reflexivity | discriminate]|].
  left. reflexivity.
Defined.

Lemma qoi_write_run_split_witness :
  (image_wf img_black_70 /\
   70 <= pixel_count_of img_black_70 /\
   exists b rest,
     qoi_write 64 heap_any img_black_70 =
       Ok (qoi_header img_black_70 ++ [0xfd; 0xc7] ++ b :: rest) /\
     qoi_tag_of b <> Some TagRun) /\
  (image_wf img_red_70 /\
   70 <= pixel_count_of img_red_70 /\
   exists op tg b rest,
     qoi_write 64 heap_any img_red_70 =
       Ok (qoi_header img_red_70 ++ op ++ [0xfd; 0xc6] ++ b :: rest) /\
     qoi_op_tag op = Some tg /\ tg <> TagRun /\
     qoi_tag_of b <> Some TagRun).
Proof.
  assert (Hn : 70 <= pixel_count_of img_black_70) by (vm_compute; discriminate).
  assert (Hr : 70 <= pixel_count_of img_red_70) by (vm_compute; discriminate).
  split.
  - destruct (qoi_write_run_split 64 size_bits_64 heap_any img_black_70
                qoi_px_init image_wf_black_70) as [Hinit _].
    + vm_compute. discriminate.
    + reflexivity.
    + exact Hn.
    + exact pixels_of_black_70.
    + left. reflexivity.
    + split; [exact image_wf_black_70|]. split; [exact Hn|].
      exact (Hinit eq_refl).
  - destruct (qoi_write_run_split 64 size_bits_64 heap_any img_red_70
                (Px 255 0 0 255) image_wf_red_70) as [_ Hother].
    + vm_compute. discriminate.
    + reflexivity.
    + exact Hr.
    + intros j Hj. apply pixels_of_red_70.
      change (pixel_count_of img_red_70) with 70. exact Hj.
    + left. reflexivity.
    + split; [exact image_wf_red_70|]. split; [exact Hr|].
      destruct Hother as (op & tg & b & rest & Hw & Htag & Hnr & _ & Hb);
        [discriminate|].
      exists op, tg, b, rest. auto.
Defined.

Lemma qoi_write_index_hit_witness :
  (image_wf img_aba /\
   pixel_at img_aba 0 = pixel_at img_aba 2 /\
   pixel_at img_aba 1 <> pixel_at img_aba 0 /\
   qoi_emit img_aba 2 = [9] /\
   qoi_write 64 heap_any img_aba =
     Ok (qoi_header img_aba ++
         [0xfe; 10; 20; 30; 0xfe; 200; 100; 50; 9] ++ qoi_end_marker)) /\
  (image_wf img_aaba /\
   pixel_at img_aaba 0 = pixel_at img_aaba 1 /\
   pixel_at img_aaba 1 = pixel_at img_aaba 3 /\
   pixel_at img_aaba 2 <> pixel_at img_aaba 1 /\
   qoi_emit img_aaba 3 = [9]) /\
  (image_wf img_black_grey_black /\
   exists op tg,
     qoi_emit img_black_grey_black 2 = op /\
     qoi_op_tag op = Some tg /\ tg <> TagIndex /\ tg <> TagRun) /\
  (image_wf img_same_slot /\
   exists op tg,
     qoi_emit img_same_slot 2 = op /\
     qoi_op_tag op = Some tg /\ tg <> TagIndex /\ tg <> TagRun).
Proof.
  split; [|split; [|split]].
  - destruct (qoi_write_index_hit 64 size_bits_64 heap_any img_aba 0
                (Px 10 20 30 255) (Px 200 100 50 255) image_wf_aba)
      as (_ & Hhit & _).
    + vm_compute. discriminate.
    + reflexivity.
    + vm_compute. reflexivity.
    + reflexivity.
    + reflexivity.
    + reflexivity.
    + discriminate.
    + destruct Hhit as [Hemit Hout].
      * vm_compute. discriminate.
      * exists 0%nat. split; [lia | discriminate].
      * split; [exact image_wf_aba|]. split; [reflexivity|].
        split; [discriminate|]. split; [exact Hemit | exact Hout].
  - destruct (qoi_write_index_hit 64 size_bits_64 heap_any img_aaba 1
                (Px 10 20 30 255) (Px 200 100 50 255) image_wf_aaba)
      as (_ & Hhit & _).
    + vm_compute. discriminate.
    + reflexivity.
    + vm_compute. reflexivity.
    + reflexivity.
    + reflexivity.
    + reflexivity.
    + discriminate.
    + destruct Hhit as [Hemit _].
      * vm_compute. discriminate.
      * exists 0%nat. split; [lia | discriminate].
      * split; [exact image_wf_aaba|]. split; [reflexivity|].
        split; [reflexivity|]. split; [discriminate | exact Hemit].
  - destruct (qoi_write_index_hit 64 size_bits_64 heap_any
                img_black_grey_black 0
                (Px 0 0 0 255) (Px 100 100 100 255) image_wf_black_grey_black)
      as (_ & _ & Hmiss).
    + vm_compute. discriminate.
    + reflexivity.
    + vm_compute. reflexivity.
    + reflexivity.
    + reflexivity.
    + reflexivity.
    + discriminate.
    + destruct Hmiss as (op & tg & Hop & Htag & Hni & Hnr & _).
      * right. intros j Hj. assert (j = 0%nat) as -> by lia. reflexivity.
      * split; [exact image_wf_black_grey_black|]. exists op, tg. auto.
  - destruct (qoi_write_index_hit 64 size_bits_64 heap_any img_same_slot 0
                (Px 64 0 0 255) (Px 128 0 0 255) image_wf_same_slot)
      as (_ & _ & Hmiss).
    + vm_compute. discriminate.
    + reflexivity.
    + vm_compute. reflexivity.
    + reflexivity.
    + reflexivity.
    + reflexivity.
    + discriminate.
    + destruct Hmiss as (op & tg & Hop & Htag & Hni & Hnr & _).
      * left. reflexivity.
      * split; [exact image_wf_same_slot|]. exists op, tg. auto.
Defined.

Lemma qoi_read_writes_in_bounds_witness :
  qoi_read 64 heap_55 0 qoi_long_run <> Undef /\
  (qoi_header_ok qoi_hdr_3x1 /\
   qoi_ops_pixels [[0xfe; 10; 20; 30]] = Some 1 /\
   exists img,
     pixel_at img 1 = pixel_at img 0 /\ pixel_at img 2 = pixel_at img 0 /\
     qoi_read 64 heap_55 0 (qoi_hdr_3x1 ++ [0xfe; 10; 20; 30; 0xc1]) =
       Ok img /\
     qoi_read 64 heap_55 0
       (qoi_hdr_3x1 ++ [0xfe; 10; 20; 30; 0xfd] ++ qoi_bad_marker) = Ok img /\
     img = {| pixels := [10; 20; 30; 10; 20; 30; 10; 20; 30];
              width := 3; height := 1; channels := 3 |}) /\
  (qoi_header_ok qoi_hdr_1x1 /\
   exists img,
     pixel_at img 0 = qoi_px_init /\
     qoi_read 64 heap_55 0 qoi_long_run = Ok img).
Proof.
  destruct (qoi_read_writes_in_bounds 64 size_bits_64) as [Hdef Hclamp].
  split; [apply Hdef|]. split.
  - split; [exact qoi_header_ok_3x1|]. split; [reflexivity|].
    destruct (Hclamp heap_55 0 qoi_hdr_3x1 [[0xfe; 10; 20; 30]] 1
                qoi_header_ok_3x1)
      as (img & Hw & Hh & _ & _ & Hpx & Hread).
    + apply Forall_cons_2; [|apply Forall_nil_2].
      apply bytes_checked. vm_compute. reflexivity.
    + reflexivity.
    + vm_compute. reflexivity.
    + vm_compute. discriminate.
    + left. reflexivity.
    + reflexivity.
    + assert (Hn : pixel_count_of img = 3)
        by (unfold pixel_count_of; rewrite Hw, Hh; reflexivity).
      rewrite Hn in Hpx, Hread.
      assert (Hexact : qoi_read 64 heap_55 0
                         (qoi_hdr_3x1 ++ [0xfe; 10; 20; 30; 0xc1]) = Ok img).
      { apply (Hread 0xc1 []); [vm_compute; split; [discriminate | reflexivity]
                               | vm_compute; discriminate]. }
      exists img.
      split; [exact (Hpx 1 ltac:(lia))|].
      split; [exact (Hpx 2 ltac:(lia))|].
      split; [exact Hexact|]. split.
      * apply (Hread 0xfd qoi_bad_marker);
          [vm_compute; split; [discriminate | reflexivity]
          | vm_compute; discriminate].
      * assert (Hc : qoi_read 64 heap_55 0
                       (qoi_hdr_3x1 ++ [0xfe; 10; 20; 30; 0xc1]) =
                     Ok {| pixels := [10; 20; 30; 10; 20; 30; 10; 20; 30];
                           width := 3; height := 1; channels := 3 |})
          by (vm_compute; reflexivity).
        congruence.
  - split; [exact qoi_header_ok_1x1|].
    destruct (Hclamp heap_55 0 qoi_hdr_1x1 [] 0 qoi_header_ok_1x1)
      as (img & Hw & Hh & _ & _ & Hpx & Hread).
    + apply Forall_nil_2.
    + reflexivity.
    + vm_compute. reflexivity.
    + vm_compute. discriminate.
    + left. reflexivity.
    + reflexivity.
    + assert (Hn : pixel_count_of img = 1)
        by (unfold pixel_count_of; rewrite Hw, Hh; reflexivity).
      rewrite Hn in Hpx, Hread.
      exists img. split; [exact (Hpx 0 ltac:(lia))|].
      apply (Hread 0xfd []);
        [vm_compute; split; [discriminate | reflexivity]
        | vm_compute; discriminate].
Defined.

Lemma qoi_read_ignores_trailer_witness :
  (qoi_header_ok qoi_hdr_3x1 /\
   qoi_ops_pixels [[0xfe; 10; 20; 30]; [0xc1]] = Some 3 /\
   exists img,
     qoi_read 64 heap_55 0 (qoi_hdr_3x1 ++ [0xfe; 10; 20; 30; 0xc1]) =
       Ok img /\
     qoi_read 64 heap_55 0
       (qoi_hdr_3x1 ++ [0xfe; 10; 20; 30; 0xc1] ++ qoi_bad_marker) = Ok img /\
     qoi_read 64 heap_55 0
       (qoi_hdr_3x1 ++ [0xfe; 10; 20; 30; 0xc1] ++ take 3 qoi_end_marker) =
       Ok img /\
     img = {| pixels := [10; 20; 30; 10; 20; 30; 10; 20; 30];
              width := 3; height := 1; channels := 3 |}) /\
  (image_wf img_aba /\
   exists body,
     qoi_write 64 heap_any img_aba = Ok (body ++ qoi_end_marker) /\
     qoi_read 64 heap_55 0 body = Ok img_aba /\
     qoi_read 64 heap_55 0 (body ++ qoi_bad_marker) = Ok img_aba) /\
  (qoi_read_stream 64 heap_any 0 (qoi_long_run ++ qoi_end_marker) =
     Ok (img_black_1x1, qoi_end_marker) /\
   exists used,
     qoi_long_run ++ qoi_end_marker = used ++ qoi_end_marker /\
     forall t, qoi_read 64 heap_any 0 (used ++ t) = Ok img_black_1x1).
Proof.
  destruct (qoi_read_ignores_trailer 64 size_bits_64) as (Hops & Hwritten & Hany).
  split; [|split].
  - split; [exact qoi_header_ok_3x1|]. split; [reflexivity|].
    destruct (Hops heap_55 0 qoi_hdr_3x1 [[0xfe; 10; 20; 30]; [0xc1]]
                qoi_header_ok_3x1)
      as (img & _ & _ & _ & _ & Hread).
    + apply Forall_cons_2; [apply bytes_checked; vm_compute; reflexivity|].
      apply Forall_cons_2; [apply bytes_checked; vm_compute; reflexivity|].
      apply Forall_nil_2.
    + reflexivity.
    + vm_compute. discriminate.
    + left. reflexivity.
    + reflexivity.
    + exists img.
      assert (Hnone : qoi_read 64 heap_55 0
                        (qoi_hdr_3x1 ++ [0xfe; 10; 20; 30; 0xc1]) = Ok img)
        by exact (proj2 (Hread [])).
      split; [exact Hnone|].
      split; [exact (proj2 (Hread qoi_bad_marker))|].
      split; [exact (proj2 (Hread (take 3 qoi_end_marker)))|].
      assert (Hc : qoi_read 64 heap_55 0
                     (qoi_hdr_3x1 ++ [0xfe; 10; 20; 30; 0xc1]) =
                   Ok {| pixels := [10; 20; 30; 10; 20; 30; 10; 20; 30];
                         width := 3; height := 1; channels := 3 |})
        by (vm_compute; reflexivity).
      congruence.
  - split; [exact image_wf_aba|].
    destruct (qoi_write 64 heap_any img_aba) as [bytes| |] eqn:Hw;
      [|vm_compute in Hw; discriminate|vm_compute in Hw; discriminate].
    destruct (Hwritten heap_any heap_55 0 img_aba bytes image_wf_aba)
      as (body & -> & Hread).
    + left. reflexivity.
    + reflexivity.
    + exact Hw.
    + exists body. split; [reflexivity|].
      split; [|exact (proj2 (Hread qoi_bad_marker))].
      rewrite <- (app_nil_r body). exact (proj2 (Hread [])).
  - assert (Hrun : qoi_read_stream 64 heap_any 0 (qoi_long_run ++ qoi_end_marker)
                   = Ok (img_black_1x1, qoi_end_marker))
      by (vm_compute; reflexivity).
    split; [exact Hrun|].
    destruct (Hany heap_any 0 _ _ _ Hrun) as (used & Hused & Hall).
    exists used. split; [exact Hused|]. intros t. apply Hall.
Defined.

Lemma qoi_write_operations_witness :
  image_wf img_red_70 /\
  qoi_write 64 heap_any img_red_70 =
    Ok (qoi_header img_red_70 ++
        [0xfe; 255; 0; 0; 0xfd; 0xc6] ++ qoi_end_marker) /\
  exists ops,
    qoi_header img_red_70 ++ [0xfe; 255; 0; 0; 0xfd; 0xc6] ++ qoi_end_marker =
      qoi_header img_red_70 ++ concat ops ++ qoi_end_marker /\
    qoi_ops_pixels ops = Some 70.
Proof.
  assert (Hw : qoi_write 64 heap_any img_red_70 =
               Ok (qoi_header img_red_70 ++
                   [0xfe; 255; 0; 0; 0xfd; 0xc6] ++ qoi_end_marker))
    by (vm_compute; reflexivity).
  split; [exact image_wf_red_70|]. split; [exact Hw|].
  destruct (qoi_write_operations 64 size_bits_64 heap_any img_red_70 _
              image_wf_red_70 Hw) as (ops & Heq & _ & _ & Hpix).
  exists ops. split; [exact Heq | exact Hpix].
Defined.
